(* ===== verification/_CoqProject ===== *)
-Q . S2P
Prelude.v
Float32.v
Model.v
GoStrings.v
Hashing.v
Bfs.v
Layout.v
Access.v
Items.v
Phase.v
Win.v
Prison.v
Escape.v
Cards.v
Abilities.v
Roles.v
Visibility.v
Combat.v
Physics.v
Replay.v
Session.v
InputQueue.v
Spawn.v
Lifecycle.v
ManagerSane.v
Matches.v
Matchmaking.v
Actions.v
Keyed.v
Changes.v
NightCards.v
Economy.v
Doors.v
AbilityUse.v
CardUse.v
Shooting.v
Interact.v
Tick.v
SnapshotStore.v
Prediction.v
Mirror.v
Progress.v
Follow.v
Auth.v
Persistence.v
Protocol.v
Network.v
Connections.v
Delivery.v
Prematch.v
ClientSession.v
Controller.v
Panels.v
Shell.v
Agreement.v
