(* ===== verification/Prelude.v ===== *)
(** * Prison Break: a verification development of the game, its server and its client

    Prison Break is a multiplayer game whose server holds the only true state of a
    match.  A manager keeps the matches; clients submit commands; every tick a match takes
    the commands scheduled for it, applies the rules to its game state, advances the
    day/night clock, looks for an outcome and publishes a snapshot.  This development
    models that core, from the rules of [src/internal/gamecore] up to the match manager of
    [src/internal/server/game]; around it the server's matchmaking, accounts, tokens and
    connections; and the client, from the keys that are pressed to the commands it sends and
    from the snapshots it gets to the state it shows.  All are executable functions, and
    theorems say what makes each part correct and how the parts agree.

    ** How the program is modelled

    Go's strings are byte strings, its unsigned integers are [Z] with the wrap-around
    written where an operation can wrap ([u8], [u16], [u32], [u64] of this file), its
    [float32] are IEEE-754 values ([Float32], without fused multiply-add), its maps are
    [gmap] and its sets [gset].  A struct is a record; [r <| f := v |>] assigns a field.  A
    function that mutates its argument returns the new value; an error is a value of a sum
    or an option.  A pointer into a slice is an index.  Where Go ranges over a map and the
    order can show, the order is an argument.  The clock is an argument as well.

    ** The files, from the bottom up

    - [Prelude]: notations, record update, tactics, machine integers, sorting and searching
      of lists.  [Float32], [GoStrings], [Hashing]: what the code uses of Go's arithmetic,
      [strings], [strconv] and [hash/fnv]; [Hashing] also has the random streams of
      gamecore/determinism/rng.go.
    - [Model]: the records and enumerations of shared/model and the constants of
      shared/constants.
    - [Bfs], [Layout]: the map, its builder, the default prison and the two path searches
      (gamecore/map/layout.go); a path found is a shortest path, and none is missed.
    - [Access], [Items], [Phase], [Win], [Prison], [Escape], [Cards], [Abilities], [Roles],
      [Visibility], [Combat]: one file per package of gamecore, with the functional
      specification of each rule.  The main theorems: items are conserved by a transfer,
      added and removed exactly, and crafted exactly; the clock visits every phase it passes
      however late it is called; a match ends for the first reason that holds and the
      winners are those of that reason; damage never leaves the range of hearts; every
      player is dealt one role; what a viewer is sent does not depend on what the
      projection hides.
    - [Physics]: motion and knockback (engine/physics/motion.go); a step never leaves a
      player where they may not stand, and no two players share a tile.
    - [Replay]: the replay loop, reconciliation and the state hash
      (gamecore/determinism); a replay is a function of the seed, the commands and the first
      state, and the hash ignores exactly the order of what has no order.
    - [Session]: the state of a match and of the manager, their queries, the player list
      and the snapshot history (server/game/manager.go, config.go, replay.go).
    - [InputQueue]: submitting commands (server/game/input_queue.go) and taking them at the
      head of a tick.  Over every interleaving of submissions and ticks: an accepted command
      is given to exactly one tick, the next or the one after, in the order of acceptance;
      a player has at most eight commands accepted in a tick; and the replay log gives every
      tick the same commands again.
    - [Spawn]: cells, loadouts, abilities, lives, spawn points, bribable prisoners.
    - [Lifecycle], [ManagerSane], [Matches]: creating, joining, resuming, starting, ending and closing; as
      steps of a manager, with the invariant every history without a shutdown keeps: a player
      is in at most one match that is not over, and the index by player says which.
      [ManagerSane] has what is kept through a shutdown as well.
    - [Actions], [NightCards], [Economy], [Doors], [AbilityUse], [CardUse], [Shooting],
      [Interact], [Tick]: the tick of a match (server/game/manager.go), command by command,
      on a [tickState]: the session, the changed sets, and the map of occupied tiles.
      [Tick] composes them: the commands of the tick, what times out, the clock and its
      nights, the outcome, the delta.  [Changes] is the relation between the states before
      and after a handler that the handlers' files prove of each of them: who plays
      is kept, players stay sound, and what changed is in the changed sets.
    - [Keyed]: lists read as maps by the identifiers of their elements, and their merge.
      [SnapshotStore] (client/netclient/snapshot_store.go): the copy of the state a client
      keeps.  [Mirror], [Progress], [Follow]: the server's tick and the client's merge put
      together.  A client that takes a full snapshot and then the deltas holds the state of
      the server, except for players who came or went since, and authority players after a daybreak (the code
      can rearrange what they carry without reporting it); a running match always completes its
      next tick; and a round of the match loop is made of the steps of [Matches].
    - [Prediction] (client/prediction/engine.go): the frames and the pending inputs of a
      client, interpolation, and the prediction of the local player, which agrees with
      [Physics] where nothing is in the way.
    - [Matchmaking] (server/matchmaking/service.go): requests, regions and the choice of a
      lobby, over the interface [MatchManager], of which the manager of [Lifecycle] is an
      instance; the lobby that is given can be joined.
    - [Auth] (server/auth/token.go): the session tokens.  What is accepted is exactly a
      payload with the signature of the service, whose claims are in time; and what was
      signed is accepted until it expires.
    - [Persistence] (server/persistence/store.go): accounts, the history of the matches, the
      statistics, and the file with its versions and the calls that can fail.  The
      statistics always are those of the matches that are kept, recording a match again
      changes nothing, and a store that is opened again is the store that was written.
    - [Protocol] (shared/protocol/messages.go), [Network] (server/networking/server.go): the
      messages, the connections, the handlers and the pumps.  [Connections] is about every
      history of the server: its maps agree with its connections, with authentication only
      the owner of a token plays its subject, and no snapshot leaves unprojected.
      [Delivery] relates the server to the matches: a message makes commands only in the
      name of the player of its connection, and a dispatch brings each connection the
      snapshots it has not seen.
    - [Prematch] (client/prematch/flow.go): the menu and the waiting room of the client, as a state
      machine whose selections stay in range.  [ClientSession] (client/netclient/session.go):
      joining, the snapshots that arrive and their acknowledgements; with [Network], a
      join that the server welcomes completes at the client.
    - [Controller] (client/input/controller.go): from keys, mouse and touches to commands.
      [Panels] (client/render/shell_panels.go), [Shell] (client/render/shell.go and
      shell_spectator.go): a frame of the client.  Over every run of frames no index is out
      of range, what is sent is numbered once and carries its player, and, if the states show
      what the catalogues have, it is refused as malformed only where a card lacks its target.  [Agreement]: what the client shows
      before it asks against what the server then does.

    ** Parameters, bounds and fuel

    [PayloadDecoder] (in [InputQueue]) and [PayloadEncoder] (in [Controller], with [JSONLaws]
    for what goes there and back) stand for [encoding/json]; the checks made on what is
    decoded are the code's.  [Wire] (in [Protocol]) and [StoreCodec] (in [Persistence]) are
    the same for the messages and the file, [TokenPrimitives] (in [Auth]) is HMAC-SHA256 and
    the text of the claims, and [Faults] says which calls of the file system fail.
    [ComputeHash] digests the canonical form that [Replay]
    computes with a function that is a parameter.  The loops that are not structural have
    fuel: a breadth-first search has the number of nodes, the phase clock the ticks to catch
    up, a replay its number of ticks, [TrimSpace] the length of its argument; the draw of the
    night cards has a round per residue of its generator; each file proves or says why it is enough.  A history in which a 64-bit counter wraps is left out by an
    explicit hypothesis.

    ** What is not modelled

    The sockets and timers of the server, its HTTP handlers (server/networking/admin_http.go
    and the lobby listing), and of the client its sockets, its lobby listing, the drawing with
    the camera and the texts of the screen (the rest of client/render), and the window that
    holds it all (client/render/client_app.go); the commands of cmd and the tooling around
    them (balance reports, performance gate, smoke tests, crash reports): input and output,
    statistics in floating point, or glue around the parts above.  Of the manager: the ticker
    and the context of the match loop, its mutex, and its calls to the
    store.  A player who resumes a running match is modelled in [Lifecycle] but is not a step
    of [Follow].  Each handler, tick and dispatch is one step: the interleavings inside one,
    which the mutexes allow in places, are not. *)

From stdpp Require Export base gmap sets list strings sorting fin_maps.
From Stdlib Require Export ZArith Lia.

Declare Scope prison_scope.
Delimit Scope prison_scope with prison.

(** ** Decidable tests, written the way the Go conditions are *)

Notation "x ≟ y" := (bool_decide (x = y)) (at level 70, no associativity) : prison_scope.
Notation "x ≠? y" := (negb (bool_decide (x = y))) (at level 70, no associativity) : prison_scope.
Open Scope prison_scope.

(** Reads the boolean facts of the context as propositions. *)
Ltac bool_props :=
  repeat match goal with
  | H : andb _ _ = true |- _ => apply andb_true_iff in H; destruct H
  | H : andb _ _ = false |- _ => apply andb_false_iff in H
  | H : orb _ _ = true |- _ => apply orb_true_iff in H
  | H : orb _ _ = false |- _ => apply orb_false_iff in H; destruct H
  | H : negb _ = true |- _ => apply negb_true_iff in H
  | H : negb _ = false |- _ => apply negb_false_iff in H
  | H : bool_decide _ = true |- _ => apply bool_decide_eq_true in H
  | H : bool_decide _ = false |- _ => apply bool_decide_eq_false in H
  | H : (_ <? _)%Z = true |- _ => apply Z.ltb_lt in H
  | H : (_ <? _)%Z = false |- _ => apply Z.ltb_ge in H
  | H : (_ <=? _)%Z = true |- _ => apply Z.leb_le in H
  | H : (_ <=? _)%Z = false |- _ => apply Z.leb_gt in H
  | H : (_ =? _)%Z = true |- _ => apply Z.eqb_eq in H
  | H : (_ =? _)%Z = false |- _ => apply Z.eqb_neq in H
  end.

(** Case analysis on the boolean tests of the goal, keeping what they mean. *)
Ltac case_tests :=
  repeat (case_match; bool_props; simplify_eq/=).

(** ** Record update

    Go code assigns single fields of large structs.  [r <| f := v |>] is the
    struct [r] with field [f] replaced; [r <| f ::= g |>] applies [g] to it. *)

Class RecordEta (R : Type) := record_eta : R → R.
Class FieldUpdate {R T : Type} (f : R → T) := field_update : (T → T) → R → R.
#[global] Arguments field_update {R T} f {_} g r.

Ltac derive_update :=
  lazymatch goal with
  | |- @FieldUpdate ?R ?T ?f =>
      let inst := constr:(_ : RecordEta R) in
      let g := fresh "g" in
      let r := fresh "r" in
      intros g r;
      let body := eval red in (inst r) in
      lazymatch body with
      | context C [f r] => let upd := context C [g (f r)] in exact upd
      end
  end.
#[export] Hint Extern 1 (FieldUpdate _) => derive_update : typeclass_instances.

Notation "r <| f := v |>" := (field_update f (λ _, v) r)
  (at level 12, f at next level, left associativity) : prison_scope.
Notation "r <| f ::= g |>" := (field_update f g r)
  (at level 12, f at next level, left associativity) : prison_scope.

(** ** Machine integers: a [w]-bit unsigned integer is a [Z] kept in range,
    and every operation that can leave the range wraps explicitly. *)

Section machine_integers.
Local Open Scope Z_scope.

Definition u8 (x : Z) : Z := x mod 2 ^ 8.
Definition u16 (x : Z) : Z := x mod 2 ^ 16.
Definition u32 (x : Z) : Z := x mod 2 ^ 32.
Definition u64 (x : Z) : Z := x mod 2 ^ 64.

Definition is_u8 (x : Z) : Prop := 0 <= x < 2 ^ 8.
Definition is_u16 (x : Z) : Prop := 0 <= x < 2 ^ 16.
Definition is_u32 (x : Z) : Prop := 0 <= x < 2 ^ 32.
Definition is_u64 (x : Z) : Prop := 0 <= x < 2 ^ 64.

Lemma u8_small x : is_u8 x → u8 x = x.
Proof. apply Z.mod_small. Qed.
Lemma u16_small x : is_u16 x → u16 x = x.
Proof. apply Z.mod_small. Qed.
Lemma u32_small x : is_u32 x → u32 x = x.
Proof. apply Z.mod_small. Qed.
Lemma u64_small x : is_u64 x → u64 x = x.
Proof. apply Z.mod_small. Qed.

Lemma u8_range x : is_u8 (u8 x).
Proof. apply Z.mod_pos_bound. lia. Qed.
Lemma u16_range x : is_u16 (u16 x).
Proof. apply Z.mod_pos_bound. lia. Qed.
Lemma u32_range x : is_u32 (u32 x).
Proof. apply Z.mod_pos_bound. lia. Qed.
Lemma u64_range x : is_u64 (u64 x).
Proof. apply Z.mod_pos_bound. lia. Qed.

(** Little-endian bytes of a 64-bit value ([binary.LittleEndian.PutUint64],
    and the shift loops of the hash call sites). *)
Definition le_bytes64 (x : Z) : list Z :=
  map (λ i, Z.land (Z.shiftr x (8 * Z.of_nat i)) 255) (seq 0 8).
End machine_integers.
Create HintDb prison_ints.
Create HintDb prison_sort.
#[export] Hint Unfold is_u8 is_u16 is_u32 is_u64 : prison_ints.
#[export] Hint Resolve u8_range u16_range u32_range u64_range : prison_ints.

(** ** Search loops

    [find_idx p l] is the loop [for i := range l { if p(l[i]) {...; break} }]:
    the first index whose element satisfies [p]. *)
Fixpoint find_idx {A} (p : A → bool) (l : list A) : option nat :=
  match l with
  | [] => None
  | x :: l => if p x then Some 0 else S <$> find_idx p l
  end.

(** The same loop when it returns the element. *)
Definition find_first {A} (p : A → bool) (l : list A) : option A :=
  i ← find_idx p l; l !! i.

Section search_lemmas.
Context {A : Type} (p : A → bool).
Implicit Types l : list A.

Lemma find_idx_Some l i :
  find_idx p l = Some i ↔
    ∃ x, l !! i = Some x ∧ p x = true ∧ ∀ j y, j < i → l !! j = Some y → p y = false.
Proof.
  revert i. induction l as [|a l IH]; intros i; simpl.
  { split; [done|]. intros (x & Hx & _). by rewrite lookup_nil in Hx. }
  destruct (p a) eqn:Ha.
  - split.
    + intros [= <-]. exists a. split_and!; [done..|lia].
    + intros (x & Hx & Hpx & Hmin). destruct i as [|i]; [done|].
      exfalso. specialize (Hmin 0 a ltac:(lia) eq_refl). congruence.
  - rewrite fmap_Some. split.
    + intros (k & Hk & ->). apply IH in Hk as (x & Hx & Hpx & Hmin).
      exists x. split_and!; [done..|]. intros [|j] y Hj Hy; simplify_eq/=; [done|].
      apply (Hmin j); [lia|done].
    + intros (x & Hx & Hpx & Hmin). destruct i as [|i]; [simplify_eq/=; congruence|].
      exists i. split; [|done]. apply IH. exists x. split_and!; [done..|].
      intros j y Hj. apply (Hmin (S j)). lia.
Qed.

Lemma find_idx_None l : find_idx p l = None ↔ ∀ x, x ∈ l → p x = false.
Proof.
  induction l as [|a l IH]; simpl.
  { split; [|done]. intros _ x Hx. set_solver. }
  destruct (p a) eqn:Ha.
  - split; [done|]. intros H. rewrite (H a) in Ha; set_solver.
  - rewrite fmap_None, IH. set_solver.
Qed.

Lemma find_first_Some l x : find_first p l = Some x → x ∈ l ∧ p x = true.
Proof.
  unfold find_first. destruct (find_idx p l) as [i|] eqn:Hi; simpl; [|done].
  apply find_idx_Some in Hi as (y & Hy & Hp & _). intros Hx. simplify_eq.
  split; [|done]. by apply list_elem_of_lookup_2 in Hy.
Qed.

Lemma find_first_None l : find_first p l = None ↔ ∀ x, x ∈ l → p x = false.
Proof.
  rewrite <-find_idx_None. unfold find_first.
  destruct (find_idx p l) as [i|] eqn:Hi; simpl; [|done].
  apply find_idx_Some in Hi as (y & Hy & _). by rewrite Hy.
Qed.

Lemma find_first_cons x l : find_first p (x :: l) = if p x then Some x else find_first p l.
Proof. unfold find_first. simpl. destruct (p x); [done|]. by destruct (find_idx p l). Qed.

Lemma find_first_app l1 l2 :
  find_first p (l1 ++ l2) =
    match find_first p l1 with Some x => Some x | None => find_first p l2 end.
Proof.
  induction l1 as [|x l1 IH]; [done|]. rewrite <-app_comm_cons, !find_first_cons, IH.
  by destruct (p x).
Qed.

Lemma existsb_elem l : existsb p l = true ↔ ∃ x, x ∈ l ∧ p x = true.
Proof. rewrite existsb_exists. by setoid_rewrite list_elem_of_In. Qed.

Lemma existsb_not_elem l : existsb p l = false ↔ ∀ x, x ∈ l → p x = false.
Proof.
  induction l as [|a l IH]; simpl; [set_solver|].
  rewrite orb_false_iff, IH. set_solver.
Qed.
End search_lemmas.

(** ** Sorting

    [sort.Slice(l, less)] with [less] comparing a key is [sort_by R key l]: a
    stable merge sort.  Go's sort is unstable; [sort_by_unique] says that any
    sorting algorithm gives this result when the keys are distinct, and
    [sort_self_unique] when the key is the whole element. *)

Definition on_key {A K} (R : relation K) (key : A → K) : relation A :=
  λ a b, R (key a) (key b).

#[export] Instance on_key_dec {A K} (R : relation K) `{!RelDecision R} (key : A → K) :
  RelDecision (on_key R key).
Proof. intros a b. unfold on_key. apply _. Defined.
#[export] Instance on_key_total {A K} (R : relation K) `{!Total R} (key : A → K) :
  Total (on_key R key).
Proof. intros a b. apply (total R). Qed.
#[export] Instance on_key_trans {A K} (R : relation K) `{!Transitive R} (key : A → K) :
  Transitive (on_key R key).
Proof. intros a b c. unfold on_key. by transitivity (key b). Qed.

Definition sort_by {A K} (R : relation K) `{!RelDecision R} (key : A → K) (l : list A) : list A :=
  merge_sort (on_key R key) l.

Abbreviation sort_strings := (sort_by String.le id).

(** A list that grows at its end stays sorted. *)
Lemma sorted_snoc {A} (R : relation A) l x : StronglySorted R l → Forall (λ y, R y x) l → StronglySorted R (l ++ [x]).
Proof.
  induction 1 as [|y l Hs IH Hy]; intros Hx; cbn; [by repeat constructor|].
  apply Forall_cons in Hx as [Hyx Hx]. constructor; [by apply IH|]. apply Forall_app. split; [done|]. by constructor.
Qed.

Section sorting_lemmas.
Context {A K : Type} (R : relation K) `{!RelDecision R, !PartialOrder R, !Total R}.
Implicit Types (key : A → K) (l : list A).

Lemma sort_by_perm key l : sort_by R key l ≡ₚ l.
Proof. apply merge_sort_Permutation. Qed.

Lemma sort_by_sorted key l : StronglySorted (on_key R key) (sort_by R key l).
Proof. apply StronglySorted_merge_sort; apply _. Qed.

Lemma elem_of_sort_by key l x : x ∈ sort_by R key l ↔ x ∈ l.
Proof. by rewrite sort_by_perm. Qed.

Lemma length_sort_by key l : length (sort_by R key l) = length l.
Proof. by rewrite sort_by_perm. Qed.

Lemma NoDup_key_inj key l x y :
  NoDup (key <$> l) → x ∈ l → y ∈ l → key x = key y → x = y.
Proof.
  intros Hnd (i & Hi)%list_elem_of_lookup (j & Hj)%list_elem_of_lookup Heq.
  assert (i = j) as ->; [|by simplify_eq].
  eapply (NoDup_lookup (key <$> l) i j (key x)); [done|..];
    rewrite list_lookup_fmap; [by rewrite Hi|by rewrite Hj; simpl; rewrite Heq].
Qed.

Lemma sort_by_unique key l l' :
  NoDup (key <$> l) → l' ≡ₚ l → StronglySorted (on_key R key) l' →
  l' = sort_by R key l.
Proof.
  intros Hnd Hperm Hs.
  apply (StronglySorted_unique_strong (on_key R key)); [|done|apply sort_by_sorted|].
  - intros x y Hx Hy Hxy Hyx. rewrite Hperm in Hx.
    rewrite elem_of_sort_by in Hy. eapply NoDup_key_inj; [done..|].
    by apply (anti_symm R).
  - by rewrite sort_by_perm.
Qed.

Lemma sort_by_proper key l1 l2 :
  NoDup (key <$> l1) → l1 ≡ₚ l2 → sort_by R key l1 = sort_by R key l2.
Proof.
  intros Hnd Hp. apply sort_by_unique; [by rewrite <-Hp| |apply sort_by_sorted].
  by rewrite sort_by_perm.
Qed.
End sorting_lemmas.

Section sort_self.
Context {K : Type} (R : relation K) `{!RelDecision R, !PartialOrder R, !Total R}.
Implicit Types l : list K.

Lemma sort_self_unique l l' :
  l' ≡ₚ l → StronglySorted R l' → l' = sort_by R id l.
Proof.
  intros Hp Hs. apply (StronglySorted_unique R); [done|apply sort_by_sorted; apply _|].
  by rewrite sort_by_perm.
Qed.

Lemma sort_self_proper l1 l2 : l1 ≡ₚ l2 → sort_by R id l1 = sort_by R id l2.
Proof.
  intros Hp. apply sort_self_unique; [by rewrite sort_by_perm|].
  apply (sort_by_sorted R id).
Qed.

Lemma sort_self_id l : StronglySorted R l → sort_by R id l = l.
Proof. intros Hs. symmetry. by apply sort_self_unique. Qed.
End sort_self.

(** ** Orders of strings and of several fields *)

Lemma string_ltb_le a b : String.ltb a b = true → String.le a b.
Proof.
  unfold String.ltb, String.le, String.leb. by destruct (String.compare a b).
Qed.

Lemma string_ltb_ge a b : String.ltb a b = false → String.le b a.
Proof.
  unfold String.ltb, String.le, String.leb. rewrite (String.compare_antisym b a).
  by destruct (String.compare a b).
Qed.

(** [if left.a != right.a { return left.a < right.a }; return left.b < right.b] *)
Definition lex_le {A B} `{EqDecision A} (RA : relation A) (RB : relation B) : relation (A * B) :=
  λ p q, if decide (p.1 = q.1) then RB p.2 q.2 else RA p.1 q.1.

Section lex.
Context {A B : Type} `{EqDecision A} (RA : relation A) (RB : relation B).

#[export] Instance lex_le_dec `{!RelDecision RA, !RelDecision RB} : RelDecision (lex_le RA RB).
Proof. intros p q. unfold lex_le. destruct (decide (p.1 = q.1)); apply _. Defined.

#[export] Instance lex_le_total `{!Total RA, !Total RB} : Total (lex_le RA RB).
Proof.
  intros [a1 b1] [a2 b2]. unfold lex_le; simpl. destruct (decide (a1 = a2)) as [->|Hne].
  - rewrite decide_True by done. apply (total RB).
  - rewrite decide_False by congruence. apply (total RA).
Qed.

#[export] Instance lex_le_partial `{!PartialOrder RA, !PartialOrder RB} :
  PartialOrder (lex_le RA RB).
Proof.
  split; [split|].
  - intros [a b]. unfold lex_le; simpl. rewrite decide_True by done. reflexivity.
  - intros [a1 b1] [a2 b2] [a3 b3]. unfold lex_le; simpl.
    destruct (decide (a1 = a2)) as [->|H12], (decide (a2 = a3)) as [->|H23].
    + intros. by transitivity b2.
    + done.
    + by rewrite decide_False.
    + intros Ha1 Ha2. destruct (decide (a1 = a3)) as [->|?].
      * destruct H12. by apply (anti_symm RA).
      * by transitivity a2.
  - intros [a1 b1] [a2 b2]. unfold lex_le; simpl.
    destruct (decide (a1 = a2)) as [->|Hne].
    + rewrite decide_True by done. intros. f_equal. by apply (anti_symm RB).
    + rewrite decide_False by congruence. intros. destruct Hne. by apply (anti_symm RA).
Qed.
End lex.

#[export] Hint Resolve sort_by_perm sort_by_sorted : prison_sort.
Create Rewrite HintDb prison_simpl.
#[export] Hint Rewrite @length_sort_by @elem_of_sort_by : prison_simpl.
