(* ===== verification/Float32.v ===== *)
(** * float32 and float64 arithmetic of the simulation

    Go's [float32] and [float64] are IEEE-754 binary32 and binary64 with
    round-to-nearest-even.  A value is a [spec_float] of the Standard Library and
    each operation is the correctly rounded one at precision 24/128 (binary32) or
    53/1024 (binary64).  The Go compiler may fuse [x*y+z] on some architectures;
    the model is the unfused evaluation that amd64 executes. *)

From S2P Require Import Prelude.
From Stdlib Require Import SpecFloat.

#[local] Open Scope Z_scope.

Abbreviation f32 := spec_float (only parsing).
Abbreviation f64 := spec_float (only parsing).

#[export] Instance spec_float_eq_dec : EqDecision spec_float.
Proof. solve_decision. Defined.

Definition f32_zero : f32 := S754_zero false.
Definition f32_of_Z (z : Z) : f32 := binary_normalize 24 128 z 0 false.

Definition f32_add : f32 → f32 → f32 := SFadd 24 128.
Definition f32_sub : f32 → f32 → f32 := SFsub 24 128.
Definition f32_mul : f32 → f32 → f32 := SFmul 24 128.
Definition f32_div : f32 → f32 → f32 := SFdiv 24 128.

(** A decimal constant [n/d]: numerator and denominator are exact below 2^24, so
    the quotient is the constant rounded once, as the compiler rounds it. *)
Definition f32_const (n d : Z) : f32 := f32_div (f32_of_Z n) (f32_of_Z d).

(** Go's [==], [<], [<=], [>] on floats (all false on NaN). *)
Definition f32_eqb : f32 → f32 → bool := SFeqb.
Definition f32_ltb : f32 → f32 → bool := SFltb.
Definition f32_leb : f32 → f32 → bool := SFleb.
Definition f32_gtb (x y : f32) : bool := SFltb y x.

(** [float64(x)] is exact; [float32(x)] rounds. *)
Definition renormalize (prec emax : Z) (x : spec_float) : spec_float :=
  match x with
  | S754_finite s m e => binary_normalize prec emax (cond_Zopp s (Zpos m)) e s
  | _ => x
  end.
Definition f64_of_f32 (x : f32) : f64 := renormalize 53 1024 x.
Definition f32_of_f64 (x : f64) : f32 := renormalize 24 128 x.

Definition f64_of_Z (z : Z) : f64 := binary_normalize 53 1024 z 0 false.
Definition f64_add : f64 → f64 → f64 := SFadd 53 1024.
Definition f64_sub : f64 → f64 → f64 := SFsub 53 1024.
Definition f64_mul : f64 → f64 → f64 := SFmul 53 1024.
Definition f64_div : f64 → f64 → f64 := SFdiv 53 1024.
Definition f64_const (n d : Z) : f64 := f64_div (f64_of_Z n) (f64_of_Z d).
Definition f64_eqb : f64 → f64 → bool := SFeqb.
Definition f64_ltb : f64 → f64 → bool := SFltb.
Definition f64_leb : f64 → f64 → bool := SFleb.
Definition f64_half : f64 := binary_normalize 53 1024 1 (-1) false.

(** [float32(math.Sqrt(float64(x)))]. *)
Definition f32_sqrt (x : f32) : f32 := f32_of_f64 (SFsqrt 53 1024 (f64_of_f32 x)).

(** [math.Min], [math.Max] and [math.Hypot] of float64. *)
Definition is_nan (x : spec_float) : bool := if x is S754_nan then true else false.
Definition is_inf (x : spec_float) : bool := if x is S754_infinity _ then true else false.
Definition sign_bit (x : spec_float) : bool :=
  match x with S754_zero s | S754_infinity s | S754_finite s _ _ => s | S754_nan => false end.
Definition f64_min (x y : f64) : f64 :=
  if (is_inf x && sign_bit x) || (is_inf y && sign_bit y) then S754_infinity true
  else if is_nan x || is_nan y then S754_nan
  else if f64_eqb x f32_zero && f64_eqb x y then (if sign_bit x then x else y)
  else if f64_ltb x y then x else y.
Definition f64_max (x y : f64) : f64 :=
  if (is_inf x && negb (sign_bit x)) || (is_inf y && negb (sign_bit y)) then S754_infinity false
  else if is_nan x || is_nan y then S754_nan
  else if f64_eqb x f32_zero && f64_eqb x y then (if sign_bit x then y else x)
  else if f64_ltb y x then x else y.
Definition f64_hypot (p q : f64) : f64 :=
  if is_inf p || is_inf q then S754_infinity false
  else if is_nan p || is_nan q then S754_nan
  else
    let '(p, q) := (SFabs p, SFabs q) in
    let '(p, q) := if f64_ltb p q then (q, p) else (p, q) in
    if f64_eqb p f32_zero then f32_zero
    else
      let q := f64_div q p in
      f64_mul p (SFsqrt 53 1024 (f64_add (f64_of_Z 1) (f64_mul q q))).

Example hypot_three_four : f64_hypot (f64_of_Z 3) (f64_of_Z (-4)) = f64_of_Z 5.
Proof. by vm_compute. Qed.

(** The integer below a finite value. *)
Definition finite_floor (s : bool) (m : positive) (e : Z) : Z :=
  let v := cond_Zopp s (Zpos m) in
  if 0 <=? e then v * 2 ^ e else v / 2 ^ (- e).

(** [int(math.Floor(x))] for a float64 [x]; the conversion of a value outside
    int64 (and of NaN and the infinities) is the one amd64 gives, -2^63. *)
Definition min_int64 : Z := - 2 ^ 63.
Definition f64_floor_int (x : f64) : Z :=
  match x with
  | S754_zero _ => 0
  | S754_finite s m e =>
      let z := finite_floor s m e in
      if (- 2 ^ 63 <=? z) && (z <? 2 ^ 63) then z else min_int64
  | S754_infinity _ | S754_nan => min_int64
  end.

(** [int(x)] for a float32 [x] truncates toward zero. *)
Definition f32_trunc_int (x : f32) : Z :=
  match x with
  | S754_zero _ => 0
  | S754_finite s m e =>
      let z := cond_Zopp s (finite_floor false m e) in
      if (- 2 ^ 63 <=? z) && (z <? 2 ^ 63) then z else min_int64
  | S754_infinity _ | S754_nan => min_int64
  end.

(** [float32(math.MaxFloat32)] *)
Definition f32_max : f32 := S754_finite false (2 ^ 24 - 1)%positive 104.

(** ** The order on floats *)

Lemma f32_ltb_irrefl x : f32_ltb x x = false.
Proof.
  unfold f32_ltb, SFltb. destruct x as [|[]| |[] m e]; simpl; try done;
    rewrite Z.compare_refl; change (Pos.compare_cont Eq m m) with (Pos.compare m m);
    by rewrite Pos.compare_refl.
Qed.

Lemma f32_ltb_trans x y z :
  f32_ltb x y = true → f32_ltb y z = true → f32_ltb x z = true.
Proof.
  unfold f32_ltb, SFltb.
  destruct x as [|[]| |[] m1 e1], y as [|[]| |[] m2 e2], z as [|[]| |[] m3 e3];
    simpl; try done;
    change (Pos.compare_cont Eq m1 m2) with (Pos.compare m1 m2);
    change (Pos.compare_cont Eq m2 m3) with (Pos.compare m2 m3);
    change (Pos.compare_cont Eq m1 m3) with (Pos.compare m1 m3);
    destruct (Z.compare_spec e1 e2), (Z.compare_spec e2 e3), (Z.compare_spec e1 e3);
    destruct (Pos.compare_spec m1 m2), (Pos.compare_spec m2 m3), (Pos.compare_spec m1 m3);
    simpl; subst; try done; lia.
Qed.

(** If [c] is not below [x] and [y] is below [x], then [c] is not below [y]. *)
Lemma f32_not_below_lt c x y :
  f32_ltb c x = false → f32_ltb y x = true → f32_ltb c y = false.
Proof.
  intros Hcx Hyx. destruct (f32_ltb c y) eqn:Hcy; [|done].
  by rewrite (f32_ltb_trans c y x) in Hcx.
Qed.

(** [==] holds of equal values and of the two zeros, and of nothing else. *)
Lemma f32_eqb_cases x y :
  f32_eqb x y = true → x = y ∨ ∃ s t, x = S754_zero s ∧ y = S754_zero t.
Proof.
  unfold f32_eqb, SFeqb.
  destruct x as [s1|[]| |[] m1 e1], y as [s2|[]| |[] m2 e2]; simpl; try done;
    try (intros _; by right; eauto); try (intros _; by left);
    change (Pos.compare_cont Eq m1 m2) with (Pos.compare m1 m2);
    destruct (Z.compare_spec e1 e2), (Pos.compare_spec m1 m2); simpl; subst; try done; by left.
Qed.

Lemma f32_ltb_zero_l s t z : f32_ltb (S754_zero s) z = f32_ltb (S754_zero t) z.
Proof. by destruct z. Qed.
Lemma f32_ltb_zero_r s t z : f32_ltb z (S754_zero s) = f32_ltb z (S754_zero t).
Proof. by destruct z. Qed.

(** [==] is a congruence for the comparisons. *)
Lemma f32_eqb_ltb_l x y z : f32_eqb x y = true → f32_ltb x z = f32_ltb y z.
Proof. intros [->|(s & t & -> & ->)]%f32_eqb_cases; [done|apply f32_ltb_zero_l]. Qed.
Lemma f32_eqb_ltb_r x y z : f32_eqb x y = true → f32_ltb z x = f32_ltb z y.
Proof. intros [->|(s & t & -> & ->)]%f32_eqb_cases; [done|apply f32_ltb_zero_r]. Qed.
Lemma f32_eqb_sym x y : f32_eqb x y = true → f32_eqb y x = true.
Proof. intros H. pose proof H as [->|(s & t & -> & ->)]%f32_eqb_cases; done. Qed.
Lemma f32_eqb_trans x y z : f32_eqb x y = true → f32_eqb y z = true → f32_eqb x z = true.
Proof.
  intros H1 H2. pose proof H1 as [->|(s & t & -> & ->)]%f32_eqb_cases; [done|].
  by destruct z.
Qed.
(** A value below another is not NaN, so it equals itself. *)
Lemma f32_ltb_eqb_refl x y : f32_ltb x y = true → f32_eqb x x = true.
Proof.
  unfold f32_eqb, f32_ltb, SFeqb, SFltb.
  destruct x as [|[]| |[] m e]; simpl; try done; intros _; rewrite Z.compare_refl;
    change (Pos.compare_cont Eq m m) with (Pos.compare m m); by rewrite Pos.compare_refl.
Qed.
Lemma f32_leb_cases x y : f32_leb x y = f32_ltb x y || f32_eqb x y.
Proof. unfold f32_leb, f32_ltb, f32_eqb, SFleb, SFltb, SFeqb. by destruct (SFcompare x y) as [[]|]. Qed.

Example f32_three_tenths : f32_const 3 10 = S754_finite false 10066330 (-25).
Proof. reflexivity. Qed.
Example f32_sqrt_two : f32_sqrt (f32_of_Z 2) = S754_finite false 11863283 (-23).
Proof. reflexivity. Qed.
