(* ===== verification/Model.v ===== *)
(** * The shared model: identifiers, enumerations and state records

    [internal/shared/model/types.go], [state.go], [input.go] and
    [internal/shared/constants/simulation.go].  Go's string enumerations are open:
    a command or a projected snapshot may carry any string, the empty one
    included, so an enumeration is [string] with the source's constants.  Structs
    are records whose fields carry the struct's prefix; unsigned integers are [Z]
    kept in range by the operations that write them. *)

From S2P Require Import Prelude Float32.

#[local] Open Scope Z_scope.

(** ** Identifiers (types.go) *)

Abbreviation MatchID := string (only parsing).
Abbreviation PlayerID := string (only parsing).
Abbreviation EntityID := Z (only parsing).
Abbreviation DoorID := Z (only parsing).
Abbreviation CellID := Z (only parsing).
Abbreviation ZoneID := Z (only parsing).
Abbreviation RoomID := string (only parsing).


Abbreviation MatchStatus := string (only parsing).
Definition MatchStatusLobby : string := "lobby".
Definition MatchStatusRunning : string := "running".
Definition MatchStatusGameOver : string := "game_over".

Abbreviation PhaseType := string (only parsing).
Definition PhaseDay : string := "day".
Definition PhaseNight : string := "night".

Abbreviation FactionType := string (only parsing).
Definition FactionAuthority : string := "authority".
Definition FactionPrisoner : string := "prisoner".
Definition FactionNeutral : string := "neutral".

Abbreviation AlignmentType := string (only parsing).
Definition AlignmentGood : string := "good".
Definition AlignmentEvil : string := "evil".
Definition AlignmentNeutral : string := "neutral".

Abbreviation RoleType := string (only parsing).
Definition RoleWarden : string := "warden".
Definition RoleDeputy : string := "deputy".
Definition RoleGangLeader : string := "gang_leader".
Definition RoleGangMember : string := "gang_member".
Definition RoleSnitch : string := "snitch".
Definition RoleNeutralPrisoner : string := "neutral_prisoner".

Abbreviation EntityKind := string (only parsing).
Definition EntityKindPlayer : string := "player".
Definition EntityKindNPCGuard : string := "npc_guard".
Definition EntityKindNPCPrisoner : string := "npc_prisoner".
Definition EntityKindProjectile : string := "projectile".
Definition EntityKindDroppedItem : string := "dropped_item".
Definition EntityKindDoorProxy : string := "door_proxy".

Abbreviation ItemType := string (only parsing).
Definition ItemBaton : string := "baton".
Definition ItemWood : string := "wood".
Definition ItemMetalSlab : string := "metal_slab".
Definition ItemShiv : string := "shiv".
Definition ItemBullet : string := "bullet".
Definition ItemPistol : string := "pistol".
Definition ItemHuntingRifle : string := "hunting_rifle".
Definition ItemLockPick : string := "lock_pick".
Definition ItemWireCutters : string := "wire_cutters".
Definition ItemSilencer : string := "silencer".
Definition ItemSatchel : string := "satchel".
Definition ItemDoorStop : string := "door_stop".
Definition ItemGoldenBullet : string := "golden_bullet".
Definition ItemLadder : string := "ladder".
Definition ItemShovel : string := "shovel".
Definition ItemBadge : string := "badge".
Definition ItemKeys : string := "keys".

Abbreviation CardType := string (only parsing).
Definition CardMorphine : string := "morphine".
Definition CardBullet : string := "bullet".
Definition CardMoney : string := "money".
Definition CardSpeed : string := "speed".
Definition CardArmorPlate : string := "armor_plate".
Definition CardLockSnap : string := "lock_snap".
Definition CardItemSteal : string := "item_steal".
Definition CardItemGrab : string := "item_grab".
Definition CardScrapBundle : string := "scrap_bundle".
Definition CardDoorStop : string := "door_stop".
Definition CardGetOutOfJailFree : string := "get_out_of_jail_free".

Abbreviation AbilityType := string (only parsing).
Definition AbilityAlarm : string := "alarm".
Definition AbilitySearch : string := "search".
Definition AbilityCameraMan : string := "camera_man".
Definition AbilityDetainer : string := "detainer".
Definition AbilityTracker : string := "tracker".
Definition AbilityPickPocket : string := "pick_pocket".
Definition AbilityHacker : string := "hacker".
Definition AbilityDisguise : string := "disguise".
Definition AbilityLocksmith : string := "locksmith".
Definition AbilityChameleon : string := "chameleon".

Abbreviation InputCommandType := string (only parsing).
Definition CmdMoveIntent : string := "move_intent".
Definition CmdAimIntent : string := "aim_intent".
Definition CmdInteract : string := "interact".
Definition CmdUseAbility : string := "use_ability".
Definition CmdUseCard : string := "use_card".
Definition CmdUseItem : string := "use_item".
Definition CmdBlackMarketBuy : string := "black_market_buy".
Definition CmdFireWeapon : string := "fire_weapon".
Definition CmdEquipItem : string := "equip_item".
Definition CmdReload : string := "reload".
Definition CmdDropItem : string := "drop_item".
Definition CmdCraftItem : string := "craft_item".

Abbreviation SnapshotKind := string (only parsing).
Definition SnapshotKindFull : string := "full".
Definition SnapshotKindDelta : string := "delta".

Abbreviation EffectType := string (only parsing).
Definition EffectStunned : string := "stunned".
Definition EffectSolitary : string := "solitary".
Definition EffectSpeedBoost : string := "speed_boost".
Definition EffectArmorPlate : string := "armor_plate".
Definition EffectTracked : string := "tracked".
Definition EffectDisguised : string := "disguised".
Definition EffectChameleon : string := "chameleon".
Definition EffectCameraView : string := "camera_view".
Definition EffectTrackerView : string := "tracker_view".

Abbreviation EscapeRouteType := string (only parsing).
Definition EscapeRouteCourtyardDig : string := "courtyard_dig".
Definition EscapeRouteBadgeEscape : string := "badge_escape".
Definition EscapeRoutePowerOutEscape : string := "power_out_escape".
Definition EscapeRouteLadderEscape : string := "ladder_escape".
Definition EscapeRouteRoofHelicopter : string := "roof_helicopter_escape".

Abbreviation EscapeAttemptStatus := string (only parsing).
Definition EscapeAttemptStatusSuccess : string := "success".
Definition EscapeAttemptStatusFailed : string := "failed".

Abbreviation ActionFeedbackKind := string (only parsing).
Definition ActionFeedbackKindCombat : string := "combat".
Definition ActionFeedbackKindStun : string := "stun".
Definition ActionFeedbackKindAlarm : string := "alarm".
Definition ActionFeedbackKindDoor : string := "door".
Definition ActionFeedbackKindPurchase : string := "purchase".
Definition ActionFeedbackKindEscape : string := "escape".
Definition ActionFeedbackKindSystem : string := "system".

Abbreviation ActionFeedbackLevel := string (only parsing).
Definition ActionFeedbackLevelInfo : string := "info".
Definition ActionFeedbackLevelSuccess : string := "success".
Definition ActionFeedbackLevelWarning : string := "warning".
Definition ActionFeedbackLevelError : string := "error".

Abbreviation WinReason := string (only parsing).
Definition WinReasonMaxCyclesReached : string := "max_cycles_reached".
Definition WinReasonWardenDied : string := "warden_died".
Definition WinReasonGangLeaderEscaped : string := "gang_leader_escaped".
Definition WinReasonAllGangMembersDead : string := "all_gang_members_dead".
Definition WinReasonNoEscapesAtTimeLimit : string := "no_escapes_at_time_limit".
Definition WinReasonHitmanTargetEliminated : string := "hitman_target_eliminated".
Definition WinReasonEscapeArtistFirstEscape : string := "escape_artist_first_escape".

(** ** Simulation constants (simulation.go) *)

Definition MinPlayers : Z := 5.
Definition MaxPlayers : Z := 12.
Definition ServerTickRateHz : Z := 30.
Definition MaxAcceptedCommandsPerPlayerPerTick : Z := 8.
Definition DayPhaseDurationSeconds : Z := 300.
Definition NightPhaseDurationSeconds : Z := 120.
Definition MaxDayNightCycles : Z := 6.

(** ** State records (state.go) *)

Record Vector2 := mkVector2 {
  vX : f32;
  vY : f32;
}.
#[export] Instance Vector2_eta : RecordEta Vector2 := λ r,
  mkVector2 (vX r) (vY r).
#[export] Instance Vector2_eq_dec : EqDecision Vector2.
Proof. solve_decision. Defined.
Definition zero_Vector2 : Vector2 :=
  mkVector2 f32_zero f32_zero.

Record PhaseState := mkPhase {
  ph_Current : PhaseType;
  ph_StartedTick : Z;
  ph_EndsTick : Z;
}.
#[export] Instance PhaseState_eta : RecordEta PhaseState := λ r,
  mkPhase (ph_Current r) (ph_StartedTick r) (ph_EndsTick r).
#[export] Instance PhaseState_eq_dec : EqDecision PhaseState.
Proof. solve_decision. Defined.
Definition zero_PhaseState : PhaseState :=
  mkPhase "" 0 0.

Record AlarmState := mkAlarm {
  al_Active : bool;
  al_EndsTick : Z;
  al_TriggeredBy : PlayerID;
}.
#[export] Instance AlarmState_eta : RecordEta AlarmState := λ r,
  mkAlarm (al_Active r) (al_EndsTick r) (al_TriggeredBy r).
#[export] Instance AlarmState_eq_dec : EqDecision AlarmState.
Proof. solve_decision. Defined.
Definition zero_AlarmState : AlarmState :=
  mkAlarm false 0 "".

Record ItemStack := mkStack {
  stk_Item : ItemType;
  stk_Quantity : Z;
}.
#[export] Instance ItemStack_eta : RecordEta ItemStack := λ r,
  mkStack (stk_Item r) (stk_Quantity r).
#[export] Instance ItemStack_eq_dec : EqDecision ItemStack.
Proof. solve_decision. Defined.
Definition zero_ItemStack : ItemStack :=
  mkStack "" 0.

Record EffectState := mkEffect {
  ef_Effect : EffectType;
  ef_EndsTick : Z;
  ef_Stacks : Z;
  ef_SourceID : EntityID;
  ef_SourcePID : PlayerID;
}.
#[export] Instance EffectState_eta : RecordEta EffectState := λ r,
  mkEffect (ef_Effect r) (ef_EndsTick r) (ef_Stacks r) (ef_SourceID r) (ef_SourcePID r).
#[export] Instance EffectState_eq_dec : EqDecision EffectState.
Proof. solve_decision. Defined.
Definition zero_EffectState : EffectState :=
  mkEffect "" 0 0 0 "".

Record EscapeAttemptFeedback := mkEscapeFb {
  efb_Route : EscapeRouteType;
  efb_Status : EscapeAttemptStatus;
  efb_Reason : string;
  efb_TickID : Z;
}.
#[export] Instance EscapeAttemptFeedback_eta : RecordEta EscapeAttemptFeedback := λ r,
  mkEscapeFb (efb_Route r) (efb_Status r) (efb_Reason r) (efb_TickID r).
#[export] Instance EscapeAttemptFeedback_eq_dec : EqDecision EscapeAttemptFeedback.
Proof. solve_decision. Defined.
Definition zero_EscapeAttemptFeedback : EscapeAttemptFeedback :=
  mkEscapeFb "" "" "" 0.

Record ActionFeedback := mkActionFb {
  afb_Kind : ActionFeedbackKind;
  afb_Level : ActionFeedbackLevel;
  afb_Message : string;
  afb_TickID : Z;
}.
#[export] Instance ActionFeedback_eta : RecordEta ActionFeedback := λ r,
  mkActionFb (afb_Kind r) (afb_Level r) (afb_Message r) (afb_TickID r).
#[export] Instance ActionFeedback_eq_dec : EqDecision ActionFeedback.
Proof. solve_decision. Defined.
Definition zero_ActionFeedback : ActionFeedback :=
  mkActionFb "" "" "" 0.

Record PlayerState := mkPlayer {
  ps_ID : PlayerID;
  ps_Name : string;
  ps_Connected : bool;
  ps_Alive : bool;
  ps_Faction : FactionType;
  ps_Alignment : AlignmentType;
  ps_Role : RoleType;
  ps_HeartsHalf : Z;
  ps_TempHeartsHalf : Z;
  ps_Bullets : Z;
  ps_LivesRemaining : Z;
  ps_EquippedItem : ItemType;
  ps_InventorySlots : Z;
  ps_Position : Vector2;
  ps_Velocity : Vector2;
  ps_Facing : Vector2;
  ps_CurrentRoomID : RoomID;
  ps_AssignedCell : CellID;
  ps_LockedInCell : CellID;
  ps_AssignedAbility : AbilityType;
  ps_StunnedUntilTick : Z;
  ps_SolitaryUntilTick : Z;
  ps_Inventory : list ItemStack;
  ps_Cards : list CardType;
  ps_NightCardChoices : list CardType;
  ps_Effects : list EffectState;
  ps_LastEscapeAttempt : EscapeAttemptFeedback;
  ps_LastActionFeedback : ActionFeedback;
}.
#[export] Instance PlayerState_eta : RecordEta PlayerState := λ r,
  mkPlayer (ps_ID r) (ps_Name r) (ps_Connected r) (ps_Alive r) (ps_Faction r) (ps_Alignment r) (ps_Role r) (ps_HeartsHalf r) (ps_TempHeartsHalf r) (ps_Bullets r) (ps_LivesRemaining r) (ps_EquippedItem r) (ps_InventorySlots r) (ps_Position r) (ps_Velocity r) (ps_Facing r) (ps_CurrentRoomID r) (ps_AssignedCell r) (ps_LockedInCell r) (ps_AssignedAbility r) (ps_StunnedUntilTick r) (ps_SolitaryUntilTick r) (ps_Inventory r) (ps_Cards r) (ps_NightCardChoices r) (ps_Effects r) (ps_LastEscapeAttempt r) (ps_LastActionFeedback r).
#[export] Instance PlayerState_eq_dec : EqDecision PlayerState.
Proof. solve_decision. Defined.
Definition zero_PlayerState : PlayerState :=
  mkPlayer "" "" false false "" "" "" 0 0 0 0 "" 0 zero_Vector2 zero_Vector2 zero_Vector2 "" 0 0 "" 0 0 [] [] [] [] zero_EscapeAttemptFeedback zero_ActionFeedback.

Record DoorState := mkDoor {
  ds_ID : DoorID;
  ds_RoomA : RoomID;
  ds_RoomB : RoomID;
  ds_Open : bool;
  ds_Locked : bool;
  ds_CanClose : bool;
  ds_BlockedUntilTick : Z;
  ds_LockedByPlayerID : PlayerID;
}.
#[export] Instance DoorState_eta : RecordEta DoorState := λ r,
  mkDoor (ds_ID r) (ds_RoomA r) (ds_RoomB r) (ds_Open r) (ds_Locked r) (ds_CanClose r) (ds_BlockedUntilTick r) (ds_LockedByPlayerID r).
#[export] Instance DoorState_eq_dec : EqDecision DoorState.
Proof. solve_decision. Defined.
Definition zero_DoorState : DoorState :=
  mkDoor 0 "" "" false false false 0 "".

Record CellState := mkCell {
  cs_ID : CellID;
  cs_OwnerPlayerID : PlayerID;
  cs_DoorID : DoorID;
  cs_OccupantPlayerIDs : list PlayerID;
  cs_Stash : list ItemStack;
}.
#[export] Instance CellState_eta : RecordEta CellState := λ r,
  mkCell (cs_ID r) (cs_OwnerPlayerID r) (cs_DoorID r) (cs_OccupantPlayerIDs r) (cs_Stash r).
#[export] Instance CellState_eq_dec : EqDecision CellState.
Proof. solve_decision. Defined.
Definition zero_CellState : CellState :=
  mkCell 0 "" 0 [] [].

Record ZoneState := mkZone {
  zs_ID : ZoneID;
  zs_RoomID : RoomID;
  zs_Restricted : bool;
  zs_Name : string;
}.
#[export] Instance ZoneState_eta : RecordEta ZoneState := λ r,
  mkZone (zs_ID r) (zs_RoomID r) (zs_Restricted r) (zs_Name r).
#[export] Instance ZoneState_eq_dec : EqDecision ZoneState.
Proof. solve_decision. Defined.
Definition zero_ZoneState : ZoneState :=
  mkZone 0 "" false "".

Record MapState := mkMap {
  ms_PowerOn : bool;
  ms_Alarm : AlarmState;
  ms_BlackMarketRoomID : RoomID;
  ms_Doors : list DoorState;
  ms_Cells : list CellState;
  ms_RestrictedZones : list ZoneState;
}.
#[export] Instance MapState_eta : RecordEta MapState := λ r,
  mkMap (ms_PowerOn r) (ms_Alarm r) (ms_BlackMarketRoomID r) (ms_Doors r) (ms_Cells r) (ms_RestrictedZones r).
#[export] Instance MapState_eq_dec : EqDecision MapState.
Proof. solve_decision. Defined.
Definition zero_MapState : MapState :=
  mkMap false zero_AlarmState "" [] [] [].

Record EntityState := mkEntity {
  es_ID : EntityID;
  es_Kind : EntityKind;
  es_OwnerPlayerID : PlayerID;
  es_Position : Vector2;
  es_Velocity : Vector2;
  es_HeartsHalf : Z;
  es_Active : bool;
  es_RoomID : RoomID;
  es_Tags : list string;
}.
#[export] Instance EntityState_eta : RecordEta EntityState := λ r,
  mkEntity (es_ID r) (es_Kind r) (es_OwnerPlayerID r) (es_Position r) (es_Velocity r) (es_HeartsHalf r) (es_Active r) (es_RoomID r) (es_Tags r).
#[export] Instance EntityState_eq_dec : EqDecision EntityState.
Proof. solve_decision. Defined.
Definition zero_EntityState : EntityState :=
  mkEntity 0 "" "" zero_Vector2 zero_Vector2 0 false "" [].

Record GameOverState := mkGameOver {
  go_Reason : WinReason;
  go_EndedTick : Z;
  go_WinnerPlayerIDs : list PlayerID;
  go_Notes : string;
}.
#[export] Instance GameOverState_eta : RecordEta GameOverState := λ r,
  mkGameOver (go_Reason r) (go_EndedTick r) (go_WinnerPlayerIDs r) (go_Notes r).
#[export] Instance GameOverState_eq_dec : EqDecision GameOverState.
Proof. solve_decision. Defined.
Definition zero_GameOverState : GameOverState :=
  mkGameOver "" 0 [] "".

(** Go pointers to snapshots of values are [option]: [nil] is [None]. *)
Record GameState := mkGame {
  gs_MatchID : MatchID;
  gs_TickID : Z;
  gs_Status : MatchStatus;
  gs_CycleCount : Z;
  gs_Phase : PhaseState;
  gs_Map : MapState;
  gs_Players : list PlayerState;
  gs_Entities : list EntityState;
  gs_GameOver : option GameOverState;
}.
#[export] Instance GameState_eta : RecordEta GameState := λ r,
  mkGame (gs_MatchID r) (gs_TickID r) (gs_Status r) (gs_CycleCount r) (gs_Phase r) (gs_Map r) (gs_Players r) (gs_Entities r) (gs_GameOver r).
#[export] Instance GameState_eq_dec : EqDecision GameState.
Proof. solve_decision. Defined.
Definition zero_GameState : GameState :=
  mkGame "" 0 "" 0 zero_PhaseState zero_MapState [] [] None.

Record PlayerAck := mkAck {
  ack_PlayerID : PlayerID;
  ack_LastProcessedClientSeq : Z;
}.
#[export] Instance PlayerAck_eta : RecordEta PlayerAck := λ r,
  mkAck (ack_PlayerID r) (ack_LastProcessedClientSeq r).
#[export] Instance PlayerAck_eq_dec : EqDecision PlayerAck.
Proof. solve_decision. Defined.
Definition zero_PlayerAck : PlayerAck :=
  mkAck "" 0.

Record GameDelta := mkDelta {
  gd_ChangedPlayers : list PlayerState;
  gd_RemovedPlayerIDs : list PlayerID;
  gd_ChangedEntities : list EntityState;
  gd_RemovedEntityIDs : list EntityID;
  gd_ChangedDoors : list DoorState;
  gd_ChangedCells : list CellState;
  gd_ChangedZones : list ZoneState;
  gd_Phase : option PhaseState;
  gd_Status : option MatchStatus;
  gd_CycleCount : option Z;
  gd_PowerOn : option bool;
  gd_Alarm : option AlarmState;
  gd_BlackMarketRoomID : option RoomID;
  gd_GameOver : option GameOverState;
}.
#[export] Instance GameDelta_eta : RecordEta GameDelta := λ r,
  mkDelta (gd_ChangedPlayers r) (gd_RemovedPlayerIDs r) (gd_ChangedEntities r) (gd_RemovedEntityIDs r) (gd_ChangedDoors r) (gd_ChangedCells r) (gd_ChangedZones r) (gd_Phase r) (gd_Status r) (gd_CycleCount r) (gd_PowerOn r) (gd_Alarm r) (gd_BlackMarketRoomID r) (gd_GameOver r).
#[export] Instance GameDelta_eq_dec : EqDecision GameDelta.
Proof. solve_decision. Defined.
Definition zero_GameDelta : GameDelta :=
  mkDelta [] [] [] [] [] [] [] None None None None None None None.

Record Snapshot := mkSnapshot {
  sn_Kind : SnapshotKind;
  sn_TickID : Z;
  sn_BaseTickID : Z;
  sn_State : option GameState;
  sn_Delta : option GameDelta;
  sn_PlayerAcks : list PlayerAck;
}.
#[export] Instance Snapshot_eta : RecordEta Snapshot := λ r,
  mkSnapshot (sn_Kind r) (sn_TickID r) (sn_BaseTickID r) (sn_State r) (sn_Delta r) (sn_PlayerAcks r).
#[export] Instance Snapshot_eq_dec : EqDecision Snapshot.
Proof. solve_decision. Defined.
Definition zero_Snapshot : Snapshot :=
  mkSnapshot "" 0 0 None None [].

(** ** Commands and their payloads (input.go)

    A payload travels as raw JSON bytes; the typed payloads are what decoding
    gives the command handlers. *)

Record InputCommand := mkCommand {
  ic_PlayerID : PlayerID;
  ic_ClientSeq : Z;
  ic_IngressSeq : Z;
  ic_TargetTick : Z;
  ic_Type : InputCommandType;
  ic_Payload : string;
}.
#[export] Instance InputCommand_eta : RecordEta InputCommand := λ r,
  mkCommand (ic_PlayerID r) (ic_ClientSeq r) (ic_IngressSeq r) (ic_TargetTick r) (ic_Type r) (ic_Payload r).
#[export] Instance InputCommand_eq_dec : EqDecision InputCommand.
Proof. solve_decision. Defined.
Definition zero_InputCommand : InputCommand :=
  mkCommand "" 0 0 0 "" "".

Record MovementInputPayload := mkMovePayload {
  mv_MoveX : f32;
  mv_MoveY : f32;
  mv_Sprint : bool;
}.
#[export] Instance MovementInputPayload_eta : RecordEta MovementInputPayload := λ r,
  mkMovePayload (mv_MoveX r) (mv_MoveY r) (mv_Sprint r).
#[export] Instance MovementInputPayload_eq_dec : EqDecision MovementInputPayload.
Proof. solve_decision. Defined.
Definition zero_MovementInputPayload : MovementInputPayload :=
  mkMovePayload f32_zero f32_zero false.

Record AimInputPayload := mkAimPayload {
  aim_AimX : f32;
  aim_AimY : f32;
}.
#[export] Instance AimInputPayload_eta : RecordEta AimInputPayload := λ r,
  mkAimPayload (aim_AimX r) (aim_AimY r).
#[export] Instance AimInputPayload_eq_dec : EqDecision AimInputPayload.
Proof. solve_decision. Defined.
Definition zero_AimInputPayload : AimInputPayload :=
  mkAimPayload f32_zero f32_zero.

Record InteractPayload := mkInteractPayload {
  ip_TargetEntityID : EntityID;
  ip_TargetDoorID : DoorID;
  ip_TargetCellID : CellID;
  ip_TargetRoomID : RoomID;
  ip_EscapeRoute : EscapeRouteType;
  ip_MarketRoomID : RoomID;
  ip_NightCardChoice : CardType;
  ip_StashAction : string;
  ip_StashItem : ItemType;
  ip_StashAmount : Z;
}.
#[export] Instance InteractPayload_eta : RecordEta InteractPayload := λ r,
  mkInteractPayload (ip_TargetEntityID r) (ip_TargetDoorID r) (ip_TargetCellID r) (ip_TargetRoomID r) (ip_EscapeRoute r) (ip_MarketRoomID r) (ip_NightCardChoice r) (ip_StashAction r) (ip_StashItem r) (ip_StashAmount r).
#[export] Instance InteractPayload_eq_dec : EqDecision InteractPayload.
Proof. solve_decision. Defined.
Definition zero_InteractPayload : InteractPayload :=
  mkInteractPayload 0 0 0 "" "" "" "" "" "" 0.

Record AbilityUsePayload := mkAbilityPayload {
  ap_Ability : AbilityType;
  ap_TargetPlayerID : PlayerID;
  ap_TargetEntityID : EntityID;
  ap_TargetDoorID : DoorID;
  ap_TargetCellID : CellID;
  ap_TargetRoomID : RoomID;
}.
#[export] Instance AbilityUsePayload_eta : RecordEta AbilityUsePayload := λ r,
  mkAbilityPayload (ap_Ability r) (ap_TargetPlayerID r) (ap_TargetEntityID r) (ap_TargetDoorID r) (ap_TargetCellID r) (ap_TargetRoomID r).
#[export] Instance AbilityUsePayload_eq_dec : EqDecision AbilityUsePayload.
Proof. solve_decision. Defined.
Definition zero_AbilityUsePayload : AbilityUsePayload :=
  mkAbilityPayload "" "" 0 0 0 "".

Record CardUsePayload := mkCardPayload {
  cp_Card : CardType;
  cp_TargetPlayerID : PlayerID;
  cp_TargetEntityID : EntityID;
  cp_TargetDoorID : DoorID;
  cp_TargetCellID : CellID;
  cp_TargetItem : ItemType;
}.
#[export] Instance CardUsePayload_eta : RecordEta CardUsePayload := λ r,
  mkCardPayload (cp_Card r) (cp_TargetPlayerID r) (cp_TargetEntityID r) (cp_TargetDoorID r) (cp_TargetCellID r) (cp_TargetItem r).
#[export] Instance CardUsePayload_eq_dec : EqDecision CardUsePayload.
Proof. solve_decision. Defined.
Definition zero_CardUsePayload : CardUsePayload :=
  mkCardPayload "" "" 0 0 0 "".

Record ItemUsePayload := mkItemPayload {
  iu_Item : ItemType;
  iu_TargetPlayerID : PlayerID;
  iu_TargetDoorID : DoorID;
  iu_TargetRoomID : RoomID;
  iu_Amount : Z;
}.
#[export] Instance ItemUsePayload_eta : RecordEta ItemUsePayload := λ r,
  mkItemPayload (iu_Item r) (iu_TargetPlayerID r) (iu_TargetDoorID r) (iu_TargetRoomID r) (iu_Amount r).
#[export] Instance ItemUsePayload_eq_dec : EqDecision ItemUsePayload.
Proof. solve_decision. Defined.
Definition zero_ItemUsePayload : ItemUsePayload :=
  mkItemPayload "" "" 0 "" 0.

Record BlackMarketPurchasePayload := mkMarketPayload {
  bp_Item : ItemType;
}.
#[export] Instance BlackMarketPurchasePayload_eta : RecordEta BlackMarketPurchasePayload := λ r,
  mkMarketPayload (bp_Item r).
#[export] Instance BlackMarketPurchasePayload_eq_dec : EqDecision BlackMarketPurchasePayload.
Proof. solve_decision. Defined.
Definition zero_BlackMarketPurchasePayload : BlackMarketPurchasePayload :=
  mkMarketPayload "".

Record FireWeaponPayload := mkFirePayload {
  fw_Weapon : ItemType;
  fw_TargetX : f32;
  fw_TargetY : f32;
  fw_UseGoldenRound : bool;
}.
#[export] Instance FireWeaponPayload_eta : RecordEta FireWeaponPayload := λ r,
  mkFirePayload (fw_Weapon r) (fw_TargetX r) (fw_TargetY r) (fw_UseGoldenRound r).
#[export] Instance FireWeaponPayload_eq_dec : EqDecision FireWeaponPayload.
Proof. solve_decision. Defined.
Definition zero_FireWeaponPayload : FireWeaponPayload :=
  mkFirePayload "" f32_zero f32_zero false.

Record EquipItemPayload := mkEquipPayload {
  eq_Item : ItemType;
}.
#[export] Instance EquipItemPayload_eta : RecordEta EquipItemPayload := λ r,
  mkEquipPayload (eq_Item r).
#[export] Instance EquipItemPayload_eq_dec : EqDecision EquipItemPayload.
Proof. solve_decision. Defined.
Definition zero_EquipItemPayload : EquipItemPayload :=
  mkEquipPayload "".

Record CraftItemPayload := mkCraftPayload {
  cr_Item : ItemType;
}.
#[export] Instance CraftItemPayload_eta : RecordEta CraftItemPayload := λ r,
  mkCraftPayload (cr_Item r).
#[export] Instance CraftItemPayload_eq_dec : EqDecision CraftItemPayload.
Proof. solve_decision. Defined.
Definition zero_CraftItemPayload : CraftItemPayload :=
  mkCraftPayload "".

Record DropItemPayload := mkDropPayload {
  dr_Item : ItemType;
  dr_Amount : Z;
}.
#[export] Instance DropItemPayload_eta : RecordEta DropItemPayload := λ r,
  mkDropPayload (dr_Item r) (dr_Amount r).
#[export] Instance DropItemPayload_eq_dec : EqDecision DropItemPayload.
Proof. solve_decision. Defined.
Definition zero_DropItemPayload : DropItemPayload :=
  mkDropPayload "" 0.
