(* ===== verification/GoStrings.v ===== *)
(** * The string functions of Go's library that the game rules use

    [strings.HasPrefix], [TrimPrefix], [TrimSpace], [ToLower], [Join],
    [strconv.Itoa] and [Atoi], and the [%d] and [%03d] verbs of [fmt.Sprintf], on
    byte strings. *)

From S2P Require Import Prelude.
From Stdlib Require Import Ascii.
From stdpp Require Import pretty.

#[local] Open Scope Z_scope.

(** ** Prefixes *)

Definition HasPrefix (s prefix : string) : bool := String.prefix prefix s.

Fixpoint drop_bytes (n : nat) (s : string) : string :=
  match n, s with
  | S n, String _ s => drop_bytes n s
  | _, _ => s
  end.

Definition TrimPrefix (s prefix : string) : string :=
  if HasPrefix s prefix then drop_bytes (String.length prefix) s else s.

Lemma prefix_app p s : String.prefix p (p +:+ s) = true.
Proof.
  induction p as [|c p IH]; simpl; [by destruct s|].
  by destruct (ascii_dec c c).
Qed.

Lemma drop_bytes_app p s : drop_bytes (String.length p) (p +:+ s) = s.
Proof. by induction p. Qed.

Lemma HasPrefix_app p s : HasPrefix (p +:+ s) p = true.
Proof. apply prefix_app. Qed.

Lemma TrimPrefix_app p s : TrimPrefix (p +:+ s) p = s.
Proof. unfold TrimPrefix. rewrite HasPrefix_app. apply drop_bytes_app. Qed.

(** ** Numbers *)

(** [strconv.Itoa], [%d]. *)
Definition Itoa (n : Z) : string := pretty n.

(** [%03d] for a non-negative value. *)
Definition Itoa03 (n : Z) : string :=
  if n <? 10 then "00" +:+ Itoa n else if n <? 100 then "0" +:+ Itoa n else Itoa n.

Definition digit_of (c : ascii) : option Z :=
  let n := Z.of_N (N_of_ascii c) - 48 in
  if (0 <=? n) && (n <=? 9) then Some n else None.

Fixpoint digits_value (acc : Z) (s : string) : option Z :=
  match s with
  | EmptyString => Some acc
  | String c s => d ← digit_of c; digits_value (10 * acc + d) s
  end.

(** [strconv.Atoi]: an optional sign, at least one digit, and the int64 range;
    [None] is any error. *)
Definition Atoi (s : string) : option Z :=
  let '(neg, body) :=
    match s with
    | String "-" s => (true, s)
    | String "+" s => (false, s)
    | _ => (false, s)
    end in
  match body with
  | EmptyString => None
  | _ =>
      v ← digits_value 0 body;
      let v := if neg : bool then - v else v in
      if (- 2 ^ 63 <=? v) && (v <? 2 ^ 63) then Some v else None
  end.

Lemma u8_forall (P : Z → Prop) :
  Forall P (Z.of_nat <$> seq 0 256) → ∀ q, is_u8 q → P q.
Proof.
  intros HP q Hq. apply (proj1 (Forall_forall _ _) HP).
  apply list_elem_of_fmap. exists (Z.to_nat q). unfold is_u8 in Hq.
  split; [lia|]. apply elem_of_seq. lia.
Qed.

Lemma Atoi_Itoa_u8 q : is_u8 q → Atoi (Itoa q) = Some q.
Proof.
  revert q. apply u8_forall. apply (bool_decide_unpack _). by vm_compute.
Qed.

(** ** White space *)

(** The UTF-8 encodings of the runes for which [unicode.IsSpace] holds. *)
Definition bytes_string (l : list nat) : string :=
  foldr (λ n s, String (ascii_of_nat n) s) EmptyString l.

Definition space_encodings : list string :=
  map bytes_string
    ([[9]; [10]; [11]; [12]; [13]; [32]; [194; 133]; [194; 160]; [225; 154; 128]]
     ++ map (λ i, [226; 128; i]) (seq 128 11)
     ++ [[226; 128; 168]; [226; 128; 169]; [226; 128; 175]; [226; 129; 159]; [227; 128; 128]])%nat.

(** One leading white-space rune, removed. *)
Definition strip_one (encodings : list string) (s : string) : option string :=
  (λ e, drop_bytes (String.length e) s) <$> find_first (λ e, String.prefix e s) encodings.

Fixpoint strip_all (fuel : nat) (encodings : list string) (s : string) : string :=
  match fuel with
  | O => s
  | S fuel =>
      match strip_one encodings s with
      | Some s' => strip_all fuel encodings s'
      | None => s
      end
  end.

(** [strings.TrimSpace]: strip white space on the left, then on the right.  Each
    round removes at least a byte, so the length is enough fuel.  A space
    encoding starts with a lead byte, so it is the last rune exactly when it is a
    suffix, valid UTF-8 or not. *)
Definition TrimSpace (s : string) : string :=
  let left := strip_all (String.length s) space_encodings s in
  String.rev (strip_all (String.length left) (map String.rev space_encodings) (String.rev left)).

(** A string that no encoding starts is left as it is. *)
Lemma strip_all_none encodings s fuel : strip_one encodings s = None → strip_all fuel encodings s = s.
Proof. destruct fuel; simpl; [done|]. by intros ->. Qed.

Lemma length_drop_bytes n s : String.length (drop_bytes n s) = (String.length s - n)%nat.
Proof. revert s. induction n as [|n IH]; intros [|c s]; simpl; try done. Qed.

Lemma prefix_length p s : String.prefix p s = true → (String.length p ≤ String.length s)%nat.
Proof.
  revert s. induction p as [|c p IH]; intros [|d s]; simpl; try done; try lia.
  destruct (Ascii.ascii_dec c d); [|done]. intros H. apply IH in H. lia.
Qed.

Lemma strip_all_done encodings fuel s :
  (∀ e, e ∈ encodings → e ≠ "") → (String.length s ≤ fuel)%nat →
  strip_one encodings (strip_all fuel encodings s) = None.
Proof.
  intros Hne. revert s. induction fuel as [|fuel IH]; intros s Hlen; simpl.
  - destruct s; [|simpl in Hlen; lia]. unfold strip_one.
    destruct (find_first _ encodings) as [e|] eqn:He; [|done].
    apply find_first_Some in He as [He Hp]. apply prefix_length in Hp. specialize (Hne e He). destruct e; [done|simpl in Hp; lia].
  - destruct (strip_one encodings s) as [s'|] eqn:Hs; [|done]. apply IH.
    unfold strip_one in Hs. destruct (find_first _ encodings) as [e|] eqn:He; [|done]. injection Hs as <-.
    apply find_first_Some in He as [He Hp]. apply prefix_length in Hp. rewrite length_drop_bytes.
    specialize (Hne e He). destruct e; [done|]. simpl in *. lia.
Qed.

Lemma append_assoc a b c : a +:+ (b +:+ c) = (a +:+ b) +:+ c.
Proof. induction a as [|x a IH]; [done|]. exact (f_equal (String x) IH). Qed.
Lemma append_nil a : a +:+ "" = a.
Proof. induction a as [|x a IH]; [done|]. exact (f_equal (String x) IH). Qed.
Lemma length_append a b : String.length (a +:+ b) = (String.length a + String.length b)%nat.
Proof. induction a as [|x a IH]; [done|]. exact (f_equal S IH). Qed.

Lemma prefix_split p s : String.prefix p s = true → ∃ rest, s = p +:+ rest.
Proof.
  revert s. induction p as [|c p IH]; intros s; [by exists s|]. destruct s as [|d s]; simpl; [done|].
  destruct (Ascii.ascii_dec c d) as [->|]; [|done]. intros [rest ->]%IH. by exists rest.
Qed.
Lemma strip_all_suffix encodings fuel s : ∃ pre, s = pre +:+ strip_all fuel encodings s.
Proof.
  revert s. induction fuel as [|fuel IH]; intros s; simpl; [by exists ""|].
  destruct (strip_one encodings s) as [s'|] eqn:Hs; [|by exists ""].
  unfold strip_one in Hs. destruct (find_first _ encodings) as [e|] eqn:He; [|done]. injection Hs as <-.
  apply find_first_Some in He as [_ Hp]. destruct (IH (drop_bytes (String.length e) s)) as [pre Hpre].
  exists (e +:+ pre). rewrite <-append_assoc, <-Hpre. clear -Hp. revert s Hp.
  induction e as [|c e IH]; intros [|d s]; simpl; try done. destruct (Ascii.ascii_dec c d) as [->|]; [|done].
  intros Hp. exact (f_equal (String d) (IH s Hp)).
Qed.

Lemma rev_app_spec a b : String.rev_app a b = String.rev a +:+ b.
Proof.
  unfold String.rev. revert b. induction a as [|c a IH]; intros b; simpl; [done|].
  rewrite IH, (IH (String c "")), <-append_assoc. done.
Qed.
Lemma rev_concat a b : String.rev (a +:+ b) = String.rev b +:+ String.rev a.
Proof.
  induction a as [|c a IH]; [symmetry; apply append_nil|].
  change (String.rev (String c a +:+ b)) with (String.rev_app (a +:+ b) (String c "")).
  change (String.rev (String c a)) with (String.rev_app a (String c "")).
  by rewrite !rev_app_spec, IH, append_assoc.
Qed.
Lemma rev_rev a : String.rev (String.rev a) = a.
Proof.
  induction a as [|c a IH]; [done|].
  change (String.rev (String c a)) with (String.rev_app a (String c "")).
  rewrite rev_app_spec, rev_concat, IH. done.
Qed.
Lemma length_rev a : String.length (String.rev a) = String.length a.
Proof.
  induction a as [|c a IH]; [done|]. change (String.rev (String c a)) with (String.rev_app a (String c "")).
  rewrite rev_app_spec, length_append. simpl. lia.
Qed.

(** A string that starts and ends with something visible is left as it is. *)
Lemma TrimSpace_id s :
  strip_one space_encodings s = None → strip_one (map String.rev space_encodings) (String.rev s) = None →
  TrimSpace s = s.
Proof. intros H1 H2. unfold TrimSpace. by rewrite (strip_all_none _ s), strip_all_none, rev_rev. Qed.

(** A trimmed string has no space to trim. *)
Lemma TrimSpace_idem s : TrimSpace (TrimSpace s) = TrimSpace s.
Proof.
  set (left := strip_all (String.length s) space_encodings s).
  set (r := strip_all (String.length left) (map String.rev space_encodings) (String.rev left)).
  assert (TrimSpace s = String.rev r) as Ht by done. rewrite Ht.
  assert (strip_one space_encodings left = None) as Hleft.
  { apply strip_all_done; [|done]. intros e He ->. revert He. apply (bool_decide_unpack _). by vm_compute. }
  assert (strip_one (map String.rev space_encodings) r = None) as Hr.
  { apply strip_all_done; [|by rewrite length_rev]. intros e He ->. revert He. apply (bool_decide_unpack _). by vm_compute. }
  destruct (strip_all_suffix (map String.rev space_encodings) (String.length left) (String.rev left)) as [pre Hpre].
  fold r in Hpre. apply (f_equal String.rev) in Hpre. rewrite rev_rev, rev_concat in Hpre.
  assert (strip_one space_encodings (String.rev r) = None) as Hr'.
  { unfold strip_one in *. destruct (find_first _ _) as [e|] eqn:He in |- *; [|done]. exfalso.
    apply find_first_Some in He as [He Hp]. destruct (find_first (λ e, String.prefix e left) space_encodings) eqn:Hl; [done|].
    rewrite find_first_None in Hl. specialize (Hl e He). cbv beta in Hl. rewrite Hpre in Hl.
    apply prefix_split in Hp as [rest Hrest]. rewrite Hrest, <-append_assoc, prefix_app in Hl. done. }
  apply TrimSpace_id; [done|]. by rewrite rev_rev.
Qed.

Definition lower_ascii (c : ascii) : ascii :=
  let n := nat_of_ascii c in
  if ((65 <=? n) && (n <=? 90))%nat then ascii_of_nat (n + 32) else c.

(** [strings.ToLower], for comparison with an ASCII word: ASCII letters, and the
    two other runes whose lower case is ASCII (U+0130 gives [i], U+212A gives
    [k]).  Every other rune stays outside ASCII under Go's mapping. *)
Fixpoint ToLower (s : string) : string :=
  match s with
  | EmptyString => EmptyString
  | String "196" (String "176" s) => String "i" (ToLower s)
  | String "226" (String "132" (String "170" s)) => String "k" (ToLower s)
  | String c s => String (lower_ascii c) (ToLower s)
  end.

(** [strings.Join]. *)
Definition Join (parts : list string) (sep : string) : string := String.concat sep parts.

Example trim_example : TrimSpace " 	a b
 " = "a b".
Proof. reflexivity. Qed.
Example atoi_example : map Atoi ["255"; "-3"; ""; "+"; "1x"; "9223372036854775808"] =
  [Some 255; Some (-3); None; None; None; None].
Proof. reflexivity. Qed.
Example itoa03_example : map Itoa03 [1; 12; 123] = ["001"; "012"; "123"].
Proof. reflexivity. Qed.
Example lower_example : ToLower "DePosit" = "deposit".
Proof. reflexivity. Qed.
