(* ===== verification/Hashing.v ===== *)
(** * Deterministic hashing and random streams

    [hash/fnv]'s 64-bit FNV-1a as the call sites use it (write byte strings, take
    the sum), the splitmix64 streams of [internal/gamecore/determinism/rng.go] and
    the xorshift generator of [internal/gamecore/roles/assignment.go]. *)

From S2P Require Import Prelude.
From Stdlib Require Import Ascii.

#[local] Open Scope Z_scope.

(** ** FNV-1a *)

Definition fnv_offset64 : Z := 14695981039346656037.
Definition fnv_prime64 : Z := 1099511628211.

Definition fnv64a_step (h byte : Z) : Z := u64 (Z.lxor h byte * fnv_prime64).
Definition fnv64a (bytes : list Z) : Z := foldl fnv64a_step fnv_offset64 bytes.

(** [[]byte(s)] *)
Fixpoint string_bytes (s : string) : list Z :=
  match s with
  | EmptyString => []
  | String c s => Z.of_N (N_of_ascii c) :: string_bytes s
  end.

#[global] Arguments fnv64a : simpl never.
#[global] Arguments le_bytes64 : simpl never.

(** Choosing from a non-empty table of [n] entries: [hasher.Sum64() % uint64(n)]. *)
Definition hash_choice (bytes : list Z) (n : nat) : nat :=
  Z.to_nat (fnv64a bytes mod Z.of_nat n).

#[global] Arguments hash_choice : simpl never.

Lemma hash_choice_lt bytes n : (0 < n)%nat → (hash_choice bytes n < n)%nat.
Proof.
  intros Hn. unfold hash_choice.
  pose proof (Z.mod_pos_bound (fnv64a bytes) (Z.of_nat n)). lia.
Qed.

Lemma lookup_hash_choice {A} bytes (l : list A) :
  l ≠ [] → is_Some (l !! hash_choice bytes (length l)).
Proof.
  intros Hl. apply lookup_lt_is_Some, hash_choice_lt.
  destruct l; simpl; [done|lia].
Qed.

Lemma fnv64a_step_range h b : is_u64 (fnv64a_step h b).
Proof. apply u64_range. Qed.

Lemma fnv64a_range bytes : is_u64 (fnv64a bytes).
Proof.
  unfold fnv64a. assert (is_u64 fnv_offset64) as H0 by (vm_compute; done).
  revert H0. generalize fnv_offset64. induction bytes as [|b bytes IH]; simpl; [done|].
  intros h _. apply IH, fnv64a_step_range.
Qed.
#[export] Hint Resolve fnv64a_range hash_choice_lt lookup_hash_choice : prison_ints.

(** ** splitmix64 streams (rng.go) *)

Definition defaultSeed : Z := 0x9e3779b97f4a7c15.

Record StreamRNG := mkStream { rng_state : Z }.

Definition newStreamRNG (seed : Z) : StreamRNG :=
  mkStream (if seed =? 0 then defaultSeed else seed).

Definition NextUint64 (r : StreamRNG) : Z * StreamRNG :=
  let state := u64 (rng_state r + defaultSeed) in
  let z := state in
  let z := u64 (Z.lxor z (Z.shiftr z 30) * 0xbf58476d1ce4e5b9) in
  let z := u64 (Z.lxor z (Z.shiftr z 27) * 0x94d049bb133111eb) in
  (Z.lxor z (Z.shiftr z 31), mkStream state).

(** [NextIntn] panics on [n <= 0]: [None]. *)
Definition NextIntn (r : StreamRNG) (n : Z) : option (Z * StreamRNG) :=
  if n <=? 0 then None
  else let '(x, r') := NextUint64 r in Some (x mod n, r').

Definition DeriveStreamSeed (matchSeed : Z) (streamName : string) : Z :=
  let seed := fnv64a (le_bytes64 matchSeed ++ string_bytes streamName) in
  if seed =? 0 then defaultSeed else seed.

(** The table owns its streams; the pointer [Stream] returns is the entry of that
    name, so a draw through it is [draw], which writes the entry back. *)
Record RNGStreams := mkStreams {
  rs_matchSeed : Z;
  rs_streams : gmap string StreamRNG;
}.

Definition NewRNGStreams (matchSeed : Z) : RNGStreams := mkStreams matchSeed ∅.

Definition Stream (r : RNGStreams) (name : string) : StreamRNG * RNGStreams :=
  match rs_streams r !! name with
  | Some stream => (stream, r)
  | None =>
      let stream := newStreamRNG (DeriveStreamSeed (rs_matchSeed r) name) in
      (stream, mkStreams (rs_matchSeed r) (<[name := stream]> (rs_streams r)))
  end.

Definition draw (r : RNGStreams) (name : string) : Z * RNGStreams :=
  let '(stream, r1) := Stream r name in
  let '(x, stream') := NextUint64 stream in
  (x, mkStreams (rs_matchSeed r1) (<[name := stream']> (rs_streams r1))).

(** What a stream will deliver next, created or not. *)
Definition stream_value (r : RNGStreams) (name : string) : StreamRNG := (Stream r name).1.

Fixpoint draws (r : RNGStreams) (names : list string) : list Z * RNGStreams :=
  match names with
  | [] => ([], r)
  | name :: names =>
      let '(x, r1) := draw r name in
      let '(xs, r2) := draws r1 names in (x :: xs, r2)
  end.

Lemma NextUint64_range r : is_u64 (NextUint64 r).1.
Proof.
  unfold NextUint64; simpl. set (z := u64 _).
  assert (0 <= z < 2 ^ 64) as Hz by apply u64_range.
  split.
  - apply Z.lxor_nonneg. rewrite Z.shiftr_nonneg. lia.
  - assert (∀ a b, 0 <= a < 2 ^ 64 → 0 <= b < 2 ^ 64 → Z.lxor a b < 2 ^ 64) as Hlt.
    { intros a b Ha Hb. destruct (Z.eq_dec (Z.lxor a b) 0) as [->|Hne]; [lia|].
      assert (0 <= Z.lxor a b) by (apply Z.lxor_nonneg; lia).
      apply Z.log2_lt_pow2; [lia|].
      eapply Z.le_lt_trans; [apply Z.log2_lxor; lia|].
      apply Z.max_lub_lt.
      - destruct (Z.eq_dec a 0) as [->|]; [done|]. apply Z.log2_lt_pow2; lia.
      - destruct (Z.eq_dec b 0) as [->|]; [done|]. apply Z.log2_lt_pow2; lia. }
    apply Hlt; [done|]. rewrite Z.shiftr_div_pow2 by lia. split.
    + apply Z.div_pos; lia.
    + apply Z.div_lt_upper_bound; [lia|]. nia.
Qed.

Lemma NextIntn_range r n x r' : NextIntn r n = Some (x, r') → 0 <= x < n.
Proof.
  unfold NextIntn. case_match eqn:Hn; [done|]. bool_props.
  destruct (NextUint64 r) as [y r2]. intros [= <- _]. by apply Z.mod_pos_bound.
Qed.

#[local] Opaque NextUint64.

Lemma draw_fst r name : (draw r name).1 = (NextUint64 (stream_value r name)).1.
Proof.
  unfold draw, stream_value. destruct (Stream r name) as [s r1].
  cbn [fst]. by destruct (NextUint64 s).
Qed.

Lemma draw_value_eq r name :
  stream_value (draw r name).2 name = (NextUint64 (stream_value r name)).2.
Proof.
  unfold stream_value, draw. destruct (Stream r name) as [s r1] eqn:Hs.
  destruct (NextUint64 s) as [x s'] eqn:Hn. simpl.
  unfold Stream. simpl. rewrite lookup_insert_eq. by rewrite Hn.
Qed.

Lemma draw_value_ne r name other :
  name ≠ other → stream_value (draw r name).2 other = stream_value r other.
Proof.
  intros Hne. unfold stream_value, draw, Stream.
  destruct (rs_streams r !! name) as [s|].
  - destruct (NextUint64 s); simpl. rewrite lookup_insert_ne by done.
    by destruct (rs_streams r !! other).
  - destruct (NextUint64 _); simpl. rewrite !lookup_insert_ne by done.
    by destruct (rs_streams r !! other).
Qed.

(** The values a consumer of stream [name] sees in an interleaved run. *)
Fixpoint drawn (name : string) (names : list string) (xs : list Z) : list Z :=
  match names, xs with
  | n :: names, x :: xs => if n ≟ name then x :: drawn name names xs else drawn name names xs
  | _, _ => []
  end.

Fixpoint stream_run (s : StreamRNG) (k : nat) : list Z :=
  match k with
  | O => []
  | S k => let '(x, s') := NextUint64 s in x :: stream_run s' k
  end.

(** ** xorshift (assignment.go) *)

Record deterministicRNG := mkRoleRNG { role_rng_state : Z }.

Definition newDeterministicRNG (seed : Z) : deterministicRNG :=
  mkRoleRNG (if seed =? 0 then 0x6a09e667f3bcc909 else seed).

Definition role_rng_next (r : deterministicRNG) : Z * deterministicRNG :=
  let x := role_rng_state r in
  let x := Z.lxor x (u64 (Z.shiftl x 13)) in
  let x := Z.lxor x (Z.shiftr x 7) in
  let x := Z.lxor x (u64 (Z.shiftl x 17)) in
  (x, mkRoleRNG x).

Definition Intn (r : deterministicRNG) (limit : nat) : nat * deterministicRNG :=
  if (limit <=? 1)%nat then (0%nat, r)
  else let '(x, r') := role_rng_next r in (Z.to_nat (x mod Z.of_nat limit), r').

Lemma Intn_lt r limit : (0 < limit)%nat → ((Intn r limit).1 < limit)%nat.
Proof.
  intros Hl. unfold Intn. destruct (Nat.leb_spec limit 1); [simpl; lia|].
  destruct (role_rng_next r) as [x r']. cbn [fst].
  pose proof (Z.mod_pos_bound x (Z.of_nat limit)). lia.
Qed.
#[export] Hint Resolve Intn_lt : prison_ints.

(** ** Stream isolation *)

(** however draws on the named streams of a match are
    interleaved, the values one stream delivers are exactly the successive values
    of its own generator, which depends only on the match seed and its name. *)
Theorem draws_isolated r names name :
  drawn name names (draws r names).1 =
  stream_run (stream_value r name) (length (filter (λ n, n = name) names)).
Proof.
  revert r. induction names as [|n names IH]; intros r; simpl; [done|].
  destruct (draw r n) as [x r1] eqn:Hd. destruct (draws r1 names) as [xs r2] eqn:Hds.
  specialize (IH r1). rewrite Hds in IH. simpl in *.
  rewrite filter_cons. case_bool_decide as Hn.
  - subst n. rewrite decide_True by done. simpl.
    pose proof (draw_fst r name) as Hf. pose proof (draw_value_eq r name) as Hv.
    rewrite Hd in Hf, Hv. simpl in *. rewrite IH, Hv, Hf.
    by destruct (NextUint64 (stream_value r name)).
  - rewrite decide_False by done. rewrite IH.
    pose proof (draw_value_ne r n name Hn) as Hv. rewrite Hd in Hv. simpl in Hv. by rewrite Hv.
Qed.

Example fnv_of_a : fnv64a (string_bytes "a") = 0xaf63dc4c8601ec8c.
Proof. reflexivity. Qed.
