(* ===== verification/Bfs.v ===== *)
(** * Breadth-first search

    [Layout.FindRoomPath] and [Layout.FindPath] run the same loop over rooms and
    over tile indices: a queue, a visited set, a parent map, an early exit when the
    goal is first seen, and a walk back along the parents.  This file has that loop
    over an arbitrary neighbour function and its full correctness: the walk back
    terminates, the path is a path, it is a shortest one, and failure means that
    the goal is unreachable. *)

From S2P Require Import Prelude.

Section bfs.
Context {A : Type} `{Countable A}.
Variables (nbrs : A → list A) (zero : A).

Record bfs_state := mkBfs {
  bq : list A;
  bvisited : gset A;
  bparent : gmap A A;
}.

(** The inner loop over the neighbours of [current]; [true] is the early exit. *)
Fixpoint bfs_visit (goal current : A) (ns : list A) (st : bfs_state) : bool * bfs_state :=
  match ns with
  | [] => (false, st)
  | n :: ns =>
      if decide (n ∈ bvisited st) then bfs_visit goal current ns st
      else
        let visited := {[n]} ∪ bvisited st in
        let parent := <[n := current]> (bparent st) in
        if decide (n = goal) then (true, mkBfs [] visited parent)
        else bfs_visit goal current ns (mkBfs (bq st ++ [n]) visited parent)
  end.

(** The outer loop: [None] only if the fuel runs out. *)
Fixpoint bfs_loop (fuel : nat) (goal : A) (st : bfs_state) : option (bool * gmap A A) :=
  match bq st with
  | [] => Some (false, bparent st)
  | current :: queue =>
      match fuel with
      | O => None
      | S fuel =>
          let '(found, st') :=
            bfs_visit goal current (nbrs current) (mkBfs queue (bvisited st) (bparent st)) in
          if found then Some (true, bparent st') else bfs_loop fuel goal st'
      end
  end.

(** [for current := to; current != from; { current = parent[current]; ... }];
    a missing key reads as the zero value. *)
Fixpoint backtrack (fuel : nat) (parent : gmap A A) (from current : A) : option (list A) :=
  if decide (current = from) then Some [current]
  else match fuel with
       | O => None
       | S fuel => cons current <$> backtrack fuel parent from (default zero (parent !! current))
       end.

(** The whole search from [from] to a different [goal]: outer [None] is fuel
    exhaustion, inner [None] is "not found". *)
Definition bfs (fuel : nat) (from goal : A) : option (option (list A)) :=
  '(found, parent) ← bfs_loop fuel goal (mkBfs [from] {[from]} ∅);
  if found : bool
  then path ← backtrack (S (size parent)) parent from goal; Some (Some (reverse path))
  else Some None.

(** ** Specification vocabulary *)

Definition edge : relation A := λ x y, y ∈ nbrs x.

Definition is_path (from goal : A) (p : list A) : Prop :=
  head p = Some from ∧ last p = Some goal ∧
  ∀ i x y, p !! i = Some x → p !! S i = Some y → edge x y.

(** The path back along the parents, with its length. *)
Inductive chain (parent : gmap A A) (from : A) : A → nat → list A → Prop :=
| chain_root : chain parent from from 0 [from]
| chain_step v u n l :
    v ≠ from → parent !! v = Some u → edge u v → chain parent from u n l →
    chain parent from v (S n) (v :: l).

Lemma chain_insert parent from v n l x u :
  parent !! x = None → x ≠ from → chain parent from v n l →
  chain (<[x := u]> parent) from v n l.
Proof.
  intros Hx Hne. induction 1 as [|v w n l Hv Hp He Hc IH]; [apply chain_root|].
  apply chain_step with w; [done| |done..].
  rewrite lookup_insert_ne; [done|]. intros ->. by rewrite Hp in Hx.
Qed.

Lemma chain_length parent from v n l : chain parent from v n l → length l = S n.
Proof. induction 1; simpl; lia. Qed.

Lemma chain_backtrack parent from v n l fuel :
  chain parent from v n l → n ≤ fuel → backtrack fuel parent from v = Some l.
Proof.
  intros Hc. revert fuel.
  induction Hc as [|v u n l Hv Hp He Hc IH]; intros fuel Hf.
  - destruct fuel; simpl; by rewrite decide_True.
  - destruct fuel as [|fuel]; [lia|]. simpl. rewrite decide_False by done.
    rewrite Hp. simpl. by rewrite IH by lia.
Qed.

Lemma is_path_snoc from u v p : is_path from u p → edge u v → is_path from v (p ++ [v]).
Proof.
  intros (Hh & Hl & He) Huv. split_and!.
  - destruct p; [done|]. done.
  - by rewrite last_snoc.
  - intros i x y Hx Hy.
    destruct (decide (S i < length p)) as [Hi|Hi].
    + rewrite lookup_app_l in Hx, Hy by lia. by eapply He.
    + assert (S i = length p) as Hlen.
      { apply lookup_lt_Some in Hy. rewrite length_app in Hy. simpl in Hy. lia. }
      rewrite lookup_app_l in Hx by lia.
      rewrite lookup_app_r, <-Hlen, Nat.sub_diag in Hy by lia. simplify_eq/=.
      rewrite last_lookup, <-Hlen in Hl. simpl in Hl. by simplify_eq.
Qed.

Lemma chain_path parent from v n l : chain parent from v n l → is_path from v (reverse l).
Proof.
  induction 1 as [|v u n l Hv Hp He Hc IH].
  - split_and!; [done..|]. intros i x y _ Hy.
    apply lookup_lt_Some in Hy. simpl in Hy. lia.
  - rewrite reverse_cons. by eapply is_path_snoc.
Qed.

(** ** The loop invariant

    [front] is the queue together with the node being expanded; [d] is the depth
    of every visited node.  Nodes outside the frontier are fully expanded. *)
Record bfs_inv (from goal : A) (front : list A) (d : A → nat) (st : bfs_state) : Prop := {
  inv_front : ∀ v, v ∈ front → v ∈ bvisited st;
  inv_from : from ∈ bvisited st;
  inv_goal : goal ∉ bvisited st;
  inv_parent : ∀ v, is_Some (bparent st !! v) → v ∈ bvisited st;
  inv_size : size (bvisited st) = S (size (bparent st));
  inv_chain : ∀ v, v ∈ bvisited st →
    (d v < size (bvisited st)) ∧ ∃ l, chain (bparent st) from v (d v) l;
  inv_sorted : StronglySorted (λ u v, d u ≤ d v) front;
  inv_width : ∀ u v, head front = Some u → v ∈ bvisited st → d v ≤ S (d u);
  inv_closed : ∀ v n, v ∈ bvisited st → v ∉ front → n ∈ nbrs v →
    n ∈ bvisited st ∧ d n ≤ S (d v);
}.

(** A walk to an unvisited node leaves the visited set through the frontier. *)
Lemma walk_crosses from goal front d st k v x :
  bfs_inv from goal front d st → v ∈ bvisited st → x ∉ bvisited st →
  nsteps edge k v x → ∃ u, u ∈ front ∧ d u + 1 ≤ d v + k.
Proof.
  intros Hinv Hv Hx Hsteps. revert Hv.
  induction Hsteps as [v|k v w x Hvw Hwx IH]; intros Hv; [done|].
  destruct (decide (v ∈ front)) as [Hf|Hf].
  - exists v. split; [done|]. lia.
  - destruct (inv_closed _ _ _ _ _ Hinv v w Hv Hf Hvw) as [Hw Hd].
    destruct (IH Hx Hw) as (u & Hu & Hle). exists u. split; [done|]. lia.
Qed.

Lemma sorted_depth_ext (d d' : A → nat) l :
  (∀ v, v ∈ l → d' v = d v) →
  StronglySorted (λ u v, d u ≤ d v) l → StronglySorted (λ u v, d' u ≤ d' v) l.
Proof.
  induction l as [|a l IHl]; intros Hd Hs; [constructor|].
  apply StronglySorted_cons in Hs as [Ha Hs]. apply StronglySorted_cons. split.
  - apply Forall_forall. intros v Hv. rewrite !Hd by set_solver.
    by apply (proj1 (Forall_forall _ _) Ha).
  - apply IHl; [|done]. intros v Hv. apply Hd. set_solver.
Qed.

(** Seeing a fresh neighbour [n] of the node [cur] at the head of the frontier. *)
Lemma inv_discover from goal cur queue d d' st n :
  bfs_inv from goal (cur :: queue) d st → n ∈ nbrs cur →
  n ∉ bvisited st → n ≠ goal →
  (∀ v, v ∈ bvisited st → d' v = d v) → d' n = S (d cur) →
  bfs_inv from goal (cur :: queue ++ [n]) d'
    (mkBfs (bq st ++ [n]) ({[n]} ∪ bvisited st) (<[n := cur]> (bparent st))).
Proof.
  intros [Hf Hfr Hg Hp Hs Hc Hso Hw Hcl] Hn Hnv Hng Hd Hdn.
  assert (bparent st !! n = None) as Hnp.
  { apply eq_None_not_Some. intros Hsome. by apply Hnv, Hp. }
  assert (n ≠ from) as Hnf by (intros ->; done).
  assert (cur ∈ bvisited st) as Hcur by (apply Hf; set_solver).
  assert (size ({[n]} ∪ bvisited st) = S (size (bvisited st))) as Hsz.
  { rewrite size_union by set_solver. by rewrite size_singleton. }
  assert (StronglySorted (λ u v, d' u ≤ d' v) (cur :: queue)) as Hso'.
  { eapply sorted_depth_ext; [|done]. intros v Hv. by apply Hd, Hf. }
  assert (∀ v, v ∈ bvisited st → d' v ≤ S (d cur)) as Hw'.
  { intros v Hv. rewrite Hd by done. by apply (Hw cur v). }
  constructor; simpl.
  - intros v. rewrite app_comm_cons, elem_of_app, list_elem_of_singleton.
    intros [Hv| ->]; [|set_solver]. apply elem_of_union_r. by apply Hf.
  - set_solver.
  - set_solver.
  - intros v [u Hu]. destruct (decide (v = n)) as [->|Hne]; [set_solver|].
    rewrite lookup_insert_ne in Hu by done. apply elem_of_union_r, Hp. eauto.
  - rewrite Hsz, map_size_insert_None by done. lia.
  - intros v Hv. rewrite Hsz. destruct (decide (v = n)) as [->|Hne].
    + rewrite Hdn. destruct (Hc cur Hcur) as (Hlt & l & Hl). split; [lia|].
      exists (n :: l). apply chain_step with cur;
        [done|by rewrite lookup_insert_eq|done|by apply chain_insert].
    + assert (v ∈ bvisited st) as Hv' by set_solver. rewrite Hd by done.
      destruct (Hc v Hv') as (Hlt & l & Hl). split; [lia|].
      exists l. by apply chain_insert.
  - rewrite app_comm_cons. apply StronglySorted_app_2; [|done|constructor; constructor].
    intros x1 x2 Hx1 ->%list_elem_of_singleton. rewrite Hdn. by apply Hw', Hf.
  - intros u v [= <-]. rewrite elem_of_union, elem_of_singleton, (Hd cur) by done.
    intros [->|Hv]; [lia|by apply Hw'].
  - intros v m Hv Hvf Hm. rewrite app_comm_cons, elem_of_app, list_elem_of_singleton in Hvf.
    assert (v ∈ bvisited st) as Hv' by set_solver.
    destruct (Hcl v m) as [Hmv Hdm]; [done|naive_solver|done|].
    rewrite !Hd by done. split; [set_solver|done].
Qed.

Lemma inv_from_depth from goal front d st : bfs_inv from goal front d st → d from = 0.
Proof.
  intros Hinv. destruct (inv_chain _ _ _ _ _ Hinv from) as (_ & l & Hl).
  { apply (inv_from _ _ _ _ _ Hinv). }
  by inversion Hl.
Qed.

(** No walk reaches the goal before depth [d cur + 1]. *)
Lemma inv_lower_bound from goal cur queue d st k :
  bfs_inv from goal (cur :: queue) d st → nsteps edge k from goal → S (d cur) ≤ k.
Proof.
  intros Hinv Hk.
  destruct (walk_crosses _ _ _ _ _ _ _ _ Hinv (inv_from _ _ _ _ _ Hinv)
    (inv_goal _ _ _ _ _ Hinv) Hk) as (u & Hu & Hle).
  rewrite (inv_from_depth _ _ _ _ _ Hinv) in Hle.
  assert (d cur ≤ d u); [|lia].
  pose proof (inv_sorted _ _ _ _ _ Hinv) as [Hs _]%StronglySorted_cons.
  apply elem_of_cons in Hu as [->|Hu]; [done|]. by apply (proj1 (Forall_forall _ _) Hs).
Qed.

(** [parent] leads from the goal back to [from] along a shortest path. *)
Definition found_spec (from goal : A) (parent : gmap A A) : Prop :=
  ∃ n l, chain parent from goal n l ∧ n ≤ size parent ∧
    ∀ k, nsteps edge k from goal → n ≤ k.

(** Expanding the head: either the goal is met, or the frontier keeps its head
    and everything the head sees is visited. *)
Lemma bfs_visit_inv from goal cur ns d st b st' :
  bfs_visit goal cur ns st = (b, st') → goal ≠ from → ns ⊆ nbrs cur →
  bfs_inv from goal (cur :: bq st) d st →
  if b then found_spec from goal (bparent st')
  else ∃ d', bfs_inv from goal (cur :: bq st') d' st' ∧ d' cur = d cur ∧
    (∀ n, n ∈ ns → n ∈ bvisited st' ∧ d' n ≤ S (d cur)) ∧
    (∀ v, v ∈ bvisited st → v ∈ bvisited st' ∧ d' v = d v).
Proof.
  intros Hvis Hgf. revert d st Hvis.
  induction ns as [|n ns IH]; intros d st Hvis Hsub Hinv; simpl in Hvis; simplify_eq.
  { exists d. split_and!; set_solver. }
  assert (cur ∈ bvisited st) as Hcur by (apply (inv_front _ _ _ _ _ Hinv); set_solver).
  destruct (inv_chain _ _ _ _ _ Hinv cur Hcur) as (Hlt & l & Hl).
  assert (n ∈ nbrs cur) as Hn by set_solver.
  case_decide as Hin.
  - specialize (IH d st Hvis ltac:(set_solver) Hinv). destruct b; [done|].
    destruct IH as (d' & Hinv' & Hdc & Hns & Hold). exists d'. split_and!; [done..| |done].
    intros m [->|Hm]%elem_of_cons; [|by apply Hns].
    destruct (Hold n Hin) as [? Hdn]. split; [done|]. rewrite Hdn.
    by apply (inv_width _ _ _ _ _ Hinv cur n).
  - assert (bparent st !! n = None) as Hnp.
    { apply eq_None_not_Some. intros Hsome. by apply Hin, (inv_parent _ _ _ _ _ Hinv). }
    case_decide as Hng.
    + injection Hvis as <- <-. subst n. exists (S (d cur)), (goal :: l). simpl. split_and!.
      * apply chain_step with cur; [done|by rewrite lookup_insert_eq|done|].
        by apply chain_insert.
      * rewrite map_size_insert_None by done.
        pose proof (inv_size _ _ _ _ _ Hinv). lia.
      * intros k. by apply inv_lower_bound with (queue := bq st) (st := st).
    + set (d1 := λ v, if decide (v = n) then S (d cur) else d v).
      assert (∀ v, v ∈ bvisited st → d1 v = d v) as Hd1.
      { intros v Hv. unfold d1. rewrite decide_False; [done|]. by intros ->. }
      assert (d1 n = S (d cur)) as Hdn by (unfold d1; by rewrite decide_True).
      specialize (IH d1 _ Hvis ltac:(set_solver)). simpl in IH.
      destruct b; [|destruct IH as (d' & Hinv' & Hdc & Hns & Hold)];
        [by eapply IH, inv_discover|by eapply inv_discover|].
      rewrite (Hd1 cur Hcur) in *. exists d'. split_and!; [done..| |].
      * intros m [->|Hm]%elem_of_cons; [|by apply Hns].
        destruct (Hold n) as [? ->]; [set_solver|]. split; [done|lia].
      * intros v Hv. destruct (Hold v) as [? ->]; [set_solver|]. by rewrite Hd1.
Qed.

(** Popping the head once all it sees is visited. *)
Lemma inv_pop from goal cur d st :
  bfs_inv from goal (cur :: bq st) d st →
  (∀ n, n ∈ nbrs cur → n ∈ bvisited st ∧ d n ≤ S (d cur)) →
  bfs_inv from goal (bq st) d st.
Proof.
  intros [Hf Hfr Hg Hp Hs Hc Hso Hw Hcl] Hcur.
  apply StronglySorted_cons in Hso as [Hhd Hso].
  constructor; [set_solver|done..| |].
  - intros u v Hu Hv. transitivity (S (d cur)); [by apply Hw|].
    assert (d cur ≤ d u); [|lia]. apply (proj1 (Forall_forall _ _) Hhd).
    destruct (bq st); simplify_eq/=. set_solver.
  - intros v n Hv Hvf Hn. destruct (decide (v = cur)) as [->|Hne]; [by apply Hcur|].
    apply Hcl; [done|set_solver|done].
Qed.

(** Visiting moves fresh nodes of the universe from unvisited to the queue. *)
Lemma bfs_visit_size (U : gset A) goal cur ns st st' :
  bfs_visit goal cur ns st = (false, st') → list_to_set ns ⊆ U → bvisited st ⊆ U →
  bvisited st' ⊆ U ∧
  length (bq st') + size (bvisited st) = length (bq st) + size (bvisited st').
Proof.
  revert st. induction ns as [|n ns IH]; intros st Hvis Hns Hst; simpl in *; simplify_eq.
  { done. }
  case_decide as Hin; [apply IH; [done|set_solver|done]|].
  case_decide as Hng; [done|].
  apply IH in Hvis as [Hsub Hsz]; [|set_solver|set_solver]. split; [done|].
  simpl in Hsz. rewrite length_app, size_union, size_singleton in Hsz by set_solver.
  simpl in Hsz. lia.
Qed.

(** The outer loop ends within [size U] iterations and decides reachability. *)
Lemma bfs_loop_spec (U : gset A) from goal d st fuel :
  goal ≠ from → (∀ x, x ∈ U → list_to_set (nbrs x) ⊆ U) → bvisited st ⊆ U →
  size U + length (bq st) ≤ fuel + size (bvisited st) →
  bfs_inv from goal (bq st) d st →
  ∃ b parent, bfs_loop fuel goal st = Some (b, parent) ∧
    if b : bool then found_spec from goal parent else ∀ k, ¬ nsteps edge k from goal.
Proof.
  intros Hgf HU. revert d st. induction fuel as [|fuel IH]; intros d st Hst Hfuel Hinv.
  all: destruct st as [[|cur queue] visited parent]; simpl in *.
  1, 3: exists false, parent; split; [done|]; intros k Hk.
  1, 2: destruct (walk_crosses _ _ _ _ _ _ _ _ Hinv (inv_from _ _ _ _ _ Hinv)
          (inv_goal _ _ _ _ _ Hinv) Hk) as (u & Hu & _); set_solver.
  { pose proof (subseteq_size _ _ Hst). lia. }
  destruct (bfs_visit goal cur (nbrs cur) (mkBfs queue visited parent)) as [b st'] eqn:Hv.
  assert (cur ∈ U) as HcU by (apply Hst, (inv_front _ _ _ _ _ Hinv); set_solver).
  assert (bfs_inv from goal (cur :: queue) d (mkBfs queue visited parent)) as Hinv0.
  { destruct Hinv. by constructor. }
  pose proof (bfs_visit_inv _ _ _ _ _ _ _ _ Hv Hgf ltac:(done) Hinv0) as Hspec.
  destruct b; [by exists true, (bparent st')|].
  destruct Hspec as (d' & Hinv' & Hdc & Hns & _).
  destruct (bfs_visit_size U _ _ _ _ _ Hv (HU cur HcU) Hst) as [Hsub Hsz]. simpl in Hsz.
  apply (IH d' st'); [done|lia|]. apply inv_pop with cur; [done|].
  intros n Hn. rewrite Hdc. by apply Hns.
Qed.

Lemma bfs_inv_init from goal :
  goal ≠ from → bfs_inv from goal [from] (λ _, 0) (mkBfs [from] {[from]} ∅).
Proof.
  intros Hne. constructor; cbn [bvisited bparent]; [set_solver..| | | | | |].
  - intros v [u Hu]. done.
  - by rewrite size_singleton, map_size_empty.
  - intros v ->%elem_of_singleton. rewrite size_singleton. split; [lia|].
    exists [from]. apply chain_root.
  - constructor; constructor.
  - intros. lia.
  - intros v n ->%elem_of_singleton. set_solver.
Qed.

(** The search is total and correct once the fuel covers a universe closed under
    [nbrs]: a returned path is a shortest path, and "not found" means that the
    goal is unreachable. *)
Lemma bfs_correct (U : gset A) from goal fuel :
  goal ≠ from → from ∈ U → (∀ x, x ∈ U → list_to_set (nbrs x) ⊆ U) → size U ≤ fuel →
  ∃ r, bfs fuel from goal = Some r ∧
    match r with
    | Some p => is_path from goal p ∧ ∀ k, nsteps edge k from goal → length p ≤ S k
    | None => ∀ k, ¬ nsteps edge k from goal
    end.
Proof.
  intros Hne HfU HU Hfuel.
  destruct (bfs_loop_spec U from goal (λ _, 0) (mkBfs [from] {[from]} ∅) fuel)
    as (b & parent & Hloop & Hspec); [done|done|set_solver| |by apply bfs_inv_init|].
  { cbn [bvisited bq length]. rewrite size_singleton. lia. }
  unfold bfs. rewrite Hloop. cbn -[backtrack]. destruct b; [|by eexists].
  destruct Hspec as (n & l & Hl & Hn & Hmin).
  rewrite (chain_backtrack _ _ _ _ _ _ Hl) by lia. cbn.
  eexists. split; [done|]. split; [by eapply chain_path|].
  intros k Hk. rewrite length_reverse, (chain_length _ _ _ _ _ Hl).
  apply Hmin in Hk. lia.
Qed.

(** A path of the code is a walk of the neighbour relation. *)
Lemma is_path_nsteps from goal p :
  is_path from goal p → nsteps edge (pred (length p)) from goal.
Proof.
  intros (Hh & Hl & He). destruct p as [|x p]; [done|]. simplify_eq/=.
  revert from Hl He. induction p as [|y p IH]; intros from Hl He; simplify_eq/=; [constructor|].
  apply nsteps_l with y; [by apply (He 0)|]. apply IH; [done|].
  intros i a b Ha Hb. by apply (He (S i)).
Qed.
End bfs.
#[global] Arguments mkBfs {A _ _} _ _ _.
