(* ===== verification/Layout.v ===== *)
(** * The prison map: tiles, rooms, doors, zones and path finding

    [internal/gamecore/map/layout.go].  A [Layout] is built by a [layoutBuilder];
    the builder writes tiles by index, and Go panics on an index out of range, so a
    building step is an [option].  The two path searches are instances of [Bfs]. *)

From S2P Require Import Prelude Float32 Model GoStrings Bfs.

#[local] Open Scope Z_scope.

(** ** Rooms and tiles *)

Definition RoomCorridorMain : RoomID := "corridor_main".
Definition RoomWardenHQ : RoomID := "warden_hq".
Definition RoomCameraRoom : RoomID := "camera_room".
Definition RoomPowerRoom : RoomID := "power_room".
Definition RoomAmmoRoom : RoomID := "ammunition_room".
Definition RoomMailRoom : RoomID := "mail_room".
Definition RoomCellBlockA : RoomID := "cell_block_a".
Definition RoomCafeteria : RoomID := "cafeteria".
Definition RoomCourtyard : RoomID := "courtyard".
Definition RoomBlackMarket : RoomID := "black_market".
Definition RoomRoofLookout : RoomID := "roof_lookout".

Inductive TileKind := TileWall | TileFloor | TileDoor.
#[export] Instance TileKind_eq_dec : EqDecision TileKind.
Proof. solve_decision. Defined.

Record Point := mkPoint { pt_X : Z; pt_Y : Z }.
#[export] Instance Point_eq_dec : EqDecision Point.
Proof. solve_decision. Defined.
#[export] Instance Point_countable : Countable Point.
Proof.
  refine (inj_countable' (λ p, (pt_X p, pt_Y p)) (λ '(x, y), mkPoint x y) _).
  by intros [].
Defined.

Record Tile := mkTile { tl_Kind : TileKind; tl_RoomID : RoomID }.
#[export] Instance Tile_eq_dec : EqDecision Tile.
Proof. solve_decision. Defined.
Definition zero_Tile : Tile := mkTile TileWall "".

Definition Walkable (t : Tile) : bool := (tl_Kind t ≟ TileFloor) || (tl_Kind t ≟ TileDoor).

Record Room := mkRoom {
  rm_ID : RoomID; rm_Name : string; rm_Min : Point; rm_Max : Point; rm_IsCorridor : bool;
}.

Definition Contains (r : Room) (point : Point) : bool :=
  (pt_X (rm_Min r) <=? pt_X point) && (pt_X point <=? pt_X (rm_Max r)) &&
  (pt_Y (rm_Min r) <=? pt_Y point) && (pt_Y point <=? pt_Y (rm_Max r)).

Record RestrictedZone := mkRestricted { rz_ID : ZoneID; rz_Name : string; rz_RoomID : RoomID }.

Record DoorLink := mkDoorLink {
  dl_ID : DoorID; dl_RoomA : RoomID; dl_RoomB : RoomID; dl_Position : Point; dl_Locked : bool;
}.

Record Cell := mkLayoutCell { cl_ID : CellID; cl_RoomID : RoomID; cl_DoorID : DoorID }.

Record RoomAccessCheck := mkAccessCheck {
  ac_FromRoom : RoomID; ac_ToRoom : RoomID; ac_Reachable : bool;
  ac_TargetRestricted : bool; ac_RoomPath : list RoomID;
}.

Record Layout := mkLayout {
  ly_width : Z;
  ly_height : Z;
  ly_tiles : list Tile;
  ly_rooms : gmap RoomID Room;
  ly_roomOrder : list RoomID;
  ly_corridorRooms : gset RoomID;
  ly_doors : list DoorLink;
  ly_doorByPoint : gmap Point DoorLink;
  ly_cells : list Cell;
  ly_restrictedZones : list RestrictedZone;
  ly_restrictedByRoom : gmap RoomID RestrictedZone;
  ly_roomGraph : gmap RoomID (list RoomID);
  ly_blackMarketRoom : RoomID;
}.

(** ** Queries *)

Definition InBounds (l : Layout) (point : Point) : bool :=
  (0 <=? pt_X point) && (0 <=? pt_Y point) &&
  (pt_X point <? ly_width l) && (pt_Y point <? ly_height l).

Definition index (l : Layout) (point : Point) : option Z :=
  if InBounds l point then Some (pt_Y point * ly_width l + pt_X point) else None.

Definition pointForIndex (l : Layout) (i : Z) : Point :=
  mkPoint (i mod ly_width l) (i / ly_width l).

(** [l.tiles[i]]: in range for every index of a well-formed layout ([layout_wf]
    below), so the default is never read. *)
Definition tile_at (l : Layout) (i : Z) : Tile := default zero_Tile (ly_tiles l !! Z.to_nat i).

Definition TileAt (l : Layout) (point : Point) : option Tile := tile_at l <$> index l point.

Definition IsWalkable (l : Layout) (point : Point) : bool :=
  match TileAt l point with Some tile => Walkable tile | None => false end.

Definition RoomAt (l : Layout) (point : Point) : option RoomID :=
  match TileAt l point with
  | Some tile => if tl_RoomID tile ≟ "" then None else Some (tl_RoomID tile)
  | None => None
  end.

Definition HasRoom (l : Layout) (roomID : RoomID) : bool := bool_decide (is_Some (ly_rooms l !! roomID)).

Definition RoomOf (l : Layout) (roomID : RoomID) : option Room := ly_rooms l !! roomID.

Definition Rooms (l : Layout) : list Room :=
  map (λ roomID, default (mkRoom "" "" (mkPoint 0 0) (mkPoint 0 0) false) (ly_rooms l !! roomID))
    (ly_roomOrder l).

Definition IsCorridorRoom (l : Layout) (roomID : RoomID) : bool :=
  bool_decide (roomID ∈ ly_corridorRooms l).

Definition DoorLinkAt (l : Layout) (point : Point) : option DoorLink := ly_doorByPoint l !! point.

Definition IsRoomRestricted (l : Layout) (roomID : RoomID) : bool :=
  bool_decide (is_Some (ly_restrictedByRoom l !! roomID)).

(** ** Room paths *)

Definition room_neighbors (l : Layout) (r : RoomID) : list RoomID := default [] (ly_roomGraph l !! r).

(** Every room the search can meet; its size bounds the loop. *)
Definition room_universe (l : Layout) (fromRoom : RoomID) : gset RoomID :=
  {[fromRoom]} ∪ list_to_set (concat (snd <$> map_to_list (ly_roomGraph l))).

(** The outer option is fuel exhaustion ([FindRoomPath_spec]: it never is). *)
Definition FindRoomPath (l : Layout) (fromRoom toRoom : RoomID) : option (option (list RoomID)) :=
  if negb (HasRoom l fromRoom) || negb (HasRoom l toRoom) then Some None
  else if fromRoom ≟ toRoom then Some (Some [fromRoom])
  else bfs (room_neighbors l) "" (size (room_universe l fromRoom)) fromRoom toRoom.

Inductive layout_error := ErrRoomNotFound | ErrNoTilePathFound.

Definition AreRoomsConnected (l : Layout) (fromRoom toRoom : RoomID) : bool :=
  match FindRoomPath l fromRoom toRoom with Some (Some _) => true | _ => false end.

Definition CheckRoomAccess (l : Layout) (fromRoom toRoom : RoomID) : layout_error + RoomAccessCheck :=
  if negb (HasRoom l fromRoom) || negb (HasRoom l toRoom) then inl ErrRoomNotFound
  else
    let found := match FindRoomPath l fromRoom toRoom with Some r => r | None => None end in
    inr (mkAccessCheck fromRoom toRoom (bool_decide (is_Some found))
           (IsRoomRestricted l toRoom) (default [] found)).

(** ** Tile paths *)

Definition directions : list Point := [mkPoint 0 (-1); mkPoint (-1) 0; mkPoint 1 0; mkPoint 0 1].

(** The neighbours the inner loop does not skip, in its order. *)
Definition tile_neighbors (l : Layout) (current : Z) : list Z :=
  let p := pointForIndex l current in
  omap (λ d, i ← index l (mkPoint (pt_X p + pt_X d) (pt_Y p + pt_Y d));
             if Walkable (tile_at l i) then Some i else None) directions.

Definition walkable_index (l : Layout) (p : Point) : option Z :=
  i ← index l p; if Walkable (tile_at l i) then Some i else None.

Definition FindPath (l : Layout) (start stop : Point) : option (layout_error + list Point) :=
  match walkable_index l start, walkable_index l stop with
  | Some startIndex, Some endIndex =>
      if startIndex ≟ endIndex then Some (inr [start])
      else
        r ← bfs (tile_neighbors l) 0 (length (ly_tiles l)) startIndex endIndex;
        match r with
        | Some path => Some (inr (map (pointForIndex l) path))
        | None => Some (inl ErrNoTilePathFound)
        end
  | _, _ => Some (inl ErrNoTilePathFound)
  end.

(** ** Building *)

Record layoutBuilder := mkBuilder {
  lb_width : Z;
  lb_height : Z;
  lb_tiles : list Tile;
  lb_rooms : gmap RoomID Room;
  lb_corridorRooms : gset RoomID;
  lb_doors : list DoorLink;
  lb_cells : list Cell;
  lb_restrictedByID : gmap ZoneID RestrictedZone;
  lb_restrictedByRoom : gmap RoomID RestrictedZone;
  lb_roomGraph : gmap RoomID (gset RoomID);
  lb_blackMarketRoom : RoomID;
}.
#[export] Instance layoutBuilder_eta : RecordEta layoutBuilder := λ b,
  mkBuilder (lb_width b) (lb_height b) (lb_tiles b) (lb_rooms b) (lb_corridorRooms b)
    (lb_doors b) (lb_cells b) (lb_restrictedByID b) (lb_restrictedByRoom b)
    (lb_roomGraph b) (lb_blackMarketRoom b).

Definition newLayoutBuilder (width height : Z) : layoutBuilder :=
  mkBuilder width height (replicate (Z.to_nat (width * height)) (mkTile TileWall ""))
    ∅ ∅ [] [] ∅ ∅ ∅ "".

(** [b.tiles[i] = t]; out of range is a panic. *)
Definition write_tile (i : Z) (t : Tile) (tiles : list Tile) : option (list Tile) :=
  if (0 <=? i) && (i <? Z.of_nat (length tiles)) then Some (<[Z.to_nat i := t]> tiles) else None.

Definition z_range (lo hi : Z) : list Z :=
  map (λ k, lo + Z.of_nat k) (seq 0 (Z.to_nat (hi - lo + 1))).

Fixpoint write_tiles (indices : list Z) (t : Tile) (tiles : list Tile) : option (list Tile) :=
  match indices with
  | [] => Some tiles
  | i :: indices => tiles' ← write_tile i t tiles; write_tiles indices t tiles'
  end.

Definition graph_node (r : RoomID) (g : gmap RoomID (gset RoomID)) : gmap RoomID (gset RoomID) :=
  match g !! r with Some _ => g | None => <[r := ∅]> g end.

Definition graph_edge (a b : RoomID) (g : gmap RoomID (gset RoomID)) : gmap RoomID (gset RoomID) :=
  alter (λ s, {[b]} ∪ s) a g.

Definition carveRoom (roomID : RoomID) (name : string) (minX minY maxX maxY : Z)
    (isCorridor : bool) (b : layoutBuilder) : option layoutBuilder :=
  let room := mkRoom roomID name (mkPoint minX minY) (mkPoint maxX maxY) isCorridor in
  let indices := y ← z_range minY maxY; x ← z_range minX maxX; [y * lb_width b + x] in
  tiles ← write_tiles indices (mkTile TileFloor roomID) (lb_tiles b);
  Some (b <| lb_rooms ::= <[roomID := room]> |>
          <| lb_corridorRooms ::= λ s, if isCorridor then {[roomID]} ∪ s else s |>
          <| lb_roomGraph ::= graph_node roomID |>
          <| lb_tiles := tiles |>).

Definition addDoor (doorID : DoorID) (roomA roomB : RoomID) (position : Point) (locked : bool)
    (b : layoutBuilder) : option layoutBuilder :=
  let assignedRoomID := if decide (roomB ∈ lb_corridorRooms b) then roomB else roomA in
  tiles ← write_tile (pt_Y position * lb_width b + pt_X position)
            (mkTile TileDoor assignedRoomID) (lb_tiles b);
  Some (b <| lb_tiles := tiles |>
          <| lb_doors ::= λ ds, ds ++ [mkDoorLink doorID roomA roomB position locked] |>
          <| lb_roomGraph ::= λ g,
               graph_edge roomB roomA (graph_edge roomA roomB (graph_node roomB (graph_node roomA g))) |>).

Definition addRestrictedZone (zoneID : ZoneID) (roomID : RoomID) (name : string)
    (b : layoutBuilder) : option layoutBuilder :=
  let zone := mkRestricted zoneID name roomID in
  Some (b <| lb_restrictedByID ::= <[zoneID := zone]> |>
          <| lb_restrictedByRoom ::= <[roomID := zone]> |>).

Definition addCell (cellID : CellID) (roomID : RoomID) (doorID : DoorID)
    (b : layoutBuilder) : option layoutBuilder :=
  Some (b <| lb_cells ::= λ cs, cs ++ [mkLayoutCell cellID roomID doorID] |>).

Definition build (b : layoutBuilder) : Layout :=
  let doors := sort_by Z.le dl_ID (lb_doors b) in
  let restrictedIDs := sort_by Z.le id (elements (dom (lb_restrictedByID b))) in
  {| ly_width := lb_width b;
     ly_height := lb_height b;
     ly_tiles := lb_tiles b;
     ly_rooms := lb_rooms b;
     ly_roomOrder := sort_strings (elements (dom (lb_rooms b)));
     ly_corridorRooms := lb_corridorRooms b;
     ly_doors := doors;
     ly_doorByPoint := foldl (λ m door, <[dl_Position door := door]> m) ∅ doors;
     ly_cells := sort_by Z.le cl_ID (lb_cells b);
     ly_restrictedZones := omap (λ zoneID, lb_restrictedByID b !! zoneID) restrictedIDs;
     ly_restrictedByRoom := lb_restrictedByRoom b;
     ly_roomGraph := (λ neighbors, sort_strings (elements neighbors)) <$> lb_roomGraph b;
     ly_blackMarketRoom := lb_blackMarketRoom b |}.

Fixpoint run_builder (steps : list (layoutBuilder → option layoutBuilder)) (b : layoutBuilder) :
    option layoutBuilder :=
  match steps with
  | [] => Some b
  | step :: steps => b' ← step b; run_builder steps b'
  end.

Definition DefaultPrisonLayout_steps : list (layoutBuilder → option layoutBuilder) :=
  [ carveRoom RoomCorridorMain "Main Corridor" 1 19 74 24 true;
    carveRoom RoomWardenHQ "Warden HQ" 1 2 13 17 false;
    carveRoom RoomCameraRoom "Camera Room" 16 2 28 17 false;
    carveRoom RoomPowerRoom "Power Room" 31 2 43 17 false;
    carveRoom RoomAmmoRoom "Ammunition Room" 46 2 58 17 false;
    carveRoom RoomMailRoom "Mail Room" 61 2 73 17 false;
    carveRoom RoomCellBlockA "Cell Block A" 1 26 13 41 false;
    carveRoom RoomCafeteria "Cafeteria" 16 26 28 41 false;
    carveRoom RoomCourtyard "Courtyard" 31 26 43 41 false;
    carveRoom RoomBlackMarket "Black Market" 46 26 58 41 false;
    carveRoom RoomRoofLookout "Roof Lookout" 61 26 73 41 false;
    addDoor 1 RoomWardenHQ RoomCorridorMain (mkPoint 7 18) false;
    addDoor 2 RoomCameraRoom RoomCorridorMain (mkPoint 22 18) false;
    addDoor 3 RoomPowerRoom RoomCorridorMain (mkPoint 37 18) false;
    addDoor 4 RoomAmmoRoom RoomCorridorMain (mkPoint 52 18) false;
    addDoor 5 RoomMailRoom RoomCorridorMain (mkPoint 67 18) false;
    addDoor 6 RoomCellBlockA RoomCorridorMain (mkPoint 7 25) false;
    addDoor 7 RoomCafeteria RoomCorridorMain (mkPoint 22 25) false;
    addDoor 8 RoomCourtyard RoomCorridorMain (mkPoint 37 25) false;
    addDoor 9 RoomBlackMarket RoomCorridorMain (mkPoint 52 25) false;
    addDoor 10 RoomRoofLookout RoomCorridorMain (mkPoint 67 25) false;
    addRestrictedZone 1 RoomWardenHQ "Warden HQ";
    addRestrictedZone 2 RoomCameraRoom "Camera Room";
    addRestrictedZone 3 RoomAmmoRoom "Ammunition Room";
    addRestrictedZone 4 RoomPowerRoom "Power Room";
    addCell 1 RoomCellBlockA 201;
    addCell 2 RoomCellBlockA 202;
    addCell 3 RoomCellBlockA 203;
    addCell 4 RoomCellBlockA 204;
    addCell 5 RoomCellBlockA 205;
    addCell 6 RoomCellBlockA 206;
    addCell 7 RoomCellBlockA 207;
    addCell 8 RoomCellBlockA 208;
    addCell 9 RoomCellBlockA 209;
    addCell 10 RoomCellBlockA 210;
    addCell 11 RoomCellBlockA 211;
    addCell 12 RoomCellBlockA 212 ].

Definition DefaultPrisonLayout : option Layout :=
  b ← run_builder DefaultPrisonLayout_steps (newLayoutBuilder 76 44);
  Some (build (b <| lb_blackMarketRoom := RoomBlackMarket |>)).

(** The layout the match manager keeps in a package variable
    ([defaultMatchLayout] of manager.go); [default_layout_builds] below says that
    no building step panics, so the fallback is never taken. *)
Definition defaultMatchLayout : Layout := default (build (newLayoutBuilder 0 0)) DefaultPrisonLayout.

(** ** The initial map state *)

Definition cellInteriorRoomID (cellID : CellID) : RoomID := "cell_a_" +:+ Itoa03 cellID.

Definition ToMapState (l : Layout) : MapState :=
  let doors :=
    map (λ door, mkDoor (dl_ID door) (dl_RoomA door) (dl_RoomB door) true (dl_Locked door) true 0 "")
      (ly_doors l) ++
    map (λ cell, mkDoor (cl_DoorID cell) RoomCellBlockA (cellInteriorRoomID (cl_ID cell))
                   false false true 0 "") (ly_cells l) in
  let cells := map (λ cell, mkCell (cl_ID cell) "" (cl_DoorID cell) [] []) (ly_cells l) in
  let zones := map (λ zone, mkZone (rz_ID zone) (rz_RoomID zone) true (rz_Name zone))
                 (ly_restrictedZones l) in
  mkMap true (mkAlarm false 0 "") (ly_blackMarketRoom l)
    (sort_by Z.le ds_ID doors) (sort_by Z.le cs_ID cells) (sort_by Z.le zs_ID zones).

(** ** Well-formed layouts *)

Definition layout_wf (l : Layout) : Prop :=
  0 <= ly_width l ∧ 0 <= ly_height l ∧
  Z.of_nat (length (ly_tiles l)) = ly_width l * ly_height l.

(** A unit step between tiles that [FindPath] may take. *)
Definition tile_step (l : Layout) : relation Point := λ p q,
  IsWalkable l q = true ∧ ∃ d, d ∈ directions ∧ q = mkPoint (pt_X p + pt_X d) (pt_Y p + pt_Y d).

Definition is_point_path (l : Layout) (start stop : Point) (path : list Point) : Prop :=
  head path = Some start ∧ last path = Some stop ∧
  ∀ i p q, path !! i = Some p → path !! S i = Some q → tile_step l p q.

(** ** Room paths are total, sound, shortest and complete *)

Lemma room_universe_closed l r x :
  x ∈ room_universe l r → list_to_set (room_neighbors l x) ⊆ room_universe l r.
Proof.
  intros _ y. unfold room_neighbors. rewrite elem_of_list_to_set.
  destruct (ly_roomGraph l !! x) as [ns|] eqn:Hns; simpl; [|set_solver].
  intros Hy. unfold room_universe. rewrite elem_of_union, elem_of_list_to_set. right.
  apply list_elem_of_In, in_concat.
  exists ns. split; [|by apply list_elem_of_In].
  apply list_elem_of_In, list_elem_of_fmap. exists (x, ns). split; [done|].
  by apply elem_of_map_to_list.
Qed.

(** [FindRoomPath] always returns.  A path it returns goes from the first room
    to the second along edges of the room graph and no walk between them has fewer
    rooms; when it returns none, a room is unknown or no walk exists. *)
Theorem FindRoomPath_spec l fromRoom toRoom :
  ∃ r, FindRoomPath l fromRoom toRoom = Some r ∧
    match r with
    | Some path =>
        is_path (room_neighbors l) fromRoom toRoom path ∧
        ∀ k, nsteps (edge (room_neighbors l)) k fromRoom toRoom → (length path ≤ S k)%nat
    | None =>
        HasRoom l fromRoom = false ∨ HasRoom l toRoom = false ∨
        ∀ k, ¬ nsteps (edge (room_neighbors l)) k fromRoom toRoom
    end.
Proof.
  unfold FindRoomPath. destruct (HasRoom l fromRoom) eqn:Hf; [|eexists; split; [done|]; simpl; tauto].
  destruct (HasRoom l toRoom) eqn:Ht; [|eexists; split; [done|]; simpl; tauto]. simpl.
  case_bool_decide as Heq.
  - subst. eexists. split; [done|]. simpl. split; [|lia].
    split_and!; [done..|]. intros [|i]; simpl; done.
  - destruct (bfs_correct (room_neighbors l) "" (room_universe l fromRoom) fromRoom toRoom
      (size (room_universe l fromRoom))) as (r & Hr & Hspec);
      [done|unfold room_universe; set_solver| |lia|].
    + intros x Hx. by apply room_universe_closed.
    + exists r. split; [done|]. destruct r; eauto.
Qed.

(** ** Tile paths *)

Section tile_paths.
Variable l : Layout.
Hypothesis Hwf : layout_wf l.

Definition tile_index_set : gset Z := list_to_set (map Z.of_nat (seq 0 (length (ly_tiles l)))).

Lemma index_range p i : index l p = Some i → 0 <= i < Z.of_nat (length (ly_tiles l)).
Proof.
  destruct Hwf as (Hw & Hh & Hlen). unfold index, InBounds. case_match eqn:Hb; [|done].
  intros [= <-]. bool_props. rewrite Hlen. nia.
Qed.

Lemma elem_of_tile_index_set i :
  i ∈ tile_index_set ↔ 0 <= i < Z.of_nat (length (ly_tiles l)).
Proof.
  unfold tile_index_set. rewrite elem_of_list_to_set, list_elem_of_fmap. split.
  - intros (k & -> & Hk%elem_of_seq). lia.
  - intros Hi. exists (Z.to_nat i). split; [lia|]. apply elem_of_seq. lia.
Qed.

Lemma pointForIndex_index p i : index l p = Some i → pointForIndex l i = p.
Proof.
  unfold index, InBounds. case_match eqn:Hb; [|done]. intros [= <-]. bool_props.
  unfold pointForIndex. destruct p as [x y]; simpl in *. f_equal.
  - rewrite Z.add_comm, Z_mod_plus_full. apply Z.mod_small. lia.
  - rewrite Z.add_comm, Z_div_plus_full by lia. rewrite Z.div_small; lia.
Qed.

Lemma walkable_index_Some p i :
  walkable_index l p = Some i ↔ index l p = Some i ∧ IsWalkable l p = true.
Proof.
  unfold walkable_index, IsWalkable, TileAt. destruct (index l p) as [j|]; simpl; [|naive_solver].
  destruct (Walkable _) eqn:Hw; naive_solver.
Qed.

Lemma tile_edge_step i j p :
  index l p = Some i →
  edge (tile_neighbors l) i j ↔ ∃ q, index l q = Some j ∧ tile_step l p q.
Proof.
  intros Hp. unfold edge, tile_neighbors. rewrite (pointForIndex_index p i Hp).
  rewrite list_elem_of_omap. split.
  - intros (d & Hd & Hj). fold (walkable_index l (mkPoint (pt_X p + pt_X d) (pt_Y p + pt_Y d))) in Hj.
    apply walkable_index_Some in Hj as [Hi Hw]. eexists. split; [done|]. split; [done|]. eauto.
  - intros (q & Hq & Hw & d & Hd & ->). exists d. split; [done|].
    fold (walkable_index l (mkPoint (pt_X p + pt_X d) (pt_Y p + pt_Y d))).
    by apply walkable_index_Some.
Qed.

Lemma walkable_has_index p : IsWalkable l p = true → ∃ i, index l p = Some i.
Proof. unfold IsWalkable, TileAt. destruct (index l p); simpl; [eauto|done]. Qed.

Lemma tile_nsteps k p q i j :
  index l p = Some i → index l q = Some j →
  nsteps (tile_step l) k p q → nsteps (edge (tile_neighbors l)) k i j.
Proof.
  intros Hp Hq Hk. revert i Hp. induction Hk as [p|k p r q Hpr Hrq IH]; intros i Hp.
  - rewrite Hp in Hq. injection Hq as ->. constructor.
  - destruct (walkable_has_index r (proj1 Hpr)) as [m Hm].
    apply nsteps_l with m; [|by apply IH]. apply (tile_edge_step i m p Hp). eauto.
Qed.

Lemma tile_path_points i j path p q :
  index l p = Some i → index l q = Some j →
  is_path (tile_neighbors l) i j path → is_point_path l p q (map (pointForIndex l) path).
Proof.
  intros Hp Hq (Hh & Hl & He). split_and!.
  - rewrite head_lookup, list_lookup_fmap, <-head_lookup, Hh. simpl.
    by rewrite (pointForIndex_index p i).
  - rewrite fmap_last, Hl. simpl. by rewrite (pointForIndex_index q j).
  - assert (∀ k a, path !! k = Some a → ∃ r, index l r = Some a) as Hidx.
    { intros k. induction k as [|k IH]; intros a Ha.
      - rewrite head_lookup, Ha in Hh. naive_solver.
      - assert (is_Some (path !! k)) as [b Hb].
        { apply lookup_lt_is_Some. apply lookup_lt_Some in Ha. lia. }
        destruct (IH b Hb) as [r Hr]. specialize (He k b a Hb Ha).
        apply (tile_edge_step b a r Hr) in He as (s & Hs & _). eauto. }
    intros k r s Hr Hs. rewrite list_lookup_fmap_Some in Hr, Hs.
    destruct Hr as (a & -> & Ha), Hs as (b & -> & Hb).
    destruct (Hidx k a Ha) as [r Hr]. specialize (He k a b Ha Hb).
    apply (tile_edge_step a b r Hr) in He as (s & Hs & Hst).
    by rewrite (pointForIndex_index r a), (pointForIndex_index s b).
Qed.
End tile_paths.

(** C39: On a well-formed layout [FindPath] always returns.  A path it returns
    starts and ends where asked, moves one tile at a time through walkable tiles
    and is a shortest such path; it fails exactly when an end is not walkable or no
    walk exists. *)
Theorem FindPath_spec l start stop (Hwf : layout_wf l) :
  ∃ r, FindPath l start stop = Some r ∧
    match r with
    | inr path =>
        IsWalkable l start = true ∧ is_point_path l start stop path ∧
        ∀ k, nsteps (tile_step l) k start stop → (length path ≤ S k)%nat
    | inl e =>
        e = ErrNoTilePathFound ∧
        (IsWalkable l start = false ∨ IsWalkable l stop = false ∨
         ∀ k, ¬ nsteps (tile_step l) k start stop)
    end.
Proof.
  assert (∀ p, walkable_index l p = None → IsWalkable l p = false) as Hnone.
  { intros p Hp. destruct (IsWalkable l p) eqn:Hw; [|done].
    destruct (walkable_has_index l p Hw) as [i Hi].
    by rewrite (proj2 (walkable_index_Some l p i) (conj Hi Hw)) in Hp. }
  unfold FindPath. destruct (walkable_index l start) as [i|] eqn:Hi;
    [|eexists; split; [done|]; simpl; auto].
  destruct (walkable_index l stop) as [j|] eqn:Hj; [|eexists; split; [done|]; simpl; auto].
  apply walkable_index_Some in Hi as [Hi Hwi], Hj as [Hj Hwj].
  case_bool_decide as Heq.
  { subst j. assert (start = stop) as <-.
    { by rewrite <-(pointForIndex_index l start i Hi), <-(pointForIndex_index l stop i Hj). }
    eexists. split; [done|]. simpl. split_and!; [done| |lia]. split_and!; [done..|].
    by intros [|k]. }
  destruct (bfs_correct (tile_neighbors l) 0 (tile_index_set l) i j (length (ly_tiles l)))
    as (r & Hr & Hspec); [done| | | |].
  - apply elem_of_tile_index_set. by apply index_range with start.
  - intros x _ y. rewrite elem_of_list_to_set, elem_of_tile_index_set. unfold tile_neighbors.
    rewrite list_elem_of_omap. intros (d & _ & Hy).
    fold (walkable_index l (mkPoint (pt_X (pointForIndex l x) + pt_X d)
                                    (pt_Y (pointForIndex l x) + pt_Y d))) in Hy.
    apply walkable_index_Some in Hy as [Hy _]. by eapply index_range.
  - unfold tile_index_set. rewrite size_list_to_set.
    + by rewrite length_map, length_seq.
    + apply NoDup_fmap_2; [by intros ??; lia|]. apply NoDup_seq.
  - rewrite Hr. simpl. destruct r as [path|]; eexists; (split; [done|]); simpl.
    + destruct Hspec as [Hp Hmin]. split_and!; [done| |].
      * by eapply tile_path_points.
      * intros k Hk. rewrite length_map. apply Hmin. by eapply tile_nsteps.
    + split; [done|]. right; right. intros k Hk. apply (Hspec k). by eapply tile_nsteps.
Qed.

(** ** The builder keeps the tile array as large as its dimensions say *)

Definition builder_wf (b : layoutBuilder) : Prop :=
  0 <= lb_width b ∧ 0 <= lb_height b ∧
  Z.of_nat (length (lb_tiles b)) = lb_width b * lb_height b.

Definition keeps_wf (step : layoutBuilder → option layoutBuilder) : Prop :=
  ∀ b b', step b = Some b' → builder_wf b → builder_wf b'.

Lemma write_tile_length i t tiles tiles' :
  write_tile i t tiles = Some tiles' → length tiles' = length tiles.
Proof. unfold write_tile. case_match; [|done]. intros [= <-]. apply length_insert. Qed.

Lemma write_tiles_length idxs t tiles tiles' :
  write_tiles idxs t tiles = Some tiles' → length tiles' = length tiles.
Proof.
  revert tiles. induction idxs as [|i idxs IH]; intros tiles; simpl; [by intros [= <-]|].
  rewrite bind_Some. intros (tiles1 & H1 & H2). rewrite (IH tiles1 H2).
  by eapply write_tile_length.
Qed.

Lemma carveRoom_wf id name x0 y0 x1 y1 c : keeps_wf (carveRoom id name x0 y0 x1 y1 c).
Proof.
  intros b b'. unfold carveRoom. rewrite bind_Some. intros (tiles & Ht & [= <-]).
  apply write_tiles_length in Ht. unfold builder_wf. simpl. by rewrite Ht.
Qed.

Lemma addDoor_wf id ra rb p lk : keeps_wf (addDoor id ra rb p lk).
Proof.
  intros b b'. unfold addDoor. rewrite bind_Some. intros (tiles & Ht & [= <-]).
  apply write_tile_length in Ht. unfold builder_wf. simpl. by rewrite Ht.
Qed.

Lemma addRestrictedZone_wf z r n : keeps_wf (addRestrictedZone z r n).
Proof. by intros b b' [= <-]. Qed.

Lemma addCell_wf c r d : keeps_wf (addCell c r d).
Proof. by intros b b' [= <-]. Qed.

Lemma run_builder_wf steps b b' :
  Forall keeps_wf steps → run_builder steps b = Some b' → builder_wf b → builder_wf b'.
Proof.
  intros Hs. revert b. induction Hs as [|step steps Hstep Hs IH]; intros b; simpl.
  - by intros [= <-].
  - rewrite bind_Some. intros (b1 & H1 & H2) Hb. apply (IH b1); [done|]. by eapply Hstep.
Qed.

Lemma newLayoutBuilder_wf w h : 0 <= w → 0 <= h → builder_wf (newLayoutBuilder w h).
Proof.
  intros Hw Hh. split_and!; [done..|]. simpl. rewrite length_replicate. nia.
Qed.

Create HintDb prison_layout.
#[export] Hint Resolve carveRoom_wf addDoor_wf addRestrictedZone_wf addCell_wf : prison_layout.

(** ** The match layout *)

(** The door's tile is a door, and the tiles beside it lie in the rooms it joins. *)
Definition door_joins (l : Layout) (door : DoorLink) : bool :=
  let p := dl_Position door in
  let beside r := existsb (λ d, RoomAt l (mkPoint (pt_X p + pt_X d) (pt_Y p + pt_Y d)) ≟ Some r)
                    directions in
  (TileAt l p ≟ Some (mkTile TileDoor RoomCorridorMain)) &&
  beside (dl_RoomA door) && beside (dl_RoomB door).

Definition default_room_ids : list RoomID :=
  [RoomAmmoRoom; RoomBlackMarket; RoomCafeteria; RoomCameraRoom; RoomCellBlockA;
   RoomCorridorMain; RoomCourtyard; RoomMailRoom; RoomPowerRoom; RoomRoofLookout; RoomWardenHQ].

(** The room has tiles, its corners are on the map, and unless it is the corridor every
    tile between them is a walkable tile of the room. *)
Definition room_solid (l : Layout) (roomID : RoomID) : bool :=
  match RoomOf l roomID with
  | None => false
  | Some room =>
      let lo := rm_Min room in
      let hi := rm_Max room in
      (rm_ID room ≟ roomID) && Bool.eqb (rm_IsCorridor room) (roomID ≟ RoomCorridorMain) &&
      (0 <=? pt_X lo) && (pt_X lo <=? pt_X hi) && (pt_X hi <? 256) &&
      (0 <=? pt_Y lo) && (pt_Y lo <=? pt_Y hi) && (pt_Y hi <? 256) &&
      (rm_IsCorridor room ||
       forallb (λ x, forallb (λ y, (RoomAt l (mkPoint x y) ≟ Some roomID) && IsWalkable l (mkPoint x y))
         (z_range (pt_Y lo) (pt_Y hi))) (z_range (pt_X lo) (pt_X hi)))
  end.

Definition layout_check (l : Layout) : bool :=
  let rooms := ly_roomOrder l in
  (rooms ≟ default_room_ids) && forallb (room_solid l) rooms &&
  forallb (λ a, forallb (AreRoomsConnected l a) rooms) rooms &&
  forallb (door_joins l) (ly_doors l) &&
  (map rm_ID (Rooms l) ≟ default_room_ids) &&
  (map ds_ID (ms_Doors (ToMapState l)) ≟ (z_range 1 10 ++ z_range 201 212)) &&
  ((map cs_DoorID (ms_Cells (ToMapState l)) ≟ z_range 201 212) &&
   (map cs_ID (ms_Cells (ToMapState l)) ≟ z_range 1 12)).

Lemma elem_of_z_range lo hi x : x ∈ z_range lo hi ↔ lo <= x <= hi.
Proof.
  unfold z_range. rewrite (list_elem_of_fmap (λ k, lo + Z.of_nat k)). setoid_rewrite elem_of_seq.
  split; [intros (k & -> & ?); lia|]. intros Hx. exists (Z.to_nat (x - lo)). lia.
Qed.

Lemma default_layout_check :
  match DefaultPrisonLayout with Some l => layout_check l | None => false end = true.
Proof. by vm_compute. Qed.

Lemma default_layout_builds : DefaultPrisonLayout = Some defaultMatchLayout.
Proof.
  pose proof default_layout_check as Hc. unfold defaultMatchLayout.
  by destruct DefaultPrisonLayout.
Qed.

Lemma default_layout_rooms : map rm_ID (Rooms defaultMatchLayout) = default_room_ids.
Proof.
  pose proof default_layout_check as Hc. rewrite default_layout_builds in Hc.
  revert Hc. generalize defaultMatchLayout. intros l Hc. unfold layout_check in Hc.
  rewrite !andb_true_iff, !bool_decide_eq_true in Hc. naive_solver.
Qed.

(** Between the corners of a room other than the corridor every tile is a walkable tile
    of the room. *)
Lemma default_layout_room roomID :
  roomID ∈ default_room_ids →
  ∃ room, RoomOf defaultMatchLayout roomID = Some room ∧ rm_ID room = roomID ∧
    0 <= pt_X (rm_Min room) <= pt_X (rm_Max room) ∧ pt_X (rm_Max room) < 256 ∧
    0 <= pt_Y (rm_Min room) <= pt_Y (rm_Max room) ∧ pt_Y (rm_Max room) < 256 ∧
    (roomID ≠ RoomCorridorMain → ∀ p, Contains room p = true →
      RoomAt defaultMatchLayout p = Some roomID ∧ IsWalkable defaultMatchLayout p = true).
Proof.
  pose proof default_layout_check as Hc. rewrite default_layout_builds in Hc.
  revert Hc. generalize defaultMatchLayout. intros l Hc Hin. unfold layout_check in Hc.
  rewrite !andb_true_iff, bool_decide_eq_true in Hc. destruct Hc as [[[[[[Hids Hc] _] _] _] _] _].
  rewrite <-Hids in Hin. rewrite forallb_forall in Hc. apply list_elem_of_In, Hc in Hin. clear Hc Hids.
  unfold room_solid in Hin. destruct (RoomOf l roomID) as [room|]; [|done]. exists room.
  rewrite !andb_true_iff, bool_decide_eq_true, Bool.eqb_true_iff in Hin.
  destruct Hin as [[[[[[[[Hid Hcor] H1] H2] H3] H4] H5] H6] Hall]. bool_props.
  split_and!; try done; try lia. intros Hne p Hp.
  rewrite Hcor, bool_decide_false in Hall by done. cbn [orb] in Hall.
  unfold Contains in Hp. rewrite !andb_true_iff, !Z.leb_le in Hp.
  destruct Hall as [|Hall]; [done|].
  rewrite forallb_forall in Hall. specialize (Hall (pt_X p)). rewrite forallb_forall in Hall.
  specialize (Hall ltac:(apply list_elem_of_In, elem_of_z_range; lia) (pt_Y p)
    ltac:(apply list_elem_of_In, elem_of_z_range; lia)).
  rewrite andb_true_iff, bool_decide_eq_true in Hall. by destruct p.
Qed.

(** The doors and cells of the initial map have identifiers of their own. *)
Lemma default_map_ids :
  NoDup (map ds_ID (ms_Doors (ToMapState defaultMatchLayout))) ∧
  NoDup (map cs_ID (ms_Cells (ToMapState defaultMatchLayout))).
Proof.
  pose proof default_layout_check as Hc. rewrite default_layout_builds in Hc.
  revert Hc. generalize defaultMatchLayout. intros l Hc. unfold layout_check in Hc.
  rewrite !andb_true_iff, !bool_decide_eq_true in Hc. destruct Hc as (((_ & _) & Hd) & _ & Hcells).
  rewrite Hd, Hcells. split; apply (bool_decide_unpack _); by vm_compute.
Qed.

Lemma DefaultPrisonLayout_wf l : DefaultPrisonLayout = Some l → layout_wf l.
Proof.
  unfold DefaultPrisonLayout. rewrite bind_Some. intros (b & Hb & [= <-]).
  eapply run_builder_wf in Hb as (Hw & Hh & Hl); [done| |by apply newLayoutBuilder_wf].
  repeat (constructor; [auto with prison_layout|]). constructor.
Qed.

Lemma DefaultPrisonLayout_build l : DefaultPrisonLayout = Some l → ∃ b, l = build b.
Proof. unfold DefaultPrisonLayout. rewrite bind_Some. intros (b & _ & [= <-]). eauto. Qed.

Lemma HasRoom_roomOrder l b : l = build b → ∀ r, HasRoom l r = true ↔ r ∈ ly_roomOrder l.
Proof.
  intros -> r. unfold HasRoom. rewrite bool_decide_eq_true. simpl.
  rewrite elem_of_sort_by, elem_of_elements. by rewrite elem_of_dom.
Qed.

(** C40: Building the prison never indexes outside the tile array, and the layout it
    gives is sound: the tile array matches its dimensions, every room can be reached
    from every other, every door is a door tile of the corridor beside tiles of both
    rooms it joins, and the initial map has exactly the ten room doors and the
    twelve cell doors, each cell with its own. *)
Theorem default_layout_sound :
  DefaultPrisonLayout = Some defaultMatchLayout ∧
  layout_wf defaultMatchLayout ∧
  (∀ a b, HasRoom defaultMatchLayout a = true → HasRoom defaultMatchLayout b = true →
     AreRoomsConnected defaultMatchLayout a b = true) ∧
  (∀ door, door ∈ ly_doors defaultMatchLayout → door_joins defaultMatchLayout door = true) ∧
  map ds_ID (ms_Doors (ToMapState defaultMatchLayout)) = z_range 1 10 ++ z_range 201 212 ∧
  map cs_DoorID (ms_Cells (ToMapState defaultMatchLayout)) = z_range 201 212.
Proof.
  pose proof default_layout_builds as Hb. pose proof default_layout_check as Hc.
  rewrite Hb in Hc. split; [done|]. split; [by apply DefaultPrisonLayout_wf|].
  destruct (DefaultPrisonLayout_build _ Hb) as [b Hbuild].
  revert Hc Hbuild. clear Hb. generalize defaultMatchLayout. intros l Hc Hbuild.
  unfold layout_check in Hc. rewrite !andb_true_iff, !bool_decide_eq_true in Hc.
  destruct Hc as ((((((_ & _) & Hconn) & Hdoors) & _) & Hids) & Hcells & _). rewrite forallb_forall in Hconn, Hdoors.
  split_and!; [|by intros d Hd%list_elem_of_In; auto|done|done].
  intros a c Ha%(HasRoom_roomOrder l b)%list_elem_of_In Hc%(HasRoom_roomOrder l b)%list_elem_of_In;
    [|done..].
  specialize (Hconn a Ha). rewrite forallb_forall in Hconn. auto.
Qed.

(** A small layout to run the searches on: two rooms joined by a door. *)
Definition two_rooms : Layout :=
  build (default (newLayoutBuilder 0 0)
    (run_builder
       [carveRoom "hall" "Hall" 0 0 1 1 true; carveRoom "shed" "Shed" 3 0 3 1 false;
        carveRoom "vault" "Vault" 0 3 1 3 false;
        addDoor 1 "shed" "hall" (mkPoint 2 1) false] (newLayoutBuilder 4 4))).

Lemma FindPath_spec_witness :
  layout_wf two_rooms ∧
  FindPath two_rooms (mkPoint 0 0) (mkPoint 3 0) =
    Some (inr [mkPoint 0 0; mkPoint 1 0; mkPoint 1 1; mkPoint 2 1; mkPoint 3 1; mkPoint 3 0]) ∧
  ∃ r, FindPath two_rooms (mkPoint 0 0) (mkPoint 0 3) = Some r ∧
    match r with
    | inr path =>
        IsWalkable two_rooms (mkPoint 0 0) = true ∧
        is_point_path two_rooms (mkPoint 0 0) (mkPoint 0 3) path ∧
        ∀ k, nsteps (tile_step two_rooms) k (mkPoint 0 0) (mkPoint 0 3) → (length path ≤ S k)%nat
    | inl e =>
        e = ErrNoTilePathFound ∧
        (IsWalkable two_rooms (mkPoint 0 0) = false ∨ IsWalkable two_rooms (mkPoint 0 3) = false ∨
         ∀ k, ¬ nsteps (tile_step two_rooms) k (mkPoint 0 0) (mkPoint 0 3))
    end.
Proof.
  assert (layout_wf two_rooms) as Hwf by (split_and!; by vm_compute).
  split; [done|]. split; [by vm_compute|]. exact (FindPath_spec two_rooms _ _ Hwf).
Defined.

(** Nothing after this file needs to compute the prison. *)
#[global] Opaque defaultMatchLayout.
