(* ===== verification/Access.v ===== *)
(** * Access control and the nightly black market

    [internal/gamecore/map/access_control.go] and [black_market.go]: who may enter
    a room, who may operate a cell door, and where the market opens at night. *)

From S2P Require Import Prelude Float32 Model Hashing Layout.

#[local] Open Scope Z_scope.

(** ** Access control *)

Abbreviation AccessVerdict := string (only parsing).
Definition AccessAllow : string := "allow".
Definition AccessDenyUnknownRoom : string := "deny_unknown_room".
Definition AccessDenyWardenHQRestricted : string := "deny_warden_hq_restricted".
Definition AccessDenyCameraAuthorityOnly : string := "deny_camera_authority_only".
Definition AccessDenyCameraPowerOff : string := "deny_camera_power_off".
Definition AccessDenyPowerRoomAuthorityOnly : string := "deny_power_room_authority_only".
Definition AccessDenyAmmoAuthorityOnly : string := "deny_ammo_authority_only".
Definition AccessDenyAmmoPowerOff : string := "deny_ammo_power_off".
Definition AccessDenyBlackMarketPrisonersOnly : string := "deny_black_market_prisoners_only".
Definition AccessDenyCellDoorForbidden : string := "deny_cell_door_forbidden".

Record RoomEntryDecision := mkRoomEntry {
  re_RoomID : RoomID; re_Allowed : bool; re_Verdict : AccessVerdict;
}.
Record CellDoorDecision := mkCellDoor {
  cd_CellID : CellID; cd_Allowed : bool; cd_Verdict : AccessVerdict;
}.

Definition IsAuthorityPlayer (player : PlayerState) : bool :=
  if ps_Faction player ≟ FactionAuthority then true
  else (ps_Role player ≟ RoleWarden) || (ps_Role player ≟ RoleDeputy).

Definition IsPrisonerPlayer (player : PlayerState) : bool :=
  if ps_Faction player ≟ FactionPrisoner then true
  else (ps_Role player ≟ RoleGangLeader) || (ps_Role player ≟ RoleGangMember) ||
       (ps_Role player ≟ RoleSnitch) || (ps_Role player ≟ RoleNeutralPrisoner).

Definition EvaluateRoomEntry (player : PlayerState) (roomID : RoomID) (mapState : MapState) :
    RoomEntryDecision :=
  let allow := mkRoomEntry roomID true AccessAllow in
  let deny verdict := mkRoomEntry roomID false verdict in
  if roomID ≟ "" then deny AccessDenyUnknownRoom
  else if roomID ≟ RoomWardenHQ then
    if ps_Role player ≠? RoleWarden then deny AccessDenyWardenHQRestricted else allow
  else if roomID ≟ RoomCameraRoom then
    if negb (ms_PowerOn mapState) then deny AccessDenyCameraPowerOff
    else if negb (IsAuthorityPlayer player) then deny AccessDenyCameraAuthorityOnly
    else allow
  else if roomID ≟ RoomPowerRoom then
    if negb (IsAuthorityPlayer player) then deny AccessDenyPowerRoomAuthorityOnly else allow
  else if roomID ≟ RoomAmmoRoom then
    if negb (ms_PowerOn mapState) then deny AccessDenyAmmoPowerOff
    else if negb (IsAuthorityPlayer player) then deny AccessDenyAmmoAuthorityOnly
    else allow
  else if (ms_BlackMarketRoomID mapState ≠? "") && (roomID ≟ ms_BlackMarketRoomID mapState) then
    if negb (IsPrisonerPlayer player) then deny AccessDenyBlackMarketPrisonersOnly else allow
  else allow.

Definition CanEnterRoom (player : PlayerState) (roomID : RoomID) (mapState : MapState) : bool :=
  re_Allowed (EvaluateRoomEntry player roomID mapState).

Definition EvaluateCellDoorOperation (player : PlayerState) (cell : CellState) : CellDoorDecision :=
  if IsAuthorityPlayer player then mkCellDoor (cs_ID cell) true AccessAllow
  else if (cs_OwnerPlayerID cell ≠? "") && (cs_OwnerPlayerID cell ≟ ps_ID player)
  then mkCellDoor (cs_ID cell) true AccessAllow
  else mkCellDoor (cs_ID cell) false AccessDenyCellDoorForbidden.

Definition CanOperateCellDoor (player : PlayerState) (cell : CellState) : bool :=
  cd_Allowed (EvaluateCellDoorOperation player cell).

(** The rule of each room, as a condition on the player and the map. *)
Definition room_rule (player : PlayerState) (roomID : RoomID) (m : MapState) : Prop :=
  roomID ≠ "" ∧
  (roomID = RoomWardenHQ → ps_Role player = RoleWarden) ∧
  (roomID ∈ [RoomCameraRoom; RoomPowerRoom; RoomAmmoRoom] → IsAuthorityPlayer player = true) ∧
  (roomID ∈ [RoomCameraRoom; RoomAmmoRoom] → ms_PowerOn m = true) ∧
  (roomID = ms_BlackMarketRoomID m →
   roomID ∉ [RoomWardenHQ; RoomCameraRoom; RoomPowerRoom; RoomAmmoRoom] →
   IsPrisonerPlayer player = true).

(** A player may enter a room exactly when the rules of that room hold (a real
    room; the warden alone in the warden's quarters; the authority in the camera,
    power and ammunition rooms; power on for cameras and ammunition; prisoners only
    in the market), and the verdict says "allow" exactly then. *)
Theorem EvaluateRoomEntry_spec player roomID m :
  (CanEnterRoom player roomID m = true ↔ room_rule player roomID m) ∧
  (re_Verdict (EvaluateRoomEntry player roomID m) = AccessAllow ↔
     CanEnterRoom player roomID m = true) ∧
  re_RoomID (EvaluateRoomEntry player roomID m) = roomID.
Proof.
  unfold CanEnterRoom, EvaluateRoomEntry, room_rule.
  rewrite !elem_of_cons, !elem_of_nil.
  unfold RoomWardenHQ, RoomCameraRoom, RoomPowerRoom, RoomAmmoRoom.
  destruct (IsAuthorityPlayer player), (IsPrisonerPlayer player), (ms_PowerOn m);
    repeat case_bool_decide; simpl;
    (split; [|split; [split; intros; done|done]]); subst;
    (split; [intros|intros (? & ? & ? & ? & ?)]); try done;
    intuition congruence.
Qed.

(** Only the authority and the owner of a cell may operate its door, and an
    unowned cell belongs to nobody, whatever the player's identifier. *)
Theorem CanOperateCellDoor_spec player cell :
  CanOperateCellDoor player cell = true ↔
    IsAuthorityPlayer player = true ∨
    (cs_OwnerPlayerID cell = ps_ID player ∧ cs_OwnerPlayerID cell ≠ "").
Proof.
  unfold CanOperateCellDoor, EvaluateCellDoorOperation.
  destruct (IsAuthorityPlayer player); [naive_solver|].
  repeat case_bool_decide; simpl; intuition congruence.
Qed.

(** ** The nightly black market *)

Definition nightlyBlackMarketCandidates : list RoomID :=
  [RoomBlackMarket; RoomCourtyard; RoomCafeteria; RoomMailRoom; RoomRoofLookout].

Definition IsNightlyBlackMarketCandidate (roomID : RoomID) : bool :=
  existsb (λ candidate, candidate ≟ roomID) nightlyBlackMarketCandidates.

Definition DeterministicNightlyBlackMarketRoom (matchID : MatchID) (cycle nightStartTick : Z) : RoomID :=
  let bytes := string_bytes matchID ++ [cycle] ++ le_bytes64 nightStartTick in
  let index := hash_choice bytes (length nightlyBlackMarketCandidates) in
  default "" (nightlyBlackMarketCandidates !! index).

(** Whatever the match, the cycle and the tick, the market opens in one of the
    candidate rooms, and that room exists in the match layout. *)
Theorem DeterministicNightlyBlackMarketRoom_candidate matchID cycle tick :
  let room := DeterministicNightlyBlackMarketRoom matchID cycle tick in
  IsNightlyBlackMarketCandidate room = true ∧ room ∈ map rm_ID (Rooms defaultMatchLayout).
Proof.
  intros room. unfold room, DeterministicNightlyBlackMarketRoom.
  destruct (lookup_hash_choice (string_bytes matchID ++ [cycle] ++ le_bytes64 tick)
    nightlyBlackMarketCandidates) as [r Hr]; [done|].
  rewrite Hr. rewrite default_layout_rooms. apply list_elem_of_lookup_2 in Hr. simpl.
  assert (Forall (λ r, IsNightlyBlackMarketCandidate r = true ∧ r ∈ default_room_ids)
            nightlyBlackMarketCandidates) as Hall.
  { apply (bool_decide_unpack _). by vm_compute. }
  rewrite Forall_forall in Hall. by apply Hall.
Qed.
