(* ===== verification/Items.v ===== *)
(** * Items: inventories, recipes, dropped items and the market catalogue

    [internal/gamecore/items/inventory.go] and [market.go].  The functions that
    mutate a player and report success return [Some] of the new player, or [None]
    for [false], which leaves the player as it was.  An inventory is abstracted by
    the number of pieces of each item it carries ([carried]). *)

From S2P Require Import Prelude Float32 Model GoStrings.

#[local] Open Scope Z_scope.

Definition BaseInventoryStackLimit : Z := 6.
Definition SatchelBonusStacks : Z := 3.
Definition droppedTagItemPrefix : string := "item:".
Definition droppedTagQtyPrefix : string := "qty:".
Definition droppedTagMarker : string := "dropped_item".
Definition droppedTagContraband : string := "contraband".

Record Recipe := mkRecipe {
  rc_Output : ItemType; rc_OutputQuantity : Z; rc_Inputs : list ItemStack;
}.
#[export] Instance Recipe_eta : RecordEta Recipe := λ r,
  mkRecipe (rc_Output r) (rc_OutputQuantity r) (rc_Inputs r).
#[export] Instance Recipe_eq_dec : EqDecision Recipe.
Proof. solve_decision. Defined.

(** The keys of the two maps to [struct{}]. *)
Definition knownItems : list ItemType :=
  [ItemBaton; ItemWood; ItemMetalSlab; ItemShiv; ItemBullet; ItemPistol; ItemHuntingRifle;
   ItemLockPick; ItemWireCutters; ItemSilencer; ItemSatchel; ItemDoorStop; ItemGoldenBullet;
   ItemLadder; ItemShovel; ItemBadge; ItemKeys].

Definition contrabandItems : list ItemType :=
  [ItemShiv; ItemPistol; ItemHuntingRifle; ItemLadder; ItemShovel; ItemWireCutters].

Definition recipesByOutput : gmap ItemType Recipe := list_to_map
  [ (ItemShiv, mkRecipe ItemShiv 1 [mkStack ItemWood 1; mkStack ItemMetalSlab 1]);
    (ItemDoorStop, mkRecipe ItemDoorStop 1 [mkStack ItemWood 1; mkStack ItemMetalSlab 1]);
    (ItemLadder, mkRecipe ItemLadder 1 [mkStack ItemWood 2; mkStack ItemMetalSlab 1]);
    (ItemShovel, mkRecipe ItemShovel 1 [mkStack ItemWood 1; mkStack ItemMetalSlab 2]);
    (ItemWireCutters, mkRecipe ItemWireCutters 1 [mkStack ItemMetalSlab 2; mkStack ItemLockPick 1]) ].

Definition IsKnownItem (item : ItemType) : bool := bool_decide (item ∈ knownItems).
Definition IsContraband (item : ItemType) : bool := bool_decide (item ∈ contrabandItems).
#[global] Arguments IsKnownItem : simpl never.
#[global] Arguments IsContraband : simpl never.

(** ** Normal form *)

(** One round of the aggregation loop; the counters are uint16. *)
Definition aggregate_stack (m : gmap ItemType Z) (stack : ItemStack) : gmap ItemType Z :=
  if (stk_Quantity stack ≟ 0) || negb (IsKnownItem (stk_Item stack)) then m
  else <[stk_Item stack := u16 (default 0 (m !! stk_Item stack) + stk_Quantity stack)]> m.

Definition aggregated (inventory : list ItemStack) : gmap ItemType Z :=
  foldl aggregate_stack ∅ inventory.

Definition normalized_stack (entry : ItemType * Z) : option ItemStack :=
  let '(item, quantity) := entry in
  if quantity ≟ 0 then None
  else Some (mkStack item (if 255 <? quantity then 255 else quantity)).

Definition normalizeInventory (inventory : list ItemStack) : list ItemStack :=
  match inventory with
  | [] => []
  | _ => sort_by String.le stk_Item (omap normalized_stack (map_to_list (aggregated inventory)))
  end.

Definition findStackIndex (inventory : list ItemStack) (item : ItemType) : option nat :=
  find_idx (λ stack, stk_Item stack ≟ item) inventory.

(** ** Stack limits *)

Definition baseStackLimitForPlayer (player : PlayerState) : Z :=
  if 0 <? ps_InventorySlots player then ps_InventorySlots player else BaseInventoryStackLimit.

Definition satchel_count (inventory : list ItemStack) : Z :=
  foldl (λ n stack, if stk_Item stack ≠? ItemSatchel then n else n + stk_Quantity stack) 0 inventory.

Definition stackLimitForBase (inventory : list ItemStack) (baseLimit : Z) : Z :=
  baseLimit + satchel_count inventory * SatchelBonusStacks.

Definition stackLimitForPlayer (player : PlayerState) (inventory : list ItemStack) : Z :=
  stackLimitForBase inventory (baseStackLimitForPlayer player).

Definition InventoryStackLimit (player : PlayerState) : Z :=
  u8 (stackLimitForPlayer player (normalizeInventory (ps_Inventory player))).

(** ** Operations on an inventory *)

Definition stack_count (inventory : list ItemStack) : Z := Z.of_nat (length inventory).

Definition addToInventory (inventory : list ItemStack) (item : ItemType) (amount baseStackLimit : Z) :
    option (list ItemStack) :=
  if (amount ≟ 0) || negb (IsKnownItem item) then None
  else
    next ← match findStackIndex inventory item with
           | Some index =>
               stack ← inventory !! index;
               let nextQuantity := stk_Quantity stack + amount in
               if 255 <? nextQuantity then None
               else Some (<[index := stack <| stk_Quantity := u8 nextQuantity |>]> inventory)
           | None => Some (inventory ++ [mkStack item amount])
           end;
    let next := normalizeInventory next in
    let baseStackLimit := if baseStackLimit <=? 0 then BaseInventoryStackLimit else baseStackLimit in
    if stackLimitForBase next baseStackLimit <? stack_count next then None else Some next.

Definition removeFromInventory (inventory : list ItemStack) (item : ItemType) (amount : Z) :
    option (list ItemStack) :=
  if (amount ≟ 0) || negb (IsKnownItem item) then None
  else
    index ← findStackIndex inventory item;
    stack ← inventory !! index;
    if stk_Quantity stack <? amount then None
    else
      let quantity := u8 (stk_Quantity stack - amount) in
      let next := <[index := stack <| stk_Quantity := quantity |>]> inventory in
      let next := if quantity ≟ 0 then delete index next else next in
      Some (normalizeInventory next).

(** ** Operations on players *)

Definition HasItem (player : PlayerState) (item : ItemType) (amount : Z) : bool :=
  if negb (IsKnownItem item) then false
  else if amount ≟ 0 then true
  else
    let inventory := normalizeInventory (ps_Inventory player) in
    match findStackIndex inventory item with
    | None => false
    | Some index =>
        match inventory !! index with
        | Some stack => amount <=? stk_Quantity stack
        | None => false
        end
    end.

Definition AddItem (player : PlayerState) (item : ItemType) (amount : Z) : option PlayerState :=
  if (amount ≟ 0) || negb (IsKnownItem item) then None
  else
    next ← addToInventory (normalizeInventory (ps_Inventory player)) item amount
             (baseStackLimitForPlayer player);
    Some (player <| ps_Inventory := next |>).

Definition RemoveItem (player : PlayerState) (item : ItemType) (amount : Z) : option PlayerState :=
  if (amount ≟ 0) || negb (IsKnownItem item) then None
  else
    next ← removeFromInventory (normalizeInventory (ps_Inventory player)) item amount;
    if (item ≟ ItemSatchel) && (stackLimitForPlayer player next <? stack_count next) then None
    else Some (player <| ps_Inventory := next |>).

Definition TransferItem (from to : PlayerState) (item : ItemType) (amount : Z) :
    option (PlayerState * PlayerState) :=
  if (amount ≟ 0) || negb (IsKnownItem item) then None
  else if ps_ID from ≟ ps_ID to then None
  else
    sourceAfter ← removeFromInventory (normalizeInventory (ps_Inventory from)) item amount;
    destinationAfter ← addToInventory (normalizeInventory (ps_Inventory to)) item amount
                         (baseStackLimitForPlayer to);
    Some (from <| ps_Inventory := sourceAfter |>, to <| ps_Inventory := destinationAfter |>).

Definition RecipeFor (output : ItemType) : option Recipe :=
  (λ recipe, recipe <| rc_Inputs ::= sort_by String.le stk_Item |>) <$> recipesByOutput !! output.

Fixpoint remove_requirements (requirements : list ItemStack) (inventory : list ItemStack) :
    option (list ItemStack) :=
  match requirements with
  | [] => Some inventory
  | requirement :: requirements =>
      next ← removeFromInventory inventory (stk_Item requirement) (stk_Quantity requirement);
      remove_requirements requirements next
  end.

Definition Craft (player : PlayerState) (output : ItemType) : option PlayerState :=
  recipe ← RecipeFor output;
  remaining ← remove_requirements (rc_Inputs recipe) (normalizeInventory (ps_Inventory player));
  next ← addToInventory remaining (rc_Output recipe) (rc_OutputQuantity recipe)
           (baseStackLimitForPlayer player);
  Some (player <| ps_Inventory := next |>).

Definition ContrabandStacks (player : PlayerState) : list ItemStack :=
  filter (λ stack, IsContraband (stk_Item stack) = true) (normalizeInventory (ps_Inventory player)).

Definition HasContraband (player : PlayerState) : bool :=
  (0 <? Z.of_nat (length (ContrabandStacks player))).

(** ** Dropped items *)

Definition BuildDroppedItemTags (item : ItemType) (quantity : Z) : list string :=
  let quantity := if quantity ≟ 0 then 1 else quantity in
  let tags := [droppedTagMarker; droppedTagItemPrefix +:+ item;
               droppedTagQtyPrefix +:+ Itoa quantity] in
  sort_strings (if IsContraband item then tags ++ [droppedTagContraband] else tags).

(** The loop over the tags, with the item and the quantity read so far. *)
Fixpoint parse_dropped_tags (tags : list string) (item : ItemType) (quantity : Z) :
    option (ItemType * Z) :=
  match tags with
  | [] => if item ≟ "" then None else Some (item, quantity)
  | tag :: tags =>
      if HasPrefix tag droppedTagItemPrefix then
        let candidate := TrimPrefix tag droppedTagItemPrefix in
        if negb (IsKnownItem candidate) then None
        else parse_dropped_tags tags candidate quantity
      else if HasPrefix tag droppedTagQtyPrefix then
        match Atoi (TrimPrefix tag droppedTagQtyPrefix) with
        | None => None
        | Some parsed =>
            if (parsed <=? 0) || (255 <? parsed) then None
            else parse_dropped_tags tags item (u8 parsed)
        end
      else parse_dropped_tags tags item quantity
  end.

Definition ParseDroppedItem (entity : EntityState) : option (ItemType * Z) :=
  if es_Kind entity ≠? EntityKindDroppedItem then None
  else parse_dropped_tags (es_Tags entity) "" 1.

(** ** The market catalogue (market.go) *)

Record BlackMarketOffer := mkOffer { of_Item : ItemType; of_Quantity : Z; of_MoneyCardCost : Z }.
#[export] Instance BlackMarketOffer_eq_dec : EqDecision BlackMarketOffer.
Proof. solve_decision. Defined.

Definition blackMarketOffers : list BlackMarketOffer :=
  [ mkOffer ItemWood 1 1; mkOffer ItemMetalSlab 1 1; mkOffer ItemBullet 1 1;
    mkOffer ItemLockPick 1 1; mkOffer ItemShiv 1 2; mkOffer ItemDoorStop 1 2;
    mkOffer ItemSilencer 1 2; mkOffer ItemSatchel 1 2; mkOffer ItemWireCutters 1 2;
    mkOffer ItemPistol 1 3; mkOffer ItemHuntingRifle 1 3; mkOffer ItemGoldenBullet 1 3 ].

Definition BlackMarketOfferForItem (item : ItemType) : option BlackMarketOffer :=
  find_first (λ offer, of_Item offer ≟ item) blackMarketOffers.

Definition IsBlackMarketItem (item : ItemType) : bool :=
  bool_decide (is_Some (BlackMarketOfferForItem item)).

(** ** The abstraction: how many pieces of each item an inventory carries *)

Definition stack_value (item : ItemType) (stack : ItemStack) : Z :=
  if (stk_Item stack ≟ item) && IsKnownItem item then stk_Quantity stack else 0.

Definition carried (inventory : list ItemStack) (item : ItemType) : Z :=
  foldr (λ stack n, stack_value item stack + n) 0 inventory.

Definition valid_stack (stack : ItemStack) : Prop :=
  IsKnownItem (stk_Item stack) = true ∧ 1 <= stk_Quantity stack <= 255.

(** The normal form: one valid stack per item, sorted by item. *)
Record canonical (inventory : list ItemStack) : Prop := mkCanonical {
  canonical_valid : Forall valid_stack inventory;
  canonical_nodup : NoDup (stk_Item <$> inventory);
  canonical_sorted : StronglySorted (on_key String.le stk_Item) inventory;
}.

Definition within_limit (player : PlayerState) (inventory : list ItemStack) : Prop :=
  stack_count inventory <= stackLimitForPlayer player inventory.

Create HintDb prison_items.

#[local] Opaque IsKnownItem.

Section carried_lemmas.
Implicit Types inv : list ItemStack.

Lemma carried_app inv1 inv2 item : carried (inv1 ++ inv2) item = carried inv1 item + carried inv2 item.
Proof. induction inv1 as [|s inv1 IH]; simpl; lia. Qed.

Lemma carried_perm inv1 inv2 item : inv1 ≡ₚ inv2 → carried inv1 item = carried inv2 item.
Proof. induction 1; simpl; lia. Qed.

Lemma carried_unknown inv item : IsKnownItem item = false → carried inv item = 0.
Proof.
  intros Hk. induction inv as [|s inv IH]; simpl; [done|].
  unfold stack_value. rewrite Hk, andb_false_r. lia.
Qed.

Lemma carried_absent inv item : item ∉ (stk_Item <$> inv) → carried inv item = 0.
Proof.
  induction inv as [|s inv IH]; simpl; [done|]. rewrite not_elem_of_cons.
  intros [Hne Hin]. unfold stack_value. rewrite bool_decide_eq_false_2 by congruence.
  by rewrite IH.
Qed.

Lemma carried_elem inv s :
  NoDup (stk_Item <$> inv) → valid_stack s → s ∈ inv → carried inv (stk_Item s) = stk_Quantity s.
Proof.
  intros Hnd [Hk _]. induction inv as [|s' inv IH]; [by intros ?%elem_of_nil|].
  simpl in *. apply NoDup_cons in Hnd as [Hni Hnd]. rewrite elem_of_cons. intros [->|Hs].
  - rewrite carried_absent by done. unfold stack_value.
    rewrite bool_decide_eq_true_2, Hk by done. simpl. lia.
  - rewrite IH by done. unfold stack_value.
    rewrite bool_decide_eq_false_2; [done|]. intros Heq. apply Hni.
    apply list_elem_of_fmap. by exists s.
Qed.

Lemma carried_present inv item :
  carried inv item ≠ 0 → ∃ s, s ∈ inv ∧ stk_Item s = item.
Proof.
  intros Hc. destruct (decide (item ∈ (stk_Item <$> inv))) as [Hin|Hin].
  - apply list_elem_of_fmap in Hin as (s & -> & Hs). eauto.
  - by rewrite carried_absent in Hc.
Qed.

Lemma carried_range inv item : canonical inv → 0 <= carried inv item <= 255.
Proof.
  intros [Hv Hnd _]. destruct (Z.eq_dec (carried inv item) 0) as [->|Hc]; [lia|].
  destruct (carried_present inv item Hc) as (s & Hs & <-).
  rewrite Forall_forall in Hv. pose proof (Hv s Hs) as [? ?].
  by rewrite carried_elem by (done || apply Hv, Hs); lia.
Qed.

Lemma elem_of_canonical inv s :
  canonical inv → s ∈ inv ↔ valid_stack s ∧ carried inv (stk_Item s) = stk_Quantity s.
Proof.
  intros [Hv Hnd Hs]. rewrite Forall_forall in Hv. split.
  - intros Hin. split; [by apply Hv|]. apply carried_elem; auto.
  - intros [[Hk Hq] Hc]. destruct (carried_present inv (stk_Item s)) as (s' & Hs' & Heq); [lia|].
    rewrite <-Heq in Hc. rewrite carried_elem in Hc by auto.
    destruct s, s'; simplify_eq/=. done.
Qed.

(** A normal inventory is determined by what it carries. *)
Lemma canonical_ext inv1 inv2 :
  canonical inv1 → canonical inv2 → (∀ item, carried inv1 item = carried inv2 item) → inv1 = inv2.
Proof.
  intros H1 H2 Heq.
  assert (inv1 ≡ₚ inv2) as Hp.
  { apply NoDup_Permutation; [by eapply NoDup_fmap_1, canonical_nodup..|].
    intros s. rewrite !elem_of_canonical by done. by rewrite Heq. }
  transitivity (sort_by String.le stk_Item inv2); [|symmetry];
    (apply sort_by_unique; [apply _..|by destruct H2|done|by destruct H1, H2]).
Qed.
End carried_lemmas.

(** ** Normalisation *)

Section normalize_lemmas.
Implicit Types inv : list ItemStack.

Lemma aggregate_stack_lookup (m : gmap ItemType Z) s item :
  (∀ i, u16 (default 0 (m !! i)) = default 0 (m !! i)) →
  default 0 (aggregate_stack m s !! item) = u16 (default 0 (m !! item) + stack_value item s).
Proof.
  intros Hm. unfold stack_value, aggregate_stack.
  case_bool_decide as Hq; simpl.
  { by destruct (_ && _); rewrite ?Hq, Z.add_0_r, Hm. }
  destruct (IsKnownItem (stk_Item s)) eqn:Hk; simpl; case_bool_decide as Hi; simpl.
  - subst item. by rewrite lookup_insert_eq, Hk.
  - by rewrite lookup_insert_ne, Z.add_0_r, Hm.
  - subst item. by rewrite Hk, Z.add_0_r, Hm.
  - by rewrite Z.add_0_r, Hm.
Qed.

Lemma aggregate_fold (m : gmap ItemType Z) inv item :
  (∀ i, u16 (default 0 (m !! i)) = default 0 (m !! i)) →
  default 0 (foldl aggregate_stack m inv !! item) = u16 (default 0 (m !! item) + carried inv item).
Proof.
  revert m. induction inv as [|s inv IH]; intros m Hm; simpl.
  { by rewrite Z.add_0_r, Hm. }
  rewrite IH.
  - rewrite aggregate_stack_lookup by done. unfold u16.
    rewrite Zplus_mod_idemp_l. f_equal. lia.
  - intros i. rewrite aggregate_stack_lookup by done. unfold u16. by rewrite Zmod_mod.
Qed.

Lemma aggregated_lookup inv item : default 0 (aggregated inv !! item) = u16 (carried inv item).
Proof. unfold aggregated. by rewrite aggregate_fold by (intros i; by rewrite lookup_empty). Qed.

Lemma aggregated_known inv item q : aggregated inv !! item = Some q → IsKnownItem item = true.
Proof.
  unfold aggregated. cut (∀ m : gmap ItemType Z, (∀ i q, m !! i = Some q → IsKnownItem i = true) →
    foldl aggregate_stack m inv !! item = Some q → IsKnownItem item = true).
  { intros Hcut. apply Hcut. by intros i r ?%lookup_empty_Some. }
  induction inv as [|s inv IH]; intros m Hm; simpl; [apply Hm|].
  apply IH. intros i r. unfold aggregate_stack. case_match eqn:Hb; [apply Hm|]. bool_props.
  destruct (decide (i = stk_Item s)) as [->|Hne]; [by destruct (IsKnownItem _)|].
  rewrite lookup_insert_ne by done. apply Hm.
Qed.

Lemma omap_stack_keys (l : list (ItemType * Z)) :
  NoDup l.*1 → NoDup (stk_Item <$> omap normalized_stack l) ∧
    ∀ s, s ∈ omap normalized_stack l → stk_Item s ∈ l.*1.
Proof.
  induction l as [|[i q] l IH]; simpl; [intros _; split; [constructor|set_solver]|].
  intros [Hni Hnd]%NoDup_cons. destruct (IH Hnd) as [IH1 IH2].
  case_bool_decide; simpl.
  - split; [done|]. intros s Hs. apply elem_of_cons. right. by apply IH2.
  - split.
    + apply NoDup_cons. split; [|done]. intros (s & -> & Hs)%list_elem_of_fmap. auto.
    + intros s [->|Hs]%elem_of_cons; apply elem_of_cons; auto.
Qed.

Lemma normalizeInventory_canonical inv : canonical (normalizeInventory inv).
Proof.
  unfold normalizeInventory. destruct inv as [|s0 inv0]; [repeat constructor|].
  generalize (s0 :: inv0) as inv. clear s0 inv0. intros inv. constructor.
  - apply Forall_forall. intros s. rewrite elem_of_sort_by, list_elem_of_omap.
    intros ([i q] & Hin%elem_of_map_to_list & Hs). simpl in Hs.
    pose proof (aggregated_known _ _ _ Hin) as Hk.
    pose proof (aggregated_lookup inv i) as Hl. rewrite Hin in Hl. simpl in Hl.
    pose proof (u16_range (carried inv i)) as Hr. rewrite <-Hl in Hr. unfold is_u16 in Hr. case_match eqn:Hq; [done|]. bool_props.
    simplify_eq. split; [done|]. simpl. case_match; bool_props; lia.
  - rewrite (fmap_Permutation stk_Item _ _ (sort_by_perm _ _ _)).
    apply omap_stack_keys, NoDup_fst_map_to_list.
  - apply sort_by_sorted; apply _.
Qed.

Lemma carried_normalizeInventory inv item :
  carried (normalizeInventory inv) item = Z.min 255 (u16 (carried inv item)).
Proof.
  unfold normalizeInventory. destruct inv as [|s0 inv0]; [done|]. generalize (s0 :: inv0) as inv. clear s0 inv0. intros inv.
  rewrite (carried_perm _ _ _ (sort_by_perm _ _ _)).
  pose proof (aggregated_lookup inv item) as Hl.
  pose proof (u16_range (carried inv item)) as Hr. unfold is_u16 in Hr.
  destruct (omap_stack_keys (map_to_list (aggregated inv))) as [Hnd Hkeys];
    [apply NoDup_fst_map_to_list|].
  destruct (decide (u16 (carried inv item) = 0)) as [H0|H0].
  - rewrite H0. destruct (Z.eq_dec (carried (omap normalized_stack (map_to_list (aggregated inv))) item) 0)
      as [->|Hne]; [done|].
    apply carried_present in Hne as (s & Hs & <-).
    apply list_elem_of_omap in Hs as ([i q] & Hin%elem_of_map_to_list & Hs). simpl in Hs.
    case_match eqn:Hq; [done|]. bool_props. simplify_eq/=. rewrite Hin in Hl. simpl in Hl. congruence.
  - destruct (aggregated inv !! item) as [q|] eqn:Hin; simpl in Hl; [|congruence]. subst q.
    set (q := u16 (carried inv item)) in *.
    set (s := mkStack item (if 255 <? q then 255 else q)).
    assert (s ∈ omap normalized_stack (map_to_list (aggregated inv))) as Hs.
    { apply list_elem_of_omap. exists (item, q). split; [by apply elem_of_map_to_list|].
      simpl. by rewrite bool_decide_eq_false_2. }
    fold q in Hr. change item with (stk_Item s).
    rewrite carried_elem; [|done| |done]; simpl.
    + case_match; bool_props; lia.
    + split; [by eapply aggregated_known|]. simpl. case_match; bool_props; lia.
Qed.

Lemma normalizeInventory_id inv : canonical inv → normalizeInventory inv = inv.
Proof.
  intros Hc. apply canonical_ext; [apply normalizeInventory_canonical|done|].
  intros item. rewrite carried_normalizeInventory. pose proof (carried_range inv item Hc).
  unfold u16. rewrite Z.mod_small; lia.
Qed.
End normalize_lemmas.
#[export] Hint Resolve normalizeInventory_canonical : prison_items.

(** ** Adding to and removing from an inventory *)

Definition only (item : ItemType) (amount : Z) (other : ItemType) : Z :=
  if other ≟ item then amount else 0.

(** [inv'] is the normal inventory that carries [delta] more than [inv]. *)
Definition changed_by (inv inv' : list ItemStack) (delta : ItemType → Z) : Prop :=
  canonical inv' ∧ ∀ item, carried inv' item = carried inv item + delta item.

Section inventory_lemmas.
Implicit Types inv : list ItemStack.

Lemma changed_by_unique inv inv1 inv2 delta :
  changed_by inv inv1 delta → changed_by inv inv2 delta → inv1 = inv2.
Proof. intros [H1 E1] [H2 E2]. apply canonical_ext; [done..|]. intros. by rewrite E1, E2. Qed.

Lemma findStackIndex_Some inv item i :
  findStackIndex inv item = Some i → ∃ s, inv !! i = Some s ∧ stk_Item s = item.
Proof.
  unfold findStackIndex. rewrite find_idx_Some. intros (s & Hs & Hi & _). bool_props. eauto.
Qed.

Lemma findStackIndex_None inv item : findStackIndex inv item = None → carried inv item = 0.
Proof.
  unfold findStackIndex. rewrite find_idx_None. intros Hn. apply carried_absent.
  intros (s & -> & Hs)%list_elem_of_fmap. specialize (Hn s Hs). by bool_props.
Qed.

Lemma carried_insert inv i s s' item :
  inv !! i = Some s →
  carried (<[i := s']> inv) item = carried inv item - stack_value item s + stack_value item s'.
Proof.
  intros Hs. rewrite insert_take_drop by (by eapply lookup_lt_Some).
  rewrite <-(take_drop_middle inv i s Hs) at 3. rewrite !carried_app. simpl. lia.
Qed.

Lemma carried_delete inv i s item :
  inv !! i = Some s → carried (delete i inv) item = carried inv item - stack_value item s.
Proof.
  intros Hs. rewrite delete_take_drop.
  rewrite <-(take_drop_middle inv i s Hs) at 3. rewrite !carried_app. simpl. lia.
Qed.

Lemma stack_value_only s item other :
  stk_Item s = item → IsKnownItem item = true →
  stack_value other s = only item (stk_Quantity s) other.
Proof.
  intros <- Hk. unfold stack_value, only. repeat case_bool_decide; subst; try done.
  by rewrite Hk.
Qed.

Lemma carried_found inv i item :
  canonical inv → IsKnownItem item = true → findStackIndex inv item = Some i →
  ∃ s, inv !! i = Some s ∧ stk_Item s = item ∧ carried inv item = stk_Quantity s ∧ valid_stack s.
Proof.
  intros Hc Hk (s & Hs & Hi)%findStackIndex_Some. exists s.
  pose proof (list_elem_of_lookup_2 _ _ _ Hs) as Hin.
  apply (elem_of_canonical inv s Hc) in Hin as [Hv Hq]. by rewrite <-Hi at 2.
Qed.

(** Normalising a list whose counts stay below 256 keeps the counts. *)
Lemma normalize_changed inv next delta :
  (∀ item, carried next item = carried inv item + delta item) →
  (∀ item, 0 <= carried inv item + delta item <= 255) →
  changed_by inv (normalizeInventory next) delta.
Proof.
  intros Hn Hr. split; [auto with prison_items|]. intros item.
  rewrite carried_normalizeInventory, Hn. specialize (Hr item).
  unfold u16. rewrite Z.mod_small; lia.
Qed.

Lemma addToInventory_spec inv item amount base inv' :
  canonical inv → is_u8 amount → 0 < base →
  addToInventory inv item amount base = Some inv' ↔
    amount ≠ 0 ∧ IsKnownItem item = true ∧ carried inv item + amount <= 255 ∧
    changed_by inv inv' (only item amount) ∧ stack_count inv' <= stackLimitForBase inv' base.
Proof.
  intros Hc Ha Hb. unfold is_u8 in Ha. unfold addToInventory.
  rewrite (proj2 (Z.leb_gt base 0)) by lia.
  destruct (bool_decide (amount = 0)) eqn:H0; bool_props; [naive_solver|].
  destruct (IsKnownItem item) eqn:Hk; [|naive_solver]. cbn [negb orb].
  assert (∀ next, (∀ j, carried next j = carried inv j + only item amount j) →
    carried inv item + amount <= 255 →
    ((if stackLimitForBase (normalizeInventory next) base <? stack_count (normalizeInventory next)
      then None else Some (normalizeInventory next)) = Some inv' ↔
     amount ≠ 0 ∧ true = true ∧ carried inv item + amount <= 255 ∧
     changed_by inv inv' (only item amount) ∧ stack_count inv' <= stackLimitForBase inv' base))
    as Hnext.
  { intros next Hn Hle.
    assert (changed_by inv (normalizeInventory next) (only item amount)) as Hch.
    { apply normalize_changed; [done|]. intros j. pose proof (carried_range inv j Hc).
      unfold only. case_bool_decide; subst; lia. }
    split.
    - case_match eqn:Hl; [done|]. intros [= <-]. bool_props. done.
    - intros (_ & _ & _ & Hch' & Hl). rewrite (changed_by_unique _ _ _ _ Hch Hch').
      by rewrite (proj2 (Z.ltb_ge _ _) Hl). }
  destruct (findStackIndex inv item) as [i|] eqn:Hf.
  - destruct (carried_found inv i item Hc Hk Hf) as (s & Hs & Hi & Hq & _).
    rewrite Hs. cbn [mbind option_bind]. destruct (255 <? stk_Quantity s + amount) eqn:Hlt; bool_props.
    + split; [done|]. lia.
    + cbn [mbind option_bind]. apply Hnext; [|lia]. intros j. rewrite (carried_insert _ _ s) by done.
      rewrite !(stack_value_only _ item) by done. simpl.
      rewrite u8_small by (pose proof (carried_range inv item Hc); unfold is_u8; lia).
      unfold only. case_bool_decide; lia.
  - cbn [mbind option_bind]. apply findStackIndex_None in Hf. apply Hnext; [|lia].
    intros j. rewrite carried_app. simpl. rewrite (stack_value_only _ item) by done. simpl. lia.
Qed.

Lemma removeFromInventory_spec inv item amount inv' :
  canonical inv → is_u8 amount →
  removeFromInventory inv item amount = Some inv' ↔
    amount ≠ 0 ∧ IsKnownItem item = true ∧ amount <= carried inv item ∧
    changed_by inv inv' (only item (- amount)).
Proof.
  intros Hc Ha. unfold is_u8 in Ha. unfold removeFromInventory.
  destruct (bool_decide (amount = 0)) eqn:H0; bool_props; [naive_solver|].
  destruct (IsKnownItem item) eqn:Hk; [|naive_solver]. cbn [negb orb].
  destruct (findStackIndex inv item) as [i|] eqn:Hf; cbn [mbind option_bind].
  - destruct (carried_found inv i item Hc Hk Hf) as (s & Hs & Hi & Hq & _).
    rewrite Hs. cbn [mbind option_bind]. destruct (stk_Quantity s <? amount) eqn:Hlt; bool_props.
    { split; [done|]. lia. }
    set (next := if _ ≟ 0 then _ else _).
    assert (changed_by inv (normalizeInventory next) (only item (- amount))) as Hch.
    { pose proof (carried_range inv item Hc) as Hr.
      apply normalize_changed.
      - intros j. unfold next. rewrite u8_small by (unfold is_u8; lia).
        case_bool_decide as Hz.
        + rewrite (carried_delete _ _ (s <| stk_Quantity := stk_Quantity s - amount |>))
            by (apply list_lookup_insert_eq; by eapply lookup_lt_Some).
          rewrite (carried_insert _ _ s) by done.
          rewrite !(stack_value_only _ item) by done. simpl. unfold only. case_bool_decide; lia.
        + rewrite (carried_insert _ _ s) by done.
          rewrite !(stack_value_only _ item) by done. simpl. unfold only. case_bool_decide; lia.
      - intros j. pose proof (carried_range inv j Hc). unfold only. case_bool_decide; subst; lia. }
    split; [intros [= <-]; split_and!; try done; lia|]. intros (_ & _ & _ & Hch').
    by rewrite (changed_by_unique _ _ _ _ Hch Hch').
  - apply findStackIndex_None in Hf. split; [done|]. intros (? & _ & ? & _). lia.
Qed.

Lemma removeFromInventory_is_Some inv item amount :
  canonical inv → amount ≠ 0 → IsKnownItem item = true → amount <= carried inv item →
  0 <= amount → is_Some (removeFromInventory inv item amount).
Proof.
  intros Hc H0 Hk Hle Ha. unfold removeFromInventory.
  rewrite bool_decide_eq_false_2, Hk by done. cbn [negb orb].
  destruct (findStackIndex inv item) as [i|] eqn:Hf.
  - destruct (carried_found inv i item Hc Hk Hf) as (s & Hs & _ & Hq & _). cbn [mbind option_bind].
    rewrite Hs. cbn [mbind option_bind]. rewrite (proj2 (Z.ltb_ge _ _)) by lia. eauto.
  - apply findStackIndex_None in Hf. lia.
Qed.
End inventory_lemmas.

(** ** What the operations on players do *)

Abbreviation inventory_of p := (normalizeInventory (ps_Inventory p)).

(** Normalising an inventory gives its normal form (valid stacks, one per item,
    sorted), carries what the inventory carried up to the limit of 255 and the
    uint16 counter, does nothing to a normal inventory, and does not depend on the
    order of the stacks or of the map iteration. *)
Theorem normalizeInventory_spec inventory :
  canonical (normalizeInventory inventory) ∧
  (∀ item, carried (normalizeInventory inventory) item = Z.min 255 (u16 (carried inventory item))) ∧
  normalizeInventory (normalizeInventory inventory) = normalizeInventory inventory ∧
  ∀ other, other ≡ₚ inventory → normalizeInventory other = normalizeInventory inventory.
Proof.
  split_and!; [auto with prison_items|apply carried_normalizeInventory| |].
  - apply normalizeInventory_id, normalizeInventory_canonical.
  - intros other Hp. apply canonical_ext; [auto with prison_items..|].
    intros item. by rewrite !carried_normalizeInventory, (carried_perm other inventory item).
Qed.

Lemma base_limit_pos p : 0 < baseStackLimitForPlayer p.
Proof. unfold baseStackLimitForPlayer. case_match; bool_props; done. Qed.
#[export] Hint Resolve base_limit_pos : prison_items.

Lemma HasItem_iff p item amount :
  0 <= amount →
  HasItem p item amount = true ↔ IsKnownItem item = true ∧ amount <= carried (inventory_of p) item.
Proof.
  intros Ha. pose proof (normalizeInventory_canonical (ps_Inventory p)) as Hc.
  unfold HasItem. destruct (IsKnownItem item) eqn:Hk; [simpl|naive_solver].
  pose proof (carried_range _ item Hc) as Hr.
  case_bool_decide as H0; [split; [split; [done|lia]|done]|].
  destruct (findStackIndex (inventory_of p) item) as [i|] eqn:Hf.
  - destruct (carried_found _ i item Hc Hk Hf) as (s & -> & _ & -> & _).
    rewrite Z.leb_le. naive_solver.
  - apply findStackIndex_None in Hf. split; [done|]. intros [_ ?]. lia.
Qed.

(** An operation on an inventory changes the inventory alone. *)
Lemma AddItem_frame p item amount p' :
  AddItem p item amount = Some p' → ∃ inv', p' = p <| ps_Inventory := inv' |>.
Proof.
  unfold AddItem. case_match; [done|]. rewrite bind_Some. intros (inv & _ & [= <-]). by exists inv.
Qed.

Lemma RemoveItem_frame p item amount p' :
  RemoveItem p item amount = Some p' → ∃ inv', p' = p <| ps_Inventory := inv' |>.
Proof.
  unfold RemoveItem. case_match; [done|]. rewrite bind_Some. intros (inv & _ & Hinv). case_match; [done|].
  injection Hinv as <-. by exists inv.
Qed.

Lemma TransferItem_frame from to item amount from' to' :
  TransferItem from to item amount = Some (from', to') →
  ∃ inv inv', from' = from <| ps_Inventory := inv |> ∧ to' = to <| ps_Inventory := inv' |>.
Proof.
  unfold TransferItem. case_match; [done|]. case_match; [done|]. rewrite bind_Some.
  intros (inv & _ & Hinv). rewrite bind_Some in Hinv. destruct Hinv as (inv' & _ & [= <- <-]).
  by exists inv, inv'.
Qed.

Lemma Craft_frame p output p' :
  Craft p output = Some p' → ∃ inv', p' = p <| ps_Inventory := inv' |>.
Proof.
  unfold Craft. rewrite !bind_Some. intros (r & _ & H). rewrite !bind_Some in H.
  destruct H as (inv & _ & H). rewrite bind_Some in H. destruct H as (inv' & _ & [= <-]). by exists inv'.
Qed.

Lemma AddItem_iff p item amount p' :
  is_u8 amount →
  AddItem p item amount = Some p' ↔
    ∃ inv', p' = p <| ps_Inventory := inv' |> ∧
      amount ≠ 0 ∧ IsKnownItem item = true ∧ carried (inventory_of p) item + amount <= 255 ∧
      changed_by (inventory_of p) inv' (only item amount) ∧ within_limit p inv'.
Proof.
  intros Ha. unfold AddItem.
  destruct (bool_decide (amount = 0)) eqn:H0; bool_props; [naive_solver|].
  destruct (IsKnownItem item) eqn:Hk; [|naive_solver]. cbn [negb orb].
  rewrite bind_Some. setoid_rewrite addToInventory_spec; [|auto with prison_items..].
  unfold within_limit, stackLimitForPlayer. split.
  - intros (inv' & (? & ? & ? & ? & ?) & [= <-]). eauto 10.
  - intros (inv' & -> & ? & ? & ? & ? & ?). eauto 10.
Qed.

Lemma RemoveItem_iff p item amount p' :
  is_u8 amount →
  RemoveItem p item amount = Some p' ↔
    ∃ inv', p' = p <| ps_Inventory := inv' |> ∧
      amount ≠ 0 ∧ IsKnownItem item = true ∧ amount <= carried (inventory_of p) item ∧
      changed_by (inventory_of p) inv' (only item (- amount)) ∧
      (item = ItemSatchel → within_limit p inv').
Proof.
  intros Ha. unfold RemoveItem.
  destruct (bool_decide (amount = 0)) eqn:H0; bool_props; [naive_solver|].
  destruct (IsKnownItem item) eqn:Hk; [|naive_solver]. cbn [negb orb].
  rewrite bind_Some. setoid_rewrite removeFromInventory_spec; [|auto with prison_items..].
  unfold within_limit. split.
  - intros (inv' & (? & ? & ? & ?) & Hl). exists inv'. case_match eqn:Hs; [done|].
    simplify_eq. split_and!; try done. intros ->. rewrite bool_decide_eq_true_2 in Hs by done.
    by apply Z.ltb_ge in Hs.
  - intros (inv' & -> & ? & ? & ? & ? & Hl). exists inv'. split; [done|].
    case_bool_decide as Hs; [|done]. simpl. by rewrite (proj2 (Z.ltb_ge _ _) (Hl Hs)).
Qed.

Lemma TransferItem_iff from to item amount r :
  is_u8 amount →
  TransferItem from to item amount = Some r ↔
    ∃ source destination,
      r = (from <| ps_Inventory := source |>, to <| ps_Inventory := destination |>) ∧
      ps_ID from ≠ ps_ID to ∧ amount ≠ 0 ∧ IsKnownItem item = true ∧
      amount <= carried (inventory_of from) item ∧
      carried (inventory_of to) item + amount <= 255 ∧
      changed_by (inventory_of from) source (only item (- amount)) ∧
      changed_by (inventory_of to) destination (only item amount) ∧
      within_limit to destination.
Proof.
  intros Ha. unfold TransferItem.
  destruct (bool_decide (amount = 0)) eqn:H0; bool_props; [naive_solver|].
  destruct (IsKnownItem item) eqn:Hk; [|naive_solver]. cbn [negb orb].
  case_bool_decide as Hid; [naive_solver|].
  rewrite bind_Some. setoid_rewrite bind_Some.
  setoid_rewrite removeFromInventory_spec; [|auto with prison_items..].
  setoid_rewrite addToInventory_spec; [|auto with prison_items..].
  unfold within_limit, stackLimitForPlayer. split.
  - intros (src & (? & ? & ? & ?) & dst & (? & ? & ? & ? & ?) & [= <-]). eauto 20.
  - intros (src & dst & -> & ? & ? & ? & ? & ? & ? & ? & ?). exists src. split; [done|]. eauto 10.
Qed.

(** [AddItem] succeeds exactly when the item is known, the amount is not zero,
    the stack stays within a byte and the new inventory within the player's stack
    limit; the player then carries exactly [amount] more of that item in a normal
    inventory, and nothing else of the player changes. *)
Theorem AddItem_spec p item amount p' (Ha : is_u8 amount) :
  AddItem p item amount = Some p' ↔
    ∃ inv', p' = p <| ps_Inventory := inv' |> ∧
      amount ≠ 0 ∧ IsKnownItem item = true ∧ carried (inventory_of p) item + amount <= 255 ∧
      changed_by (inventory_of p) inv' (only item amount) ∧ within_limit p inv'.
Proof. by apply AddItem_iff. Qed.

(** [RemoveItem] succeeds exactly when the player carries the amount (and, for a
    satchel, can still carry the rest without it); the player then carries exactly
    [amount] less of that item in a normal inventory. *)
Theorem RemoveItem_spec p item amount p' (Ha : is_u8 amount) :
  RemoveItem p item amount = Some p' ↔
    ∃ inv', p' = p <| ps_Inventory := inv' |> ∧
      amount ≠ 0 ∧ IsKnownItem item = true ∧ amount <= carried (inventory_of p) item ∧
      changed_by (inventory_of p) inv' (only item (- amount)) ∧
      (item = ItemSatchel → within_limit p inv').
Proof. by apply RemoveItem_iff. Qed.

(** Removing what was just added gives the player back with the inventory
    normalised, provided the inventory was within its limit. *)
Theorem AddItem_RemoveItem p item amount p'
    (Ha : is_u8 amount) (Hl : within_limit p (inventory_of p))
    (Hadd : AddItem p item amount = Some p') :
  RemoveItem p' item amount = Some (p <| ps_Inventory := inventory_of p |>).
Proof.
  apply AddItem_iff in Hadd as (inv' & -> & Hz & Hk & Hle & [Hc He] & _); [|done].
  pose proof (normalizeInventory_canonical (ps_Inventory p)) as Hc0.
  apply RemoveItem_iff; [done|]. exists (inventory_of p). simpl.
  rewrite (normalizeInventory_id inv') by done.
  pose proof (carried_range (inventory_of p) item Hc0).
  split_and!; [done..| | |done].
  - rewrite He. unfold only. rewrite bool_decide_eq_true_2 by done. lia.
  - split; [done|]. intros j. rewrite He. unfold only. case_bool_decide; lia.
Qed.

(** C15: A transfer between two players creates and destroys nothing: whenever it
    succeeds, each item's total over the two players is what it was, only the two
    inventories change, both are normal, and the receiver is within its limit; and
    it succeeds exactly when the sender carries the amount and the receiver can
    take it. *)
Theorem TransferItem_conserves from to item amount (Ha : is_u8 amount) :
  (∀ from' to', TransferItem from to item amount = Some (from', to') →
    (∀ j, carried (ps_Inventory from') j + carried (ps_Inventory to') j =
          carried (inventory_of from) j + carried (inventory_of to) j) ∧
    from' = from <| ps_Inventory := ps_Inventory from' |> ∧
    to' = to <| ps_Inventory := ps_Inventory to' |> ∧
    canonical (ps_Inventory from') ∧ canonical (ps_Inventory to') ∧
    within_limit to (ps_Inventory to')) ∧
  (is_Some (TransferItem from to item amount) ↔
    ps_ID from ≠ ps_ID to ∧ amount <= carried (inventory_of from) item ∧
    is_Some (AddItem to item amount)).
Proof.
  split.
  - intros from' to' (src & dst & [= -> ->] & _ & _ & _ & _ & _ & [Hc1 E1] & [Hc2 E2] & Hl)%TransferItem_iff;
      [|done].
    split_and!; try done. intros j. simpl. rewrite E1, E2. unfold only. case_bool_decide; lia.
  - split.
    + intros [r (src & dst & _ & Hid & H0 & Hk & Hle & Hmax & _ & Hdst & Hl)%TransferItem_iff]; [|done].
      split_and!; [done..|]. eexists. apply AddItem_iff; eauto 10.
    + intros (Hid & Hle & [r (dst & _ & H0 & Hk & Hmax & Hdst & Hl)%AddItem_iff]); [|done].
      destruct (removeFromInventory_is_Some (inventory_of from) item amount) as [src Hsrc];
        [auto with prison_items|done..|by apply Ha|].
      apply removeFromInventory_spec in Hsrc as (_ & _ & _ & Hsrc); [|auto with prison_items|done].
      eexists. apply TransferItem_iff; eauto 20.
Qed.

(** ** Crafting *)

Definition recipe_ok (r : Recipe) : Prop :=
  Forall valid_stack (rc_Inputs r) ∧ NoDup (stk_Item <$> rc_Inputs r) ∧
  is_u8 (rc_OutputQuantity r) ∧ rc_OutputQuantity r ≠ 0 ∧ IsKnownItem (rc_Output r) = true ∧
  rc_Output r ∉ (stk_Item <$> rc_Inputs r).

Lemma recipes_ok : map_Forall (λ _, recipe_ok) recipesByOutput.
Proof. unfold recipe_ok, valid_stack, is_u8. apply (bool_decide_unpack _). by vm_compute. Qed.

Lemma RecipeFor_ok output r : RecipeFor output = Some r → recipe_ok r.
Proof.
  unfold RecipeFor. rewrite fmap_Some. intros (r0 & Hr0 & ->).
  apply recipes_ok in Hr0 as (Hv & Hnd & Hq & H0 & Hk & Hne). unfold recipe_ok. simpl.
  pose proof (sort_by_perm String.le stk_Item (rc_Inputs r0)) as Hp.
  rewrite Hp at 1. rewrite (fmap_Permutation stk_Item _ _ Hp). done.
Qed.

Lemma remove_requirements_Some reqs inv inv' :
  canonical inv → Forall valid_stack reqs → NoDup (stk_Item <$> reqs) →
  remove_requirements reqs inv = Some inv' →
    Forall (λ s, stk_Quantity s <= carried inv (stk_Item s)) reqs ∧
    changed_by inv inv' (λ j, - carried reqs j).
Proof.
  revert inv. induction reqs as [|s reqs IH]; intros inv Hc Hv Hnd; simpl.
  { intros [= <-]. split; [done|]. split; [done|]. intros j. lia. }
  apply Forall_cons in Hv as [[Hk Hq] Hv]. apply NoDup_cons in Hnd as [Hni Hnd].
  rewrite bind_Some, Forall_cons.
  intros (next & [_ [_ [Hle [Hcn En]]]]%removeFromInventory_spec & Hrest);
    [|done|unfold is_u8; lia].
  apply IH in Hrest as [Hf [Hc' E']]; [|done..]. split_and!; [done| |split; [done|]].
  - rewrite Forall_forall in *. intros s' Hs'. specialize (Hf s' Hs'). rewrite En in Hf.
    assert (stk_Item s' ≠ stk_Item s) as Hne.
    { intros Heq. apply Hni. rewrite <-Heq. by apply list_elem_of_fmap_2. }
    unfold only in Hf. rewrite bool_decide_eq_false_2 in Hf by done. lia.
  - intros j. rewrite E', En, (stack_value_only s (stk_Item s)) by done.
    unfold only. case_bool_decide; lia.
Qed.

Lemma remove_requirements_is_Some reqs inv :
  canonical inv → Forall valid_stack reqs → NoDup (stk_Item <$> reqs) →
  Forall (λ s, stk_Quantity s <= carried inv (stk_Item s)) reqs →
  is_Some (remove_requirements reqs inv).
Proof.
  revert inv. induction reqs as [|s reqs IH]; intros inv Hc Hv Hnd Hf; simpl; [eauto|].
  apply Forall_cons in Hv as [[Hk Hq] Hv], Hf as [Hle Hf]. apply NoDup_cons in Hnd as [Hni Hnd].
  destruct (removeFromInventory_is_Some inv (stk_Item s) (stk_Quantity s))
    as [next Hn]; [done|lia|done|done|lia|].
  rewrite Hn. cbn [mbind option_bind].
  apply removeFromInventory_spec in Hn as (_ & _ & _ & Hcn & En); [|done|unfold is_u8; lia].
  apply IH; [done..|]. rewrite Forall_forall in *. intros s' Hs'. rewrite En.
  assert (stk_Item s' ≠ stk_Item s) as Hne.
  { intros Heq. apply Hni. rewrite <-Heq. by apply list_elem_of_fmap_2. }
  unfold only. rewrite bool_decide_eq_false_2 by done. rewrite Z.add_0_r. auto.
Qed.

#[local] Opaque RecipeFor.

(** [Craft] succeeds exactly when the output has a recipe, the player carries
    every input of it and the result fits; the player then carries the inputs less
    and the output more, all or nothing. *)
Theorem Craft_spec p output p' :
  Craft p output = Some p' ↔
    ∃ r inv', RecipeFor output = Some r ∧ p' = p <| ps_Inventory := inv' |> ∧
      Forall (λ s, stk_Quantity s <= carried (inventory_of p) (stk_Item s)) (rc_Inputs r) ∧
      changed_by (inventory_of p) inv'
        (λ j, only (rc_Output r) (rc_OutputQuantity r) j - carried (rc_Inputs r) j) ∧
      within_limit p inv'.
Proof.
  unfold Craft. rewrite bind_Some. setoid_rewrite bind_Some. setoid_rewrite bind_Some.
  pose proof (normalizeInventory_canonical (ps_Inventory p)) as Hc. split.
  - intros (r & Hr & mid & Hmid & inv' & Hinv & [= <-]). exists r, inv'.
    destruct (RecipeFor_ok _ _ Hr) as (Hv & Hnd & Hq & H0 & Hk & Hne).
    apply remove_requirements_Some in Hmid as [Hf [Hcm Em]]; [|done..].
    apply addToInventory_spec in Hinv as (_ & _ & _ & [Hc' E'] & Hl); [|done..|auto with prison_items].
    split_and!; try done. split; [done|]. intros j. rewrite E', Em. lia.
  - intros (r & inv' & Hr & -> & Hf & [Hc' E'] & Hl). exists r. split; [done|].
    destruct (RecipeFor_ok _ _ Hr) as (Hv & Hnd & Hq & H0 & Hk & Hne).
    destruct (remove_requirements_is_Some (rc_Inputs r) (inventory_of p)) as [mid Hmid]; [done..|].
    exists mid. split; [done|]. apply remove_requirements_Some in Hmid as [_ [Hcm Em]]; [|done..].
    exists inv'. split; [|done].
    apply addToInventory_spec; [done..|auto with prison_items|]. split_and!; try done.
    + pose proof (carried_range inv' (rc_Output r) Hc') as Hr'.
      rewrite E' in Hr'. unfold only in Hr'. rewrite bool_decide_eq_true_2 in Hr' by done.
      rewrite Em. lia.
    + split; [done|]. intros j. rewrite E', Em. lia.
Qed.
#[local] Transparent RecipeFor.

(** ** Dropped items *)

(** What each kind of tag does to the parser. *)
Lemma parse_item_tag tags candidate item quantity :
  IsKnownItem candidate = true →
  parse_dropped_tags ((droppedTagItemPrefix +:+ candidate) :: tags) item quantity =
    parse_dropped_tags tags candidate quantity.
Proof.
  intros Hk. cbn [parse_dropped_tags]. by rewrite HasPrefix_app, TrimPrefix_app, Hk.
Qed.

Lemma parse_qty_tag tags n item quantity :
  is_u8 n → n ≠ 0 →
  parse_dropped_tags ((droppedTagQtyPrefix +:+ Itoa n) :: tags) item quantity =
    parse_dropped_tags tags item n.
Proof.
  intros Hn H0. cbn [parse_dropped_tags].
  change (HasPrefix (droppedTagQtyPrefix +:+ Itoa n) droppedTagItemPrefix) with false.
  rewrite HasPrefix_app, TrimPrefix_app, Atoi_Itoa_u8 by done. unfold is_u8 in Hn.
  rewrite (proj2 (Z.leb_gt _ _)), (proj2 (Z.ltb_ge _ _)) by lia. simpl.
  by rewrite u8_small.
Qed.

Lemma parse_other_tag tags tag item quantity :
  tag = droppedTagMarker ∨ tag = droppedTagContraband →
  parse_dropped_tags (tag :: tags) item quantity = parse_dropped_tags tags item quantity.
Proof. by intros [-> | ->]. Qed.

Section built_tags.
Variables (item : ItemType) (n : Z).
Hypothesis Hk : IsKnownItem item = true.
Hypothesis Hn : is_u8 n.
Hypothesis H0 : n ≠ 0.
Let item_tag := droppedTagItemPrefix +:+ item.
Let qty_tag := droppedTagQtyPrefix +:+ Itoa n.

Lemma built_tag_neq t :
  t = droppedTagMarker ∨ t = droppedTagContraband → item_tag ≠ t ∧ qty_tag ≠ t ∧ item_tag ≠ qty_tag.
Proof. by intros [-> | ->]. Qed.

(** The tags of a dropped stack, read in any order. *)
Lemma parse_built_tags tags i q :
  Forall (λ t, t = item_tag ∨ t = qty_tag ∨ t = droppedTagMarker ∨ t = droppedTagContraband) tags →
  parse_dropped_tags tags i q =
    (let i' := if decide (item_tag ∈ tags) then item else i in
     let q' := if decide (qty_tag ∈ tags) then n else q in
     if i' ≟ "" then None else Some (i', q')).
Proof.
  intros Hall. revert i q. induction Hall as [|t tags Ht Hall IH]; intros i q.
  { rewrite !decide_False by apply not_elem_of_nil. done. }
  destruct (built_tag_neq _ (or_introl eq_refl)) as (_ & _ & Hiq).
  destruct Ht as [->|[->|Ht]].
  - unfold item_tag at 1. rewrite parse_item_tag, IH by done. cbv zeta.
    rewrite (decide_True (P := item_tag ∈ item_tag :: tags)) by (apply elem_of_cons; by left).
    destruct (decide (qty_tag ∈ tags)) as [Hq|Hq].
    + rewrite (decide_True (P := qty_tag ∈ _)) by (apply elem_of_cons; by right).
      by destruct (decide (item_tag ∈ tags)).
    + rewrite (decide_False (P := qty_tag ∈ _)) by (rewrite elem_of_cons; naive_solver).
      by destruct (decide (item_tag ∈ tags)).
  - unfold qty_tag at 1. rewrite parse_qty_tag, IH by done. cbv zeta.
    rewrite (decide_True (P := qty_tag ∈ qty_tag :: tags)) by (apply elem_of_cons; by left).
    rewrite (decide_ext (item_tag ∈ qty_tag :: tags) (item_tag ∈ tags))
      by (rewrite elem_of_cons; naive_solver).
    by destruct (decide (qty_tag ∈ tags)).
  - rewrite parse_other_tag, IH by done. cbv zeta.
    destruct (built_tag_neq t Ht) as (Hit & Hqt & _).
    rewrite (decide_ext (item_tag ∈ t :: tags) (item_tag ∈ tags))
      by (rewrite elem_of_cons; naive_solver).
    rewrite (decide_ext (qty_tag ∈ t :: tags) (qty_tag ∈ tags))
      by (rewrite elem_of_cons; naive_solver).
    done.
Qed.
End built_tags.

(** Parsing the tags built for a dropped stack gives back the item and the
    quantity (a zero quantity drops one piece), however the entity's other fields
    stand. *)
Theorem ParseDroppedItem_BuildDroppedItemTags entity item quantity
    (Hk : IsKnownItem item = true) (Hq : is_u8 quantity)
    (Hkind : es_Kind entity = EntityKindDroppedItem)
    (Htags : es_Tags entity = BuildDroppedItemTags item quantity) :
  ParseDroppedItem entity = Some (item, if quantity ≟ 0 then 1 else quantity).
Proof.
  unfold ParseDroppedItem. rewrite Hkind, Htags. rewrite bool_decide_eq_true_2 by done. simpl.
  set (n := if quantity ≟ 0 then 1 else quantity).
  assert (is_u8 n ∧ n ≠ 0) as [Hn H0].
  { unfold n, is_u8 in *. case_bool_decide; lia. }
  assert (item ≠ "") as Hne by (intros ->; done).
  unfold BuildDroppedItemTags. fold n.
  rewrite (parse_built_tags item n) by
    (done || (apply Forall_forall; intros t; rewrite elem_of_sort_by;
              destruct (IsContraband item); set_solver)).
  cbv zeta. rewrite !decide_True.
  - by rewrite bool_decide_eq_false_2.
  - rewrite elem_of_sort_by. destruct (IsContraband item); set_solver.
  - rewrite elem_of_sort_by. destruct (IsContraband item); set_solver.
Qed.

#[local] Transparent IsKnownItem.

(** ** Witnesses *)

Definition crafter : PlayerState :=
  zero_PlayerState <| ps_ID := "p1" |>
    <| ps_Inventory := [mkStack ItemWood 1; mkStack ItemMetalSlab 2; mkStack ItemWood 1] |>.

Example crafter_crafts :
  (λ p, ps_Inventory p) <$> Craft crafter ItemLadder =
    Some [mkStack ItemLadder 1; mkStack ItemMetalSlab 1].
Proof. by vm_compute. Qed.

Example craft_needs_inputs : Craft crafter ItemWireCutters = None.
Proof. by vm_compute. Qed.

Lemma AddItem_spec_witness :
  is_u8 3 ∧ is_Some (AddItem crafter ItemShiv 3) ∧
  ∀ p', AddItem crafter ItemShiv 3 = Some p' →
    changed_by (inventory_of crafter) (ps_Inventory p') (only ItemShiv 3).
Proof.
  assert (is_u8 3) as H3 by (by vm_compute).
  split; [done|]. split; [by vm_compute; eauto|].
  intros p' (inv' & -> & _ & _ & _ & Hch & _)%(AddItem_spec crafter ItemShiv 3 p' H3). exact Hch.
Defined.

Lemma RemoveItem_spec_witness :
  is_u8 2 ∧ is_Some (RemoveItem crafter ItemWood 2) ∧
  ∀ p', RemoveItem crafter ItemWood 2 = Some p' →
    changed_by (inventory_of crafter) (ps_Inventory p') (only ItemWood (-2)).
Proof.
  assert (is_u8 2) as H2 by (by vm_compute).
  split; [done|]. split; [by vm_compute; eauto|].
  intros p' (inv' & -> & _ & _ & _ & Hch & _)%(RemoveItem_spec crafter ItemWood 2 p' H2). exact Hch.
Defined.

Lemma AddItem_RemoveItem_witness :
  is_u8 3 ∧ within_limit crafter (inventory_of crafter) ∧
  ∀ p', AddItem crafter ItemShiv 3 = Some p' →
    RemoveItem p' ItemShiv 3 = Some (crafter <| ps_Inventory := inventory_of crafter |>).
Proof.
  assert (is_u8 3) as H3 by (by vm_compute).
  assert (within_limit crafter (inventory_of crafter)) as Hl by (by vm_compute).
  split; [done|]. split; [done|]. intros p' Hadd. exact (AddItem_RemoveItem _ _ _ _ H3 Hl Hadd).
Defined.

Lemma TransferItem_conserves_witness :
  is_u8 1 ∧ is_Some (TransferItem crafter zero_PlayerState ItemMetalSlab 1) ∧
  (∀ from' to', TransferItem crafter zero_PlayerState ItemMetalSlab 1 = Some (from', to') →
    carried (ps_Inventory from') ItemMetalSlab + carried (ps_Inventory to') ItemMetalSlab = 2).
Proof.
  assert (is_u8 1) as H1 by (by vm_compute).
  split; [done|]. split; [by vm_compute; eauto|]. intros from' to' Ht.
  destruct (TransferItem_conserves crafter zero_PlayerState ItemMetalSlab 1 H1) as [Hc _].
  destruct (Hc from' to' Ht) as [Hsum _]. rewrite Hsum. by vm_compute.
Defined.

Lemma ParseDroppedItem_witness :
  ParseDroppedItem (zero_EntityState <| es_Kind := EntityKindDroppedItem |>
                      <| es_Tags := BuildDroppedItemTags ItemPistol 7 |>) = Some (ItemPistol, 7).
Proof.
  apply (ParseDroppedItem_BuildDroppedItemTags
    (zero_EntityState <| es_Kind := EntityKindDroppedItem |>
       <| es_Tags := BuildDroppedItemTags ItemPistol 7 |>) ItemPistol 7); by vm_compute.
Defined.

(** A player at the limit that a satchel extends. *)
Definition hoarder : PlayerState :=
  zero_PlayerState <| ps_ID := "p1" |>
    <| ps_Inventory := map (λ item, mkStack item 1)
         [ItemBadge; ItemBaton; ItemBullet; ItemKeys; ItemLadder; ItemSatchel; ItemShiv; ItemWood] |>.

(** A player who gives their satchel away may keep more stacks than they can then
    carry: a transfer does not make the check [RemoveItem] makes. *)
Lemma TransferItem_satchel_over_limit :
  within_limit hoarder (inventory_of hoarder) ∧ RemoveItem hoarder ItemSatchel 1 = None ∧
  ∃ from' to', TransferItem hoarder zero_PlayerState ItemSatchel 1 = Some (from', to') ∧
    ¬ within_limit from' (inventory_of from').
Proof.
  split; [by vm_compute|]. split; [by vm_compute|]. eexists _, _.
  split; [by vm_compute|]. intros Hl. by vm_compute in Hl.
Qed.
