(* ===== verification/Phase.v ===== *)
(** * The day/night clock

    [internal/gamecore/phase/manager.go].  [Advance] loops until the phase ends
    after the current tick; its fuel is the number of ticks to catch up, and
    [Advance_spec] shows that it is enough whenever the tick counter is away from
    its 64-bit limit.  Hooks are functions on the state ([HookFuncs]). *)

From S2P Require Import Prelude Float32 Model.

#[local] Open Scope Z_scope.

Module Phase.

Record Config := mkConfig {
  DayDurationTicks : Z; NightDurationTicks : Z; MaxCycles : Z;
}.
#[export] Instance Config_eta : RecordEta Config := λ c,
  mkConfig (DayDurationTicks c) (NightDurationTicks c) (MaxCycles c).

Record Transition := mkTransition {
  tr_From : PhaseType; tr_To : PhaseType; tr_StartTick : Z; tr_EndTick : Z; tr_Cycle : Z;
}.

(** [HookFuncs]; a nil function is [None]. *)
Record HookFuncs := mkHooks {
  DayStart : option (GameState → Transition → GameState);
  NightStart : option (GameState → Transition → GameState);
}.

Definition OnDayStart (h : HookFuncs) (state : GameState) (t : Transition) : GameState :=
  match DayStart h with Some f => f state t | None => state end.
Definition OnNightStart (h : HookFuncs) (state : GameState) (t : Transition) : GameState :=
  match NightStart h with Some f => f state t | None => state end.

Definition DefaultConfig (tickRateHz : Z) : Config :=
  let tickRateHz := if tickRateHz ≟ 0 then ServerTickRateHz else tickRateHz in
  mkConfig (u64 (DayPhaseDurationSeconds * tickRateHz))
    (u64 (NightPhaseDurationSeconds * tickRateHz)) MaxDayNightCycles.

Definition normalized (c : Config) : Config :=
  let c := if DayDurationTicks c ≟ 0 then c <| DayDurationTicks := 1 |> else c in
  let c := if NightDurationTicks c ≟ 0 then c <| NightDurationTicks := 1 |> else c in
  if MaxCycles c ≟ 0 then c <| MaxCycles := MaxDayNightCycles |> else c.

Definition InitialPhaseState (config : Config) (startTick : Z) : PhaseState :=
  let startTick := if startTick ≟ 0 then 1 else startTick in
  mkPhase PhaseDay startTick (u64 (startTick + DayDurationTicks (normalized config))).

(** One round of the loop of [Advance]: the cycle counter, the transition, the new
    phase, and the hook of the new phase. *)
Definition advance_once (c : Config) (hooks : option HookFuncs) (state : GameState) :
    GameState * Transition :=
  let toDay := ph_Current (gs_Phase state) ≟ PhaseNight in
  let nextPhase := if toDay then PhaseDay else PhaseNight in
  let duration := if toDay then DayDurationTicks c else NightDurationTicks c in
  let state1 :=
    if toDay && (gs_CycleCount state <? MaxCycles c)
    then state <| gs_CycleCount := u8 (gs_CycleCount state + 1) |> else state in
  let transition :=
    mkTransition (ph_Current (gs_Phase state)) nextPhase (ph_EndsTick (gs_Phase state))
      (u64 (ph_EndsTick (gs_Phase state) + duration)) (gs_CycleCount state1) in
  let state2 := state1 <| gs_Phase :=
    mkPhase nextPhase (tr_StartTick transition) (tr_EndTick transition) |> in
  (match hooks with
   | None => state2
   | Some h => if toDay then OnDayStart h state2 transition else OnNightStart h state2 transition
   end, transition).

Fixpoint advance_loop (fuel : nat) (state : GameState) (currentTick : Z) (c : Config)
    (hooks : option HookFuncs) : option (GameState * list Transition) :=
  if currentTick <? ph_EndsTick (gs_Phase state) then Some (state, [])
  else
    match fuel with
    | O => None
    | S fuel =>
        let '(state', transition) := advance_once c hooks state in
        '(final, transitions) ← advance_loop fuel state' currentTick c hooks;
        Some (final, transition :: transitions)
    end.

Definition Advance (state : GameState) (currentTick : Z) (config : Config)
    (hooks : option HookFuncs) : option (GameState * list Transition) :=
  advance_loop (Z.to_nat (currentTick + 1 - ph_EndsTick (gs_Phase state)))
    state currentTick (normalized config) hooks.

(** ** The clock alone: phase and cycle *)

Definition clock (state : GameState) : PhaseState * Z := (gs_Phase state, gs_CycleCount state).

Definition clock_step (c : Config) (k : PhaseState * Z) : PhaseState * Z :=
  let '(p, cycle) := k in
  if ph_Current p ≟ PhaseNight
  then (mkPhase PhaseDay (ph_EndsTick p) (ph_EndsTick p + DayDurationTicks c),
        if cycle <? MaxCycles c then cycle + 1 else cycle)
  else (mkPhase PhaseNight (ph_EndsTick p) (ph_EndsTick p + NightDurationTicks c), cycle).

(** Hooks may change anything but the clock. *)
Definition hook_neutral (hooks : option HookFuncs) : Prop :=
  match hooks with
  | None => True
  | Some h => ∀ s t, clock (OnDayStart h s t) = clock s ∧ clock (OnNightStart h s t) = clock s
  end.

Definition config_wf (c : Config) : Prop :=
  is_u64 (DayDurationTicks c) ∧ is_u64 (NightDurationTicks c) ∧ is_u8 (MaxCycles c).

(** The tick counter is a phase away from overflow. *)
Definition tick_headroom (c : Config) (tick : Z) : Prop :=
  tick + DayDurationTicks (normalized c) < 2 ^ 64 ∧
  tick + NightDurationTicks (normalized c) < 2 ^ 64.

Lemma normalized_wf c : config_wf c → config_wf (normalized c).
Proof.
  unfold config_wf, normalized, is_u64, is_u8, MaxDayNightCycles.
  repeat case_bool_decide; simpl in *; lia.
Qed.

Lemma normalized_pos c :
  config_wf c → 0 < DayDurationTicks (normalized c) ∧ 0 < NightDurationTicks (normalized c).
Proof.
  unfold config_wf, normalized, is_u64, is_u8.
  repeat case_bool_decide; simpl in *; lia.
Qed.

Section advance.
Variables (c : Config) (hooks : option HookFuncs) (tick : Z).
Hypothesis Hc : config_wf c.
Hypothesis Hday : 0 < DayDurationTicks c.
Hypothesis Hnight : 0 < NightDurationTicks c.
Hypothesis Hh : hook_neutral hooks.
Hypothesis Hroom : tick + DayDurationTicks c < 2 ^ 64 ∧ tick + NightDurationTicks c < 2 ^ 64.

Lemma advance_once_clock s :
  0 <= ph_EndsTick (gs_Phase s) <= tick → 0 <= gs_CycleCount s →
  clock (advance_once c hooks s).1 = clock_step c (clock s).
Proof.
  intros He Hcyc. destruct Hc as (_ & _ & Hm). unfold is_u8 in Hm.
  unfold advance_once, clock_step. cbn [clock]. cbn [fst].
  set (s2 := _ <| gs_Phase := _ |>).
  assert (clock (match hooks with
                 | None => s2
                 | Some h => if ph_Current (gs_Phase s) ≟ PhaseNight
                             then OnDayStart h s2 _ else OnNightStart h s2 _ end) = clock s2) as ->.
  { unfold hook_neutral in Hh. destruct hooks; [|done]. case_match; apply Hh. }
  subst s2. unfold clock. simpl. case_bool_decide; simpl.
  - rewrite u64_small by (unfold is_u64; lia). f_equal.
    case_match eqn:Hlt; simpl; [|done]. bool_props. rewrite u8_small; [done|unfold is_u8; lia].
  - by rewrite u64_small by (unfold is_u64; lia).
Qed.

Lemma clock_step_ends k :
  ph_EndsTick k.1 < ph_EndsTick (clock_step c k).1 ∧ k.2 <= (clock_step c k).2 ∧
  ((clock_step c k).2 <= Z.max k.2 (MaxCycles c)).
Proof.
  destruct k as [p n]. unfold clock_step. case_bool_decide; simpl; [|lia].
  case_match eqn:Hlt; bool_props; lia.
Qed.

Lemma advance_loop_spec fuel s :
  0 <= ph_EndsTick (gs_Phase s) → 0 <= gs_CycleCount s →
  tick + 1 - ph_EndsTick (gs_Phase s) <= Z.of_nat fuel →
  ∃ s' ts, advance_loop fuel s tick c hooks = Some (s', ts) ∧
    tick < ph_EndsTick (gs_Phase s') ∧ ph_EndsTick (gs_Phase s) <= ph_EndsTick (gs_Phase s') ∧
    clock s' = Nat.iter (length ts) (clock_step c) (clock s) ∧
    (∀ k, (k < length ts)%nat → ph_EndsTick (Nat.iter k (clock_step c) (clock s)).1 <= tick) ∧
    gs_CycleCount s <= gs_CycleCount s' <= Z.max (gs_CycleCount s) (MaxCycles c).
Proof.
  revert s. induction fuel as [|fuel IH]; intros s He Hcyc Hfuel.
  { simpl. rewrite (proj2 (Z.ltb_lt _ _)) by lia. eexists s, []. split_and!; simpl; try done; lia. }
  cbn [advance_loop]. destruct (tick <? _) eqn:Hlt; bool_props.
  { eexists s, []. split_and!; simpl; try done; lia. }
  destruct (advance_once c hooks s) as [s1 t] eqn:Ho.
  pose proof (advance_once_clock s ltac:(lia) Hcyc) as Hk. rewrite Ho in Hk. cbn [fst] in Hk.
  pose proof (clock_step_ends (clock s)) as (H1 & H2 & H3). rewrite <-Hk in H1, H2, H3.
  cbn [clock fst snd] in H1, H2, H3.
  destruct (IH s1) as (s' & ts & Hr & Hend & Hge & Hclk & Hall & Hb);
    [lia..|].
  exists s', (t :: ts). split_and!; [by rewrite Hr|done|lia| | |lia|lia]; simpl.
  - by rewrite Hclk, Hk, Nat.iter_swap.
  - intros [|k] Hlen; simpl; [done|]. rewrite <-Nat.iter_swap, <-Hk. apply Hall. lia.
Qed.

Lemma advance_loop_mono fuel fuel' s t r :
  advance_loop fuel s t c hooks = Some r → (fuel ≤ fuel')%nat →
  advance_loop fuel' s t c hooks = Some r.
Proof.
  revert fuel' s r. induction fuel as [|fuel IH]; intros fuel' s r Hl Hle.
  - simpl in Hl. destruct fuel'; simpl; by case_match.
  - destruct fuel' as [|fuel']; [lia|]. cbn [advance_loop] in *. case_match; [done|].
    destruct (advance_once c hooks s) as [s1 tr].
    apply bind_Some in Hl as ([s2 ts] & Hl & Hr). rewrite (IH fuel' s1 _ Hl) by lia. done.
Qed.

Lemma advance_loop_det fuel fuel' s t r r' :
  advance_loop fuel s t c hooks = Some r → advance_loop fuel' s t c hooks = Some r' → r = r'.
Proof.
  intros H1 H2. destruct (Nat.le_ge_cases fuel fuel') as [Hle|Hle].
  - apply (advance_loop_mono _ fuel') in H1; [congruence|done].
  - apply (advance_loop_mono _ fuel) in H2; [congruence|done].
Qed.

Lemma advance_loop_app fuel1 fuel2 s t1 t2 s1 ts1 s2 ts2 :
  t1 <= t2 →
  advance_loop fuel1 s t1 c hooks = Some (s1, ts1) →
  advance_loop fuel2 s1 t2 c hooks = Some (s2, ts2) →
  advance_loop (fuel1 + fuel2) s t2 c hooks = Some (s2, ts1 ++ ts2).
Proof.
  intros Hle. revert s ts1. induction fuel1 as [|fuel1 IH]; intros s ts1 H1 H2.
  - simpl in H1. case_match; [|done]. by simplify_eq.
  - cbn [advance_loop] in H1. destruct (t1 <? _) eqn:Hlt.
    + simplify_eq. apply advance_loop_mono with fuel2; [done|lia].
    + bool_props. cbn [advance_loop Nat.add]. rewrite (proj2 (Z.ltb_ge _ _)) by lia.
      destruct (advance_once c hooks s) as [sn tn].
      apply bind_Some in H1 as ([sm tm] & H1 & [= <- <-]).
      by rewrite (IH _ _ H1 H2).
Qed.
End advance.

(** [Advance] returns, and leaves a phase that ends after the current tick.  It
    fires exactly the transitions that are due: the clock goes through as many steps
    as transitions are reported, each of them when its phase had ended, day and
    night alternating; and the cycle counter never passes its maximum. *)
Theorem Advance_spec state tick config hooks
    (Hc : config_wf config) (Hh : hook_neutral hooks) (Hroom : tick_headroom config tick)
    (He : is_u64 (ph_EndsTick (gs_Phase state))) (Hcyc : is_u8 (gs_CycleCount state)) :
  ∃ state' ts, Advance state tick config hooks = Some (state', ts) ∧
    tick < ph_EndsTick (gs_Phase state') ∧
    clock state' = Nat.iter (length ts) (clock_step (normalized config)) (clock state) ∧
    (∀ k, (k < length ts)%nat →
       ph_EndsTick (Nat.iter k (clock_step (normalized config)) (clock state)).1 <= tick) ∧
    gs_CycleCount state <= gs_CycleCount state' <=
      Z.max (gs_CycleCount state) (MaxCycles (normalized config)).
Proof.
  destruct (normalized_pos config Hc). unfold is_u64, is_u8 in He, Hcyc.
  unfold Advance.
  destruct (advance_loop_spec (normalized config) hooks tick (normalized_wf _ Hc) ltac:(done)
    ltac:(done) Hh Hroom (Z.to_nat (tick + 1 - ph_EndsTick (gs_Phase state))) state)
    as (s' & ts & H1 & H2 & _ & H3); [lia..|]. eauto.
Qed.

(** Catching up late is the same as advancing on the way: advancing to [t1] and
    then to [t2] gives the state and the transitions of advancing to [t2] at once. *)
Theorem Advance_catch_up state t1 t2 config hooks
    (Hc : config_wf config) (Hh : hook_neutral hooks) (Hroom : tick_headroom config t2)
    (He : is_u64 (ph_EndsTick (gs_Phase state))) (Hcyc : is_u8 (gs_CycleCount state))
    (Hle : t1 <= t2) :
  ∃ s1 ts1 s2 ts2, Advance state t1 config hooks = Some (s1, ts1) ∧
    Advance s1 t2 config hooks = Some (s2, ts2) ∧
    Advance state t2 config hooks = Some (s2, ts1 ++ ts2).
Proof.
  destruct (normalized_pos config Hc) as [Hd Hn]. pose proof (normalized_wf config Hc) as Hw.
  unfold is_u64, is_u8, tick_headroom in *. unfold Advance.
  destruct (advance_loop_spec (normalized config) hooks t1 Hw Hd Hn Hh ltac:(lia)
    (Z.to_nat (t1 + 1 - ph_EndsTick (gs_Phase state))) state)
    as (s1 & ts1 & H1 & Hend1 & Hge1 & _ & _ & Hb1); [lia..|].
  destruct (advance_loop_spec (normalized config) hooks t2 Hw Hd Hn Hh Hroom
    (Z.to_nat (t2 + 1 - ph_EndsTick (gs_Phase s1))) s1)
    as (s2 & ts2 & H2 & _); [lia..|].
  destruct (advance_loop_spec (normalized config) hooks t2 Hw Hd Hn Hh Hroom
    (Z.to_nat (t2 + 1 - ph_EndsTick (gs_Phase state))) state)
    as (s3 & ts3 & H3 & _); [lia..|].
  eexists s1, ts1, s2, ts2. split_and!; [done..|]. rewrite H3.
  eapply advance_loop_app in H2; [|exact Hle|exact H1].
  f_equal. by eapply advance_loop_det.
Qed.

(** ** Witness: the default clock caught up from tick 1 over one full cycle *)

Definition clock_example : GameState :=
  zero_GameState <| gs_Phase := InitialPhaseState (DefaultConfig 30) 1 |> <| gs_CycleCount := 0 |>.

Example clock_example_run :
  (λ r, (ph_Current (gs_Phase r.1), gs_CycleCount r.1, length r.2)) <$>
    Advance clock_example 12601 (mkConfig 9000 3600 6) None = Some (PhaseDay, 1, 2%nat).
Proof. by vm_compute. Qed.

Definition short_days : Config := mkConfig 10 5 6.
Definition marking_hooks : HookFuncs :=
  mkHooks (Some (λ s t, s <| gs_MatchID := "day" |>)) (Some (λ s t, s <| gs_MatchID := "night" |>)).

Lemma Advance_spec_witness :
  ∃ state' ts, Advance clock_example 9031 short_days (Some marking_hooks) = Some (state', ts) ∧
    9031 < ph_EndsTick (gs_Phase state') ∧ length ts = 5%nat ∧ gs_CycleCount state' = 2.
Proof.
  destruct (Advance_spec clock_example 9031 short_days (Some marking_hooks))
    as (state' & ts & Hrun & Hend & _); [by vm_compute|by split|by vm_compute|by vm_compute|by vm_compute|].
  exists state', ts. split; [done|]. split; [done|].
  vm_compute in Hrun. injection Hrun as <- <-. by vm_compute.
Defined.

Lemma Advance_catch_up_witness :
  ∃ s1 ts1 s2 ts2,
    Advance clock_example 9007 short_days (Some marking_hooks) = Some (s1, ts1) ∧
    Advance s1 9031 short_days (Some marking_hooks) = Some (s2, ts2) ∧
    Advance clock_example 9031 short_days (Some marking_hooks) = Some (s2, ts1 ++ ts2).
Proof.
  apply (Advance_catch_up clock_example 9007 9031 short_days (Some marking_hooks));
    [by vm_compute|by split|by vm_compute|by vm_compute|by vm_compute|by vm_compute].
Defined.

End Phase.
