(* ===== verification/Win.v ===== *)
(** * Win conditions

    [internal/gamecore/winconditions/evaluator.go]: when a match is over, why, and
    who wins. *)

From S2P Require Import Prelude Float32 Model.

#[local] Open Scope Z_scope.

Module Win.

Definition EscapedRoomID : RoomID := "escaped".

Record Config := mkConfig { MaxCycles : Z }.

Definition DefaultConfig : Config := mkConfig MaxDayNightCycles.

Definition normalized (c : Config) : Config :=
  if MaxCycles c ≟ 0 then mkConfig MaxDayNightCycles else c.

Definition hasEscapedGangLeader (state : GameState) : bool :=
  existsb (λ player, (ps_Role player ≟ RoleGangLeader) &&
                     (ps_Alive player && (ps_CurrentRoomID player ≟ EscapedRoomID)))
    (gs_Players state).

(** The loop that answers false at the first living holder of the roles, and
    otherwise whether it saw one. *)
Fixpoint all_dead (holds : PlayerState → bool) (seen : bool) (players : list PlayerState) : bool :=
  match players with
  | [] => seen
  | player :: players =>
      if negb (holds player) then all_dead holds seen players
      else if ps_Alive player then false
      else all_dead holds true players
  end.

Definition is_warden (player : PlayerState) : bool := ps_Role player ≟ RoleWarden.
Definition is_gang (player : PlayerState) : bool :=
  (ps_Role player ≟ RoleGangLeader) || (ps_Role player ≟ RoleGangMember).

Definition hasDeadWarden (state : GameState) : bool := all_dead is_warden false (gs_Players state).
Definition hasNoAliveGangMembers (state : GameState) : bool :=
  all_dead is_gang false (gs_Players state).

Definition detectReason (state : GameState) (config : Config) : WinReason :=
  if hasEscapedGangLeader state then WinReasonGangLeaderEscaped
  else if hasDeadWarden state then WinReasonWardenDied
  else if hasNoAliveGangMembers state then WinReasonAllGangMembersDead
  else if MaxCycles config <=? gs_CycleCount state then WinReasonMaxCyclesReached
  else "".

(** The [switch] of [winnersForReason] for one player. *)
Definition wins (reason : WinReason) (player : PlayerState) : bool :=
  if reason ≟ WinReasonGangLeaderEscaped then
    is_gang player ||
    ((ps_Faction player ≟ FactionAuthority) && (ps_Alignment player ≟ AlignmentEvil))
  else if reason ≟ WinReasonWardenDied then is_gang player
  else if (reason ≟ WinReasonAllGangMembersDead) || (reason ≟ WinReasonMaxCyclesReached) ||
          (reason ≟ WinReasonNoEscapesAtTimeLimit) then
    ((ps_Faction player ≟ FactionAuthority) && (ps_Alignment player ≟ AlignmentGood)) ||
    (ps_Role player ≟ RoleSnitch)
  else if (reason ≟ WinReasonHitmanTargetEliminated) ||
          (reason ≟ WinReasonEscapeArtistFirstEscape) then
    ps_Role player ≟ RoleNeutralPrisoner
  else false.

Definition winnersForReason (state : GameState) (reason : WinReason) : list PlayerID :=
  omap (λ player, if negb (ps_Alive player) then None
                  else if wins reason player then Some (ps_ID player) else None)
    (gs_Players state).

Definition ResolveOutcome (state : GameState) (reason : WinReason) (endedTick : Z) : GameOverState :=
  mkGameOver reason endedTick (sort_strings (winnersForReason state reason)) "".

Definition Evaluate (state : GameState) (config : Config) : option GameOverState :=
  let reason := detectReason state (normalized config) in
  if reason ≟ "" then None else Some (ResolveOutcome state reason (gs_TickID state)).

(** ** What the conditions mean *)

Definition escaped_leader (state : GameState) : Prop :=
  ∃ p, p ∈ gs_Players state ∧ ps_Role p = RoleGangLeader ∧ ps_Alive p = true ∧
       ps_CurrentRoomID p = EscapedRoomID.

(** The match has holders of the roles, and none is alive. *)
Definition wiped_out (holds : PlayerState → bool) (state : GameState) : Prop :=
  (∃ p, p ∈ gs_Players state ∧ holds p = true) ∧
  ∀ p, p ∈ gs_Players state → holds p = true → ps_Alive p = false.

Definition terminal (config : Config) (state : GameState) (reason : WinReason) : Prop :=
  (reason = WinReasonGangLeaderEscaped ∧ escaped_leader state) ∨
  (reason = WinReasonWardenDied ∧ ¬ escaped_leader state ∧ wiped_out is_warden state) ∨
  (reason = WinReasonAllGangMembersDead ∧ ¬ escaped_leader state ∧
     ¬ wiped_out is_warden state ∧ wiped_out is_gang state) ∨
  (reason = WinReasonMaxCyclesReached ∧ ¬ escaped_leader state ∧
     ¬ wiped_out is_warden state ∧ ¬ wiped_out is_gang state ∧
     MaxCycles (normalized config) <= gs_CycleCount state).

Lemma hasEscapedGangLeader_iff state : hasEscapedGangLeader state = true ↔ escaped_leader state.
Proof.
  unfold hasEscapedGangLeader, escaped_leader. rewrite existsb_elem.
  f_equiv. intros p. rewrite !andb_true_iff, !bool_decide_eq_true. tauto.
Qed.

Lemma all_dead_iff holds seen players :
  all_dead holds seen players = true ↔
    (seen = true ∨ ∃ p, p ∈ players ∧ holds p = true) ∧
    ∀ p, p ∈ players → holds p = true → ps_Alive p = false.
Proof.
  revert seen. induction players as [|p players IH]; intros seen; simpl.
  { split.
    - intros ->. split; [by left|]. by intros q ?%elem_of_nil.
    - by intros [[?|(q & ?%elem_of_nil & _)] _]. }
  assert (∀ q, q ∈ p :: players ↔ q = p ∨ q ∈ players) as Hcons
    by (intros q; apply elem_of_cons).
  destruct (holds p) eqn:Hp; simpl; [destruct (ps_Alive p) eqn:Ha|]; rewrite ?IH.
  - split; [done|]. intros [_ Hall]. rewrite (Hall p) in Ha; [done|by apply Hcons; left|done].
  - split.
    + intros [_ Hall]. split; [right; exists p; by rewrite Hcons; auto|].
      intros q [->|Hq]%Hcons; auto.
    + intros [_ Hall]. split; [by left|]. intros q Hq. apply Hall, Hcons. by right.
  - split.
    + intros [[?|(q & Hq & Hh)] Hall]; (split; [|intros r [->|Hr]%Hcons; [congruence|auto]]);
        [by left|right; exists q; by rewrite Hcons; auto].
    + intros [[?|(q & [->|Hq]%Hcons & Hh)] Hall];
        (split; [|intros r Hr; apply Hall, Hcons; by right]); [by left|congruence|right; eauto].
Qed.

Lemma wiped_out_iff holds state : all_dead holds false (gs_Players state) = true ↔ wiped_out holds state.
Proof. rewrite all_dead_iff. unfold wiped_out. naive_solver. Qed.

Lemma elem_of_winners state reason id :
  id ∈ winnersForReason state reason ↔
    ∃ p, p ∈ gs_Players state ∧ ps_Alive p = true ∧ wins reason p = true ∧ ps_ID p = id.
Proof.
  unfold winnersForReason. rewrite list_elem_of_omap. f_equiv. intros p.
  destruct (ps_Alive p); simpl; [destruct (wins reason p)|]; naive_solver.
Qed.

Lemma detectReason_iff state config reason :
  reason ≠ "" → detectReason state (normalized config) = reason ↔ terminal config state reason.
Proof.
  intros Hne. unfold detectReason, terminal, hasDeadWarden, hasNoAliveGangMembers.
  rewrite <-hasEscapedGangLeader_iff, <-!wiped_out_iff.
  rewrite <-Z.leb_le.
  destruct (hasEscapedGangLeader state), (all_dead is_warden false _), (all_dead is_gang false _),
    (MaxCycles (normalized config) <=? gs_CycleCount state); simpl;
    (split;
     [intros <-; first [done | by left | by right; left | by right; right; left
                       | by right; right; right]
     |intros [[-> ?]|[[-> [??]]|[[-> [? [??]]]|[-> [? [? [??]]]]]]]; done]).
Qed.

(** The match is over exactly when one of the four terminal conditions holds, the
    reason is the first of them in the fixed priority order, and the winners are
    exactly the living players whom that reason rewards, sorted. *)
Theorem Evaluate_spec state config :
  match Evaluate state config with
  | Some outcome =>
      terminal config state (go_Reason outcome) ∧ go_EndedTick outcome = gs_TickID state ∧
      StronglySorted String.le (go_WinnerPlayerIDs outcome) ∧
      (∀ id, id ∈ go_WinnerPlayerIDs outcome ↔
         ∃ p, p ∈ gs_Players state ∧ ps_Alive p = true ∧
              wins (go_Reason outcome) p = true ∧ ps_ID p = id)
  | None => ∀ reason, ¬ terminal config state reason
  end.
Proof.
  unfold Evaluate. case_bool_decide as Hr; simpl.
  - intros reason Ht. assert (reason ≠ "") as Hne.
    { unfold terminal in Ht. intros ->. naive_solver. }
    apply detectReason_iff in Ht; congruence.
  - split_and!; [by apply detectReason_iff|done|apply (sort_by_sorted String.le id)|].
    intros id. rewrite elem_of_sort_by. apply elem_of_winners.
Qed.

#[export] Instance winners_proper reason :
  Proper ((≡ₚ) ==> (≡ₚ)) (λ players : list PlayerState,
    omap (λ player, if negb (ps_Alive player) then None
                    else if wins reason player then Some (ps_ID player) else None) players).
Proof. intros l1 l2 Hp. by rewrite Hp. Qed.

Lemma terminal_perm config state players reason :
  players ≡ₚ gs_Players state →
  terminal config (state <| gs_Players := players |>) reason ↔ terminal config state reason.
Proof.
  intros Hp. unfold terminal, escaped_leader, wiped_out. simpl. by setoid_rewrite Hp.
Qed.

(** The outcome does not depend on the order of the players. *)
Theorem Evaluate_order_independent state config players
    (Hp : players ≡ₚ gs_Players state) :
  Evaluate (state <| gs_Players := players |>) config = Evaluate state config.
Proof.
  assert (detectReason (state <| gs_Players := players |>) (normalized config) =
          detectReason state (normalized config)) as Hd.
  { set (r := detectReason state _).
    destruct (decide (detectReason (state <| gs_Players := players |>) (normalized config) = ""))
      as [He|He].
    - rewrite He. destruct (decide (r = "")) as [->|Hr]; [done|].
      pose proof (proj1 (detectReason_iff state config r Hr) eq_refl) as Ht.
      apply (terminal_perm config state players) in Ht; [|done].
      apply detectReason_iff in Ht; congruence.
    - pose proof (proj1 (detectReason_iff _ config _ He) eq_refl) as Ht.
      apply terminal_perm in Ht; [|done]. by apply detectReason_iff in Ht. }
  unfold Evaluate. rewrite Hd. case_bool_decide; [done|]. f_equal.
  unfold ResolveOutcome. f_equal. apply (sort_self_proper String.le).
  by apply (winners_proper (detectReason state (normalized config))).
Qed.

Definition finished_match : GameState :=
  zero_GameState <| gs_TickID := 42 |> <| gs_Players :=
    [ zero_PlayerState <| ps_ID := "p2" |> <| ps_Alive := true |> <| ps_Role := RoleGangMember |>;
      zero_PlayerState <| ps_ID := "p1" |> <| ps_Alive := true |> <| ps_Role := RoleGangLeader |>
        <| ps_CurrentRoomID := EscapedRoomID |>;
      zero_PlayerState <| ps_ID := "p3" |> <| ps_Role := RoleWarden |> ] |>.

Lemma Evaluate_order_independent_witness :
  Evaluate (finished_match <| gs_Players := reverse (gs_Players finished_match) |>) DefaultConfig =
    Evaluate finished_match DefaultConfig ∧
  Evaluate finished_match DefaultConfig =
    Some (mkGameOver WinReasonGangLeaderEscaped 42 ["p1"; "p2"] "").
Proof.
  split; [|by vm_compute].
  apply (Evaluate_order_independent finished_match DefaultConfig). apply reverse_Permutation.
Defined.

End Win.
