(* ===== verification/Prison.v ===== *)
(** * Prison systems: power, doors and restricted rooms

    [internal/gamecore/prison/systems.go]. *)

From S2P Require Import Prelude Float32 Model Layout Access.

#[local] Open Scope Z_scope.

Definition AlarmDurationSeconds : Z := 5.
Definition GuardShotIntervalSecond : Z := 1.
Definition GuardShotDamageHalf : Z := 2.

Definition AlarmDurationTicks (tickRateHz : Z) : Z :=
  if tickRateHz ≟ 0 then 0 else u64 (AlarmDurationSeconds * tickRateHz).
Definition GuardShotIntervalTicks (tickRateHz : Z) : Z :=
  if tickRateHz ≟ 0 then 0 else u64 (GuardShotIntervalSecond * tickRateHz).

(** One door of the loop of [ApplyPowerState], with the [changed] flag. *)
Definition power_door (powerOn : bool) (door : DoorState) : DoorState * bool :=
  if powerOn then
    if negb (ds_CanClose door) then (door <| ds_CanClose := true |>, true) else (door, false)
  else
    let '(door1, changed1) :=
      if ds_CanClose door then (door <| ds_CanClose := false |>, true) else (door, false) in
    if negb (ds_Open door1) then (door1 <| ds_Open := true |>, true) else (door1, changed1).

Fixpoint power_doors (powerOn : bool) (doors : list DoorState) (changed : bool) :
    list DoorState * bool :=
  match doors with
  | [] => ([], changed)
  | door :: doors =>
      let '(door', c) := power_door powerOn door in
      let '(doors', changed') := power_doors powerOn doors (changed || c) in
      (door' :: doors', changed')
  end.

(** The new map and the result ([changed]). *)
Definition ApplyPowerState (mapState : MapState) (powerOn : bool) : MapState * bool :=
  let '(map1, changed) :=
    if negb (eqb (ms_PowerOn mapState) powerOn)
    then (mapState <| ms_PowerOn := powerOn |>, true) else (mapState, false) in
  let '(doors, changed) := power_doors powerOn (ms_Doors map1) changed in
  (map1 <| ms_Doors := doors |>, changed).

Definition IsRestrictedRoom (roomID : RoomID) (mapState : MapState) : bool :=
  if roomID ≟ "" then false
  else existsb (λ zone, zs_Restricted zone && (zs_RoomID zone ≟ roomID)) (ms_RestrictedZones mapState).

Definition RestrictedPrisonerIDs (players : list PlayerState) (mapState : MapState) : list PlayerID :=
  sort_strings
    (omap (λ player,
       if negb (ps_Alive player) then None
       else if negb (IsPrisonerPlayer player) then None
       else if negb (IsRestrictedRoom (ps_CurrentRoomID player) mapState) then None
       else Some (ps_ID player)) players).

(** ** The power invariant *)

(** Doors can be closed exactly when the power is on, and without power every door
    stands open. *)
Definition power_ok (m : MapState) : Prop :=
  ∀ door, door ∈ ms_Doors m →
    ds_CanClose door = ms_PowerOn m ∧ (ms_PowerOn m = false → ds_Open door = true).

(** What switching the power does to a door. *)
Definition powered (powerOn : bool) (door : DoorState) : DoorState :=
  door <| ds_CanClose := powerOn |> <| ds_Open := negb powerOn || ds_Open door |>.

Lemma power_door_spec powerOn door :
  power_door powerOn door = (powered powerOn door, bool_decide (powered powerOn door ≠ door)).
Proof.
  destruct door as [id ra rb op lk cc bu lb]. unfold power_door, powered.
  destruct powerOn, cc, op; simpl; f_equal; symmetry;
    solve [ by apply bool_decide_eq_true_2
          | apply bool_decide_eq_false_2; intros Hn; by apply Hn ].
Qed.

Lemma power_doors_spec powerOn doors changed :
  power_doors powerOn doors changed =
    (powered powerOn <$> doors, changed || bool_decide (powered powerOn <$> doors ≠ doors)).
Proof.
  revert changed. induction doors as [|door doors IH]; intros changed; simpl.
  { by rewrite orb_false_r. }
  rewrite power_door_spec, IH. f_equal. rewrite <-orb_assoc. f_equal.
  apply eq_true_iff_eq. rewrite orb_true_iff, !bool_decide_eq_true.
  split; [intros [Hne|Hne] [= ? ?]; by apply Hne|]. intros Hne.
  destruct (decide (powered powerOn door = door)) as [Heq|?]; [right|by left].
  intros Hl. apply Hne. by f_equal.
Qed.

(** Switching the power sets the power, makes every door closable exactly when
    the power is on and opens every door when it goes off, leaving every other field
    of the map alone; it establishes the power invariant and reports a change
    exactly when the map changed. *)
Theorem ApplyPowerState_spec m powerOn :
  (ApplyPowerState m powerOn).1 =
    m <| ms_PowerOn := powerOn |> <| ms_Doors := powered powerOn <$> ms_Doors m |> ∧
  power_ok (ApplyPowerState m powerOn).1 ∧
  ((ApplyPowerState m powerOn).2 = true ↔ (ApplyPowerState m powerOn).1 ≠ m).
Proof.
  assert (∀ d, power_ok (d <| ms_PowerOn := powerOn |> <| ms_Doors := powered powerOn <$> ms_Doors m |>))
    as Hok.
  { intros d door. simpl. intros (door0 & -> & _)%list_elem_of_fmap. simpl.
    split; [done|]. by intros ->. }
  specialize (Hok m).
  assert (ApplyPowerState m powerOn =
    (m <| ms_PowerOn := powerOn |> <| ms_Doors := powered powerOn <$> ms_Doors m |>,
     negb (eqb (ms_PowerOn m) powerOn) || bool_decide (powered powerOn <$> ms_Doors m ≠ ms_Doors m)))
    as ->.
  { unfold ApplyPowerState. destruct (eqb (ms_PowerOn m) powerOn) eqn:He;
      cbn [negb]; rewrite power_doors_spec; [|done].
    apply eqb_prop in He. by destruct m; simpl in *; subst. }
  split; [done|]. split; [done|]. simpl.
  rewrite orb_true_iff, negb_true_iff, eqb_false_iff, bool_decide_eq_true.
  destruct m as [pw al bm doors cells zones]. unfold field_update; simpl. split.
  - intros [Hne|Hne] [=]; by apply Hne.
  - intros Hne. destruct (decide (pw = powerOn)) as [->|?]; [right|by left].
    intros Heq. apply Hne. by f_equal.
Qed.

(** Power is a switch: switching it again to the same side changes nothing and
    reports no change, and a blackout leaves every door open after the power is
    back. *)
Theorem ApplyPowerState_idempotent m powerOn :
  ApplyPowerState (ApplyPowerState m powerOn).1 powerOn = ((ApplyPowerState m powerOn).1, false) ∧
  ∀ door, door ∈ ms_Doors (ApplyPowerState (ApplyPowerState m false).1 true).1 →
    ds_Open door = true ∧ ds_CanClose door = true.
Proof.
  assert (∀ m b, ApplyPowerState m b = ((ApplyPowerState m b).1, (ApplyPowerState m b).2)) as Hpair
    by (intros; by destruct (ApplyPowerState _ _)).
  split.
  - rewrite Hpair.
    assert ((ApplyPowerState (ApplyPowerState m powerOn).1 powerOn).1 = (ApplyPowerState m powerOn).1)
      as Hsame.
    { rewrite !(proj1 (ApplyPowerState_spec _ _)). unfold field_update; simpl. f_equal.
      rewrite <-list_fmap_compose. apply list_fmap_ext. intros _ [] _.
      unfold powered; simpl. by destruct powerOn. }
    f_equal; [done|]. apply not_true_iff_false.
    rewrite (proj2 (proj2 (ApplyPowerState_spec _ _))). auto.
  - intros door. rewrite !(proj1 (ApplyPowerState_spec _ _)). simpl.
    rewrite <-list_fmap_compose. intros (door0 & -> & _)%list_elem_of_fmap. done.
Qed.

(** The alarm's suspects are exactly the living prisoners who stand in a
    restricted room, sorted by identifier. *)
Theorem RestrictedPrisonerIDs_spec players m :
  StronglySorted String.le (RestrictedPrisonerIDs players m) ∧
  ∀ id, id ∈ RestrictedPrisonerIDs players m ↔
    ∃ p, p ∈ players ∧ ps_ID p = id ∧ ps_Alive p = true ∧ IsPrisonerPlayer p = true ∧
      ps_CurrentRoomID p ≠ "" ∧
      ∃ zone, zone ∈ ms_RestrictedZones m ∧ zs_Restricted zone = true ∧
              zs_RoomID zone = ps_CurrentRoomID p.
Proof.
  split; [apply (sort_by_sorted String.le id)|]. intros id. unfold RestrictedPrisonerIDs.
  rewrite elem_of_sort_by, list_elem_of_omap. f_equiv. intros p.
  assert (IsRestrictedRoom (ps_CurrentRoomID p) m = true ↔ ps_CurrentRoomID p ≠ "" ∧
      ∃ zone, zone ∈ ms_RestrictedZones m ∧ zs_Restricted zone = true ∧
              zs_RoomID zone = ps_CurrentRoomID p) as <-.
  { unfold IsRestrictedRoom. case_bool_decide; [naive_solver|]. rewrite existsb_elem.
    setoid_rewrite andb_true_iff. setoid_rewrite bool_decide_eq_true. naive_solver. }
  destruct (ps_Alive p), (IsPrisonerPlayer p), (IsRestrictedRoom (ps_CurrentRoomID p) m); simpl;
    naive_solver.
Qed.
