(* ===== verification/Escape.v ===== *)
(** * Escape routes

    [internal/gamecore/escape/routes.go]: the requirements of the five routes and
    the verdict on an attempt. *)

From S2P Require Import Prelude Float32 Model Layout Access Items.

#[local] Open Scope Z_scope.

Record RouteRequirement := mkRequirement { rr_Label : string; rr_Met : bool }.

Record RouteEvaluation := mkEvaluation {
  rv_Route : EscapeRouteType;
  rv_RouteLabel : string;
  rv_CanAttempt : bool;
  rv_FailureReason : string;
  rv_Requirements : list RouteRequirement;
}.

Definition KnownRoutes : list EscapeRouteType :=
  [EscapeRouteCourtyardDig; EscapeRouteBadgeEscape; EscapeRoutePowerOutEscape;
   EscapeRouteLadderEscape; EscapeRouteRoofHelicopter].

Definition IsKnownRoute (route : EscapeRouteType) : bool :=
  existsb (λ candidate, candidate ≟ route) KnownRoutes.

Definition RouteLabel (route : EscapeRouteType) : string :=
  if route ≟ EscapeRouteCourtyardDig then "Courtyard Dig"
  else if route ≟ EscapeRouteBadgeEscape then "Badge Escape"
  else if route ≟ EscapeRoutePowerOutEscape then "Power-Out Escape"
  else if route ≟ EscapeRouteLadderEscape then "Ladder Escape"
  else if route ≟ EscapeRouteRoofHelicopter then "Roof Helicopter"
  else "Unknown Route".

(** The [switch] of [EvaluateRoute]. *)
Definition route_requirements (route : EscapeRouteType) (player : PlayerState) (mapState : MapState) :
    list RouteRequirement :=
  let room label r := mkRequirement label (ps_CurrentRoomID player ≟ r) in
  if route ≟ EscapeRouteCourtyardDig then
    [room "Room: courtyard" RoomCourtyard;
     mkRequirement "Item: shovel x1" (HasItem player ItemShovel 1)]
  else if route ≟ EscapeRouteBadgeEscape then
    [room "Room: main corridor" RoomCorridorMain;
     mkRequirement "Item: badge x1" (HasItem player ItemBadge 1)]
  else if route ≟ EscapeRoutePowerOutEscape then
    [room "Room: power room" RoomPowerRoom;
     mkRequirement "Power state: OFF" (negb (ms_PowerOn mapState))]
  else if route ≟ EscapeRouteLadderEscape then
    [room "Room: courtyard" RoomCourtyard;
     mkRequirement "Item: ladder x2" (HasItem player ItemLadder 2)]
  else if route ≟ EscapeRouteRoofHelicopter then
    [room "Room: roof lookout" RoomRoofLookout;
     mkRequirement "Item: keys x1" (HasItem player ItemKeys 1)]
  else [].

Definition EvaluateRoute (route : EscapeRouteType) (player : PlayerState) (mapState : MapState) :
    RouteEvaluation :=
  if negb (IsKnownRoute route) then
    mkEvaluation route (RouteLabel route) false "Unknown escape route." []
  else
    let requirements :=
      [mkRequirement "Alive" (ps_Alive player);
       mkRequirement "Prisoner faction" (IsPrisonerPlayer player)] ++
      route_requirements route player mapState in
    match find_first (λ r, negb (rr_Met r)) requirements with
    | Some r =>
        mkEvaluation route (RouteLabel route) false
          ("Missing requirement: " +:+ rr_Label r +:+ ".") requirements
    | None => mkEvaluation route (RouteLabel route) true "" requirements
    end.

Definition EvaluateAllRoutes (player : PlayerState) (mapState : MapState) : list RouteEvaluation :=
  map (λ route, EvaluateRoute route player mapState) KnownRoutes.

Definition CanAttemptRoute (route : EscapeRouteType) (player : PlayerState) (mapState : MapState) : bool :=
  rv_CanAttempt (EvaluateRoute route player mapState).

(** ** The rule of each route *)

Definition carries (player : PlayerState) (item : ItemType) (amount : Z) : Prop :=
  amount <= carried (normalizeInventory (ps_Inventory player)) item.

Inductive escape_rule (p : PlayerState) (m : MapState) : EscapeRouteType → Prop :=
| rule_dig :
    ps_CurrentRoomID p = RoomCourtyard → carries p ItemShovel 1 →
    escape_rule p m EscapeRouteCourtyardDig
| rule_badge :
    ps_CurrentRoomID p = RoomCorridorMain → carries p ItemBadge 1 →
    escape_rule p m EscapeRouteBadgeEscape
| rule_power_out :
    ps_CurrentRoomID p = RoomPowerRoom → ms_PowerOn m = false →
    escape_rule p m EscapeRoutePowerOutEscape
| rule_ladder :
    ps_CurrentRoomID p = RoomCourtyard → carries p ItemLadder 2 →
    escape_rule p m EscapeRouteLadderEscape
| rule_helicopter :
    ps_CurrentRoomID p = RoomRoofLookout → carries p ItemKeys 1 →
    escape_rule p m EscapeRouteRoofHelicopter.

Lemma requirements_met (l : list RouteRequirement) :
  find_first (λ r, negb (rr_Met r)) l = None ↔ Forall (λ r, rr_Met r = true) l.
Proof.
  rewrite find_first_None, Forall_forall. setoid_rewrite negb_false_iff. done.
Qed.

Lemma route_requirements_met route p m :
  IsKnownRoute route = true →
  Forall (λ r, rr_Met r = true) (route_requirements route p m) ↔ escape_rule p m route.
Proof.
  intros (r & Hr & Heq)%existsb_elem. bool_props. subst r. unfold KnownRoutes in Hr.
  assert (∀ item n, IsKnownItem item = true → 0 <= n → HasItem p item n = true ↔ carries p item n)
    as Hitem by (intros item n Hk Hn; rewrite HasItem_iff by done; unfold carries; tauto).
  rewrite !elem_of_cons, elem_of_nil in Hr.
  destruct Hr as [->|[->|[->|[->|[->|[]]]]]];
    match goal with |- Forall _ ?l ↔ _ => let l' := eval hnf in l in change l with l' end;
    rewrite !Forall_cons, Forall_nil; cbn [rr_Met];
    rewrite ?negb_true_iff, bool_decide_eq_true, ?Hitem by done;
    (split; [intros (? & ? & _); by constructor|by inversion 1]).
Qed.

(** A route may be attempted exactly when it is one of the five, the player is a
    living prisoner and the route's own rule holds (its room, and its tool or the
    power being out); a refusal names a reason and a permission none. *)
Theorem EvaluateRoute_spec route p m :
  (CanAttemptRoute route p m = true ↔
     IsKnownRoute route = true ∧ ps_Alive p = true ∧ IsPrisonerPlayer p = true ∧
     escape_rule p m route) ∧
  (CanAttemptRoute route p m = true ↔ rv_FailureReason (EvaluateRoute route p m) = "").
Proof.
  unfold CanAttemptRoute, EvaluateRoute.
  destruct (IsKnownRoute route) eqn:Hk; cbn [negb]; [|simpl; naive_solver].
  match goal with |- context [find_first ?f ?l] =>
    pose proof (requirements_met l) as Hm; destruct (find_first f l) as [r|] end.
  - split; [|by split]. split; [done|]. intros (_ & Ha & Hp & Hr).
    apply (route_requirements_met route p m Hk) in Hr.
    assert (Some r = None) as [=]. apply Hm. rewrite Forall_app. by repeat constructor.
  - split; [|by split]. pose proof (proj1 Hm eq_refl) as Hall.
    apply Forall_app in Hall as [Hall Hr]. rewrite !Forall_cons in Hall.
    destruct Hall as (Ha & Hp & _). apply route_requirements_met in Hr; [|done].
    split; [intros _|done]. done.
Qed.

Example courtyard_dig :
  map rv_FailureReason (EvaluateAllRoutes
    (zero_PlayerState <| ps_Alive := true |> <| ps_Faction := FactionPrisoner |>
       <| ps_CurrentRoomID := RoomCourtyard |> <| ps_Inventory := [mkStack ItemShovel 1] |>)
    zero_MapState) =
  [""; "Missing requirement: Room: main corridor."; "Missing requirement: Room: power room.";
   "Missing requirement: Item: ladder x2."; "Missing requirement: Room: roof lookout."].
Proof. by vm_compute. Qed.
