(* ===== verification/Cards.v ===== *)
(** * Cards

    [internal/gamecore/cards/framework.go]: the hand of at most three cards and the
    deterministic choices of the grab cards. *)

From S2P Require Import Prelude Float32 Model Hashing.

#[local] Open Scope Z_scope.

Definition MaxCardsHeld : Z := 3.
Definition SpeedDurationSeconds : Z := 5.
Definition DoorStopDurationSeconds : Z := 10.

(** The keys of the map to [struct{}], and the catalogue slice. *)
Definition knownCards : list CardType :=
  [CardMorphine; CardBullet; CardMoney; CardSpeed; CardArmorPlate; CardLockSnap; CardItemSteal;
   CardItemGrab; CardScrapBundle; CardDoorStop; CardGetOutOfJailFree].
Definition knownCardCatalog : list CardType :=
  [CardMorphine; CardBullet; CardMoney; CardSpeed; CardArmorPlate; CardLockSnap; CardItemSteal;
   CardItemGrab; CardScrapBundle; CardDoorStop; CardGetOutOfJailFree].

Definition deterministicGrabPool : list ItemType :=
  [ItemWood; ItemMetalSlab; ItemLockPick; ItemShiv; ItemBullet; ItemWireCutters].

Definition IsKnownCard (card : CardType) : bool := bool_decide (card ∈ knownCards).
#[global] Arguments IsKnownCard : simpl never.

Definition KnownCards : list CardType := knownCardCatalog.

Definition HasCard (player : PlayerState) (card : CardType) : bool :=
  existsb (λ existing, existing ≟ card) (ps_Cards player).

Definition AddCard (player : PlayerState) (card : CardType) : option PlayerState :=
  if negb (IsKnownCard card) then None
  else if MaxCardsHeld <=? Z.of_nat (length (ps_Cards player)) then None
  else Some (player <| ps_Cards ::= λ cards, sort_strings (cards ++ [card]) |>).

Definition RemoveCard (player : PlayerState) (card : CardType) : option PlayerState :=
  if negb (IsKnownCard card) || (Z.of_nat (length (ps_Cards player)) =? 0) then None
  else
    index ← find_idx (λ existing, existing ≟ card) (ps_Cards player);
    Some (player <| ps_Cards ::= delete index |>).

Definition SpeedDurationTicks (tickRateHz : Z) : Z :=
  if tickRateHz ≟ 0 then 0 else u64 (SpeedDurationSeconds * tickRateHz).
Definition DoorStopDurationTicks (tickRateHz : Z) : Z :=
  if tickRateHz ≟ 0 then 0 else u64 (DoorStopDurationSeconds * tickRateHz).

Definition DeterministicGrabItem (playerID : PlayerID) (tickID : Z) : ItemType :=
  let choice := hash_choice (string_bytes playerID ++ le_bytes64 tickID)
                  (length deterministicGrabPool) in
  default "" (deterministicGrabPool !! choice).

Definition grab_candidates (inventory : list ItemStack) : list ItemType :=
  omap (λ stack, if (stk_Quantity stack ≟ 0) || (stk_Item stack ≟ "") then None
                 else Some (stk_Item stack)) inventory.

Definition DeterministicGrabFromInventory (actorPlayerID targetPlayerID : PlayerID) (tickID : Z)
    (inventory : list ItemStack) : ItemType :=
  match grab_candidates inventory with
  | [] => ""
  | _ =>
      let candidates := sort_strings (grab_candidates inventory) in
      let choice := hash_choice (string_bytes actorPlayerID ++ string_bytes targetPlayerID ++
                                 le_bytes64 tickID) (length candidates) in
      default "" (candidates !! choice)
  end.

(** ** The hand *)

(** A legal hand: known cards, at most three. *)
Definition hand_ok (player : PlayerState) : Prop :=
  Forall (λ c, IsKnownCard c = true) (ps_Cards player) ∧
  Z.of_nat (length (ps_Cards player)) <= MaxCardsHeld.

(** A card is taken exactly when it is known and the hand has room, a card is
    played exactly when it is known and held; the hand then holds exactly one card
    more (sorted) or one less (the others in order), nothing else of the player
    changes, and a legal hand stays legal. *)
Theorem card_operations_spec p card :
  (is_Some (AddCard p card) ↔
     IsKnownCard card = true ∧ Z.of_nat (length (ps_Cards p)) < MaxCardsHeld) ∧
  (is_Some (RemoveCard p card) ↔ IsKnownCard card = true ∧ HasCard p card = true) ∧
  (∀ p', AddCard p card = Some p' →
     p' = p <| ps_Cards := ps_Cards p' |> ∧ ps_Cards p' ≡ₚ card :: ps_Cards p ∧
     StronglySorted String.le (ps_Cards p') ∧ (hand_ok p → hand_ok p')) ∧
  (∀ p', RemoveCard p card = Some p' →
     p' = p <| ps_Cards := ps_Cards p' |> ∧ card :: ps_Cards p' ≡ₚ ps_Cards p ∧
     ps_Cards p' `sublist_of` ps_Cards p ∧ (hand_ok p → hand_ok p')).
Proof.
  assert (∀ p', AddCard p card = Some p' → IsKnownCard card = true ∧
            Z.of_nat (length (ps_Cards p)) < MaxCardsHeld ∧
            p' = p <| ps_Cards := sort_strings (ps_Cards p ++ [card]) |>) as Hadd.
  { unfold AddCard. intros p'. destruct (IsKnownCard card); [|done]. simpl.
    case_match eqn:Hl; [done|]. bool_props. by intros [= <-]. }
  assert (∀ p', RemoveCard p card = Some p' → IsKnownCard card = true ∧
            ∃ i, ps_Cards p !! i = Some card ∧ p' = p <| ps_Cards := delete i (ps_Cards p) |>) as Hrem.
  { unfold RemoveCard. intros p'. destruct (IsKnownCard card); [|done]. cbn [negb orb].
    case_match; [done|]. intros (i & Hi & [= <-])%bind_Some.
    apply find_idx_Some in Hi as (c & Hc & He & _). bool_props. subst. eauto. }
  split_and!.
  - split.
    + intros [p' Hp']. by apply Hadd in Hp' as (? & ? & _).
    + intros [Hk Hl]. unfold AddCard. rewrite Hk. simpl. rewrite (proj2 (Z.leb_gt _ _)) by done. eauto.
  - unfold HasCard. rewrite existsb_elem. split.
    + intros [p' Hp']. apply Hrem in Hp' as (? & i & Hi & _). split; [done|].
      exists card. rewrite bool_decide_eq_true. by apply list_elem_of_lookup_2 in Hi.
    + intros (Hk & c & Hc & He). bool_props. subst c. unfold RemoveCard. rewrite Hk. cbn [negb orb].
      destruct (ps_Cards p) as [|c0 cs] eqn:Hcs; [by apply elem_of_nil in Hc|]. rewrite <-Hcs in *.
      rewrite (proj2 (Z.eqb_neq _ _)) by (rewrite Hcs; simpl; lia).
      destruct (find_idx _ _) as [i|] eqn:Hf; simpl; [eauto|].
      apply find_idx_None with (x := card) in Hf; [by bool_props|done].
  - intros p' (Hk & Hl & ->)%Hadd. simpl.
    assert (sort_strings (ps_Cards p ++ [card]) ≡ₚ card :: ps_Cards p) as Hp
      by (rewrite (sort_by_perm String.le id); by rewrite Permutation_app_comm).
    split_and!; [done|done|apply (sort_by_sorted String.le id)|].
    intros [Hf _]. unfold hand_ok. simpl. rewrite Hp. simpl. split; [by constructor|lia].
  - intros p' (Hk & i & Hi & ->)%Hrem. simpl. split_and!; [done| | |].
    + symmetry. by apply delete_Permutation.
    + apply sublist_delete.
    + intros [Hf Hl]. unfold hand_ok. simpl. split.
      * by apply Forall_delete.
      * rewrite (delete_Permutation _ _ _ Hi) in Hl. simpl in Hl. lia.
Qed.

Lemma grab_pool_choice bytes :
  default "" (deterministicGrabPool !! hash_choice bytes (length deterministicGrabPool))
    ∈ deterministicGrabPool.
Proof.
  destruct (lookup_hash_choice bytes deterministicGrabPool) as [r Hr]; [done|].
  rewrite Hr. by apply list_elem_of_lookup_2 in Hr.
Qed.

(** The grab cards always find something to grab when there is something: an item
    of the pool, or an item the target really carries, whatever the order in which
    the target's stacks are listed; and nothing is grabbed from empty pockets. *)
Theorem grab_choice_spec actor target tick inventory :
  DeterministicGrabItem actor tick ∈ deterministicGrabPool ∧
  (let item := DeterministicGrabFromInventory actor target tick inventory in
   match grab_candidates inventory with
   | [] => item = ""
   | _ => ∃ stack, stack ∈ inventory ∧ stk_Item stack = item ∧ item ≠ "" ∧ stk_Quantity stack ≠ 0
   end) ∧
  ∀ other, other ≡ₚ inventory →
    DeterministicGrabFromInventory actor target tick other =
    DeterministicGrabFromInventory actor target tick inventory.
Proof.
  split; [apply grab_pool_choice|]. split.
  - unfold DeterministicGrabFromInventory. cbv zeta.
    destruct (grab_candidates inventory) as [|c cs] eqn:Hc; [done|]. rewrite <-Hc.
    set (l := sort_strings _). set (bytes := _ ++ _).
    destruct (lookup_hash_choice bytes l) as [item Hitem].
    { intros Hl. assert (l ≡ₚ grab_candidates inventory) as Hp by apply sort_by_perm.
      rewrite Hl, Hc in Hp. by apply Permutation_nil_cons in Hp. }
    rewrite Hitem. simpl. apply list_elem_of_lookup_2 in Hitem. subst l.
    rewrite elem_of_sort_by in Hitem. apply list_elem_of_omap in Hitem as (s & Hs & Hi).
    exists s. case_match eqn:Hb; [done|]. bool_props. by simplify_eq.
  - intros other Hp. unfold DeterministicGrabFromInventory.
    assert (grab_candidates other ≡ₚ grab_candidates inventory) as Hg
      by (unfold grab_candidates; by rewrite Hp).
    rewrite (sort_self_proper String.le _ _ Hg).
    destruct (grab_candidates other) eqn:Ho, (grab_candidates inventory) eqn:Hi; try done.
    by apply Permutation_nil_cons in Hg.
Qed.
