(* ===== verification/Abilities.v ===== *)
(** * Abilities

    [internal/gamecore/abilities/framework.go]: who may use which ability, how
    often, and for how long it works. *)

From S2P Require Import Prelude Float32 Model Layout Access.

#[local] Open Scope Z_scope.

Abbreviation ScopeType := string (only parsing).
Definition ScopeWardenOnly : string := "warden_only".
Definition ScopeAuthority : string := "authority".
Definition ScopePrisoner : string := "prisoner".

Record Spec := mkSpec {
  sp_Ability : AbilityType; sp_Scope : ScopeType; sp_CooldownSeconds : Z;
  sp_OncePerDay : bool; sp_DailyUseLimit : Z;
}.

Definition abilityCatalog : list AbilityType :=
  [AbilityAlarm; AbilitySearch; AbilityCameraMan; AbilityDetainer; AbilityTracker;
   AbilityPickPocket; AbilityHacker; AbilityDisguise; AbilityLocksmith; AbilityChameleon].

(** The entries of the map, keyed by [sp_Ability]. *)
Definition specsByAbility : list Spec :=
  [ mkSpec AbilityAlarm ScopeWardenOnly 5 true 1;
    mkSpec AbilitySearch ScopeAuthority 8 true 1;
    mkSpec AbilityCameraMan ScopeAuthority 6 false 0;
    mkSpec AbilityDetainer ScopeAuthority 6 false 2;
    mkSpec AbilityTracker ScopeAuthority 4 false 0;
    mkSpec AbilityPickPocket ScopePrisoner 5 false 1;
    mkSpec AbilityHacker ScopePrisoner 6 false 0;
    mkSpec AbilityDisguise ScopePrisoner 8 false 0;
    mkSpec AbilityLocksmith ScopePrisoner 4 false 1;
    mkSpec AbilityChameleon ScopePrisoner 8 false 0 ].

Definition KnownAbilities : list AbilityType := abilityCatalog.

Definition SpecFor (ability : AbilityType) : option Spec :=
  find_first (λ spec, sp_Ability spec ≟ ability) specsByAbility.

Definition IsKnownAbility (ability : AbilityType) : bool := bool_decide (is_Some (SpecFor ability)).

Definition CooldownTicks (ability : AbilityType) (tickRateHz : Z) : Z :=
  match SpecFor ability with
  | Some spec =>
      if (tickRateHz ≟ 0) || (sp_CooldownSeconds spec ≟ 0) then 0
      else u64 (sp_CooldownSeconds spec * tickRateHz)
  | None => 0
  end.

Definition OncePerDay (ability : AbilityType) : bool :=
  match SpecFor ability with
  | Some spec => sp_OncePerDay spec || (sp_DailyUseLimit spec ≟ 1)
  | None => false
  end.

Definition DailyUseLimit (ability : AbilityType) : Z :=
  match SpecFor ability with
  | Some spec =>
      if 0 <? sp_DailyUseLimit spec then sp_DailyUseLimit spec
      else if sp_OncePerDay spec then 1 else 0
  | None => 0
  end.

Definition CanPlayerUse (player : PlayerState) (ability : AbilityType) : bool :=
  match SpecFor ability with
  | Some spec =>
      if sp_Scope spec ≟ ScopeWardenOnly then ps_Role player ≟ RoleWarden
      else if sp_Scope spec ≟ ScopeAuthority then IsAuthorityPlayer player
      else if sp_Scope spec ≟ ScopePrisoner then IsPrisonerPlayer player
      else false
  | None => false
  end.

Definition AbilitiesForPlayer (player : PlayerState) : list AbilityType :=
  filter (λ ability, CanPlayerUse player ability = true) abilityCatalog.

Definition EffectDurationTicks (ability : AbilityType) (tickRateHz : Z) : Z :=
  if tickRateHz ≟ 0 then 0
  else if ability ≟ AbilityCameraMan then u64 (tickRateHz * 15)
  else if ability ≟ AbilityDetainer then u64 (tickRateHz * 15)
  else if ability ≟ AbilityTracker then u64 (tickRateHz * 30)
  else if ability ≟ AbilityDisguise then u64 (tickRateHz * 20)
  else if ability ≟ AbilityChameleon then 0
  else 0.

Lemma SpecFor_known ability :
  ability ∈ abilityCatalog ↔ IsKnownAbility ability = true.
Proof.
  unfold IsKnownAbility. rewrite bool_decide_eq_true. split.
  - intros Ha. assert (Forall (λ a, is_Some (SpecFor a)) abilityCatalog) as Hall
      by (apply (bool_decide_unpack _); by vm_compute).
    rewrite Forall_forall in Hall. auto.
  - intros [s (Hs & He)%find_first_Some]. bool_props. subst ability.
    assert (Forall (λ s, sp_Ability s ∈ abilityCatalog) specsByAbility) as Hall
      by (apply (bool_decide_unpack _); by vm_compute).
    rewrite Forall_forall in Hall. auto.
Qed.

(** Tables are checked on every ability of the catalogue. *)
Lemma on_catalog (P : AbilityType → Prop) :
  Forall P abilityCatalog → ∀ ability, IsKnownAbility ability = true → P ability.
Proof. rewrite Forall_forall. intros HP a Ha%SpecFor_known. auto. Qed.

(** An ability is used only by its side: the alarm by the warden alone, the
    other authority abilities by the authority, the prisoner abilities by
    prisoners; unknown abilities by nobody.  A player's menu lists exactly the
    abilities they may use. *)
Theorem CanPlayerUse_spec p ability :
  (CanPlayerUse p ability = true ↔
     (ability = AbilityAlarm ∧ ps_Role p = RoleWarden) ∨
     (ability ∈ [AbilitySearch; AbilityCameraMan; AbilityDetainer; AbilityTracker] ∧
        IsAuthorityPlayer p = true) ∨
     (ability ∈ [AbilityPickPocket; AbilityHacker; AbilityDisguise; AbilityLocksmith;
                 AbilityChameleon] ∧ IsPrisonerPlayer p = true)) ∧
  (ability ∈ AbilitiesForPlayer p ↔ CanPlayerUse p ability = true).
Proof.
  assert (CanPlayerUse p ability = true → ability ∈ abilityCatalog) as Hknown.
  { unfold CanPlayerUse. rewrite SpecFor_known. unfold IsKnownAbility.
    rewrite bool_decide_eq_true. destruct (SpecFor ability); [eauto|done]. }
  split; [|unfold AbilitiesForPlayer; rewrite list_elem_of_filter; tauto].
  split.
  - intros Hc. pose proof (Hknown Hc) as Hin. revert Hin Hc. unfold abilityCatalog.
    intros Hin. repeat (apply elem_of_cons in Hin as [->|Hin]); [..|by apply elem_of_nil in Hin];
      change (CanPlayerUse p _) with (ps_Role p ≟ RoleWarden) ||
      change (CanPlayerUse p _) with (IsAuthorityPlayer p) ||
      change (CanPlayerUse p _) with (IsPrisonerPlayer p);
      intros Hc; bool_props;
      first [ left; by split
            | right; left; split; [by apply (bool_decide_unpack _)|done]
            | right; right; split; [by apply (bool_decide_unpack _)|done] ].
  - rewrite !elem_of_cons, elem_of_nil.
    intros [[-> Hp]|[[Ha Hp]|[Ha Hp]]]; [unfold CanPlayerUse; simpl; by apply bool_decide_eq_true| |];
      repeat destruct Ha as [->|Ha]; done.
Qed.

(** The two ways of limiting an ability agree: an ability is once per day
    exactly when its daily limit is one.  Cooldowns and durations are whole seconds
    of ticks and never overflow. *)
Theorem ability_limits ability rate (Hr : is_u32 rate) :
  (OncePerDay ability = true ↔ DailyUseLimit ability = 1) ∧
  0 <= DailyUseLimit ability <= 2 ∧
  (IsKnownAbility ability = true → rate ≠ 0 →
     4 * rate <= CooldownTicks ability rate <= 8 * rate) ∧
  0 <= EffectDurationTicks ability rate <= 30 * rate.
Proof.
  unfold is_u32 in Hr.
  assert (∀ s, SpecFor ability = Some s → s ∈ specsByAbility) as Hin
    by (by intros s [? _]%find_first_Some).
  assert (Forall (λ s, (sp_OncePerDay s || (sp_DailyUseLimit s ≟ 1) = true ↔
                          (if 0 <? sp_DailyUseLimit s then sp_DailyUseLimit s
                           else if sp_OncePerDay s then 1 else 0) = 1) ∧
                       0 <= sp_DailyUseLimit s <= 2 ∧ 4 <= sp_CooldownSeconds s <= 8) specsByAbility)
    as Hall by (apply (bool_decide_unpack _); by vm_compute).
  rewrite Forall_forall in Hall. split_and!.
  - unfold OncePerDay, DailyUseLimit. destruct (SpecFor ability) as [s|]; [|done].
    by apply (Hall s), Hin.
  - unfold DailyUseLimit. destruct (SpecFor ability) as [s|]; [|lia].
    destruct (Hall s (Hin s eq_refl)) as (_ & ? & _). repeat case_match; lia.
  - unfold DailyUseLimit. destruct (SpecFor ability) as [s|]; [|lia].
    destruct (Hall s (Hin s eq_refl)) as (_ & ? & _). repeat case_match; lia.
  - intros Hk H0. unfold IsKnownAbility in Hk. bool_props. destruct Hk as [s Hs].
    unfold CooldownTicks. rewrite Hs. destruct (Hall s (Hin s Hs)) as (_ & _ & ?).
    rewrite !bool_decide_eq_false_2 by lia. simpl. rewrite u64_small by (unfold is_u64; nia). nia.
  - unfold EffectDurationTicks. repeat case_match; try lia; rewrite u64_small by (unfold is_u64; lia); lia.
  - unfold EffectDurationTicks. repeat case_match; try lia; rewrite u64_small by (unfold is_u64; lia); lia.
Qed.

Lemma ability_limits_witness :
  is_u32 30 ∧ 4 * 30 <= CooldownTicks AbilityTracker 30 <= 8 * 30 ∧
  CooldownTicks AbilityTracker 30 = 120.
Proof.
  assert (is_u32 30) as H30 by (by vm_compute).
  split; [done|]. split; [|by vm_compute].
  apply (ability_limits AbilityTracker 30 H30); by vm_compute.
Defined.
