(* ===== verification/Roles.v ===== *)
(** * Roles: assignment and succession

    [internal/gamecore/roles/assignment.go] and [succession.go].  A slice index that
    the code knows to be in range is a lookup with a default; [Assign_spec] shows that
    the chosen template has a profile for every player. *)

From S2P Require Import Prelude Float32 Model Hashing.

#[local] Open Scope Z_scope.

(** ** Templates *)

Inductive assign_error := ErrNoPlayersProvided | ErrDuplicatePlayerID.

Record Assignment := mkAssignment {
  as_PlayerID : PlayerID; as_Role : RoleType; as_Faction : FactionType; as_Alignment : AlignmentType;
}.
#[export] Instance Assignment_eq_dec : EqDecision Assignment.
Proof. solve_decision. Defined.
Definition zero_Assignment : Assignment := mkAssignment "" "" "" "".

Record roleProfile := mkProfile {
  pr_Role : RoleType; pr_Faction : FactionType; pr_Alignment : AlignmentType;
}.
#[export] Instance roleProfile_eq_dec : EqDecision roleProfile.
Proof. solve_decision. Defined.
Definition zero_roleProfile : roleProfile := mkProfile "" "" "".

Section profiles.
Let warden := mkProfile RoleWarden FactionAuthority AlignmentGood.
Let good_deputy := mkProfile RoleDeputy FactionAuthority AlignmentGood.
Let bad_deputy := mkProfile RoleDeputy FactionAuthority AlignmentEvil.
Let leader := mkProfile RoleGangLeader FactionPrisoner AlignmentEvil.
Let gang := mkProfile RoleGangMember FactionPrisoner AlignmentEvil.
Let snitch := mkProfile RoleSnitch FactionPrisoner AlignmentGood.
Let neutral := mkProfile RoleNeutralPrisoner FactionNeutral AlignmentNeutral.

Definition roleTemplates_6 : list (list roleProfile) :=
  [ [warden; good_deputy; leader; gang; gang; snitch];
    [warden; good_deputy; leader; gang; neutral; neutral];
    [warden; bad_deputy; leader; gang; snitch; neutral] ].
Definition roleTemplates_7 : list (list roleProfile) :=
  [ [warden; good_deputy; good_deputy; leader; gang; gang; neutral];
    [warden; good_deputy; bad_deputy; leader; gang; snitch; neutral] ].
Definition roleTemplates_8 : list (list roleProfile) :=
  [ [warden; good_deputy; good_deputy; leader; gang; gang; gang; neutral];
    [warden; good_deputy; bad_deputy; leader; gang; gang; snitch; neutral] ].
Definition roleTemplates_9 : list (list roleProfile) :=
  [ [warden; good_deputy; good_deputy; leader; gang; gang; gang; neutral; neutral];
    [warden; good_deputy; bad_deputy; leader; gang; gang; snitch; neutral; neutral] ].
Definition roleTemplates_10 : list (list roleProfile) :=
  [ [warden; good_deputy; good_deputy; bad_deputy; leader; gang; gang; gang; snitch;
     neutral];
    [warden; good_deputy; good_deputy; good_deputy; leader; gang; gang; gang; gang; neutral];
    [warden; good_deputy; bad_deputy; bad_deputy; leader; gang; snitch; snitch; neutral;
     neutral] ].
Definition roleTemplates_11 : list (list roleProfile) :=
  [ [warden; good_deputy; good_deputy; bad_deputy; leader; gang; gang; gang; gang; snitch;
     neutral];
    [warden; good_deputy; good_deputy; good_deputy; leader; gang; gang; gang; gang; gang;
     neutral];
    [warden; good_deputy; bad_deputy; bad_deputy; leader; gang; gang; snitch; snitch;
     neutral; neutral] ].
Definition roleTemplates_12 : list (list roleProfile) :=
  [ [warden; good_deputy; good_deputy; bad_deputy; bad_deputy; leader; gang; gang; gang;
     snitch; snitch; neutral];
    [warden; good_deputy; good_deputy; good_deputy; good_deputy; leader; gang; gang; gang;
     gang; gang; gang];
    [warden; good_deputy; good_deputy; bad_deputy; bad_deputy; leader; gang; gang; snitch;
     snitch; neutral; neutral] ].

Definition roleTemplatesByCount (playerCount : nat) : option (list (list roleProfile)) :=
  match playerCount with
  | 6%nat => Some roleTemplates_6
  | 7%nat => Some roleTemplates_7
  | 8%nat => Some roleTemplates_8
  | 9%nat => Some roleTemplates_9
  | 10%nat => Some roleTemplates_10
  | 11%nat => Some roleTemplates_11
  | 12%nat => Some roleTemplates_12
  | _ => None
  end.

Definition profilesForCount (playerCount : nat) : list (list roleProfile) :=
  match roleTemplatesByCount playerCount with
  | Some (t :: ts) => t :: ts
  | _ =>
      let profile := if (1 <=? playerCount)%nat then [warden] else [] in
      let profile := if (2 <=? playerCount)%nat then profile ++ [good_deputy] else profile in
      let profile := if (3 <=? playerCount)%nat then profile ++ [leader] else profile in
      [profile ++ replicate (playerCount - length profile) neutral]
  end.
End profiles.

(** ** Assignment *)

Definition hashSeed (matchID : MatchID) (orderedPlayers : list PlayerID) : Z :=
  fnv64a (string_bytes matchID ++ (id ← orderedPlayers; 0 :: string_bytes id)).

(** [l[i], l[j] = l[j], l[i]] *)
Definition swap_at {A} (i j : nat) (l : list A) : list A :=
  match l !! i, l !! j with
  | Some a, Some b => <[i := b]> (<[j := a]> l)
  | _, _ => l
  end.

(** The loop of [shuffleRoleProfiles] from index [idx] down to 1. *)
Fixpoint shuffle_from (idx : nat) (profiles : list roleProfile) (rng : deterministicRNG) :
    list roleProfile :=
  match idx with
  | O => profiles
  | S below =>
      let '(swapIdx, rng') := Intn rng (idx + 1) in
      shuffle_from below (swap_at idx swapIdx profiles) rng'
  end.

Definition shuffleRoleProfiles (profiles : list roleProfile) (rng : deterministicRNG) :
    list roleProfile :=
  shuffle_from (length profiles - 1) profiles rng.

Fixpoint adjacent_equal (ordered : list PlayerID) : bool :=
  match ordered with
  | a :: (b :: _) as rest => (a ≟ b) || adjacent_equal rest
  | _ => false
  end.

Definition assigned_profiles (ordered : list PlayerID) (matchID : MatchID) : list roleProfile :=
  let profiles := profilesForCount (length ordered) in
  let seed := hashSeed matchID ordered in
  let templateIndex :=
    if (1 <? length profiles)%nat then Z.to_nat (seed mod Z.of_nat (length profiles)) else 0%nat in
  let selected := default [] (profiles !! templateIndex) in
  shuffleRoleProfiles selected (newDeterministicRNG (Z.lxor seed 0x9e3779b97f4a7c15)).

Definition Assign (playerIDs : list PlayerID) (matchID : MatchID) : assign_error + list Assignment :=
  match playerIDs with
  | [] => inl ErrNoPlayersProvided
  | _ =>
      let ordered := sort_strings playerIDs in
      if adjacent_equal ordered then inl ErrDuplicatePlayerID
      else
        let selected := assigned_profiles ordered matchID in
        inr (imap (λ idx playerID,
               let profile := default zero_roleProfile (selected !! idx) in
               mkAssignment playerID (pr_Role profile) (pr_Faction profile) (pr_Alignment profile))
             ordered)
  end.

Definition assign_player (byID : gmap PlayerID Assignment) (player : PlayerState) : PlayerState :=
  let assignment := default zero_Assignment (byID !! ps_ID player) in
  player <| ps_Role := as_Role assignment |> <| ps_Faction := as_Faction assignment |>
         <| ps_Alignment := as_Alignment assignment |>.

Definition ApplyAssignments (state : GameState) (matchID : MatchID) : assign_error + GameState :=
  match gs_Players state with
  | [] => inr state
  | _ =>
      match Assign (map ps_ID (gs_Players state)) matchID with
      | inl err => inl err
      | inr assignments =>
          let byID := foldl (λ m a, <[as_PlayerID a := a]> m) ∅ assignments in
          inr (state <| gs_Players ::= map (assign_player byID) |>)
      end
  end.

(** ** Succession *)

Definition player_key (players : list PlayerState) (index : nat) : PlayerID :=
  from_option ps_ID "" (players !! index).

Definition indexes_where (p : PlayerState → bool) (players : list PlayerState) : list nat :=
  filter (λ index, from_option p false (players !! index) = true) (seq 0 (length players)).

Definition deterministicSuccessorIndex (players : list PlayerState) (matchID : MatchID) (tickID : Z)
    (eligibleIndexes : list nat) : nat :=
  if (length eligibleIndexes <=? 1)%nat then 0%nat
  else hash_choice
         (string_bytes matchID ++ le_bytes64 tickID ++
          (i ← eligibleIndexes; 0 :: string_bytes (player_key players i)))
         (length eligibleIndexes).

(** One player's update, with the identifier it adds to the changed set. *)
Definition demote (player : PlayerState) : PlayerState * gset PlayerID :=
  if ps_Role player ≠? RoleGangMember
  then (player <| ps_Role := RoleGangMember |>, {[ps_ID player]}) else (player, ∅).

Definition promote (player : PlayerState) : PlayerState * gset PlayerID :=
  let '(p1, c1) := if ps_Role player ≠? RoleGangLeader
    then (player <| ps_Role := RoleGangLeader |>, {[ps_ID player]}) else (player, ∅) in
  let '(p2, c2) := if ps_Faction p1 ≠? FactionPrisoner
    then (p1 <| ps_Faction := FactionPrisoner |>, {[ps_ID p1]}) else (p1, ∅) in
  let '(p3, c3) := if ps_Alignment p2 ≠? AlignmentEvil
    then (p2 <| ps_Alignment := AlignmentEvil |>, {[ps_ID p2]}) else (p2, ∅) in
  (p3, c1 ∪ c2 ∪ c3).

Definition update_player (index : nat) (f : PlayerState → PlayerState * gset PlayerID)
    (s : list PlayerState * gset PlayerID) : list PlayerState * gset PlayerID :=
  match s.1 !! index with
  | Some player => let '(player', c) := f player in (<[index := player']> s.1, s.2 ∪ c)
  | None => s
  end.

Definition is_alive_leader (p : PlayerState) : bool := (ps_Role p ≟ RoleGangLeader) && ps_Alive p.
Definition is_dead_leader (p : PlayerState) : bool :=
  (ps_Role p ≟ RoleGangLeader) && negb (ps_Alive p).
Definition is_eligible (p : PlayerState) : bool := (ps_Role p ≟ RoleGangMember) && ps_Alive p.

(** The new state and the sorted identifiers of the players it changed. *)
Definition ApplyGangLeaderSuccession (state : GameState) (matchID : MatchID) (tickID : Z) :
    GameState * list PlayerID :=
  let players := gs_Players state in
  let aliveLeaderExists := existsb is_alive_leader players in
  let deadLeaderIndexes := indexes_where is_dead_leader players in
  let eligibleIndexes := indexes_where is_eligible players in
  match eligibleIndexes with
  | [] => (state, [])
  | _ =>
      if aliveLeaderExists then (state, [])
      else
        let eligibleIndexes := sort_by String.le (player_key players) eligibleIndexes in
        let s1 := foldl (λ s index, update_player index demote s) (players, ∅) deadLeaderIndexes in
        let selectedPos := deterministicSuccessorIndex s1.1 matchID tickID eligibleIndexes in
        let s2 := update_player (default 0%nat (eligibleIndexes !! selectedPos)) promote s1 in
        (state <| gs_Players := s2.1 |>, sort_strings (elements s2.2))
  end.

(** ** Assignment is a fair deal of a template *)

Definition count_role (role : RoleType) (profiles : list roleProfile) : nat :=
  length (filter (λ p, pr_Role p = role) profiles).

Definition profile_of (a : Assignment) : roleProfile :=
  mkProfile (as_Role a) (as_Faction a) (as_Alignment a).

(** A template deals [n] roles, with one warden and, from three players on, one
    gang leader. *)
Definition template_ok (n : nat) (t : list roleProfile) : Prop :=
  length t = n ∧ count_role RoleWarden t = 1%nat ∧
  ((3 ≤ n)%nat → count_role RoleGangLeader t = 1%nat).

Lemma count_role_app r t1 t2 : count_role r (t1 ++ t2) = (count_role r t1 + count_role r t2)%nat.
Proof. unfold count_role. by rewrite filter_app, length_app. Qed.

Lemma count_role_replicate r k p : pr_Role p ≠ r → count_role r (replicate k p) = 0%nat.
Proof.
  intros Hp. unfold count_role. induction k as [|k IH]; [done|]. simpl.
  by rewrite filter_cons_False.
Qed.

Lemma profilesForCount_ok n :
  (1 ≤ n)%nat → profilesForCount n ≠ [] ∧ Forall (template_ok n) (profilesForCount n).
Proof.
  intros Hn. destruct (decide (n < 13)%nat) as [Hlt|Hge].
  - assert (Forall (λ n, profilesForCount n ≠ [] ∧
      Forall (λ t, length t = n ∧ count_role RoleWarden t = 1%nat ∧
                   ((n < 3)%nat ∨ count_role RoleGangLeader t = 1%nat)) (profilesForCount n))
      (seq 1 12)) as Hall by (apply (bool_decide_unpack _); by vm_compute).
    rewrite Forall_forall in Hall. destruct (Hall n) as [Hne Hf]; [apply elem_of_seq; lia|].
    split; [done|]. eapply Forall_impl; [done|]. intros t (? & ? & Hl).
    split_and!; [done..|]. destruct Hl; [lia|done].
  - assert (roleTemplatesByCount n = None) as Hnone by (do 13 (destruct n; [lia|]); done).
    unfold profilesForCount. rewrite Hnone, !(proj2 (Nat.leb_le _ _)) by lia.
    split; [done|]. apply Forall_singleton. unfold template_ok.
    rewrite length_app, length_replicate, !count_role_app, !count_role_replicate by done.
    split_and!; [cbn; lia|done|done].
Qed.

Lemma swap_at_perm {A} i j (l : list A) : swap_at i j l ≡ₚ l.
Proof.
  unfold swap_at. destruct (l !! i) eqn:Hi; [|done]. destruct (l !! j) eqn:Hj; [|done].
  by apply Permutation_insert_swap.
Qed.

Lemma shuffle_from_perm idx profiles rng : shuffle_from idx profiles rng ≡ₚ profiles.
Proof.
  revert profiles rng. induction idx as [|idx IH]; intros profiles rng; cbn [shuffle_from]; [done|].
  destruct (Intn rng (S idx + 1)) as [j rng']. by rewrite IH, swap_at_perm.
Qed.

Lemma assigned_profiles_spec ordered matchID :
  ordered ≠ [] →
  ∃ t, t ∈ profilesForCount (length ordered) ∧ assigned_profiles ordered matchID ≡ₚ t.
Proof.
  intros Hne. unfold assigned_profiles.
  destruct (profilesForCount_ok (length ordered)) as [Hp _].
  { destruct ordered; simpl; [done|lia]. }
  set (ps := profilesForCount _) in *.
  match goal with |- context [ps !! ?x] => set (i := x) end.
  assert (is_Some (ps !! i)) as [t Ht].
  { apply lookup_lt_is_Some. unfold i. destruct (Nat.ltb_spec 1 (length ps)).
    - pose proof (Z.mod_pos_bound (hashSeed matchID ordered) (Z.of_nat (length ps))). lia.
    - destruct ps; simpl in *; [done|lia]. }
  rewrite Ht. exists t. split; [by apply list_elem_of_lookup_2 in Ht|]. apply shuffle_from_perm.
Qed.

Lemma adjacent_equal_spec l :
  StronglySorted String.le l → adjacent_equal l = false ↔ NoDup l.
Proof.
  induction 1 as [|a l Hs IH Ha]; [split; [constructor|done]|].
  destruct l as [|b l]; [split; [intros _; apply NoDup_singleton|done]|].
  cbn [adjacent_equal]. rewrite orb_false_iff, bool_decide_eq_false, IH, (NoDup_cons a).
  split; [intros [Hne Hnd]|intros [Hni Hnd]]; (split; [|done]).
  - intros [->|Hin]%elem_of_cons; [done|]. apply Hne, (anti_symm String.le).
    + by apply Forall_cons in Ha as [? _].
    + apply StronglySorted_inv in Hs as [_ Hb]. rewrite Forall_forall in Hb. auto.
  - intros ->. apply Hni, elem_of_cons. by left.
Qed.

Lemma imap_profiles (selected : list roleProfile) (ordered : list PlayerID) :
  length selected = length ordered →
  map profile_of (imap (λ idx playerID,
    let profile := default zero_roleProfile (selected !! idx) in
    mkAssignment playerID (pr_Role profile) (pr_Faction profile) (pr_Alignment profile)) ordered)
  = selected.
Proof.
  intros Hl. apply list_eq. intros i. change (map profile_of) with (fmap (M:=list) profile_of).
  rewrite list_lookup_fmap, list_lookup_imap.
  destruct (ordered !! i) as [id|] eqn:Hi; simpl.
  - assert (is_Some (selected !! i)) as [p Hp].
    { apply lookup_lt_is_Some. rewrite Hl. by eapply lookup_lt_Some. }
    rewrite Hp. simpl. by destruct p.
  - symmetry. apply lookup_ge_None_2. rewrite Hl. by apply lookup_ge_None.
Qed.

(** [Assign] fails on no players and on a repeated identifier, and on nothing
    else; otherwise every player gets one role, the roles dealt are exactly those of
    a template for that many players, with exactly one warden and, from three
    players on, exactly one gang leader. *)
Theorem Assign_spec ids matchID :
  match Assign ids matchID with
  | inl ErrNoPlayersProvided => ids = []
  | inl ErrDuplicatePlayerID => ¬ NoDup ids
  | inr out =>
      ids ≠ [] ∧ NoDup ids ∧ map as_PlayerID out = sort_strings ids ∧
      (∃ t, t ∈ profilesForCount (length ids) ∧ map profile_of out ≡ₚ t) ∧
      count_role RoleWarden (map profile_of out) = 1%nat ∧
      ((3 ≤ length ids)%nat → count_role RoleGangLeader (map profile_of out) = 1%nat)
  end.
Proof.
  unfold Assign. destruct ids as [|id0 ids0]; [done|]. set (ids := id0 :: ids0).
  pose proof (sort_by_perm String.le id ids) as Hp.
  assert (adjacent_equal (sort_strings ids) = false ↔ NoDup ids) as Hadj.
  { rewrite (adjacent_equal_spec _ (sort_by_sorted String.le id ids)). by rewrite Hp. }
  assert (length (sort_strings ids) = length ids) as Hlen by by rewrite Hp.
  destruct (adjacent_equal (sort_strings ids)).
  { intros Hnd. by apply Hadj in Hnd. }
  destruct (assigned_profiles_spec (sort_strings ids) matchID) as (t & Ht & Hsel).
  { intros Hnil. by rewrite Hnil in Hlen. }
  rewrite Hlen in Ht. destruct (profilesForCount_ok (length ids)) as [_ Hok]; [simpl; lia|].
  rewrite Forall_forall in Hok. destruct (Hok t Ht) as (Hl & Hw & Hg).
  rewrite imap_profiles by (by rewrite Hsel, Hl, Hlen).
  assert (∀ r, count_role r (assigned_profiles (sort_strings ids) matchID) = count_role r t) as Hc
    by (intros r; unfold count_role; by rewrite Hsel).
  rewrite !Hc. split_and!; [done|by apply Hadj| |by exists t|done|done].
  change (map as_PlayerID) with (fmap (M:=list) as_PlayerID). rewrite fmap_imap.
  apply list_eq. intros i. rewrite list_lookup_imap. by destruct (sort_strings ids !! i).
Qed.

(** The deal depends on who plays and on the match, not on the order in which
    the players are listed. *)
Theorem Assign_order_independent ids ids' matchID (Hp : ids ≡ₚ ids') :
  Assign ids matchID = Assign ids' matchID.
Proof.
  unfold Assign. rewrite (sort_self_proper String.le ids ids') by done.
  destruct ids, ids'; [done|by apply Permutation_nil_cons in Hp| |done].
  symmetry in Hp. by apply Permutation_nil_cons in Hp.
Qed.

Lemma Assign_order_independent_witness :
  Assign ["p3"; "p1"; "p2"] "match-1" = Assign ["p1"; "p2"; "p3"] "match-1" ∧
  match Assign ["p3"; "p1"; "p2"] "match-1" with inl _ => False | inr l => length l = 3%nat end.
Proof.
  split; [|by vm_compute]. apply Assign_order_independent.
  apply (bool_decide_unpack _). by vm_compute.
Defined.

(** ** Succession *)

Lemma elem_of_indexes_where p players i :
  i ∈ indexes_where p players ↔ ∃ x, players !! i = Some x ∧ p x = true.
Proof.
  unfold indexes_where. rewrite list_elem_of_filter, elem_of_seq. split.
  - intros [Hp _]. destruct (players !! i) as [x|]; [eauto|done].
  - intros (x & Hx & Hp). rewrite Hx. apply lookup_lt_Some in Hx. split; [done|lia].
Qed.

(** An update that reports the identifier of the player exactly when it changes it. *)
Definition reports (f : PlayerState → PlayerState * gset PlayerID) : Prop :=
  ∀ p, ∀ id, id ∈ (f p).2 ↔ (f p).1 ≠ p ∧ id = ps_ID p.

Lemma demote_reports : reports demote.
Proof.
  intros p id. unfold demote. case_bool_decide as Hr; simpl.
  - split; [by intros ?%elem_of_empty|by intros [? _]].
  - rewrite elem_of_singleton. split; [|by intros [_ ->]]. intros ->. split; [|done].
    intros Heq. apply Hr. by rewrite <-Heq.
Qed.

(** What promotion makes of a player. *)
Definition promoted (p : PlayerState) : PlayerState :=
  p <| ps_Role := RoleGangLeader |> <| ps_Faction := FactionPrisoner |>
    <| ps_Alignment := AlignmentEvil |>.

Lemma promote_fst p : (promote p).1 = promoted p.
Proof.
  destruct p. unfold promote, promoted. simpl.
  repeat (case_bool_decide; simpl; subst); done.
Qed.

Lemma promote_reports : reports promote.
Proof.
  intros p id. rewrite promote_fst. unfold promote, promoted.
  assert (promoted p = p ↔ ps_Role p = RoleGangLeader ∧ ps_Faction p = FactionPrisoner ∧
                           ps_Alignment p = AlignmentEvil) as Heq.
  { split; [intros <-; done|]. destruct p; simpl. by intros (-> & -> & ->). }
  unfold promoted in Heq. rewrite Heq.
  repeat (case_bool_decide; simpl); simpl in *;
    rewrite ?elem_of_union, ?elem_of_singleton, ?elem_of_empty; intuition congruence.
Qed.

Section updates.
Variable players : list PlayerState.

(** The changed set is exactly the identifiers of the players that differ. *)
Definition tracked (s : list PlayerState * gset PlayerID) : Prop :=
  ∀ id, id ∈ s.2 ↔ ∃ j p p', players !! j = Some p ∧ s.1 !! j = Some p' ∧ p' ≠ p ∧ ps_ID p = id.

Lemma update_player_lookup i f s k :
  (update_player i f s).1 !! k =
    if decide (k = i) then (λ p, (f p).1) <$> s.1 !! k else s.1 !! k.
Proof.
  unfold update_player. destruct (s.1 !! i) as [p|] eqn:Hp.
  - destruct (f p) as [p' c] eqn:Hf. simpl. case_decide as Hk.
    + subst k. rewrite list_lookup_insert_eq by (by eapply lookup_lt_Some).
      rewrite Hp. simpl. by rewrite Hf.
    + by rewrite list_lookup_insert_ne.
  - case_decide as Hk; [|done]. subst k. by rewrite Hp.
Qed.

Lemma update_player_tracked i f s :
  reports f → s.1 !! i = players !! i → tracked s → tracked (update_player i f s).
Proof.
  intros Hf Hi Ht id.
  assert (id ∈ (update_player i f s).2 ↔
    id ∈ s.2 ∨ ∃ p, players !! i = Some p ∧ (f p).1 ≠ p ∧ id = ps_ID p) as ->.
  { unfold update_player. rewrite Hi. destruct (players !! i) as [p|]; [|naive_solver].
    destruct (f p) as [p' c] eqn:Hfp. simpl. rewrite elem_of_union.
    assert (id ∈ c ↔ p' ≠ p ∧ id = ps_ID p) as -> by (pose proof (Hf p id) as H; by rewrite Hfp in H).
    split.
    { intros [?|[? ?]]; [by left|right]. exists p. by rewrite Hfp. }
    intros [?|(q & [= <-] & ? & ?)]; [by left|right].
    by rewrite Hfp in *. }
  rewrite (Ht id). setoid_rewrite update_player_lookup. split.
  - intros [(j & p & p' & Hp & Hp' & Hne & Hid)|(p & Hp & Hne & ->)].
    + exists j, p, p'. split_and!; try done. rewrite decide_False; [done|].
      intros ->. rewrite Hi in Hp'. congruence.
    + exists i, p, (f p).1. split_and!; try done. rewrite decide_True, Hi, Hp by done. done.
  - intros (j & p & p' & Hp & Hp' & Hne & Hid). case_decide as Hj.
    + subst j. rewrite Hi, Hp in Hp'. simplify_eq/=. right. eauto.
    + left. eauto 10.
Qed.

Lemma update_players idxs f s :
  reports f → NoDup idxs → (∀ i, i ∈ idxs → s.1 !! i = players !! i) → tracked s →
  let s' := foldl (λ s index, update_player index f s) s idxs in
  tracked s' ∧
  ∀ k, s'.1 !! k = if decide (k ∈ idxs) then (λ p, (f p).1) <$> s.1 !! k else s.1 !! k.
Proof.
  intros Hf. revert s. induction idxs as [|i idxs IH]; intros s Hnd Hi Ht; simpl; [done|].
  apply NoDup_cons in Hnd as [Hni Hnd].
  destruct (IH (update_player i f s)) as [Ht' Hl]; [done| | |].
  - intros j Hj. rewrite update_player_lookup, decide_False by (by intros ->).
    apply Hi, elem_of_cons. by right.
  - apply update_player_tracked; [done| |done]. apply Hi, elem_of_cons. by left.
  - split; [done|]. intros k. rewrite Hl, update_player_lookup.
    destruct (decide (k = i)) as [->|Hki].
    + rewrite decide_False by done. rewrite decide_True; [done|]. apply elem_of_cons. by left.
    + destruct (decide (k ∈ idxs)) as [Hk|Hk].
      * rewrite decide_True; [done|]. apply elem_of_cons. by right.
      * rewrite decide_False; [done|]. rewrite elem_of_cons. tauto.
Qed.
End updates.

(** While a gang leader lives, or no gang member does, succession changes
    nothing.  Otherwise exactly one living gang member becomes the leader (a
    prisoner, and evil), every former leader becomes a member, nobody else changes,
    and the identifiers returned are exactly those of the players that changed,
    sorted. *)
Theorem ApplyGangLeaderSuccession_spec state matchID tickID :
  let players := gs_Players state in
  let '(state', changed) := ApplyGangLeaderSuccession state matchID tickID in
  if existsb is_alive_leader players || negb (existsb is_eligible players)
  then state' = state ∧ changed = []
  else
    ∃ s successor, players !! s = Some successor ∧ is_eligible successor = true ∧
      state' = state <| gs_Players := gs_Players state' |> ∧
      (∀ i p, players !! i = Some p →
         gs_Players state' !! i =
           Some (if decide (i = s) then promoted p
                 else if ps_Role p ≟ RoleGangLeader then p <| ps_Role := RoleGangMember |> else p)) ∧
      StronglySorted String.le changed ∧
      (∀ id, id ∈ changed ↔
         ∃ i p p', players !! i = Some p ∧ gs_Players state' !! i = Some p' ∧ p' ≠ p ∧ ps_ID p = id).
Proof.
  cbv zeta. unfold ApplyGangLeaderSuccession. set (players := gs_Players state).
  destruct (existsb is_alive_leader players) eqn:Hal; cbn [orb].
  { by destruct (indexes_where is_eligible players). }
  destruct (indexes_where is_eligible players) as [|e es] eqn:He.
  { destruct (existsb is_eligible players) eqn:Hex; [|done].
    apply existsb_elem in Hex as (p & (i & Hi)%list_elem_of_lookup & Hp).
    assert (i ∈ indexes_where is_eligible players) as Hin by (apply elem_of_indexes_where; eauto).
    rewrite He in Hin. by apply elem_of_nil in Hin. }
  rewrite <-He. set (eligible := sort_by _ _ _).
  set (s1 := foldl _ _ _). set (pos := deterministicSuccessorIndex _ _ _ _).
  assert (eligible ≡ₚ e :: es) as Hperm by (unfold eligible; rewrite He; apply sort_by_perm).
  assert (is_Some (eligible !! pos)) as [s Hs].
  { apply lookup_lt_is_Some. unfold pos, deterministicSuccessorIndex.
    destruct (Nat.leb_spec (length eligible) 1); [rewrite Hperm; simpl; lia|].
    apply hash_choice_lt. lia. }
  rewrite Hs. cbn [default from_option id].
  assert (s ∈ indexes_where is_eligible players) as Hin.
  { apply list_elem_of_lookup_2 in Hs. rewrite Hperm in Hs. by rewrite He. }
  apply elem_of_indexes_where in Hin as (p & Hp & Hel).
  destruct (update_players players (indexes_where is_dead_leader players) demote (players, ∅))
    as [Ht1 Hl1]; [apply demote_reports|apply NoDup_filter, NoDup_seq|done| |].
  { intros id. simpl. split; [by intros ?%elem_of_empty|].
    intros (j & q & q' & Hq & Hq' & Hne & _). congruence. }
  fold s1 in Ht1, Hl1. simpl in Hl1.
  assert (s1.1 !! s = players !! s) as Hs1.
  { rewrite Hl1. rewrite decide_False; [done|]. intros (q & Hq & Hd)%elem_of_indexes_where.
    simplify_eq. unfold is_eligible, is_dead_leader in *. bool_props. congruence. }
  pose proof (update_player_tracked players s promote s1 promote_reports Hs1 Ht1) as Ht2.
  assert (existsb is_eligible players = true) as ->.
  { apply existsb_elem. exists p. split; [by apply list_elem_of_lookup_2 in Hp|done]. }
  cbn [negb]. exists s, p. split_and!; [done|done|done| |apply (sort_by_sorted String.le id)|].
  - intros i q Hq. cbn [gs_Players]. simpl. rewrite update_player_lookup.
    destruct (decide (i = s)) as [->|Hne].
    + rewrite Hs1, Hq. simpl. by rewrite promote_fst.
    + rewrite Hl1, Hq. case_decide as Hd.
      * apply elem_of_indexes_where in Hd as (q' & Hq' & Hd). simplify_eq.
        unfold is_dead_leader in Hd. bool_props. rewrite bool_decide_eq_true_2 by done. simpl.
        unfold demote. rewrite bool_decide_eq_false_2; [done|].
        unfold RoleGangLeader, RoleGangMember in *. congruence.
      * case_bool_decide as Hr; [|done]. exfalso. apply Hd, elem_of_indexes_where. exists q.
        split; [done|]. unfold is_dead_leader. rewrite bool_decide_eq_true_2 by done. simpl.
        apply negb_true_iff. destruct (ps_Alive q) eqn:Hqa; [|done].
        rewrite existsb_not_elem in Hal. specialize (Hal q ltac:(by apply list_elem_of_lookup_2 in Hq)).
        unfold is_alive_leader in Hal. by rewrite bool_decide_eq_true_2, Hqa in Hal by done.
  - intros id'. rewrite elem_of_sort_by, elem_of_elements. apply Ht2.
Qed.
