(* ===== verification/Visibility.v ===== *)
(** * What a viewer may see

    [internal/gamecore/roles/visibility.go]: snapshots are projected for each viewer
    before they leave the server.  Copies of slices are the slices. *)

From S2P Require Import Prelude Float32 Model.

#[local] Open Scope Z_scope.

Definition hidePrivatePlayerState (player : PlayerState) : PlayerState :=
  player <| ps_Inventory := [] |> <| ps_Cards := [] |> <| ps_Effects := [] |>
         <| ps_LastEscapeAttempt := zero_EscapeAttemptFeedback |>
         <| ps_Bullets := 0 |> <| ps_TempHeartsHalf := 0 |>
         <| ps_StunnedUntilTick := 0 |> <| ps_SolitaryUntilTick := 0 |>.

Definition clonePlayerState (player : PlayerState) : PlayerState := player.

Definition projectPlayerForViewer (player : PlayerState) (viewerID : PlayerID) : PlayerState :=
  let out := clonePlayerState player in
  if (viewerID ≠? "") && (ps_ID out ≟ viewerID) then out
  else
    let out := hidePrivatePlayerState out in
    if ps_Role out ≟ RoleWarden then out <| ps_Alignment := "" |>
    else out <| ps_Role := "" |> <| ps_Faction := "" |> <| ps_Alignment := "" |>.

Definition ProjectSnapshotForViewer (snapshot : Snapshot) (viewerID : PlayerID) : Snapshot :=
  let project := map (λ player, projectPlayerForViewer player viewerID) in
  snapshot <| sn_State ::= fmap (λ state, state <| gs_Players ::= project |>) |>
           <| sn_Delta ::= fmap (λ delta, delta <| gd_ChangedPlayers ::= project |>) |>.

(** ** What a projection reveals *)

(** Two players that look the same to a viewer who is neither of them: the fields
    the projection leaves in place agree, and a warden is known as such. *)
Record same_public (p q : PlayerState) : Prop := mkSamePublic {
  pub_ID : ps_ID p = ps_ID q;
  pub_Name : ps_Name p = ps_Name q;
  pub_Connected : ps_Connected p = ps_Connected q;
  pub_Alive : ps_Alive p = ps_Alive q;
  pub_Hearts : ps_HeartsHalf p = ps_HeartsHalf q;
  pub_Lives : ps_LivesRemaining p = ps_LivesRemaining q;
  pub_Equipped : ps_EquippedItem p = ps_EquippedItem q;
  pub_Slots : ps_InventorySlots p = ps_InventorySlots q;
  pub_Position : ps_Position p = ps_Position q;
  pub_Velocity : ps_Velocity p = ps_Velocity q;
  pub_Facing : ps_Facing p = ps_Facing q;
  pub_Room : ps_CurrentRoomID p = ps_CurrentRoomID q;
  pub_Cell : ps_AssignedCell p = ps_AssignedCell q;
  pub_Locked : ps_LockedInCell p = ps_LockedInCell q;
  pub_Ability : ps_AssignedAbility p = ps_AssignedAbility q;
  pub_NightCards : ps_NightCardChoices p = ps_NightCardChoices q;
  pub_Feedback : ps_LastActionFeedback p = ps_LastActionFeedback q;
  pub_Warden : ps_Role p = RoleWarden ↔ ps_Role q = RoleWarden;
  pub_WardenFaction : ps_Role p = RoleWarden → ps_Faction p = ps_Faction q;
}.

Definition is_viewer (viewerID : PlayerID) (p : PlayerState) : Prop :=
  viewerID ≠ "" ∧ ps_ID p = viewerID.

(** What the viewer is entitled to know of a player. *)
Definition looks_same (viewerID : PlayerID) (p q : PlayerState) : Prop :=
  ps_ID p = ps_ID q ∧ (is_viewer viewerID p → p = q) ∧ same_public p q.

Lemma projectPlayerForViewer_ID p v : ps_ID (projectPlayerForViewer p v) = ps_ID p.
Proof. unfold projectPlayerForViewer. repeat case_match; done. Qed.

Lemma projectPlayerForViewer_self p v : is_viewer v p → projectPlayerForViewer p v = p.
Proof.
  intros [Hne Hid]. unfold projectPlayerForViewer, clonePlayerState.
  by rewrite bool_decide_eq_false_2, bool_decide_eq_true_2.
Qed.

(** What is left of a player for others. *)
Definition masked (p : PlayerState) (role : RoleType) (faction : FactionType) : PlayerState :=
  mkPlayer (ps_ID p) (ps_Name p) (ps_Connected p) (ps_Alive p) faction "" role
    (ps_HeartsHalf p) 0 0 (ps_LivesRemaining p) (ps_EquippedItem p) (ps_InventorySlots p)
    (ps_Position p) (ps_Velocity p) (ps_Facing p) (ps_CurrentRoomID p) (ps_AssignedCell p)
    (ps_LockedInCell p) (ps_AssignedAbility p) 0 0 [] [] (ps_NightCardChoices p) []
    zero_EscapeAttemptFeedback (ps_LastActionFeedback p).

Lemma projectPlayerForViewer_other p v :
  ¬ is_viewer v p →
  projectPlayerForViewer p v =
    if ps_Role p ≟ RoleWarden then masked p (ps_Role p) (ps_Faction p) else masked p "" "".
Proof.
  intros Hv. unfold projectPlayerForViewer, clonePlayerState.
  destruct (negb _ && _) eqn:Hb; [bool_props; by destruct Hv|]. by destruct p.
Qed.

Lemma project_other_iff p q v :
  ¬ is_viewer v p → ¬ is_viewer v q →
  projectPlayerForViewer p v = projectPlayerForViewer q v ↔ same_public p q.
Proof.
  intros Hp Hq. rewrite !projectPlayerForViewer_other by done. unfold masked. split.
  - unfold RoleWarden. intros Heq. repeat case_bool_decide; injection Heq as; try (exfalso; congruence);
      (constructor; [congruence..|unfold RoleWarden; tauto|unfold RoleWarden; first [congruence|tauto]]).
  - intros []. repeat case_bool_decide; try tauto; f_equal; solve [assumption | congruence | auto].
Qed.

Lemma projectPlayerForViewer_iff p q viewerID :
  projectPlayerForViewer p viewerID = projectPlayerForViewer q viewerID ↔ looks_same viewerID p q.
Proof.
  assert (same_public p p) as Hrefl by by constructor.
  assert (is_viewer viewerID p ∨ ¬ is_viewer viewerID p) as Hcase.
  { unfold is_viewer. destruct (decide (viewerID = "")), (decide (ps_ID p = viewerID)); tauto. }
  unfold looks_same. split.
  - intros Heq. assert (ps_ID p = ps_ID q) as Hid
      by by rewrite <-(projectPlayerForViewer_ID p viewerID), Heq, projectPlayerForViewer_ID.
    assert (is_viewer viewerID p ↔ is_viewer viewerID q) as Hv
      by (unfold is_viewer; by rewrite Hid).
    destruct Hcase as [Hp|Hp].
    + rewrite !projectPlayerForViewer_self in Heq by tauto. by subst q.
    + apply project_other_iff in Heq; tauto.
  - intros (Hid & Hself & Hpub). destruct Hcase as [Hp|Hp]; [by rewrite (Hself Hp)|].
    apply project_other_iff; [done| |done]. unfold is_viewer in *. by rewrite <-Hid.
Qed.

Lemma project_players_iff players1 players2 viewerID :
  map (λ p, projectPlayerForViewer p viewerID) players1 =
  map (λ p, projectPlayerForViewer p viewerID) players2 ↔
  Forall2 (looks_same viewerID) players1 players2.
Proof.
  revert players2. induction players1 as [|p players1 IH]; intros [|q players2]; simpl.
  - by split.
  - split; [done|by inversion 1].
  - split; [done|by inversion 1].
  - rewrite Forall2_cons, <-IH, <-projectPlayerForViewer_iff. split; [by intros [=]|].
    by intros [-> ->].
Qed.

(** C14: Non-interference: two sets of players give a viewer the same snapshot exactly
    when they agree on what that viewer is entitled to know, namely the viewer's own
    player and the public fields of the others (who is the warden included).  Roles,
    alignments, inventories, cards, effects, ammunition and control timers of the
    other players do not influence what is sent. *)
Theorem ProjectSnapshotForViewer_noninterference snapshot state players1 players2 viewerID :
  ProjectSnapshotForViewer
    (snapshot <| sn_State := Some (state <| gs_Players := players1 |>) |>) viewerID =
  ProjectSnapshotForViewer
    (snapshot <| sn_State := Some (state <| gs_Players := players2 |>) |>) viewerID
  ↔ Forall2 (looks_same viewerID) players1 players2.
Proof.
  rewrite <-project_players_iff. unfold ProjectSnapshotForViewer.
  destruct snapshot, state. unfold field_update; simpl. split; [by intros [=]|by intros ->].
Qed.

(** Projection is stable: projecting again for the same viewer changes nothing, the
    viewer's own player is sent whole, and nobody else's inventory, cards, effects,
    ammunition, control timers or alignment is sent, nor any other role than the
    warden's. *)
Theorem projectPlayerForViewer_hides p viewerID :
  let sent := projectPlayerForViewer p viewerID in
  projectPlayerForViewer sent viewerID = sent ∧
  (is_viewer viewerID p → sent = p) ∧
  (¬ is_viewer viewerID p →
     ps_Inventory sent = [] ∧ ps_Cards sent = [] ∧ ps_Effects sent = [] ∧ ps_Bullets sent = 0 ∧
     ps_TempHeartsHalf sent = 0 ∧ ps_StunnedUntilTick sent = 0 ∧ ps_SolitaryUntilTick sent = 0 ∧
     ps_Alignment sent = "" ∧
     ((ps_Role sent = RoleWarden ∧ ps_Role p = RoleWarden) ∨
      (ps_Role sent = "" ∧ ps_Faction sent = "" ∧ ps_Role p ≠ RoleWarden))).
Proof.
  cbv zeta. split_and!.
  - apply projectPlayerForViewer_iff. unfold looks_same. rewrite projectPlayerForViewer_ID.
    assert (is_viewer viewerID p ∨ ¬ is_viewer viewerID p) as [Hp|Hp].
    { unfold is_viewer. destruct (decide (viewerID = "")), (decide (ps_ID p = viewerID)); tauto. }
    + rewrite projectPlayerForViewer_self by done. split_and!; [done..|by constructor].
    + rewrite projectPlayerForViewer_other by done. split_and!; [done| |].
      * intros [? Hid]. exfalso. apply Hp. split; [done|]. rewrite <-Hid. by case_bool_decide.
      * case_bool_decide as Hw; constructor; done.
  - apply projectPlayerForViewer_self.
  - intros Hp. rewrite projectPlayerForViewer_other by done.
    case_bool_decide; split_and!; auto.
Qed.
