(* ===== verification/Combat.v ===== *)
(** * Combat

    [internal/gamecore/combat/engine.go]: loadouts, weapons and their costs, target
    selection, damage and the penalty for unjust shots.  Functions that mutate a
    player return the new player beside their result. *)

From S2P Require Import Prelude Float32 Model Layout Access Items.

#[local] Open Scope Z_scope.

Definition DefaultPlayerLives : Z := 3.
Definition WeaponBaton : ItemType := ItemBaton.
Definition ShivDamageHalf : Z := 1.
Definition FirearmDamageHalf : Z := 2.
Definition GoldenBulletDamageHalf : Z := 4.
Definition AimAssistRadiusTiles : f32 := f32_const 5 4.
Definition BatonRangeTiles : f32 := f32_const 3 2.
Definition ShivRangeTiles : f32 := f32_const 3 2.
Definition PistolRangeTiles : f32 := f32_of_Z 8.
Definition HuntingRifleRangeTiles : f32 := f32_of_Z 12.
Definition BatonKnockbackMagnitude : f32 := f32_const 3 2.
Definition BatonStunDurationSecond : Z := 3.

Record DamageResult := mkDamage {
  dm_AppliedHalf : Z; dm_TempConsumedHalf : Z; dm_HealthConsumedHalf : Z; dm_Eliminated : bool;
}.
#[export] Instance DamageResult_eta : RecordEta DamageResult := λ r,
  mkDamage (dm_AppliedHalf r) (dm_TempConsumedHalf r) (dm_HealthConsumedHalf r) (dm_Eliminated r).
Definition zero_DamageResult : DamageResult := mkDamage 0 0 0 false.

(** ** Loadouts *)

Record loadout := mkLoadout { lo_HeartsHalf : Z; lo_Bullets : Z }.

Definition loadoutForRole (role : RoleType) : loadout :=
  if role ≟ RoleWarden then mkLoadout 10 3
  else if role ≟ RoleDeputy then mkLoadout 8 3
  else mkLoadout 6 0.

Definition apply_loadout (player : PlayerState) : PlayerState :=
  let loadout := loadoutForRole (ps_Role player) in
  player <| ps_HeartsHalf := lo_HeartsHalf loadout |> <| ps_Bullets := lo_Bullets loadout |>
         <| ps_LivesRemaining := DefaultPlayerLives |> <| ps_TempHeartsHalf := 0 |>
         <| ps_Alive := 0 <? lo_HeartsHalf loadout |> <| ps_StunnedUntilTick := 0 |>
         <| ps_SolitaryUntilTick := 0 |> <| ps_LockedInCell := 0 |>.

Definition ApplyRoleLoadouts (state : GameState) : GameState :=
  state <| gs_Players ::= map apply_loadout |>.

Definition MaxHeartsHalfForRole (role : RoleType) : Z := lo_HeartsHalf (loadoutForRole role).

(** ** Weapons *)

Definition IsSupportedWeapon (weapon : ItemType) : bool :=
  (weapon ≟ WeaponBaton) || (weapon ≟ ItemShiv) || (weapon ≟ ItemPistol) ||
  (weapon ≟ ItemHuntingRifle).

Definition IsFirearm (weapon : ItemType) : bool :=
  (weapon ≟ ItemPistol) || (weapon ≟ ItemHuntingRifle).

Definition WeaponRangeTiles (weapon : ItemType) : f32 :=
  if weapon ≟ WeaponBaton then BatonRangeTiles
  else if weapon ≟ ItemShiv then ShivRangeTiles
  else if weapon ≟ ItemPistol then PistolRangeTiles
  else if weapon ≟ ItemHuntingRifle then HuntingRifleRangeTiles
  else f32_zero.

Definition CanUseWeapon (player : PlayerState) (weapon : ItemType) : bool :=
  if negb (ps_Alive player) || negb (IsSupportedWeapon weapon) then false
  else
    let legacyAuthorityLoadout := IsAuthorityPlayer player && (ps_InventorySlots player ≟ 0) in
    if weapon ≟ WeaponBaton then
      if legacyAuthorityLoadout then true else HasItem player ItemBaton 1
    else if weapon ≟ ItemShiv then HasItem player ItemShiv 1
    else if weapon ≟ ItemPistol then
      if legacyAuthorityLoadout then true else HasItem player ItemPistol 1
    else if weapon ≟ ItemHuntingRifle then
      if legacyAuthorityLoadout then true else HasItem player ItemHuntingRifle 1
    else false.

Definition IsActionBlocked (player : PlayerState) (tickID : Z) : bool :=
  if negb (ps_Alive player) then true
  else if (ps_StunnedUntilTick player ≠? 0) && (tickID <=? ps_StunnedUntilTick player) then true
  else (ps_SolitaryUntilTick player ≠? 0) && (tickID <=? ps_SolitaryUntilTick player).

(** The shooter after the shot; the damage, or [None] for a refused shot. *)
Definition ConsumeShotCostAndResolveDamage (shooter : PlayerState) (weapon : ItemType)
    (useGoldenRound : bool) : PlayerState * option Z :=
  if negb (CanUseWeapon shooter weapon) then (shooter, None)
  else if weapon ≟ WeaponBaton then (shooter, if useGoldenRound then None else Some 0)
  else if weapon ≟ ItemShiv then (shooter, if useGoldenRound then None else Some ShivDamageHalf)
  else if (weapon ≟ ItemPistol) || (weapon ≟ ItemHuntingRifle) then
    if useGoldenRound then
      match RemoveItem shooter ItemGoldenBullet 1 with
      | None => (shooter, None)
      | Some shooter => (shooter, Some GoldenBulletDamageHalf)
      end
    else if ps_Bullets shooter ≟ 0 then (shooter, None)
    else (shooter <| ps_Bullets ::= λ b, u8 (b - 1) |>, Some FirearmDamageHalf)
  else (shooter, None).

(** ** Target selection *)

Definition distanceSquared (a b : Vector2) : f32 :=
  let dx := f32_sub (vX a) (vX b) in
  let dy := f32_sub (vY a) (vY b) in
  f32_add (f32_mul dx dx) (f32_mul dy dy).

(** The [continue]s at the top of the loop. *)
Definition targetable (shooterID : PlayerID) (shooterPos aim : Vector2)
    (maxRangeSquared maxAimSquared : f32) (candidate : PlayerState) : bool :=
  negb ((ps_ID candidate ≟ shooterID) || negb (ps_Alive candidate)) &&
  negb (f32_gtb (distanceSquared shooterPos (ps_Position candidate)) maxRangeSquared) &&
  negb (f32_gtb (distanceSquared aim (ps_Position candidate)) maxAimSquared).

(** The rest of the body: the best identifier and distance so far. *)
Definition consider_target (aim : Vector2) (best : PlayerID * f32) (candidate : PlayerState) :
    PlayerID * f32 :=
  let '(bestTargetID, bestAimDistance) := best in
  let aimDistanceSquared := distanceSquared aim (ps_Position candidate) in
  if f32_ltb aimDistanceSquared bestAimDistance then (ps_ID candidate, aimDistanceSquared)
  else if f32_eqb aimDistanceSquared bestAimDistance &&
          ((bestTargetID ≟ "") || String.ltb (ps_ID candidate) bestTargetID)
  then (ps_ID candidate, bestAimDistance)
  else best.

Definition target_loop (shooterID : PlayerID) (shooterPos aim : Vector2)
    (maxRangeSquared maxAimSquared : f32) (players : list PlayerState) (best : PlayerID * f32) :
    PlayerID * f32 :=
  foldl (λ best candidate,
    if targetable shooterID shooterPos aim maxRangeSquared maxAimSquared candidate
    then consider_target aim best candidate else best) best players.

Definition SelectTarget (players : list PlayerState) (shooterID : PlayerID) (aim : Vector2)
    (maxRangeTiles aimAssistRadiusTiles : f32) : option PlayerID :=
  if (length players =? 0)%nat || (shooterID ≟ "") || f32_leb maxRangeTiles f32_zero ||
     f32_leb aimAssistRadiusTiles f32_zero then None
  else
    match find_first (λ player, ps_ID player ≟ shooterID) players with
    | None => None
    | Some shooter =>
        if negb (ps_Alive shooter) then None
        else
          let maxRangeSquared := f32_mul maxRangeTiles maxRangeTiles in
          let maxAimSquared := f32_mul aimAssistRadiusTiles aimAssistRadiusTiles in
          let '(bestTargetID, _) :=
            target_loop shooterID (ps_Position shooter) aim maxRangeSquared maxAimSquared
              players ("", f32_max) in
          if bestTargetID ≟ "" then None else Some bestTargetID
    end.

(** ** Baton *)

Definition BatonImpulse (attacker target : PlayerState) : Vector2 :=
  let x := f32_sub (vX (ps_Position target)) (vX (ps_Position attacker)) in
  let y := f32_sub (vY (ps_Position target)) (vY (ps_Position attacker)) in
  let is_zero x y := f32_eqb x f32_zero && f32_eqb y f32_zero in
  let '(x, y) := if is_zero x y then (vX (ps_Facing attacker), vY (ps_Facing attacker)) else (x, y) in
  let x := if is_zero x y then f32_of_Z 1 else x in
  let magnitude := f32_sqrt (f32_add (f32_mul x x) (f32_mul y y)) in
  if f32_eqb magnitude f32_zero then mkVector2 BatonKnockbackMagnitude f32_zero
  else
    let scale := f32_div BatonKnockbackMagnitude magnitude in
    mkVector2 (f32_mul x scale) (f32_mul y scale).

Definition BatonStunDurationTicks (tickRateHz : Z) : Z :=
  if tickRateHz ≟ 0 then 0 else u64 (tickRateHz * BatonStunDurationSecond).

(** ** Damage *)

(** The block that takes damage out of one pool of hearts, which the code has once
    for the temporary hearts and once for the health: the pool, the damage left and
    the amount consumed. *)
Definition absorb (pool remaining : Z) : Z * Z * Z :=
  if (0 <? pool) && (0 <? remaining) then
    let consumed := if pool <? remaining then pool else remaining in
    (u8 (pool - consumed), u8 (remaining - consumed), consumed)
  else (pool, remaining, 0).

Definition ApplyDamage (target : PlayerState) (damageHalf : Z) : PlayerState * DamageResult :=
  if (damageHalf ≟ 0) || negb (ps_Alive target) then (target, zero_DamageResult)
  else
    let '(temp, remaining, tempConsumed) := absorb (ps_TempHeartsHalf target) damageHalf in
    let '(hearts, _, healthConsumed) := absorb (ps_HeartsHalf target) remaining in
    let target := target <| ps_TempHeartsHalf := temp |> <| ps_HeartsHalf := hearts |> in
    let result := mkDamage (u8 (tempConsumed + healthConsumed)) tempConsumed healthConsumed false in
    if ps_HeartsHalf target ≟ 0 then
      (target <| ps_Alive := false |> <| ps_Velocity := zero_Vector2 |>
              <| ps_StunnedUntilTick := 0 |>,
       result <| dm_Eliminated := true |>)
    else (target, result).

(** ** Unjust shots *)

Definition isRestrictedRoom (roomID : RoomID) (mapState : MapState) : bool :=
  if roomID ≟ "" then false
  else existsb (λ zone, if negb (zs_Restricted zone) then false else zs_RoomID zone ≟ roomID)
         (ms_RestrictedZones mapState).

Definition hasPenaltyExemptContraband (target : PlayerState) : bool :=
  HasItem target ItemPistol 1 || HasItem target ItemHuntingRifle 1 || HasItem target ItemShiv 1 ||
  HasItem target ItemLadder 1 || HasItem target ItemShovel 1 || HasItem target ItemWireCutters 1.

Definition IsUnjustAuthorityShot (target : PlayerState) (mapState : MapState) : bool :=
  if negb (ms_PowerOn mapState) then false
  else if isRestrictedRoom (ps_CurrentRoomID target) mapState then false
  else if hasPenaltyExemptContraband target then false
  else true.

Definition ApplyUnjustShotPenalty (shooter : PlayerState) (phase : PhaseState) (tickID : Z) :
    PlayerState * bool :=
  if negb (IsAuthorityPlayer shooter) then (shooter, false)
  else if ph_Current phase ≠? PhaseDay then (shooter, false)
  else if (ph_EndsTick phase ≟ 0) || (ph_EndsTick phase <=? tickID) then (shooter, false)
  else
    let penaltyEnds := u64 (ph_EndsTick phase - 1) in
    let '(shooter, changed) :=
      if ps_SolitaryUntilTick shooter <? penaltyEnds
      then (shooter <| ps_SolitaryUntilTick := penaltyEnds |>, true) else (shooter, false) in
    if (ps_AssignedCell shooter ≠? 0) && (ps_LockedInCell shooter ≠? ps_AssignedCell shooter)
    then (shooter <| ps_LockedInCell := ps_AssignedCell shooter |>, true)
    else (shooter, changed).

(** ** Damage, on every branch *)

(** The player's counters are bytes. *)
Definition player_bytes (p : PlayerState) : Prop :=
  is_u8 (ps_HeartsHalf p) ∧ is_u8 (ps_TempHeartsHalf p) ∧ is_u8 (ps_Bullets p).

Definition fallen (p : PlayerState) : PlayerState :=
  p <| ps_Alive := false |> <| ps_Velocity := zero_Vector2 |> <| ps_StunnedUntilTick := 0 |>.

Lemma absorb_spec pool remaining :
  is_u8 pool → is_u8 remaining →
  absorb pool remaining =
    (pool - Z.min remaining pool, remaining - Z.min remaining pool, Z.min remaining pool).
Proof.
  intros Hp Hr. unfold is_u8 in *. unfold absorb.
  destruct ((0 <? pool) && (0 <? remaining)) eqn:Hb.
  - assert ((if pool <? remaining then pool else remaining) = Z.min remaining pool) as ->
      by (destruct (pool <? remaining) eqn:Hlt; bool_props; lia).
    by rewrite !u8_small by (unfold is_u8; lia).
  - assert (Z.min remaining pool = 0) as -> by (bool_props; lia). by rewrite !Z.sub_0_r.
Qed.

Lemma ApplyDamage_live p d :
  is_u8 (ps_HeartsHalf p) → is_u8 (ps_TempHeartsHalf p) → is_u8 d → d ≠ 0 → ps_Alive p = true →
  let temp := Z.min d (ps_TempHeartsHalf p) in
  let health := Z.min (d - temp) (ps_HeartsHalf p) in
  let p' := p <| ps_TempHeartsHalf := ps_TempHeartsHalf p - temp |>
              <| ps_HeartsHalf := ps_HeartsHalf p - health |> in
  let dead := ps_HeartsHalf p - health ≟ 0 in
  ApplyDamage p d = (if dead then fallen p' else p', mkDamage (temp + health) temp health dead).
Proof.
  intros Hh Ht Hd H0 Hal. unfold is_u8 in *. cbv zeta.
  unfold ApplyDamage. rewrite bool_decide_eq_false_2, Hal by done. cbn [negb orb].
  rewrite absorb_spec by (unfold is_u8; lia).
  rewrite absorb_spec by (unfold is_u8; lia). cbn [ps_HeartsHalf].
  rewrite u8_small by (unfold is_u8; lia). simpl. by case_bool_decide.
Qed.

(** Damage to a dead player or of size zero does nothing.  Otherwise temporary
    hearts absorb it first and health the rest; exactly [min damage (temp + health)]
    is taken out of the two pools together, no counter wraps, and the player falls
    (dead, still, unstunned) exactly when no health is left. *)
Theorem ApplyDamage_spec p d (Hp : player_bytes p) (Hd : is_u8 d) :
  let '(p', r) := ApplyDamage p d in
  (d = 0 ∨ ps_Alive p = false → p' = p ∧ r = zero_DamageResult) ∧
  (d ≠ 0 → ps_Alive p = true →
     dm_AppliedHalf r = Z.min d (ps_TempHeartsHalf p + ps_HeartsHalf p) ∧
     dm_TempConsumedHalf r = Z.min d (ps_TempHeartsHalf p) ∧
     dm_AppliedHalf r = dm_TempConsumedHalf r + dm_HealthConsumedHalf r ∧
     ps_TempHeartsHalf p' = ps_TempHeartsHalf p - dm_TempConsumedHalf r ∧
     ps_HeartsHalf p' = ps_HeartsHalf p - dm_HealthConsumedHalf r ∧
     ps_Alive p' = negb (dm_Eliminated r) ∧
     (dm_Eliminated r = true ↔ ps_TempHeartsHalf p + ps_HeartsHalf p <= d ∨ ps_HeartsHalf p = 0)) ∧
  player_bytes p'.
Proof.
  destruct (decide (d = 0 ∨ ps_Alive p = false)) as [Hno|Hyes].
  - assert (ApplyDamage p d = (p, zero_DamageResult)) as ->.
    { unfold ApplyDamage. destruct Hno as [-> | ->]; [done|]. by rewrite orb_true_r. }
    split; [done|]. split; [|done]. intros ? Hal. destruct Hno; congruence.
  - assert (d ≠ 0 ∧ ps_Alive p = true) as [H0 Hal] by (destruct (ps_Alive p); naive_solver).
    destruct Hp as (Hh & Ht & Hb). rewrite ApplyDamage_live by done. cbv zeta.
    unfold player_bytes, is_u8 in *.
    case_bool_decide; simpl; (split; [tauto|]); (split; [intros _ _|lia]); split_and!; try done; lia.
Qed.

(** Two hits are one: as long as the first does not kill, two hits leave the
    pools as one hit with the sum of their damage. *)
Theorem ApplyDamage_split p d1 d2
    (Hp : player_bytes p) (H1 : is_u8 d1) (H2 : is_u8 d2) (Hsum : is_u8 (d1 + d2))
    (Hnz : d1 ≠ 0 ∧ d2 ≠ 0) (Hal : ps_Alive p = true)
    (Hlive : ps_Alive (ApplyDamage p d1).1 = true) :
  (ApplyDamage (ApplyDamage p d1).1 d2).1 = (ApplyDamage p (d1 + d2)).1.
Proof.
  destruct Hp as (Hh & Ht & Hb). destruct Hnz as [Hn1 Hn2]. unfold is_u8 in *.
  rewrite (ApplyDamage_live p d1) in * by done. cbv zeta in *.
  case_bool_decide as Hd1; [done|]. cbn [fst] in *. simpl in Hd1.
  rewrite ApplyDamage_live; [|unfold is_u8; simpl; lia..|done|done|done]. cbv zeta.
  rewrite ApplyDamage_live; [|done..|lia|done]. cbv zeta. simpl.
  set (t1 := Z.min d1 (ps_TempHeartsHalf p)). set (h1 := Z.min (d1 - t1) (ps_HeartsHalf p)).
  assert (ps_TempHeartsHalf p - t1 - Z.min d2 (ps_TempHeartsHalf p - t1) =
          ps_TempHeartsHalf p - Z.min (d1 + d2) (ps_TempHeartsHalf p)) as Hteq by (unfold t1; lia).
  assert (ps_HeartsHalf p - h1 - Z.min (d2 - Z.min d2 (ps_TempHeartsHalf p - t1)) (ps_HeartsHalf p - h1) =
          ps_HeartsHalf p - Z.min (d1 + d2 - Z.min (d1 + d2) (ps_TempHeartsHalf p)) (ps_HeartsHalf p))
    as Hheq by (unfold h1, t1; lia).
  rewrite Hheq, Hteq. case_bool_decide; by destruct p.
Qed.

(** ** Target selection finds the best target *)

Section select_target.
Variables (shooterID : PlayerID) (shooterPos aim : Vector2) (maxRange maxAim : f32).

Abbreviation eligible := (targetable shooterID shooterPos aim maxRange maxAim).
Abbreviation aim_dist c := (distanceSquared aim (ps_Position c)).

(** The best so far among the players seen: nobody, or a seen target that nobody
    seen is closer to the aim than, ties going to the smallest identifier. *)
Definition best_of (seen : list PlayerState) (best : PlayerID * f32) : Prop :=
  (∀ c, c ∈ seen → eligible c = true → f32_ltb (aim_dist c) best.2 = false) ∧
  (best.1 = "" → best.2 = f32_max ∧
     ∀ c, c ∈ seen → eligible c = true → f32_eqb (aim_dist c) f32_max = false) ∧
  (best.1 ≠ "" → ∃ c, c ∈ seen ∧ eligible c = true ∧ ps_ID c = best.1 ∧
     f32_eqb (aim_dist c) best.2 = true ∧
     ∀ c', c' ∈ seen → eligible c' = true → f32_eqb (aim_dist c') best.2 = true →
       String.le best.1 (ps_ID c')).

Lemma consider_target_best seen best c :
  ps_ID c ≠ "" → eligible c = true → best_of seen best →
  best_of (seen ++ [c]) (consider_target aim best c).
Proof.
  intros Hid Hel (Hmin & Hnone & Hsome). unfold consider_target.
  destruct best as [bid bd]; simpl in *.
  assert (∀ c', c' ∈ seen ++ [c] ↔ c' ∈ seen ∨ c' = c) as Hin.
  { intros c'. rewrite elem_of_app, list_elem_of_singleton. done. }
  destruct (f32_ltb (aim_dist c) bd) eqn:Hlt.
  - assert (∀ c', c' ∈ seen → eligible c' = true →
              f32_ltb (aim_dist c') (aim_dist c) = false ∧
              f32_eqb (aim_dist c') (aim_dist c) = false) as Hworse.
    { intros c' Hc' Hel'. specialize (Hmin c' Hc' Hel'). split.
      - by apply f32_not_below_lt with bd.
      - destruct (f32_eqb (aim_dist c') (aim_dist c)) eqn:He; [|done].
        rewrite (f32_eqb_ltb_l _ _ bd He) in Hmin. congruence. }
    assert (f32_eqb (aim_dist c) (aim_dist c) = true) as Hrefl by by eapply f32_ltb_eqb_refl.
    split_and!; simpl; [|done|].
    + intros c' [Hc'| ->]%Hin Hel'; [by apply Hworse|apply f32_ltb_irrefl].
    + intros _. exists c. split_and!; [by apply Hin; right|done..|].
      intros c' [Hc'| ->]%Hin Hel' He; [|reflexivity]. destruct (Hworse c' Hc' Hel'). congruence.
  - destruct (f32_eqb (aim_dist c) bd) eqn:He; cbn [andb].
    + (* a tie *)
      assert (∀ c', c' ∈ seen ++ [c] → eligible c' = true → f32_ltb (aim_dist c') bd = false)
        as Hmin' by (intros c' [Hc'| ->]%Hin; auto).
      assert (∀ q, q = ps_ID c ∨ q ≠ "" →
        (q = ps_ID c ∨ q = bid) → String.le q (ps_ID c) →
        (bid ≠ "" → String.le q bid) →
        best_of (seen ++ [c]) (q, bd)) as Hbest.
      { intros q Hq Hor Hqc Hqb. assert (q ≠ "") as Hqne by (destruct Hq; congruence).
        split_and!; simpl; [done|done|]. intros _.
        assert (bid = "" ∨ bid ≠ "") as [Hb|Hb] by (destruct (decide (bid = "")); auto).
        - destruct (Hnone Hb) as [-> Hnb]. exists c.
          split_and!; [by apply Hin; right|done|by destruct Hor; congruence|done|].
          intros c' [Hc'| ->]%Hin Hel' He'; [|done]. by rewrite (Hnb c') in He'.
        - destruct (Hsome Hb) as (b & Hb1 & Hb2 & Hb3 & Hb4 & Hb5).
          assert (∀ c', c' ∈ seen ++ [c] → eligible c' = true → f32_eqb (aim_dist c') bd = true →
                    String.le q (ps_ID c')) as Hle.
          { intros c' [Hc'| ->]%Hin Hel' He'; [|done]. transitivity bid; auto. }
          destruct Hor as [->| ->].
          + exists c. split_and!; [by apply Hin; right|done..].
          + exists b. split_and!; [by apply Hin; left|done..]. }
      destruct ((bid ≟ "") || String.ltb (ps_ID c) bid) eqn:Hc.
      * apply Hbest; [by left|by left|reflexivity|]. intros Hb.
        rewrite bool_decide_eq_false_2 in Hc by done. by apply string_ltb_le.
      * bool_props. apply Hbest; [by right|by right| |]; [by apply string_ltb_ge|reflexivity].
    + (* not better *)
      assert (∀ c', c' ∈ seen ++ [c] → eligible c' = true → f32_ltb (aim_dist c') bd = false)
        as Hmin' by (intros c' [Hc'| ->]%Hin; auto).
      split_and!; simpl; [done| |].
      * intros Hb. destruct (Hnone Hb) as [-> Hnb]. split; [done|].
        intros c' [Hc'| ->]%Hin; auto.
      * intros Hb. destruct (Hsome Hb) as (b & Hb1 & Hb2 & Hb3 & Hb4 & Hb5). exists b.
        split_and!; [by apply Hin; left|done..|].
        intros c' [Hc'| ->]%Hin Hel' He'; [auto|congruence].
Qed.

Lemma target_loop_best seen players best :
  Forall (λ p, ps_ID p ≠ "") players → best_of seen best →
  best_of (seen ++ players) (target_loop shooterID shooterPos aim maxRange maxAim players best).
Proof.
  intros Hids. revert seen best. induction Hids as [|c players Hc Hids IH]; intros seen best Hb;
    simpl; [by rewrite app_nil_r|].
  rewrite cons_middle, (assoc_L (++)). apply IH. destruct (eligible c) eqn:Hel.
  - by apply consider_target_best.
  - destruct Hb as (H1 & H2 & H3).
    assert (∀ c', c' ∈ seen ++ [c] → eligible c' = true → c' ∈ seen) as Hin.
    { intros c' [?|?%list_elem_of_singleton]%elem_of_app; [done|congruence]. }
    split_and!; [eauto| |].
    + intros Hb. destruct (H2 Hb). eauto 10.
    + intros Hb. destruct (H3 Hb) as (b & ? & ? & ? & ? & ?). exists b.
      split_and!; try done; [by apply elem_of_app; left|eauto].
Qed.
End select_target.

(** What a shot may hit: another living player within range of the shooter and of
    the aim. *)
Definition can_hit (players : list PlayerState) (shooterID : PlayerID) (aim : Vector2)
    (maxRangeTiles aimAssistRadiusTiles : f32) (c : PlayerState) : Prop :=
  ∃ shooter, find_first (λ player, ps_ID player ≟ shooterID) players = Some shooter ∧
    ps_Alive shooter = true ∧ c ∈ players ∧
    targetable shooterID (ps_Position shooter) aim (f32_mul maxRangeTiles maxRangeTiles)
      (f32_mul aimAssistRadiusTiles aimAssistRadiusTiles) c = true.

(** A selected target is a living player other than the shooter, within range and
    within the aim assist, that no other such player is closer to the aim than, ties
    going to the smallest identifier; and when nobody is selected there is nobody
    at a finite distance to select. *)
Theorem SelectTarget_spec players shooterID aim range assist
    (Hids : Forall (λ p, ps_ID p ≠ "") players)
    (Harmed : f32_leb range f32_zero = false ∧ f32_leb assist f32_zero = false ∧ shooterID ≠ "") :
  match SelectTarget players shooterID aim range assist with
  | Some target =>
      ∃ c, can_hit players shooterID aim range assist c ∧ ps_ID c = target ∧
        ∀ c', can_hit players shooterID aim range assist c' →
          f32_ltb (distanceSquared aim (ps_Position c')) (distanceSquared aim (ps_Position c)) = false ∧
          (f32_eqb (distanceSquared aim (ps_Position c')) (distanceSquared aim (ps_Position c)) = true →
           String.le target (ps_ID c'))
  | None =>
      ∀ c, can_hit players shooterID aim range assist c →
        f32_leb (distanceSquared aim (ps_Position c)) f32_max = false
  end.
Proof.
  destruct Harmed as (Hr & Ha & Hs). unfold SelectTarget, can_hit.
  rewrite Hr, Ha, bool_decide_eq_false_2 by done.
  destruct (length players =? 0)%nat eqn:Hl; cbn [orb].
  { apply Nat.eqb_eq in Hl. destruct players; [|done]. by intros c (s & _ & _ & ?%elem_of_nil & _). }
  destruct (find_first _ players) as [shooter|]; [|by intros c (s & [=] & _)].
  destruct (ps_Alive shooter) eqn:Hal; cbn [negb]; [|intros c (s & [= <-] & ? & _); congruence].
  set (R := f32_mul range range). set (A := f32_mul assist assist).
  destruct (target_loop shooterID (ps_Position shooter) aim R A players ("", f32_max)) as [bid bd] eqn:Hloop.
  destruct (target_loop_best shooterID (ps_Position shooter) aim R A [] players ("", f32_max))
    as (Hmin & Hnone & Hsome); [done| |].
  { split_and!; simpl; [by intros c ?%elem_of_nil| |done]. intros _. split; [done|].
    by intros c ?%elem_of_nil. }
  rewrite Hloop in Hmin, Hnone, Hsome. simpl in *. case_bool_decide as Hb.
  - intros c (s & [= <-] & _ & Hc & Hel). destruct (Hnone Hb) as [-> Hne].
    rewrite f32_leb_cases, Hmin, Hne by done. done.
  - destruct (Hsome Hb) as (c & Hc & Hel & <- & He & Hle). exists c.
    split; [by exists shooter|]. split; [done|].
    intros c' (s & [= <-] & _ & Hc' & Hel'). split.
    + rewrite (f32_eqb_ltb_r _ bd) by done. auto.
    + intros Heq. apply Hle; [done..|]. by eapply f32_eqb_trans.
Qed.

(** ** Shots and penalties *)

(** A refused shot costs nothing.  An accepted one needs a usable weapon and costs
    exactly what its kind costs: nothing for a baton or a shiv, one golden bullet
    for a golden round, one bullet otherwise, which the counter never underflows. *)
Theorem ConsumeShotCost_spec p weapon golden (Hp : player_bytes p) :
  let '(p', damage) := ConsumeShotCostAndResolveDamage p weapon golden in
  match damage with
  | None => p' = p
  | Some d =>
      CanUseWeapon p weapon = true ∧ player_bytes p' ∧
      ((weapon = ItemBaton ∧ golden = false ∧ d = 0 ∧ p' = p) ∨
       (weapon = ItemShiv ∧ golden = false ∧ d = ShivDamageHalf ∧ p' = p) ∨
       (IsFirearm weapon = true ∧ golden = true ∧ d = GoldenBulletDamageHalf ∧
          RemoveItem p ItemGoldenBullet 1 = Some p') ∨
       (IsFirearm weapon = true ∧ golden = false ∧ d = FirearmDamageHalf ∧
          0 < ps_Bullets p ∧ p' = p <| ps_Bullets := ps_Bullets p - 1 |>))
  end.
Proof.
  unfold ConsumeShotCostAndResolveDamage. destruct (CanUseWeapon p weapon); [cbn [negb]|done].
  case_bool_decide as Hbaton; [by destruct golden; [|split_and!; auto]|].
  case_bool_decide as Hshiv; [by destruct golden; [|split_and!; auto 10]|].
  fold (IsFirearm weapon). destruct (IsFirearm weapon) eqn:Hf; [|done].
  destruct Hp as (Hh & Ht & Hb). destruct golden.
  - destruct (RemoveItem p ItemGoldenBullet 1) as [p'|] eqn:Hrem; [|done].
    split_and!; [done| |eauto 10].
    apply RemoveItem_iff in Hrem as (inv' & -> & _); [done|unfold is_u8; lia].
  - case_bool_decide as H0; [done|].
    assert (p <| ps_Bullets ::= λ b, u8 (b - 1) |> = p <| ps_Bullets := ps_Bullets p - 1 |>) as ->.
    { unfold field_update, is_u8 in *. by rewrite (u8_small (ps_Bullets p - 1)) by (unfold is_u8; lia). }
    unfold player_bytes, is_u8 in *. simpl. split_and!; try done; try lia. right; right; right.
    split_and!; try done; lia.
Qed.

(** The penalty for an unjust shot falls on authority shooters during the day: it
    never shortens a sentence, and the shooter cannot act for the rest of that day;
    with a cell assigned, they are locked in it.  Anybody else, or at night,
    nothing happens. *)
Theorem ApplyUnjustShotPenalty_spec p phase tick (He : is_u64 (ph_EndsTick phase)) :
  let '(p', changed) := ApplyUnjustShotPenalty p phase tick in
  (changed = true ↔ p' ≠ p) ∧ ps_SolitaryUntilTick p <= ps_SolitaryUntilTick p' ∧
  if IsAuthorityPlayer p && (ph_Current phase ≟ PhaseDay) && (0 <? ph_EndsTick phase) &&
     (tick <? ph_EndsTick phase)
  then
    p' = p <| ps_SolitaryUntilTick := ps_SolitaryUntilTick p' |>
           <| ps_LockedInCell := ps_LockedInCell p' |> ∧
    (∀ t, 0 < t < ph_EndsTick phase → IsActionBlocked p' t = true) ∧
    (ps_AssignedCell p ≠ 0 → ps_LockedInCell p' = ps_AssignedCell p)
  else p' = p.
Proof.
  unfold ApplyUnjustShotPenalty. unfold is_u64 in He.
  destruct (IsAuthorityPlayer p); [cbn [negb andb]|by split_and!].
  case_bool_decide as Hday; [cbn [negb andb]|by split_and!].
  destruct (bool_decide (ph_EndsTick phase = 0)) eqn:H0; bool_props.
  { rewrite H0. by split_and!. }
  rewrite (proj2 (Z.ltb_lt 0 _)) by lia. cbn [orb andb]. rewrite (Z.ltb_antisym (ph_EndsTick phase) tick).
  destruct (ph_EndsTick phase <=? tick) eqn:Hle; cbn [negb]; [by split_and!|]. bool_props.
  rewrite u64_small by (unfold is_u64; lia).
  assert (∀ q t, ph_EndsTick phase - 1 <= ps_SolitaryUntilTick q → 0 < t < ph_EndsTick phase →
            IsActionBlocked q t = true) as Hblock.
  { intros q t Hq Ht. unfold IsActionBlocked. destruct (ps_Alive q); [|done]. cbn [negb].
    case_match; [done|]. rewrite bool_decide_eq_false_2 by lia. simpl. apply Z.leb_le. lia. }
  set (last := ph_EndsTick phase - 1) in *.
  set (cell := if ps_AssignedCell p ≟ 0 then ps_LockedInCell p else ps_AssignedCell p).
  match goal with |- context [let '(a, b) := ?r in _] =>
    assert (∃ changed, r = (p <| ps_SolitaryUntilTick := Z.max (ps_SolitaryUntilTick p) last |>
                              <| ps_LockedInCell := cell |>, changed) ∧
              (changed = true ↔ ps_SolitaryUntilTick p < last ∨ ps_LockedInCell p ≠ cell))
      as (changed & -> & Hc) end.
  { unfold cell. destruct (ps_SolitaryUntilTick p <? last) eqn:Hs; bool_props;
      [rewrite Z.max_r by lia|rewrite Z.max_l by lia]; simpl;
      repeat case_bool_decide; simpl; eexists; (split; [destruct p; simpl in *; by subst|]); intuition lia. }
  split_and!.
  - rewrite Hc. destruct p; simpl in *. split.
    + intros Hor [=]. destruct Hor; [lia|congruence].
    + intros Hne. destruct (decide (last <= ps_SolitaryUntilTick)) as [Hle'|]; [right|left; lia].
      intros Heq. apply Hne. rewrite Z.max_l by lia. rewrite <-Heq. reflexivity.
  - simpl. lia.
  - done.
  - intros t Ht. apply Hblock; simpl; lia.
  - intros Ha. simpl. unfold cell. by rewrite bool_decide_eq_false_2.
Qed.

(** ** Witnesses *)

Definition warden : PlayerState :=
  zero_PlayerState <| ps_ID := "w" |> <| ps_Alive := true |> <| ps_Role := RoleWarden |>
    <| ps_HeartsHalf := 10 |> <| ps_TempHeartsHalf := 2 |> <| ps_Bullets := 3 |>
    <| ps_AssignedCell := 4 |>.

Lemma warden_bytes : player_bytes warden.
Proof. by vm_compute. Qed.

Lemma ApplyDamage_spec_witness :
  player_bytes warden ∧ is_u8 5 ∧ dm_AppliedHalf (ApplyDamage warden 5).2 = 5 ∧
  ps_HeartsHalf (ApplyDamage warden 5).1 = 7.
Proof.
  assert (is_u8 5) as H5 by (by vm_compute). split; [exact warden_bytes|]. split; [done|].
  pose proof (ApplyDamage_spec warden 5 warden_bytes H5) as H.
  destruct (ApplyDamage warden 5) as [p' r]. destruct H as (_ & H & _).
  destruct (H ltac:(done) eq_refl) as (Ha & Ht & Hsum & _ & Hh & _). cbn [fst snd].
  split; [rewrite Ha; by vm_compute|]. rewrite Hh.
  assert (dm_HealthConsumedHalf r = 3) as ->; [|done].
  rewrite Ha, Ht in Hsum. change (ps_TempHeartsHalf warden) with 2 in Hsum.
  change (ps_HeartsHalf warden) with 10 in Hsum. lia.
Defined.

Lemma ApplyDamage_split_witness :
  (ApplyDamage (ApplyDamage warden 3).1 4).1 = (ApplyDamage warden (3 + 4)).1.
Proof.
  apply (ApplyDamage_split warden 3 4 warden_bytes); try (by vm_compute).
Defined.

Lemma ConsumeShotCost_spec_witness :
  player_bytes warden ∧ (ConsumeShotCostAndResolveDamage warden ItemPistol false).2 = Some 2 ∧
  CanUseWeapon warden ItemPistol = true.
Proof.
  split; [exact warden_bytes|]. split; [by vm_compute|].
  pose proof (ConsumeShotCost_spec warden ItemPistol false warden_bytes) as H.
  destruct (ConsumeShotCostAndResolveDamage warden ItemPistol false) as [p' [d|]] eqn:He.
  - exact (proj1 H).
  - by vm_compute in He.
Defined.

Lemma ApplyUnjustShotPenalty_spec_witness :
  let phase := mkPhase PhaseDay 1 9001 in
  is_u64 (ph_EndsTick phase) ∧
  IsActionBlocked (ApplyUnjustShotPenalty warden phase 100).1 5000 = true.
Proof.
  cbv zeta. assert (is_u64 (ph_EndsTick (mkPhase PhaseDay 1 9001))) as He by (by vm_compute).
  split; [done|]. pose proof (ApplyUnjustShotPenalty_spec warden (mkPhase PhaseDay 1 9001) 100 He) as H.
  destruct (ApplyUnjustShotPenalty _ _ _) as [p' changed]. destruct H as (_ & _ & H).
  destruct H as (_ & Hb & _). apply Hb. by vm_compute.
Defined.

Definition shooting_range : list PlayerState :=
  [warden;
   zero_PlayerState <| ps_ID := "b" |> <| ps_Alive := true |>
     <| ps_Position := mkVector2 (f32_of_Z 3) (f32_of_Z 0) |>;
   zero_PlayerState <| ps_ID := "a" |> <| ps_Alive := true |>
     <| ps_Position := mkVector2 (f32_of_Z 3) (f32_of_Z 0) |>].

Lemma SelectTarget_spec_witness :
  let aim := mkVector2 (f32_of_Z 3) (f32_of_Z 0) in
  SelectTarget shooting_range "w" aim PistolRangeTiles AimAssistRadiusTiles = Some "a" ∧
  ∃ c, can_hit shooting_range "w" aim PistolRangeTiles AimAssistRadiusTiles c ∧ ps_ID c = "a".
Proof.
  cbv zeta. set (aim := mkVector2 _ _).
  assert (SelectTarget shooting_range "w" aim PistolRangeTiles AimAssistRadiusTiles = Some "a") as Hs
    by (by vm_compute).
  split; [done|].
  pose proof (SelectTarget_spec shooting_range "w" aim PistolRangeTiles AimAssistRadiusTiles) as H.
  rewrite Hs in H. destruct H as (c & Hc & Hid & _).
  - repeat constructor; done.
  - by vm_compute.
  - by exists c.
Defined.
