(* ===== verification/Physics.v ===== *)
(** * Motion

    [internal/engine/physics/motion.go]: a move is tried along each axis in turn and
    accepted when the new tile may be occupied.  The map of occupied tiles belongs to
    the caller and is updated, so a move returns it; [nil] is [None]. *)

From S2P Require Import Prelude Float32 Model Layout Access.

#[local] Open Scope Z_scope.

Definition BaseMoveStepPerTick : f32 := f32_const 30 100.
Definition SprintMoveStepPerTick : f32 := f32_const 425 1000.
Definition MaxKnockbackStepPerTick : f32 := f32_const 3 2.

Record MotionResult := mkMotion {
  mo_Position : Vector2;
  mo_Velocity : Vector2;
  mo_Moved : bool;
  mo_BlockedByStun : bool;
  mo_BlockedByMap : bool;
  mo_BlockedByDoorID : DoorID;
  mo_BlockedByPlayerID : PlayerID;
  mo_StunnedUntilTick : Z;
}.
#[export] Instance MotionResult_eta : RecordEta MotionResult := λ r,
  mkMotion (mo_Position r) (mo_Velocity r) (mo_Moved r) (mo_BlockedByStun r) (mo_BlockedByMap r)
    (mo_BlockedByDoorID r) (mo_BlockedByPlayerID r) (mo_StunnedUntilTick r).

Definition motion_at (position : Vector2) : MotionResult :=
  mkMotion position zero_Vector2 false false false 0 "" 0.

Abbreviation Occupied := (option (gmap Point PlayerID)).

Definition roundedInt (value : f32) : Z := f64_floor_int (f64_add (f64_of_f32 value) f64_half).

Definition TileFromPosition (position : Vector2) : Point :=
  mkPoint (roundedInt (vX position)) (roundedInt (vY position)).
#[global] Arguments TileFromPosition : simpl never.

Definition occupy (occupied : gmap Point PlayerID) (player : PlayerState) : gmap Point PlayerID :=
  let tile := TileFromPosition (ps_Position player) in
  match occupied !! tile with
  | None => <[tile := ps_ID player]> occupied
  | Some existing =>
      if String.ltb (ps_ID player) existing then <[tile := ps_ID player]> occupied else occupied
  end.

Definition BuildOccupiedTiles (players : list PlayerState) : gmap Point PlayerID :=
  foldl occupy ∅ players.

Definition hasActiveEffect (player : PlayerState) (effect : EffectType) (currentTick : Z) : bool :=
  existsb (λ candidate,
    if ef_Effect candidate ≠? effect then false
    else if (ef_EndsTick candidate ≠? 0) && (ef_EndsTick candidate <? currentTick) then false
    else true) (ps_Effects player).

Definition clampVectorMagnitude (vector : Vector2) (maxMagnitude : f32) : Vector2 :=
  if f32_leb maxMagnitude f32_zero then zero_Vector2
  else
    let squared := f32_add (f32_mul (vX vector) (vX vector)) (f32_mul (vY vector) (vY vector)) in
    if f32_eqb squared f32_zero then vector
    else
      let magnitude := f32_sqrt squared in
      if f32_leb magnitude maxMagnitude then vector
      else
        let scale := f32_div maxMagnitude magnitude in
        mkVector2 (f32_mul (vX vector) scale) (f32_mul (vY vector) scale).

(** ** Doors *)

Definition isDoorOpen (mapState : MapState) (doorID : DoorID) : bool :=
  match find_first (λ door, ds_ID door ≟ doorID) (ms_Doors mapState) with
  | Some door => ds_Open door
  | None => true
  end.

Definition connectsRooms (link : DoorLink) (roomA roomB : RoomID) : bool :=
  if (dl_RoomA link ≟ roomA) && (dl_RoomB link ≟ roomB) then true
  else (dl_RoomA link ≟ roomB) && (dl_RoomB link ≟ roomA).

Definition doorwayBetweenRooms (layout : Layout) (fromPoint toPoint : Point)
    (fromRoomID toRoomID : RoomID) : option DoorID :=
  let through point :=
    match DoorLinkAt layout point with
    | Some link => if connectsRooms link fromRoomID toRoomID then Some (dl_ID link) else None
    | None => None
    end in
  match through fromPoint with
  | Some doorID => Some doorID
  | None => through toPoint
  end.

(** ** One axis *)

(** The verdict, and the result with what blocked the step. *)
Definition canOccupyPosition (player : PlayerState) (currentPosition : Vector2)
    (currentRoomID : RoomID) (position : Vector2) (layout : Layout) (mapState : MapState)
    (occupied : Occupied) (result : MotionResult) : bool * MotionResult :=
  let currentTilePoint := TileFromPosition currentPosition in
  let tilePoint := TileFromPosition position in
  if negb (InBounds layout tilePoint) then (false, result <| mo_BlockedByMap := true |>)
  else
    match TileAt layout tilePoint with
    | None => (false, result <| mo_BlockedByMap := true |>)
    | Some tile =>
        if negb (Walkable tile) then (false, result <| mo_BlockedByMap := true |>)
        else
          let targetRoomID := tl_RoomID tile in
          let room_block :=
            if (targetRoomID ≠? "") && (currentRoomID ≠? "") && (targetRoomID ≠? currentRoomID) then
              match doorwayBetweenRooms layout currentTilePoint tilePoint currentRoomID targetRoomID with
              | Some doorID =>
                  if negb (isDoorOpen mapState doorID)
                  then Some (result <| mo_BlockedByDoorID := doorID |>)
                  else if negb (CanEnterRoom player targetRoomID mapState)
                  then Some (result <| mo_BlockedByMap := true |>) else None
              | None =>
                  if negb (CanEnterRoom player targetRoomID mapState)
                  then Some (result <| mo_BlockedByMap := true |>) else None
              end
            else None in
          match room_block with
          | Some result => (false, result)
          | None =>
              let door_block :=
                match DoorLinkAt layout tilePoint with
                | Some doorLink =>
                    if negb (isDoorOpen mapState (dl_ID doorLink))
                    then Some (result <| mo_BlockedByDoorID := dl_ID doorLink |>) else None
                | None => None
                end in
              match door_block with
              | Some result => (false, result)
              | None =>
                  match occupied with
                  | Some occupied =>
                      match occupied !! tilePoint with
                      | Some occupant =>
                          if (occupant ≠? "") && (occupant ≠? ps_ID player)
                          then (false, result <| mo_BlockedByPlayerID := occupant |>)
                          else (true, result)
                      | None => (true, result)
                      end
                  | None => (true, result)
                  end
              end
          end
    end.

(** The state of the two axis blocks: position, room, applied motion, result. *)
Record axis_state := mkAxis {
  ax_current : Vector2; ax_room : RoomID; ax_applied : Vector2; ax_result : MotionResult;
}.

(** One axis block: [delta ≠ 0], the candidate position, and how the motion is
    recorded. *)
Definition try_axis (player : PlayerState) (delta : f32) (move record : Vector2 → Vector2)
    (layout : Layout) (mapState : MapState) (occupied : Occupied) (s : axis_state) : axis_state :=
  if f32_eqb delta f32_zero then s
  else
    let candidate := move (ax_current s) in
    let '(ok, result) := canOccupyPosition player (ax_current s) (ax_room s) candidate layout
                           mapState occupied (ax_result s) in
    if ok then
      mkAxis candidate
        (match RoomAt layout (TileFromPosition candidate) with
         | Some roomID => roomID
         | None => ax_room s
         end)
        (record (ax_applied s)) result
    else mkAxis (ax_current s) (ax_room s) (ax_applied s) result.

Definition resolveVectorMotion (player : PlayerState) (desired : Vector2) (layout : Layout)
    (mapState : MapState) (occupied : Occupied) : MotionResult * Occupied :=
  let result := motion_at (ps_Position player) in
  if f32_eqb (vX desired) f32_zero && f32_eqb (vY desired) f32_zero then (result, occupied)
  else
    let originalTile := TileFromPosition (ps_Position player) in
    let currentRoomID :=
      if ps_CurrentRoomID player ≟ "" then default "" (RoomAt layout originalTile)
      else ps_CurrentRoomID player in
    let occupied := delete originalTile <$> occupied in
    let s0 := mkAxis (ps_Position player) currentRoomID zero_Vector2 result in
    let s1 := try_axis player (vX desired) (λ p, p <| vX := f32_add (vX p) (vX desired) |>)
                (λ a, a <| vX := vX desired |>) layout mapState occupied s0 in
    let s2 := try_axis player (vY desired) (λ p, p <| vY := f32_add (vY p) (vY desired) |>)
                (λ a, a <| vY := vY desired |>) layout mapState occupied s1 in
    let occupied := insert (TileFromPosition (ax_current s2)) (ps_ID player) <$> occupied in
    (ax_result s2 <| mo_Position := ax_current s2 |> <| mo_Velocity := ax_applied s2 |>
       <| mo_Moved := negb (f32_eqb (vX (ax_applied s2)) f32_zero) ||
                      negb (f32_eqb (vY (ax_applied s2)) f32_zero) |>,
     occupied).

(** ** Moves and knockback *)

Definition stun_holds (until currentTick : Z) : bool := (until ≠? 0) && (currentTick <=? until).

Definition ResolveMoveIntent (player : PlayerState) (input : MovementInputPayload) (layout : Layout)
    (mapState : MapState) (occupied : Occupied) (currentTick : Z) : MotionResult * Occupied :=
  let blocked := motion_at (ps_Position player) <| mo_BlockedByStun := true |> in
  if stun_holds (ps_SolitaryUntilTick player) currentTick then (blocked, occupied)
  else if stun_holds (ps_StunnedUntilTick player) currentTick then (blocked, occupied)
  else
    let maxStep := BaseMoveStepPerTick in
    let maxStep := if hasActiveEffect player EffectSpeedBoost currentTick
                   then SprintMoveStepPerTick else maxStep in
    let maxStep :=
      if mv_Sprint input then
        if f32_gtb SprintMoveStepPerTick maxStep then SprintMoveStepPerTick else maxStep
      else maxStep in
    let desired := clampVectorMagnitude (mkVector2 (mv_MoveX input) (mv_MoveY input)) maxStep in
    resolveVectorMotion player desired layout mapState occupied.

Definition ApplyKnockback (player : PlayerState) (impulse : Vector2) (layout : Layout)
    (mapState : MapState) (occupied : Occupied) (currentTick stunDurationTicks : Z) :
    PlayerState * MotionResult * Occupied :=
  let desired := clampVectorMagnitude impulse MaxKnockbackStepPerTick in
  let '(motion, occupied) := resolveVectorMotion player desired layout mapState occupied in
  let next := player <| ps_Position := mo_Position motion |> <| ps_Velocity := mo_Velocity motion |> in
  let next :=
    if 0 <? stunDurationTicks then
      let stunnedUntil := u64 (currentTick + stunDurationTicks) in
      if ps_StunnedUntilTick next <? stunnedUntil
      then next <| ps_StunnedUntilTick := stunnedUntil |> else next
    else next in
  (next, motion <| mo_StunnedUntilTick := ps_StunnedUntilTick next |>, occupied).

(** ** A motion never leaves the player where they may not stand *)

(** The tile may hold the player: it is walkable, its door (if any) is open, and
    nobody else is on it. *)
Definition standable (layout : Layout) (m : MapState) (occupied : Occupied) (player : PlayerState)
    (tile : Point) : Prop :=
  IsWalkable layout tile = true ∧
  (∀ link, DoorLinkAt layout tile = Some link → isDoorOpen m (dl_ID link) = true) ∧
  (∀ occ o, occupied = Some occ → occ !! tile = Some o → o = "" ∨ o = ps_ID player).

(** A change of room the player is entitled to. *)
Definition may_enter (m : MapState) (player : PlayerState) (from to : RoomID) : Prop :=
  to = from ∨ from = "" ∨ CanEnterRoom player to m = true.

(** The room the motion starts from. *)
Definition start_room (layout : Layout) (player : PlayerState) : RoomID :=
  if ps_CurrentRoomID player ≟ "" then default "" (RoomAt layout (TileFromPosition (ps_Position player)))
  else ps_CurrentRoomID player.

Section motion.
Variables (player : PlayerState) (layout : Layout) (m : MapState).

Lemma canOccupy_true from room to occupied result result' :
  canOccupyPosition player from room to layout m occupied result = (true, result') →
  result' = result ∧ standable layout m occupied player (TileFromPosition to) ∧
  ∀ R, RoomAt layout (TileFromPosition to) = Some R → may_enter m player room R.
Proof.
  unfold canOccupyPosition, standable, IsWalkable, RoomAt, may_enter.
  destruct (InBounds layout (TileFromPosition to)); cbn [negb]; [|done].
  destruct (TileAt layout (TileFromPosition to)) as [tile|]; [|done].
  destruct (Walkable tile); cbn [negb]; [|done].
  match goal with |- context [match ?b with Some _ => (false, _) | None => _ end] =>
    destruct b eqn:Hroom; [done|] end.
  match goal with |- context [match ?b with Some _ => (false, _) | None => _ end] =>
    destruct b eqn:Hdoor; [done|] end.
  intros Hocc. split_and!.
  - repeat case_match; by simplify_eq.
  - done.
  - intros link Hl. rewrite Hl in Hdoor. by destruct (isDoorOpen m (dl_ID link)).
  - intros occ o -> Ho. rewrite Ho in Hocc. destruct ((o ≠? "") && (o ≠? ps_ID player)) eqn:Hb; [done|].
    bool_props. destruct Hb; bool_props; auto.
  - intros R HR. case_bool_decide as Hr; [done|]. injection HR as <-.
    destruct (decide (room = "")) as [->|Hne]; [auto|].
    destruct (decide (tl_RoomID tile = room)) as [<-|Hchg]; [auto|]. right; right.
    rewrite !bool_decide_eq_false_2 in Hroom by done. cbn [negb andb] in Hroom.
    destruct (CanEnterRoom player (tl_RoomID tile) m); [done|].
    destruct (doorwayBetweenRooms _ _ _ _ _); [|done]. by destruct (isDoorOpen _ _).
Qed.

(** What holds of the two axis blocks. *)
Definition axis_ok (occupied : Occupied) (s : axis_state) : Prop :=
  (ax_current s = ps_Position player ∨
     standable layout m occupied player (TileFromPosition (ax_current s)) ∧
     ∀ R, RoomAt layout (TileFromPosition (ax_current s)) = Some R →
          may_enter m player (start_room layout player) R) ∧
  may_enter m player (start_room layout player) (ax_room s).

Lemma may_enter_trans a b c : may_enter m player a b → may_enter m player b c → may_enter m player a c.
Proof.
  unfold may_enter. intros [->|[->|Hb]] [->|[->|Hc]]; auto; done.
Qed.

Lemma try_axis_ok delta move record occupied s :
  axis_ok occupied s → axis_ok occupied (try_axis player delta move record layout m occupied s).
Proof.
  intros [Hpos Hroom]. unfold try_axis. destruct (f32_eqb delta f32_zero); [done|].
  destruct (canOccupyPosition _ _ _ _ _ _ _ _) as [[] result] eqn:Hcan; [|done].
  apply canOccupy_true in Hcan as (_ & Hst & Henter).
  assert (∀ R, RoomAt layout (TileFromPosition (move (ax_current s))) = Some R →
            may_enter m player (start_room layout player) R) as Hall
    by (intros R HR; eapply may_enter_trans; eauto).
  split; simpl; [by right|]. destruct (RoomAt layout (TileFromPosition (move (ax_current s)))); auto.
Qed.

Lemma try_axis_applied delta move record occupied s :
  ax_applied (try_axis player delta move record layout m occupied s) = ax_applied s ∧
    ax_current (try_axis player delta move record layout m occupied s) = ax_current s ∨
  f32_eqb delta f32_zero = false ∧
  ax_applied (try_axis player delta move record layout m occupied s) = record (ax_applied s) ∧
  ax_current (try_axis player delta move record layout m occupied s) = move (ax_current s).
Proof.
  unfold try_axis. destruct (f32_eqb delta f32_zero); [by left|].
  destruct (canOccupyPosition _ _ _ _ _ _ _ _) as [[] result]; [by right|by left].
Qed.

Lemma axis_ok_init occupied result :
  axis_ok occupied (mkAxis (ps_Position player) (start_room layout player) zero_Vector2 result).
Proof. split; [by left|by left]. Qed.
End motion.

Lemma resolveVectorMotion_facts player desired layout m occupied :
  let '(r, occupied') := resolveVectorMotion player desired layout m occupied in
  let old := TileFromPosition (ps_Position player) in
  let new := TileFromPosition (mo_Position r) in
  (mo_Position r = ps_Position player ∨
     standable layout m (delete old <$> occupied) player new ∧
     ∀ R, RoomAt layout new = Some R → may_enter m player (start_room layout player) R) ∧
  (mo_Moved r = false → mo_Position r = ps_Position player) ∧
  vX (mo_Velocity r) ∈ [f32_zero; vX desired] ∧ vY (mo_Velocity r) ∈ [f32_zero; vY desired] ∧
  (occupied' = occupied ∧ mo_Position r = ps_Position player ∨
   occupied' = (λ occ, <[new := ps_ID player]> (delete old occ)) <$> occupied).
Proof.
  unfold resolveVectorMotion.
  destruct (f32_eqb (vX desired) f32_zero && f32_eqb (vY desired) f32_zero) eqn:Hz.
  { simpl. split_and!; [by left|done| | |by left]; apply elem_of_cons; by left. }
  fold (start_room layout player).
  set (s0 := mkAxis _ _ _ _). set (occ := delete _ <$> occupied).
  match goal with |- context [try_axis player (vX desired) ?mv ?rc layout m occ s0] =>
    pose proof (try_axis_applied player layout m (vX desired) mv rc occ s0) as Hx;
    pose proof (try_axis_ok player layout m (vX desired) mv rc occ s0
                  (axis_ok_init player layout m occ _)) as Hok1;
    set (s1 := try_axis player (vX desired) mv rc layout m occ s0) in * end.
  match goal with |- context [try_axis player (vY desired) ?mv ?rc layout m occ s1] =>
    pose proof (try_axis_applied player layout m (vY desired) mv rc occ s1) as Hy;
    pose proof (try_axis_ok player layout m (vY desired) mv rc occ s1 Hok1) as [Hpos _];
    set (s2 := try_axis player (vY desired) mv rc layout m occ s1) in * end.
  cbn [mo_Position mo_Moved mo_Velocity]. simpl. subst s0. simpl in Hx.
  split_and!.
  - done.
  - intros Hm. apply orb_false_iff in Hm as [Hmx Hmy]. rewrite negb_false_iff in Hmx, Hmy.
    destruct Hy as [[Hay Hcy]|(Hny & Hay & Hcy)]; rewrite Hay in *; simpl in *; [|congruence].
    destruct Hx as [[Hax Hcx]|(Hnx & Hax & Hcx)]; rewrite Hax in *; simpl in *; [|congruence].
    by rewrite Hcy, Hcx.
  - destruct Hy as [[-> _]|(_ & -> & _)], Hx as [[-> _]|(_ & -> & _)]; simpl;
      rewrite !elem_of_cons; auto.
  - destruct Hy as [[-> _]|(_ & -> & _)], Hx as [[-> _]|(_ & -> & _)]; simpl;
      rewrite !elem_of_cons; auto.
  - right. subst occ. by destruct occupied.
Qed.

(** A motion ends where the player may stand: either the player stays where they
    are, or the final tile is walkable, any door on it is open, nobody else is on
    it, and its room is one the player was in or may enter.  The position changes
    only along the desired axes, the velocity is what was applied, and the map of
    occupied tiles moves the player from the old tile to the new one and leaves
    everybody else alone. *)
Theorem resolveVectorMotion_safe player desired layout m occupied :
  let '(r, occupied') := resolveVectorMotion player desired layout m occupied in
  let old := TileFromPosition (ps_Position player) in
  let new := TileFromPosition (mo_Position r) in
  (mo_Position r = ps_Position player ∨
     standable layout m (delete old <$> occupied) player new ∧
     ∀ R, RoomAt layout new = Some R → may_enter m player (start_room layout player) R) ∧
  (mo_Moved r = false → mo_Position r = ps_Position player) ∧
  vX (mo_Velocity r) ∈ [f32_zero; vX desired] ∧ vY (mo_Velocity r) ∈ [f32_zero; vY desired] ∧
  (occupied' = occupied ∧ mo_Position r = ps_Position player ∨
   occupied' = (λ occ, <[new := ps_ID player]> (delete old occ)) <$> occupied).
Proof. apply resolveVectorMotion_facts. Qed.

(** ** One player per tile *)

Definition player_tile (p : PlayerState) : Point := TileFromPosition (ps_Position p).

(** No two players share a tile. *)
Definition exclusive (players : list PlayerState) : Prop :=
  ∀ i j p q, players !! i = Some p → players !! j = Some q → player_tile p = player_tile q → i = j.

(** The map of occupied tiles describes the players. *)
Definition describes (occ : gmap Point PlayerID) (players : list PlayerState) : Prop :=
  ∀ t id, occ !! t = Some id ↔ ∃ p, p ∈ players ∧ player_tile p = t ∧ ps_ID p = id.

Lemma exclusive_app players p :
  exclusive (players ++ [p]) →
  exclusive players ∧ ∀ q, q ∈ players → player_tile q ≠ player_tile p.
Proof.
  intros Hex. split.
  - intros i j a b Hi Hj. apply Hex; by apply lookup_app_l_Some.
  - intros q (i & Hi)%list_elem_of_lookup Heq.
    pose proof (lookup_lt_Some _ _ _ Hi) as Hlt.
    assert (i = length players) as ->; [|lia].
    apply (Hex i (length players) q p); [by apply lookup_app_l_Some|by apply list_lookup_middle|done].
Qed.

Lemma BuildOccupiedTiles_describes players :
  exclusive players → describes (BuildOccupiedTiles players) players.
Proof.
  unfold BuildOccupiedTiles. induction players as [|p players IH] using rev_ind; intros Hex t id.
  { simpl. rewrite lookup_empty. split; [done|]. by intros (p & ?%elem_of_nil & _). }
  apply exclusive_app in Hex as [Hex Hp]. specialize (IH Hex).
  rewrite foldl_app. simpl. set (occ := foldl occupy ∅ players) in *. unfold occupy.
  assert (occ !! TileFromPosition (ps_Position p) = None) as ->.
  { destruct (occ !! _) as [id'|] eqn:Ho; [|done]. exfalso.
    apply IH in Ho as (q & Hq & Ht & _). by apply (Hp q). }
  setoid_rewrite elem_of_app. setoid_rewrite list_elem_of_singleton.
  destruct (decide (t = player_tile p)) as [->|Hne].
  - unfold player_tile at 1. rewrite lookup_insert_eq. split.
    + intros [= <-]. exists p. auto.
    + intros (q & [Hq| ->] & Ht & <-); [|done]. by destruct (Hp q).
  - rewrite lookup_insert_ne by (intros <-; by apply Hne). rewrite (IH t id). split.
    + intros (q & ? & ? & ?). eauto.
    + intros (q & [Hq| ->] & Ht & Hid); [eauto|]. congruence.
Qed.

Lemma motion_cases player desired layout m occ :
  let '(r, occ') := resolveVectorMotion player desired layout m (Some occ) in
  (occ' = Some occ ∧ mo_Position r = ps_Position player) ∨
  (occ' = Some (<[TileFromPosition (mo_Position r) := ps_ID player]>
                  (delete (player_tile player) occ)) ∧
   (mo_Position r = ps_Position player ∨
    ∀ o, delete (player_tile player) occ !! TileFromPosition (mo_Position r) = Some o →
      o = "" ∨ o = ps_ID player)).
Proof.
  pose proof (resolveVectorMotion_facts player desired layout m (Some occ)) as H.
  destruct (resolveVectorMotion _ _ _ _ _) as [r occ']. destruct H as (Hpos & _ & _ & _ & Hocc).
  destruct Hocc as [[-> Hp]|Hocc]; [by left|right]. split; [by rewrite Hocc|].
  destruct Hpos as [?|[(_ & _ & Hs) _]]; [by left|right]. intros o Ho. by apply (Hs _ o eq_refl).
Qed.

Lemma move_keeps_exclusive players occ i p position :
  NoDup (ps_ID <$> players) → Forall (λ p, ps_ID p ≠ "") players →
  exclusive players → describes occ players → players !! i = Some p →
  (position = ps_Position p ∨
   ∀ o, delete (player_tile p) occ !! TileFromPosition position = Some o → o = "" ∨ o = ps_ID p) →
  let players' := <[i := p <| ps_Position := position |>]> players in
  exclusive players' ∧
  describes (<[TileFromPosition position := ps_ID p]> (delete (player_tile p) occ)) players'.
Proof.
  intros Hnd Hne Hex Hocc Hi Hfree. cbv zeta.
  assert (∀ j q, players !! j = Some q → j ≠ i → player_tile q ≠ TileFromPosition position) as Hother.
  { intros j q Hj Hji Ht. destruct Hfree as [->|Hfree]; [by apply Hji, (Hex j i q p)|].
    assert (player_tile q ≠ player_tile p) as Htq by (intros ?; by apply Hji, (Hex j i q p)).
    specialize (Hfree (ps_ID q)). rewrite lookup_delete_ne in Hfree by congruence.
    assert (occ !! TileFromPosition position = Some (ps_ID q)) as Ho.
    { apply Hocc. exists q. split; [by eapply list_elem_of_lookup_2|done]. }
    destruct (Hfree Ho) as [Hq|Hq].
    - rewrite Forall_lookup in Hne. by apply (Hne j q).
    - apply Hji. eapply (NoDup_lookup (ps_ID <$> players)); [done|..];
        rewrite list_lookup_fmap; [by rewrite Hj|rewrite Hi; simpl; by rewrite Hq]. }
  assert (∀ j q, <[i := p <| ps_Position := position |>]> players !! j = Some q →
            (j = i ∧ q = p <| ps_Position := position |>) ∨ (j ≠ i ∧ players !! j = Some q)) as Hlook.
  { intros j q. destruct (decide (j = i)) as [->|Hji].
    - rewrite list_lookup_insert_eq by (by eapply lookup_lt_Some). intros [= <-]. by left.
    - rewrite list_lookup_insert_ne by done. by right. }
  split.
  - intros j k q r Hj Hk Ht.
    apply Hlook in Hj as [[-> ->]|[Hji Hj]], Hk as [[-> ->]|[Hki Hk]]; [done| | |].
    + exfalso. by apply (Hother k r).
    + exfalso. by apply (Hother j q).
    + by apply (Hex j k q r).
  - intros t id. split.
    + destruct (decide (t = TileFromPosition position)) as [->|Htn].
      * rewrite lookup_insert_eq. intros [= <-]. exists (p <| ps_Position := position |>).
        split; [|done]. apply list_elem_of_lookup_2 with i.
        apply list_lookup_insert_eq. by eapply lookup_lt_Some.
      * rewrite lookup_insert_ne by done. rewrite lookup_delete_Some. intros [Htp Ho].
        apply Hocc in Ho as (q & (j & Hj)%list_elem_of_lookup & Ht & Hid). exists q.
        split; [|done]. apply list_elem_of_lookup_2 with j. rewrite list_lookup_insert_ne; [done|].
        intros <-. simplify_eq.
    + intros (q & (j & Hj)%list_elem_of_lookup & Ht & Hid). apply Hlook in Hj as [[-> ->]|[Hji Hj]].
      * change (player_tile (p <| ps_Position := position |>)) with (TileFromPosition position) in Ht.
        subst t id. by rewrite lookup_insert_eq.
      * rewrite lookup_insert_ne by (intros Heq; by apply (Hother j q Hj Hji); rewrite Ht).
        rewrite lookup_delete_ne.
        -- apply Hocc. exists q. split; [by eapply list_elem_of_lookup_2|done].
        -- intros Heq. apply Hji, (Hex j i q p); [done..|congruence].
Qed.

(** Players never share a tile: if no two players do and the map of occupied tiles
    describes them, then after one of them moves no two players do, and the updated
    map describes the new positions; so this holds through any sequence of moves,
    and the map built from scratch establishes it. *)
Theorem ResolveMoveIntent_exclusive players occ i p input layout m tick
    (Hnd : NoDup (ps_ID <$> players)) (Hne : Forall (λ p, ps_ID p ≠ "") players)
    (Hex : exclusive players) (Hocc : describes occ players) (Hi : players !! i = Some p) :
  let '(r, occ') := ResolveMoveIntent p input layout m (Some occ) tick in
  let players' := <[i := p <| ps_Position := mo_Position r |>]> players in
  exclusive players' ∧ (∃ occ1, occ' = Some occ1 ∧ describes occ1 players') ∧
  describes (BuildOccupiedTiles players') players'.
Proof.
  assert (<[i := p <| ps_Position := ps_Position p |>]> players = players) as Hsame.
  { apply list_insert_id. rewrite Hi. f_equal. by destruct p. }
  assert (let '(r, occ') := ResolveMoveIntent p input layout m (Some occ) tick in
    (occ' = Some occ ∧ mo_Position r = ps_Position p) ∨
    (occ' = Some (<[TileFromPosition (mo_Position r) := ps_ID p]> (delete (player_tile p) occ)) ∧
     (mo_Position r = ps_Position p ∨
      ∀ o, delete (player_tile p) occ !! TileFromPosition (mo_Position r) = Some o →
        o = "" ∨ o = ps_ID p))) as H.
  { unfold ResolveMoveIntent. do 2 (destruct (stun_holds _ _); [by left|]). apply motion_cases. }
  destruct (ResolveMoveIntent p input layout m (Some occ) tick) as [r occ'].
  assert (exclusive (<[i := p <| ps_Position := mo_Position r |>]> players) ∧
    ∃ occ1, occ' = Some occ1 ∧
      describes occ1 (<[i := p <| ps_Position := mo_Position r |>]> players)) as [Hex' Hdesc].
  { destruct H as [[-> ->]|[-> Hfree]].
    - rewrite Hsame. eauto.
    - destruct (move_keeps_exclusive players occ i p (mo_Position r)) as [? ?]; eauto. }
  split_and!; [done|done|]. by apply BuildOccupiedTiles_describes.
Qed.

(** A player who is stunned or in solitary cannot walk, whatever they ask for; and
    a knockback never shortens a stun. *)
Theorem stun_rules player input layout m occupied tick impulse duration :
  (stun_holds (ps_SolitaryUntilTick player) tick = true ∨
   stun_holds (ps_StunnedUntilTick player) tick = true →
     let '(r, occupied') := ResolveMoveIntent player input layout m occupied tick in
     mo_Position r = ps_Position player ∧ mo_Moved r = false ∧ mo_BlockedByStun r = true ∧
     occupied' = occupied) ∧
  let '(next, motion, _) := ApplyKnockback player impulse layout m occupied tick duration in
  ps_StunnedUntilTick player <= ps_StunnedUntilTick next ∧
  (0 < duration → u64 (tick + duration) <= ps_StunnedUntilTick next) ∧
  ps_Position next = mo_Position motion.
Proof.
  split.
  - unfold ResolveMoveIntent. intros [->|H2]; [done|]. rewrite H2.
    by destruct (stun_holds (ps_SolitaryUntilTick player) tick).
  - unfold ApplyKnockback. destruct (resolveVectorMotion _ _ _ _ _) as [r occ'].
    set (v := u64 (tick + duration)).
    destruct (0 <? duration) eqn:Hd; bool_props; [|cbn; split_and!; [lia|lia|done]].
    match goal with |- context [if ?b then _ else _] => destruct b eqn:Hlt end;
      bool_props; cbn in *; split_and!; try done; lia.
Qed.

(** ** Witnesses: two players in the hall of the small layout *)

Definition at_tile (id : PlayerID) (x y : Z) : PlayerState :=
  zero_PlayerState <| ps_ID := id |> <| ps_Alive := true |>
    <| ps_Position := mkVector2 (f32_of_Z x) (f32_of_Z y) |>.

Definition hall_players : list PlayerState := [at_tile "a" 0 0; at_tile "b" 1 1].

Lemma NoDup_exclusive players : NoDup (player_tile <$> players) → exclusive players.
Proof.
  intros Hnd i j p q Hi Hj Ht. eapply (NoDup_lookup (player_tile <$> players)); [done|..];
    rewrite list_lookup_fmap; [by rewrite Hi|rewrite Hj; simpl; by rewrite Ht].
Qed.

Lemma hall_exclusive : exclusive hall_players.
Proof. apply NoDup_exclusive, (bool_decide_unpack _). by vm_compute. Qed.

Lemma ResolveMoveIntent_exclusive_witness :
  let step := mkMovePayload (f32_of_Z 1) (f32_of_Z 0) true in
  let occ := BuildOccupiedTiles hall_players in
  describes occ hall_players ∧ hall_players !! 0%nat = Some (at_tile "a" 0 0) ∧
  let '(r, occ') := ResolveMoveIntent (at_tile "a" 0 0) step two_rooms (ToMapState two_rooms)
                      (Some occ) 1 in
  mo_Moved r = true ∧
  exclusive (<[0%nat := at_tile "a" 0 0 <| ps_Position := mo_Position r |>]> hall_players).
Proof.
  cbv zeta. set (step := mkMovePayload _ _ _). set (occ := BuildOccupiedTiles hall_players).
  assert (describes occ hall_players) as Hd
    by exact (BuildOccupiedTiles_describes _ hall_exclusive).
  split; [done|]. split; [done|].
  pose proof (ResolveMoveIntent_exclusive hall_players occ 0 (at_tile "a" 0 0) step two_rooms
                (ToMapState two_rooms) 1) as H.
  assert (mo_Moved (ResolveMoveIntent (at_tile "a" 0 0) step two_rooms (ToMapState two_rooms)
                      (Some occ) 1).1 = true) as Hm by (by vm_compute).
  destruct (ResolveMoveIntent _ _ _ _ _ _) as [r occ']. split; [done|].
  apply H; [apply (bool_decide_unpack _); by vm_compute|repeat constructor; done
           |exact hall_exclusive|exact Hd|done].
Defined.
