(* ===== verification/Replay.v ===== *)
(** * Deterministic replay and state hashing

    [internal/gamecore/determinism/replay.go], [reconciliation.go] and
    [statehash.go].  The simulation step is the caller's function, over the state
    and the random streams of the match; a loop over ticks has the number of ticks
    as its fuel. *)

From S2P Require Import Prelude Float32 Model Hashing.

#[local] Open Scope Z_scope.

(** ** Commands in order *)

(** The fields [sortInputCommands] compares, in its order. *)
Definition command_key (c : InputCommand) : Z * (string * (Z * (string * string))) :=
  (ic_IngressSeq c, (ic_PlayerID c, (ic_ClientSeq c, (ic_Type c, ic_Payload c)))).

Definition key_le : relation (Z * (string * (Z * (string * string)))) :=
  lex_le Z.le (lex_le String.le (lex_le Z.le (lex_le String.le String.le))).

#[export] Instance key_le_dec : RelDecision key_le.
Proof. unfold key_le. apply _. Defined.
#[export] Instance key_le_total : Total key_le.
Proof. unfold key_le. apply _. Qed.
#[export] Instance key_le_partial : PartialOrder key_le.
Proof. unfold key_le. apply _. Qed.

Definition sortInputCommands (commands : list InputCommand) : list InputCommand :=
  sort_by key_le command_key commands.

(** [inputKey] *)
Definition input_key (c : InputCommand) : PlayerID * Z := (ic_PlayerID c, ic_ClientSeq c).

Fixpoint dedupe (seen : gset (PlayerID * Z)) (ordered : list InputCommand) : list InputCommand :=
  match ordered with
  | [] => []
  | cmd :: ordered =>
      if decide (input_key cmd ∈ seen) then dedupe seen ordered
      else cmd :: dedupe ({[input_key cmd]} ∪ seen) ordered
  end.

Definition normalizeInputLog (commands : list InputCommand) : list InputCommand :=
  dedupe ∅ (sortInputCommands commands).

(** The tick a command is clamped to. *)
Definition clamped_target (startTick : Z) (cmd : InputCommand) : Z :=
  let targetTick := if ic_TargetTick cmd ≟ 0 then startTick else ic_TargetTick cmd in
  if targetTick <? startTick then startTick else targetTick.

Definition schedule_command (startTick endTick : Z) (byTick : gmap Z (list InputCommand))
    (cmd : InputCommand) : gmap Z (list InputCommand) :=
  let targetTick := clamped_target startTick cmd in
  if endTick <? targetTick then byTick
  else <[targetTick := default [] (byTick !! targetTick) ++ [cmd <| ic_TargetTick := targetTick |>]]> byTick.

Definition scheduleByTick (commands : list InputCommand) (startTick endTick : Z) :
    gmap Z (list InputCommand) :=
  foldl (schedule_command startTick endTick) ∅ commands.

(** ** Running a simulation *)

Record SimulationConfig := mkSimulation { sc_MatchSeed : Z; sc_StartTick : Z; sc_EndTick : Z }.

Definition StepFunc : Type :=
  GameState → Z → list InputCommand → RNGStreams → GameState * RNGStreams.

Definition start_tick (config : SimulationConfig) : Z :=
  if sc_StartTick config ≟ 0 then 1 else sc_StartTick config.

(** [scheduled[tick]] after [sortInputCommands]. *)
Definition commands_for_tick (config : SimulationConfig) (commands : list InputCommand) (tick : Z) :
    list InputCommand :=
  sortInputCommands
    (default [] (scheduleByTick (normalizeInputLog commands) (start_tick config)
                   (sc_EndTick config) !! tick)).

(** The loop [for tick := startTick; tick <= EndTick; tick++]. *)
Fixpoint run_ticks (fuel : nat) (tick endTick : Z) (forTick : Z → list InputCommand)
    (step : option StepFunc) (state : GameState) (rng : RNGStreams) : option GameState :=
  if tick <=? endTick then
    match fuel with
    | O => None
    | S fuel =>
        let '(state, rng) :=
          match step with
          | Some f => f state tick (forTick tick) rng
          | None => (state, rng)
          end in
        run_ticks fuel (u64 (tick + 1)) endTick forTick step (state <| gs_TickID := tick |>) rng
    end
  else Some state.

Definition Run (config : SimulationConfig) (initial : GameState) (commands : list InputCommand)
    (step : option StepFunc) : option GameState :=
  let startTick := start_tick config in
  if sc_EndTick config <? startTick then Some initial
  else
    run_ticks (Z.to_nat (sc_EndTick config - startTick + 1)) startTick (sc_EndTick config)
      (commands_for_tick config commands) step initial (NewRNGStreams (sc_MatchSeed config)).

(** [reconciliation.go] *)
Definition DropAckedInputs (pending : list InputCommand) (lastProcessedClientSeq : Z) :
    list InputCommand :=
  filter (λ cmd, lastProcessedClientSeq < ic_ClientSeq cmd) pending.

(** ** Hashing a state *)

Definition effect_key (e : EffectState) : string * (Z * (string * (Z * Z))) :=
  (ef_Effect e, (ef_EndsTick e, (ef_SourcePID e, (ef_SourceID e, ef_Stacks e)))).
Definition effect_key_le : relation (string * (Z * (string * (Z * Z)))) :=
  lex_le String.le (lex_le Z.le (lex_le String.le (lex_le Z.le Z.le))).
#[export] Instance effect_key_le_dec : RelDecision effect_key_le.
Proof. unfold effect_key_le. apply _. Defined.
#[export] Instance effect_key_le_total : Total effect_key_le.
Proof. unfold effect_key_le. apply _. Qed.
#[export] Instance effect_key_le_partial : PartialOrder effect_key_le.
Proof. unfold effect_key_le. apply _. Qed.

Definition stack_key (s : ItemStack) : string * Z := (stk_Item s, stk_Quantity s).
Abbreviation stack_key_le := (lex_le String.le Z.le).

Definition normalize_player (player : PlayerState) : PlayerState :=
  player <| ps_Inventory ::= sort_by stack_key_le stack_key |>
         <| ps_Cards ::= sort_strings |>
         <| ps_Effects ::= sort_by effect_key_le effect_key |>.

Definition normalize_cell (cell : CellState) : CellState :=
  cell <| cs_OccupantPlayerIDs ::= sort_strings |>.

Definition normalize_entity (entity : EntityState) : EntityState :=
  entity <| es_Tags ::= sort_strings |>.

Definition normalize_map (m : MapState) : MapState :=
  m <| ms_Doors ::= sort_by Z.le ds_ID |>
    <| ms_Cells ::= λ cells, map normalize_cell (sort_by Z.le cs_ID cells) |>
    <| ms_RestrictedZones ::= sort_by Z.le zs_ID |>.

Definition normalizeState (state : GameState) : GameState :=
  state <| gs_Players ::= λ players, map normalize_player (sort_by String.le ps_ID players) |>
        <| gs_Map ::= normalize_map |>
        <| gs_Entities ::= λ entities, map normalize_entity (sort_by Z.le es_ID entities) |>
        <| gs_GameOver ::= fmap (λ over, over <| go_WinnerPlayerIDs ::= sort_strings |>) |>.

(** [json.Marshal] and SHA-256 are a parameter: the hexadecimal digest of a state,
    or an error. *)
Section hash.
Variable digest : GameState → option string.
Definition HashGameState (state : GameState) : option string := digest (normalizeState state).
End hash.

(** ** Sorting commands *)

Lemma sortInputCommands_perm l1 l2 :
  NoDup (command_key <$> l1) → l1 ≡ₚ l2 → sortInputCommands l1 = sortInputCommands l2.
Proof. intros. by apply (sort_by_proper key_le command_key). Qed.

Lemma dedupe_elem seen l c : c ∈ dedupe seen l → c ∈ l ∧ input_key c ∉ seen.
Proof.
  revert seen. induction l as [|a l IH]; intros seen; simpl; [by intros ?%elem_of_nil|].
  rewrite elem_of_cons. case_decide as Ha.
  - intros [? ?]%IH. auto.
  - rewrite elem_of_cons. intros [->|[? Hn]%IH]; [auto|]. set_solver.
Qed.

Lemma dedupe_nodup seen l : NoDup (input_key <$> dedupe seen l).
Proof.
  revert seen. induction l as [|a l IH]; intros seen; simpl; [constructor|].
  case_decide; simpl; [done|]. apply NoDup_cons. split; [|done].
  intros (c & Heq & [_ Hn]%dedupe_elem)%list_elem_of_fmap. rewrite <-Heq in Hn. set_solver.
Qed.

Lemma dedupe_complete seen l c :
  c ∈ l → input_key c ∉ seen → ∃ c', c' ∈ dedupe seen l ∧ input_key c' = input_key c.
Proof.
  revert seen. induction l as [|a l IH]; intros seen; simpl; [by intros ?%elem_of_nil|].
  rewrite elem_of_cons. intros Hc Hn. case_decide as Ha.
  - destruct Hc as [->|Hc]; [done|auto].
  - destruct (decide (input_key c = input_key a)) as [He|He].
    + exists a. split; [apply elem_of_cons; by left|done].
    + destruct Hc as [->|Hc]; [done|]. destruct (IH ({[input_key a]} ∪ seen) Hc) as (c' & ? & ?);
        [set_solver|]. exists c'. split; [apply elem_of_cons; by right|done].
Qed.

Lemma dedupe_sublist seen l : dedupe seen l `sublist_of` l.
Proof.
  revert seen. induction l as [|a l IH]; intros seen; simpl; [done|].
  case_decide; [by apply sublist_cons|by apply sublist_skip].
Qed.

Lemma StronglySorted_sublist {A} (R : relation A) l l' :
  l `sublist_of` l' → StronglySorted R l' → StronglySorted R l.
Proof.
  induction 1 as [|x l l' Hs IH|x l l' Hs IH]; [done|..];
    intros [Hss Hf]%StronglySorted_inv; [|auto].
  constructor; [auto|]. rewrite Forall_forall in *. intros y Hy. apply Hf.
  by eapply sublist_subseteq.
Qed.

Lemma normalizeInputLog_sorted cmds : StronglySorted (on_key key_le command_key) (normalizeInputLog cmds).
Proof.
  eapply StronglySorted_sublist; [apply dedupe_sublist|]. apply sort_by_sorted; apply _.
Qed.

(** ** The schedule *)

Definition retarget (startTick : Z) (c : InputCommand) : InputCommand :=
  c <| ic_TargetTick := clamped_target startTick c |>.

Lemma scheduleByTick_lookup cmds startTick endTick t :
  default [] (scheduleByTick cmds startTick endTick !! t) =
    map (retarget startTick)
      (filter (λ c, clamped_target startTick c = t ∧ t <= endTick) cmds).
Proof.
  unfold scheduleByTick. induction cmds as [|c cmds IH] using rev_ind;
    [simpl; by rewrite lookup_empty|].
  rewrite foldl_app. simpl. unfold schedule_command at 1. rewrite filter_app, map_app, <-IH.
  rewrite filter_cons, filter_nil.
  destruct (endTick <? clamped_target startTick c) eqn:He; bool_props.
  - rewrite decide_False by lia. by rewrite app_nil_r.
  - destruct (decide (clamped_target startTick c = t)) as [<-|Hne].
    + rewrite lookup_insert_eq. rewrite decide_True by lia. done.
    + rewrite lookup_insert_ne by done. rewrite decide_False by tauto. by rewrite app_nil_r.
Qed.

(** Sorting what is already in order does nothing to the commands of a tick. *)
Lemma sort_retargeted startTick P `{!∀ c, Decision (P c)} cmds :
  StronglySorted (on_key key_le command_key) cmds →
  NoDup (input_key <$> cmds) →
  sortInputCommands (map (retarget startTick) (filter P cmds)) =
    map (retarget startTick) (filter P cmds).
Proof.
  intros Hs Hnd. symmetry. apply sort_by_unique; [apply _..| |done|].
  - change (map (retarget startTick)) with (fmap (M:=list) (retarget startTick)).
    rewrite <-list_fmap_compose.
    apply NoDup_fmap_1 with (f := λ k, (k.2.1, k.2.2.1)). rewrite <-list_fmap_compose.
    eapply sublist_NoDup; [exact Hnd|].
    change (sublist (input_key <$> filter P cmds) (input_key <$> cmds)).
    apply fmap_sublist. apply sublist_filter.
  - assert (StronglySorted (on_key key_le command_key) (filter P cmds)) as Hf
      by (eapply StronglySorted_sublist; [apply sublist_filter|done]).
    clear Hs Hnd. induction Hf as [|c l Hl IH Hc]; simpl; [constructor|].
    constructor; [done|]. rewrite Forall_map. eapply Forall_impl; [exact Hc|]. done.
Qed.

(** The commands of a tick, from the normalised log. *)
Lemma commands_for_tick_eq config cmds tick :
  commands_for_tick config cmds tick =
    map (retarget (start_tick config))
      (filter (λ c, clamped_target (start_tick config) c = tick ∧ tick <= sc_EndTick config)
        (normalizeInputLog cmds)).
Proof.
  unfold commands_for_tick. rewrite scheduleByTick_lookup.
  apply sort_retargeted; [apply normalizeInputLog_sorted|apply dedupe_nodup].
Qed.

(** A log in order and without repetition is normal. *)
Lemma dedupe_id seen l :
  NoDup (input_key <$> l) → (∀ c, c ∈ l → input_key c ∉ seen) → dedupe seen l = l.
Proof.
  revert seen. induction l as [|c l IH]; intros seen; [done|]. rewrite fmap_cons, NoDup_cons.
  intros [Hc Hnd] Hseen. simpl. rewrite decide_False by (apply Hseen, elem_of_cons; by left).
  f_equal. apply IH; [done|]. intros d Hd. rewrite not_elem_of_union, not_elem_of_singleton.
  split; [|apply Hseen, elem_of_cons; by right].
  intros Heq. apply Hc. rewrite <-Heq. by apply list_elem_of_fmap_2.
Qed.

(** Exactly-once delivery.  The commands a tick's step receives are, in the fixed
    order, the logged commands with that target (late targets clamped to the first
    tick, targets past the end left out), each retargeted to the tick; no player's
    sequence number is delivered twice, within a tick or across ticks; and every
    logged one with a target before the end is delivered in some tick. *)
Theorem commands_delivered_once config cmds :
  let start := start_tick config in
  let log := normalizeInputLog cmds in
  (∀ tick, tick <= sc_EndTick config →
     commands_for_tick config cmds tick =
       map (retarget start) (filter (λ c, clamped_target start c = tick ∧ tick <= sc_EndTick config) log)) ∧
  NoDup (input_key <$> log) ∧ StronglySorted (on_key key_le command_key) log ∧
  (∀ c, c ∈ log → c ∈ cmds) ∧
  (∀ c, c ∈ cmds → ∃ c', c' ∈ log ∧ input_key c' = input_key c) ∧
  ∀ t1 t2 c1 c2, c1 ∈ commands_for_tick config cmds t1 → c2 ∈ commands_for_tick config cmds t2 →
    input_key c1 = input_key c2 → t1 = t2 ∧ c1 = c2 ∧ ic_TargetTick c1 = t1.
Proof.
  cbv zeta. set (start := start_tick config). set (log := normalizeInputLog cmds).
  assert (NoDup (input_key <$> log)) as Hnd by apply dedupe_nodup.
  assert (StronglySorted (on_key key_le command_key) log) as Hs by apply normalizeInputLog_sorted.
  assert (∀ tick, commands_for_tick config cmds tick =
    map (retarget start) (filter (λ c, clamped_target start c = tick ∧ tick <= sc_EndTick config) log))
    as Hfor.
  { intros tick. apply commands_for_tick_eq. }
  split_and!; [done|done|done| | |].
  - intros c [Hc _]%dedupe_elem. unfold sortInputCommands in Hc. by rewrite elem_of_sort_by in Hc.
  - intros c Hc. apply dedupe_complete; [unfold sortInputCommands; by rewrite elem_of_sort_by|by apply not_elem_of_empty].
  - intros t1 t2 c1 c2. rewrite !Hfor.
    intros (d1 & -> & Hd1)%list_elem_of_fmap (d2 & -> & Hd2)%list_elem_of_fmap Hk.
    apply list_elem_of_filter in Hd1 as [[Ht1 _] Hin1], Hd2 as [[Ht2 _] Hin2].
    assert (d1 = d2) as -> by (by eapply NoDup_key_inj).
    split_and!; [congruence|done|done].
Qed.

(** C38: A simulation that ends before the counter's last value terminates, leaves the
    last tick as the state's tick, and does not depend on the order in which the
    commands were logged, as long as no two of them are indistinguishable. *)
Theorem Run_deterministic config initial cmds1 cmds2 step
    (Hend : 0 <= sc_StartTick config ∧ sc_EndTick config < 2 ^ 64 - 1)
    (Hnd : NoDup (command_key <$> cmds1)) (Hp : cmds1 ≡ₚ cmds2) :
  ∃ final, Run config initial cmds1 step = Some final ∧ Run config initial cmds2 step = Some final ∧
    (start_tick config <= sc_EndTick config → gs_TickID final = sc_EndTick config).
Proof.
  assert (commands_for_tick config cmds1 = commands_for_tick config cmds2) as Hsame.
  { unfold commands_for_tick, normalizeInputLog. by rewrite (sortInputCommands_perm cmds1 cmds2). }
  assert (Run config initial cmds2 step = Run config initial cmds1 step) as ->
    by (unfold Run; by rewrite Hsame).
  assert (0 < start_tick config) as Hpos.
  { unfold start_tick. case_bool_decide; lia. }
  unfold Run. destruct (sc_EndTick config <? start_tick config) eqn:Hlt; bool_props.
  { exists initial. split_and!; [done..|lia]. }
  generalize (commands_for_tick config cmds1) as forTick. intros forTick.
  assert (∀ fuel tick state rng, 0 < tick → tick <= sc_EndTick config + 1 →
    Z.of_nat fuel = sc_EndTick config - tick + 1 →
    ∃ final, run_ticks fuel tick (sc_EndTick config) forTick step state rng = Some final ∧
      (tick <= sc_EndTick config → gs_TickID final = sc_EndTick config) ∧
      (sc_EndTick config < tick → final = state)) as Hloop.
  { induction fuel as [|fuel IH]; intros tick state rng Ht Hle Hf.
    - simpl. rewrite (proj2 (Z.leb_gt _ _)) by lia. exists state. split_and!; [done|lia|done].
    - cbn [run_ticks]. rewrite (proj2 (Z.leb_le _ _)) by lia.
      destruct (match step with Some f => f state tick (forTick tick) rng | None => (state, rng) end)
        as [state' rng'].
      rewrite u64_small by (unfold is_u64; lia).
      destruct (IH (tick + 1) (state' <| gs_TickID := tick |>) rng') as (final & Hrun & Hin & Hout);
        [lia..|]. exists final. split_and!; [done| |lia]. intros _.
      destruct (decide (tick = sc_EndTick config)) as [->|].
      + by rewrite Hout by lia.
      + apply Hin. lia. }
  destruct (Hloop (Z.to_nat (sc_EndTick config - start_tick config + 1)) (start_tick config)
    initial (NewRNGStreams (sc_MatchSeed config))) as (final & Hrun & Htick & _); [lia..|].
  exists final. by split_and!.
Qed.

Lemma Run_deterministic_witness : ∃ final,
  Run (mkSimulation 7 0 3) zero_GameState
    [mkCommand "a" 1 1 2 "move_intent" ""; mkCommand "b" 1 2 1 "move_intent" ""] None = Some final ∧
  gs_TickID final = 3.
Proof.
  edestruct (Run_deterministic (mkSimulation 7 0 3) zero_GameState
    [mkCommand "a" 1 1 2 "move_intent" ""; mkCommand "b" 1 2 1 "move_intent" ""]
    [mkCommand "a" 1 1 2 "move_intent" ""; mkCommand "b" 1 2 1 "move_intent" ""] None)
    as (final & Hr & _ & Ht).
  - vm_compute. split; [discriminate|reflexivity].
  - vm_compute. apply NoDup_cons. split; [|apply NoDup_singleton].
    rewrite list_elem_of_singleton. discriminate.
  - reflexivity.
  - exists final. split; [exact Hr|]. apply Ht. vm_compute. discriminate.
Defined.

(** ** What the hash forgets

    Two states are the same up to order when each list the hash sorts is a
    reordering of the other's, at every level, and everything else is equal. *)

Definition reordered {A} (R : relation A) (l1 l2 : list A) : Prop :=
  ∃ l1' l2', l1 ≡ₚ l1' ∧ Forall2 R l1' l2' ∧ l2' ≡ₚ l2.

Definition same_player (p q : PlayerState) : Prop :=
  ps_Inventory p ≡ₚ ps_Inventory q ∧ ps_Cards p ≡ₚ ps_Cards q ∧ ps_Effects p ≡ₚ ps_Effects q ∧
  p <| ps_Inventory := [] |> <| ps_Cards := [] |> <| ps_Effects := [] |> =
  q <| ps_Inventory := [] |> <| ps_Cards := [] |> <| ps_Effects := [] |>.

Definition same_cell (c d : CellState) : Prop :=
  cs_OccupantPlayerIDs c ≡ₚ cs_OccupantPlayerIDs d ∧
  c <| cs_OccupantPlayerIDs := [] |> = d <| cs_OccupantPlayerIDs := [] |>.

Definition same_entity (e f : EntityState) : Prop :=
  es_Tags e ≡ₚ es_Tags f ∧ e <| es_Tags := [] |> = f <| es_Tags := [] |>.

Definition same_map (m n : MapState) : Prop :=
  ms_Doors m ≡ₚ ms_Doors n ∧ reordered same_cell (ms_Cells m) (ms_Cells n) ∧
  ms_RestrictedZones m ≡ₚ ms_RestrictedZones n ∧
  m <| ms_Doors := [] |> <| ms_Cells := [] |> <| ms_RestrictedZones := [] |> =
  n <| ms_Doors := [] |> <| ms_Cells := [] |> <| ms_RestrictedZones := [] |>.

Definition same_game_over (o1 o2 : GameOverState) : Prop :=
  go_WinnerPlayerIDs o1 ≡ₚ go_WinnerPlayerIDs o2 ∧
  o1 <| go_WinnerPlayerIDs := [] |> = o2 <| go_WinnerPlayerIDs := [] |>.

Definition same_state (s t : GameState) : Prop :=
  reordered same_player (gs_Players s) (gs_Players t) ∧ same_map (gs_Map s) (gs_Map t) ∧
  reordered same_entity (gs_Entities s) (gs_Entities t) ∧
  option_Forall2 same_game_over (gs_GameOver s) (gs_GameOver t) ∧
  s <| gs_Players := [] |> <| gs_Map := zero_MapState |> <| gs_Entities := [] |> <| gs_GameOver := None |> =
  t <| gs_Players := [] |> <| gs_Map := zero_MapState |> <| gs_Entities := [] |> <| gs_GameOver := None |>.

(** The lists whose order the hash has to determine have distinct identifiers. *)
Record distinct_ids (s : GameState) : Prop := {
  distinct_players : NoDup (ps_ID <$> gs_Players s);
  distinct_doors : NoDup (ds_ID <$> ms_Doors (gs_Map s));
  distinct_cells : NoDup (cs_ID <$> ms_Cells (gs_Map s));
  distinct_zones : NoDup (zs_ID <$> ms_RestrictedZones (gs_Map s));
  distinct_entities : NoDup (es_ID <$> gs_Entities s);
}.

Section sort_injective.
Context {A K : Type} (R : relation K) `{!RelDecision R, !PartialOrder R, !Total R}.
Context (key : A → K) `{!Inj (=) (=) key}.

(** A sort on a key that is the whole element forgets exactly the order. *)
Lemma sort_by_inj_iff l1 l2 : sort_by R key l1 = sort_by R key l2 ↔ l1 ≡ₚ l2.
Proof.
  split; intros H.
  - by rewrite <-(sort_by_perm R key l1), H, sort_by_perm.
  - apply (StronglySorted_unique_strong (on_key R key));
      [|by apply sort_by_sorted..|by rewrite !sort_by_perm].
    intros x y _ _ Hxy Hyx. apply (inj key). by apply (anti_symm R).
Qed.
End sort_injective.

Section sort_normal.
Context {A K : Type} (R : relation K) `{!RelDecision R, !PartialOrder R, !Total R}.
Context (key : A → K) (f : A → A) (same : relation A).
Hypothesis key_f : ∀ x, key (f x) = key x.
Hypothesis f_same : ∀ x y, f x = f y ↔ same x y.

Lemma map_sort_by l :
  NoDup (key <$> l) → map f (sort_by R key l) = sort_by R key (map f l).
Proof using All.
  intros Hnd. apply sort_by_unique; [apply _..| | |].
  - change (map f) with (fmap (M:=list) f). rewrite <-list_fmap_compose.
    by erewrite list_fmap_ext by (intros; simpl; apply key_f).
  - by rewrite sort_by_perm.
  - pose proof (sort_by_sorted R key l) as Hs. induction Hs as [|x l' Hl IH Hx]; simpl;
      constructor; [done|]. rewrite Forall_map. eapply Forall_impl; [exact Hx|].
    intros y. unfold on_key. simpl. by rewrite !key_f.
Qed.

Lemma sort_normal_iff l1 l2 :
  NoDup (key <$> l1) → NoDup (key <$> l2) →
  map f (sort_by R key l1) = map f (sort_by R key l2) ↔ reordered same l1 l2.
Proof using All.
  intros Hn1 Hn2. split.
  - intros Heq. exists (sort_by R key l1), (sort_by R key l2).
    split_and!; [by rewrite sort_by_perm| |by rewrite sort_by_perm].
    revert Heq. generalize (sort_by R key l1) (sort_by R key l2). clear -f_same.
    intros k1 k2. revert k2. induction k1 as [|x k1 IH]; intros [|y k2]; simpl; try done.
    intros [= Hxy Hk]. constructor; [by apply f_same|auto].
  - intros (k1 & k2 & Hp1 & Hk & Hp2). rewrite !map_sort_by by done.
    apply sort_by_proper; [apply _..| |].
    + change (map f) with (fmap (M:=list) f). rewrite <-list_fmap_compose.
      by erewrite list_fmap_ext by (intros; simpl; apply key_f).
    + rewrite Hp1, <-Hp2. clear -Hk f_same.
      induction Hk as [|x y k1 k2 Hxy Hk IH]; simpl; [done|].
      by rewrite (proj2 (f_same x y) Hxy), IH.
Qed.
End sort_normal.

#[export] Instance effect_key_inj : Inj (=) (=) effect_key.
Proof. intros [] []. unfold effect_key. simpl. by intros [= -> -> -> -> ->]. Qed.
#[export] Instance stack_key_inj : Inj (=) (=) stack_key.
Proof. intros [] []. unfold stack_key. simpl. by intros [= -> ->]. Qed.

Lemma normalize_player_same p q : normalize_player p = normalize_player q ↔ same_player p q.
Proof.
  split.
  - intros H. unfold same_player.
    rewrite <-(sort_by_inj_iff stack_key_le stack_key), <-(sort_by_inj_iff String.le id),
      <-(sort_by_inj_iff effect_key_le effect_key).
    assert (∀ r, r <| ps_Inventory := [] |> <| ps_Cards := [] |> <| ps_Effects := [] |> =
      normalize_player r <| ps_Inventory := [] |> <| ps_Cards := [] |> <| ps_Effects := [] |>) as Hs
      by (intros []; reflexivity).
    rewrite (Hs p), (Hs q), H.
    split_and!; [apply (f_equal ps_Inventory) in H|apply (f_equal ps_Cards) in H|
      apply (f_equal ps_Effects) in H|done]; by destruct p, q.
  - intros (Hi & Hc & He & Hs).
    rewrite <-(sort_by_inj_iff stack_key_le stack_key) in Hi.
    rewrite <-(sort_by_inj_iff String.le id) in Hc.
    rewrite <-(sort_by_inj_iff effect_key_le effect_key) in He.
    assert (∀ r, normalize_player r =
      (r <| ps_Inventory := [] |> <| ps_Cards := [] |> <| ps_Effects := [] |>)
        <| ps_Inventory := sort_by stack_key_le stack_key (ps_Inventory r) |>
        <| ps_Cards := sort_strings (ps_Cards r) |>
        <| ps_Effects := sort_by effect_key_le effect_key (ps_Effects r) |>) as Hn
      by (intros []; reflexivity).
    by rewrite !Hn, Hi, Hc, He, Hs.
Qed.

Lemma normalize_cell_same c d : normalize_cell c = normalize_cell d ↔ same_cell c d.
Proof.
  unfold same_cell. rewrite <-(sort_by_inj_iff String.le id). destruct c, d.
  unfold normalize_cell, field_update; cbn -[sort_by].
  split; [intros [=]; split; congruence|intros [Hs [=]]; simplify_eq; by rewrite Hs].
Qed.

Lemma normalize_entity_same e f : normalize_entity e = normalize_entity f ↔ same_entity e f.
Proof.
  unfold same_entity. rewrite <-(sort_by_inj_iff String.le id). destruct e, f.
  unfold normalize_entity, field_update; cbn -[sort_by].
  split; [intros [=]; split; congruence|intros [Hs [=]]; simplify_eq; by rewrite Hs].
Qed.

Lemma normalize_over_same o1 o2 :
  o1 <| go_WinnerPlayerIDs ::= sort_strings |> = o2 <| go_WinnerPlayerIDs ::= sort_strings |> ↔
  same_game_over o1 o2.
Proof.
  unfold same_game_over. rewrite <-(sort_by_inj_iff String.le id). destruct o1, o2.
  unfold field_update; cbn -[sort_by].
  split; [intros [=]; split; congruence|intros [Hs [=]]; simplify_eq; by rewrite Hs].
Qed.

Lemma normalize_overs_same (o1 o2 : option GameOverState) :
  (λ over, over <| go_WinnerPlayerIDs ::= sort_strings |>) <$> o1 =
  (λ over, over <| go_WinnerPlayerIDs ::= sort_strings |>) <$> o2 ↔
  option_Forall2 same_game_over o1 o2.
Proof.
  destruct o1 as [o1|], o2 as [o2|]; cbn [fmap option_fmap option_map]; split;
    try done; try (by inversion 1).
  - intros H%(inj Some). constructor. by apply normalize_over_same.
  - inversion 1; subst. f_equal. by apply normalize_over_same.
  - constructor.
Qed.

(** A sort on distinct identifiers forgets exactly the order. *)
Lemma sort_records_iff {A} (key : A → Z) l1 l2 :
  NoDup (key <$> l1) → NoDup (key <$> l2) →
  sort_by Z.le key l1 = sort_by Z.le key l2 ↔ l1 ≡ₚ l2.
Proof.
  intros Hn1 Hn2. split; [|intros Hp; apply (sort_by_proper Z.le key); done].
  intros H. by rewrite <-(sort_by_perm Z.le key l1), H, sort_by_perm.
Qed.

Lemma normalize_map_same m n :
  NoDup (ds_ID <$> ms_Doors m) → NoDup (ds_ID <$> ms_Doors n) →
  NoDup (cs_ID <$> ms_Cells m) → NoDup (cs_ID <$> ms_Cells n) →
  NoDup (zs_ID <$> ms_RestrictedZones m) → NoDup (zs_ID <$> ms_RestrictedZones n) →
  normalize_map m = normalize_map n ↔ same_map m n.
Proof.
  intros Hd1 Hd2 Hc1 Hc2 Hz1 Hz2. unfold same_map.
  rewrite <-(sort_records_iff ds_ID), <-(sort_records_iff zs_ID) by done.
  rewrite <-(sort_normal_iff Z.le cs_ID normalize_cell) by
    (done || (intros []; reflexivity) || apply normalize_cell_same).
  clear. destruct m, n. unfold normalize_map, field_update; cbn -[sort_by].
  split; [intros [=]; split_and!; congruence|intros (Hd & Hc & Hz & [=]); simplify_eq].
  by rewrite Hd, Hc, Hz.
Qed.

Lemma normalizeState_iff s t :
  normalizeState s = normalizeState t ↔
  map normalize_player (sort_by String.le ps_ID (gs_Players s)) =
    map normalize_player (sort_by String.le ps_ID (gs_Players t)) ∧
  normalize_map (gs_Map s) = normalize_map (gs_Map t) ∧
  map normalize_entity (sort_by Z.le es_ID (gs_Entities s)) =
    map normalize_entity (sort_by Z.le es_ID (gs_Entities t)) ∧
  (λ over, over <| go_WinnerPlayerIDs ::= sort_strings |>) <$> gs_GameOver s =
    (λ over, over <| go_WinnerPlayerIDs ::= sort_strings |>) <$> gs_GameOver t ∧
  s <| gs_Players := [] |> <| gs_Map := zero_MapState |> <| gs_Entities := [] |> <| gs_GameOver := None |> =
  t <| gs_Players := [] |> <| gs_Map := zero_MapState |> <| gs_Entities := [] |> <| gs_GameOver := None |>.
Proof.
  pose (strip r := r <| gs_Players := [] |> <| gs_Map := zero_MapState |>
                     <| gs_Entities := [] |> <| gs_GameOver := None |>).
  change (s <| gs_Players := [] |> <| gs_Map := zero_MapState |> <| gs_Entities := [] |>
    <| gs_GameOver := None |>) with (strip s).
  change (t <| gs_Players := [] |> <| gs_Map := zero_MapState |> <| gs_Entities := [] |>
    <| gs_GameOver := None |>) with (strip t).
  assert (∀ r, strip r = strip (normalizeState r)) as Hs by (intros []; reflexivity).
  assert (∀ r, normalizeState r =
    strip r <| gs_Players := map normalize_player (sort_by String.le ps_ID (gs_Players r)) |>
            <| gs_Map := normalize_map (gs_Map r) |>
            <| gs_Entities := map normalize_entity (sort_by Z.le es_ID (gs_Entities r)) |>
            <| gs_GameOver := (λ over, over <| go_WinnerPlayerIDs ::= sort_strings |>) <$> gs_GameOver r |>)
    as Hn by (intros []; reflexivity).
  split.
  - intros H. rewrite (Hs s), (Hs t), H. split_and!; [| | | |done];
      [apply (f_equal gs_Players) in H|apply (f_equal gs_Map) in H|
       apply (f_equal gs_Entities) in H|apply (f_equal gs_GameOver) in H]; by destruct s, t.
  - intros (Hp & Hm & He & Ho & H). by rewrite !Hn, Hp, Hm, He, Ho, H.
Qed.

(** Two states with distinct identifiers have the same normal form exactly when they
    are the same up to the order of players, inventories, cards, effects, doors, cells,
    cell occupants, zones, entities, tags and winners; so the digest depends on nothing
    else, and it confuses two states that differ in anything else only if the digest
    of the normal forms itself collides. *)
Theorem HashGameState_spec digest s t (Hs : distinct_ids s) (Ht : distinct_ids t) :
  (normalizeState s = normalizeState t ↔ same_state s t) ∧
  (same_state s t → HashGameState digest s = HashGameState digest t) ∧
  (HashGameState digest s = HashGameState digest t →
    same_state s t ∨
    ∃ n1 n2, n1 ≠ n2 ∧ digest n1 = digest n2 ∧ n1 = normalizeState s ∧ n2 = normalizeState t).
Proof.
  assert (normalizeState s = normalizeState t ↔ same_state s t) as Hiff.
  { destruct Hs as [Hsp Hsd Hsc Hsz Hse], Ht as [Htp Htd Htc Htz Hte]. unfold same_state.
    rewrite <-(sort_normal_iff String.le ps_ID normalize_player) by
      (done || (intros []; reflexivity) || apply normalize_player_same).
    rewrite <-(sort_normal_iff Z.le es_ID normalize_entity) by
      (done || (intros []; reflexivity) || apply normalize_entity_same).
    rewrite <-normalize_map_same, <-normalize_overs_same by done.
    apply normalizeState_iff. }
  split_and!; [done|intros H; unfold HashGameState; by rewrite (proj2 Hiff H)|].
  intros H. destruct (decide (normalizeState s = normalizeState t)); [left; tauto|right].
  by exists (normalizeState s), (normalizeState t).
Qed.

(** Two players listed in either order, and one's cards in either order. *)
Definition two_players (a b : string) (cards : list CardType) : GameState :=
  zero_GameState <| gs_Players :=
    [zero_PlayerState <| ps_ID := a |> <| ps_Cards := cards |>;
     zero_PlayerState <| ps_ID := b |> <| ps_Cards := cards |>] |>.

Lemma HashGameState_spec_witness :
  same_state (two_players "b" "a" ["x"; "y"]) (two_players "a" "b" ["y"; "x"]) ∧
  ∀ digest, HashGameState digest (two_players "b" "a" ["x"; "y"]) =
    HashGameState digest (two_players "a" "b" ["y"; "x"]).
Proof.
  assert (distinct_ids (two_players "b" "a" ["x"; "y"]) ∧ distinct_ids (two_players "a" "b" ["y"; "x"]))
    as [H1 H2].
  { split; constructor; simpl; repeat (apply NoDup_cons; split); try apply NoDup_nil_2;
      rewrite ?list_elem_of_singleton; try apply not_elem_of_nil; discriminate. }
  assert (same_state (two_players "b" "a" ["x"; "y"]) (two_players "a" "b" ["y"; "x"])) as Hs.
  { apply (HashGameState_spec (λ _, None) _ _ H1 H2). vm_compute. reflexivity. }
  split; [exact Hs|]. intros digest. by apply (HashGameState_spec digest _ _ H1 H2).
Defined.
