(* ===== verification/Session.v ===== *)
(** * Matches, their sessions and the manager's state

    [internal/server/game/config.go], [errors.go], [replay.go] and the data of
    [manager.go], with the helpers that keep a session's players, its acknowledgements
    and its snapshot history.  A match is a [matchSession]; Go's maps are finite maps,
    a map of maps that is filled on demand included.  A [time.Time] is a number of
    nanoseconds, and what [now()] answers is an argument of the operations that call it.

    The clone functions copy slices so that a snapshot does not alias the session; on
    values they are the identity and are left out. *)

From S2P Require Import Prelude Float32 Model GoStrings Layout Access Phase Combat.

#[local] Open Scope Z_scope.

(** ** Configuration (config.go) *)

Module ServerConfig.

Record Config := mkConfig {
  MinPlayers : Z; MaxPlayers : Z; TickRateHz : Z; DaySeconds : Z; NightSeconds : Z;
  MaxCycles : Z; MatchIDPrefix : string;
}.
#[export] Instance Config_eta : RecordEta Config := λ c,
  mkConfig (MinPlayers c) (MaxPlayers c) (TickRateHz c) (DaySeconds c) (NightSeconds c)
    (MaxCycles c) (MatchIDPrefix c).

Definition DefaultConfig : Config :=
  mkConfig Model.MinPlayers Model.MaxPlayers ServerTickRateHz DayPhaseDurationSeconds
    NightPhaseDurationSeconds MaxDayNightCycles "match".

(** A field that is zero gets its default. *)
Definition or_default (value default : Z) : Z := if value ≟ 0 then default else value.

Definition normalized (c : Config) : Config :=
  let c := c <| MinPlayers ::= λ x, or_default x Model.MinPlayers |> in
  let c := c <| MaxPlayers ::= λ x, or_default x Model.MaxPlayers |> in
  let c := if MaxPlayers c <? MinPlayers c then c <| MinPlayers := MaxPlayers c |> else c in
  let c := c <| TickRateHz ::= λ x, or_default x ServerTickRateHz |> in
  let c := c <| DaySeconds ::= λ x, or_default x DayPhaseDurationSeconds |> in
  let c := c <| NightSeconds ::= λ x, or_default x NightPhaseDurationSeconds |> in
  let c := c <| MaxCycles ::= λ x, or_default x MaxDayNightCycles |> in
  let prefix := TrimSpace (MatchIDPrefix c) in
  c <| MatchIDPrefix := if prefix ≟ "" then "match" else prefix |>.

(** Nanoseconds. *)
Definition TickInterval (c : Config) : Z :=
  let normalized := normalized c in
  if TickRateHz normalized ≟ 0 then 1000000000
  else
    let interval := 1000000000 `quot` TickRateHz normalized in
    if interval <=? 0 then 1 else interval.

Definition phaseConfig (c : Config) : Phase.Config :=
  let normalized := normalized c in
  Phase.mkConfig (u64 (DaySeconds normalized * TickRateHz normalized))
    (u64 (NightSeconds normalized * TickRateHz normalized)) (MaxCycles normalized).

(** The field ranges of the struct. *)
Definition in_range (c : Config) : Prop :=
  is_u8 (MinPlayers c) ∧ is_u8 (MaxPlayers c) ∧ is_u32 (TickRateHz c) ∧
  is_u16 (DaySeconds c) ∧ is_u16 (NightSeconds c) ∧ is_u8 (MaxCycles c).

End ServerConfig.
Import ServerConfig (phaseConfig).

(** ** Errors (errors.go) *)

Inductive game_error :=
  | ErrMatchNotFound | ErrMatchFull | ErrMatchNotJoinable | ErrPlayerAlreadyInMatch
  | ErrInvalidPlayerID | ErrInvalidPlayerName | ErrPlayerNotFound | ErrNotEnoughPlayers
  | ErrMatchAlreadyRunning | ErrMatchAlreadyEnded
  | ErrMatchNotRunning | ErrInvalidInputCommand | ErrInvalidInputPayload | ErrDuplicateInput
  | ErrInputRateLimited | ErrInputTooLateDropped | ErrInputPlayerMismatch.
#[export] Instance game_error_eq_dec : EqDecision game_error.
Proof. solve_decision. Defined.

(** ** Data (manager.go, replay.go) *)

Definition LifecycleEventMatchCreated : string := "match_created".
Definition LifecycleEventPlayerJoined : string := "player_joined".
Definition LifecycleEventMatchStarted : string := "match_started".
Definition LifecycleEventTick : string := "tick".
Definition LifecycleEventMatchEnded : string := "match_ended".
Definition LifecycleEventShutdown : string := "match_shutdown".

Record LifecycleEvent := mkEvent {
  ev_Type : string;
  ev_MatchID : MatchID;
  ev_PlayerID : PlayerID;
  ev_TickID : Z;
  ev_At : Z;
  ev_Note : string;
}.
#[export] Instance LifecycleEvent_eta : RecordEta LifecycleEvent := λ r,
  mkEvent (ev_Type r) (ev_MatchID r) (ev_PlayerID r) (ev_TickID r) (ev_At r) (ev_Note r).

Record PlayerSession := mkPlayerSession {
  pl_PlayerID : PlayerID;
  pl_Name : string;
  pl_JoinedAt : Z;
}.
#[export] Instance PlayerSession_eta : RecordEta PlayerSession := λ r,
  mkPlayerSession (pl_PlayerID r) (pl_Name r) (pl_JoinedAt r).

Record MatchSnapshot := mkMatchSnapshot {
  sm_MatchID : MatchID;
  sm_Status : MatchStatus;
  sm_CreatedAt : Z;
  sm_StartedAt : option Z;
  sm_EndedAt : option Z;
  sm_EndedReason : string;
  sm_TickID : Z;
  sm_Players : list PlayerSession;
}.
#[export] Instance MatchSnapshot_eta : RecordEta MatchSnapshot := λ r,
    mkMatchSnapshot (sm_MatchID r) (sm_Status r) (sm_CreatedAt r) (sm_StartedAt r) (sm_EndedAt r)
    (sm_EndedReason r) (sm_TickID r) (sm_Players r).

Record ReplayEntry := mkReplayEntry {
  re_AcceptedTick : Z;
  re_IngressSeq : Z;
  re_AcceptedAt : Z;
  re_Command : InputCommand;
}.
#[export] Instance ReplayEntry_eta : RecordEta ReplayEntry := λ r,
  mkReplayEntry (re_AcceptedTick r) (re_IngressSeq r) (re_AcceptedAt r) (re_Command r).

Record lockSnapDoorRestoreState := mkRestore {
  ls_RestoreTick : Z;
  ls_Locked : bool;
  ls_Open : bool;
}.
#[export] Instance lockSnapDoorRestoreState_eta : RecordEta lockSnapDoorRestoreState := λ r,
  mkRestore (ls_RestoreTick r) (ls_Locked r) (ls_Open r).

Record npcPrisonerBribeState := mkBribe {
  br_OfferItem : ItemType;
  br_OfferCost : Z;
  br_Stock : Z;
  br_PayerID : PlayerID;
  br_PaidCards : Z;
}.
#[export] Instance npcPrisonerBribeState_eta : RecordEta npcPrisonerBribeState := λ r,
  mkBribe (br_OfferItem r) (br_OfferCost r) (br_Stock r) (br_PayerID r) (br_PaidCards r).

Record dailyAbilityUsage := mkDailyUsage {
  du_DayStartTick : Z;
  du_UseCount : Z;
}.
#[export] Instance dailyAbilityUsage_eta : RecordEta dailyAbilityUsage := λ r,
  mkDailyUsage (du_DayStartTick r) (du_UseCount r).

Record npcTaskState := mkTask {
  nt_DayStartTick : Z;
  nt_Type : string;
  nt_TargetRoomID : RoomID;
  nt_TargetItem : ItemType;
  nt_RewardCards : Z;
  nt_AssignedBy : EntityID;
}.
#[export] Instance npcTaskState_eta : RecordEta npcTaskState := λ r,
    mkTask (nt_DayStartTick r) (nt_Type r) (nt_TargetRoomID r) (nt_TargetItem r) (nt_RewardCards r)
    (nt_AssignedBy r).

Definition npcTaskVisitRoom : string := "visit_room".
Definition npcTaskHoldItem : string := "hold_item".
Definition playerInventorySlotCount : Z := 3.
Definition authorityAmmoMax : Z := 3.
Definition authorityRestockSeconds : Z := 10.
Definition npcPrisonerSpawnCount : nat := 3.

(** [loopCancel] and [loopDone] are channels of the loop's goroutine: [ss_looping] says
    that the cancel function is set, that is, that the loop may still tick. *)
Record matchSession := mkSession {
  ss_matchID : MatchID;
  ss_status : MatchStatus;
  ss_tickRateHz : Z;
  ss_createdAt : Z;
  ss_startedAt : option Z;
  ss_endedAt : option Z;
  ss_endedReason : string;
  ss_tickID : Z;
  ss_players : gmap PlayerID PlayerSession;
  ss_nextIngressSeq : Z;
  ss_nextEntityID : EntityID;
  ss_blackMarketGoldenBulletSold : bool;
  ss_alarmUsedDayStartTick : Z;
  ss_scheduledInputs : gmap Z (list InputCommand);
  ss_seenClientSeq : gmap PlayerID (gset Z);
  ss_acceptedByTick : gmap Z (gmap PlayerID Z);
  ss_lastProcessedClientSeq : gmap PlayerID Z;
  ss_guardEntityByRoom : gmap RoomID EntityID;
  ss_guardLastShotTick : gmap PlayerID Z;
  ss_abilityCooldownUntil : gmap PlayerID (gmap AbilityType Z);
  ss_abilityUsedDayStart : gmap PlayerID (gmap AbilityType Z);
  ss_abilityDailyUsage : gmap PlayerID (gmap AbilityType dailyAbilityUsage);
  ss_prisonerUnlockedRooms : gset RoomID;
  ss_lockSnapDoorRestores : gmap DoorID lockSnapDoorRestoreState;
  ss_npcPrisonerBribeState : gmap EntityID npcPrisonerBribeState;
  ss_npcTaskByPlayer : gmap PlayerID npcTaskState;
  ss_chameleonPendingUntil : gmap PlayerID Z;
  ss_lastMoveIntentTick : gmap PlayerID Z;
  ss_ammoRestockUntil : gmap PlayerID Z;
  ss_projectileExpireTick : gmap EntityID Z;
  ss_replayEntries : list ReplayEntry;
  ss_gameState : GameState;
  ss_snapshotHistory : gmap Z Snapshot;
  ss_looping : bool;
}.
#[export] Instance matchSession_eta : RecordEta matchSession := λ r,
    mkSession (ss_matchID r) (ss_status r) (ss_tickRateHz r) (ss_createdAt r) (ss_startedAt r)
    (ss_endedAt r) (ss_endedReason r) (ss_tickID r) (ss_players r) (ss_nextIngressSeq r)
    (ss_nextEntityID r) (ss_blackMarketGoldenBulletSold r) (ss_alarmUsedDayStartTick r)
    (ss_scheduledInputs r) (ss_seenClientSeq r) (ss_acceptedByTick r) (ss_lastProcessedClientSeq r)
    (ss_guardEntityByRoom r) (ss_guardLastShotTick r) (ss_abilityCooldownUntil r)
    (ss_abilityUsedDayStart r) (ss_abilityDailyUsage r) (ss_prisonerUnlockedRooms r)
    (ss_lockSnapDoorRestores r) (ss_npcPrisonerBribeState r) (ss_npcTaskByPlayer r)
    (ss_chameleonPendingUntil r) (ss_lastMoveIntentTick r) (ss_ammoRestockUntil r)
    (ss_projectileExpireTick r) (ss_replayEntries r) (ss_gameState r) (ss_snapshotHistory r)
    (ss_looping r).

(** The manager; its clock, its tickers and its store are its environment. *)
Record Manager := mkManager {
  mg_config : ServerConfig.Config;
  mg_nextMatchSequence : Z;
  mg_matches : gmap MatchID matchSession;
  mg_playerToMatch : gmap PlayerID MatchID;
  mg_events : list LifecycleEvent;
}.
#[export] Instance Manager_eta : RecordEta Manager := λ r,
  mkManager (mg_config r) (mg_nextMatchSequence r) (mg_matches r) (mg_playerToMatch r) (mg_events r).

Definition newManagerWithDeps (config : ServerConfig.Config) : Manager :=
  mkManager (ServerConfig.normalized config) 0 ∅ ∅ [].

(** ** Players of a session *)

(** The keys of a session's players, in the order of [sort.Slice]. *)
Definition session_ids (session : matchSession) : list PlayerID :=
  sort_strings (elements (dom (ss_players session))).

(** The state of a player who has just joined. *)
Definition new_player_state (playerID : PlayerID) (name : string) : PlayerState :=
  zero_PlayerState <| ps_ID := playerID |> <| ps_Name := name |> <| ps_Connected := true |>
    <| ps_Alive := true |> <| ps_HeartsHalf := 6 |> <| ps_LivesRemaining := DefaultPlayerLives |>
    <| ps_Facing := mkVector2 (f32_of_Z 1) f32_zero |>.

(** The last entry wins when the list of players repeats an identifier. *)
Definition existing_players (players : list PlayerState) : gmap PlayerID PlayerState :=
  foldl (λ m player, <[ps_ID player := player]> m) ∅ players.

Definition synced_player (existing : gmap PlayerID PlayerState)
    (sessions : gmap PlayerID PlayerSession) (playerID : PlayerID) : PlayerState :=
  let name := from_option pl_Name "" (sessions !! playerID) in
  let state := default (new_player_state playerID name) (existing !! playerID) in
  state <| ps_ID := playerID |> <| ps_Name := name |>.

Definition syncGameStatePlayersLocked (session : matchSession) : matchSession :=
  let existing := existing_players (gs_Players (ss_gameState session)) in
  session <| ss_gameState ::= λ state, state <| gs_Players :=
    map (synced_player existing (ss_players session)) (session_ids session) |> |>.

(** The first player with the identifier, connected or not; [None] when there is none. *)
Definition setPlayerConnectedLocked (session : matchSession) (playerID : PlayerID) (connected : bool) :
    option matchSession :=
  if playerID ≟ "" then None
  else
    index ← find_idx (λ player, ps_ID player ≟ playerID) (gs_Players (ss_gameState session));
    Some (session <| ss_gameState ::= λ state, state <| gs_Players ::= alter (λ player,
      let player := player <| ps_Connected := connected |> in
      if connected then player else player <| ps_Velocity := zero_Vector2 |>) index |> |>).

(** ** Snapshots *)

Definition buildPlayerAcksLocked (session : matchSession) : list PlayerAck :=
  map (λ playerID, mkAck playerID (default 0 (ss_lastProcessedClientSeq session !! playerID)))
    (session_ids session).

Definition makeFullSnapshotLocked (session : matchSession) : Snapshot :=
  zero_Snapshot <| sn_Kind := SnapshotKindFull |> <| sn_TickID := ss_tickID session |>
    <| sn_State := Some (ss_gameState session) |>
    <| sn_PlayerAcks := buildPlayerAcksLocked session |>.

Definition historyLimit : Z := 256.

(** What [storeSnapshotLocked] does to the history. *)
Definition store_snapshot (history : gmap Z Snapshot) (snapshot : Snapshot) : gmap Z Snapshot :=
  let history := <[sn_TickID snapshot := snapshot]> history in
  if sn_TickID snapshot <=? historyLimit then history
  else filter (λ '(tickID, _), sn_TickID snapshot - historyLimit <= tickID) history.

Definition storeSnapshotLocked (session : matchSession) (snapshot : Snapshot) : matchSession :=
  session <| ss_snapshotHistory ::= λ history, store_snapshot history snapshot |>.

Definition snapshotFromSession (session : matchSession) : MatchSnapshot :=
  mkMatchSnapshot (ss_matchID session) (ss_status session) (ss_createdAt session)
    (ss_startedAt session) (ss_endedAt session) (ss_endedReason session) (ss_tickID session)
    (sort_by String.le pl_PlayerID (map snd (map_to_list (ss_players session)))).

Definition newInitialGameState (matchID : MatchID) (status : MatchStatus)
    (config : ServerConfig.Config) : GameState :=
  let mapState := ToMapState defaultMatchLayout
    <| ms_PowerOn := true |> <| ms_Alarm := zero_AlarmState |> in
  zero_GameState <| gs_MatchID := matchID |> <| gs_Status := status |>
    <| gs_Phase := Phase.InitialPhaseState (phaseConfig config) 1 |> <| gs_Map := mapState |>.

(** ** Queries *)

Definition FullSnapshot (m : Manager) (matchID : MatchID) : game_error + Snapshot :=
  match mg_matches m !! matchID with
  | None => inl ErrMatchNotFound
  | Some session => inr (makeFullSnapshotLocked session)
  end.

(** The snapshots of the history after a tick, in the order of their ticks. *)
Definition snapshots_since (history : gmap Z Snapshot) (afterTick : Z) : list Snapshot :=
  omap (λ tickID, history !! tickID)
    (sort_by Z.le id (filter (λ tickID, afterTick < tickID) (map fst (map_to_list history)))).

Definition SnapshotsSince (m : Manager) (matchID : MatchID) (afterTick : Z) :
    game_error + list Snapshot :=
  match mg_matches m !! matchID with
  | None => inl ErrMatchNotFound
  | Some session => inr (snapshots_since (ss_snapshotHistory session) afterTick)
  end.

Definition LifecycleEvents (m : Manager) (matchID : MatchID) : list LifecycleEvent :=
  filter (λ event, ¬ (matchID ≠ "" ∧ ev_MatchID event ≠ matchID)) (mg_events m).

Definition ListMatchSnapshots (m : Manager) : list MatchSnapshot :=
  sort_by String.le sm_MatchID (map (λ e, snapshotFromSession e.2) (map_to_list (mg_matches m))).

Record MatchReplay := mkMatchReplay {
  mr_MatchID : MatchID; mr_Status : MatchStatus; mr_TickRateHz : Z; mr_CreatedAt : Z;
  mr_StartedAt : option Z; mr_EndedAt : option Z; mr_EndedReason : string;
  mr_Entries : list ReplayEntry;
}.

Definition ReplayLog (m : Manager) (matchID : MatchID) : game_error + MatchReplay :=
  match mg_matches m !! matchID with
  | None => inl ErrMatchNotFound
  | Some session =>
      inr (mkMatchReplay (ss_matchID session) (ss_status session) (ss_tickRateHz session)
        (ss_createdAt session) (ss_startedAt session) (ss_endedAt session)
        (ss_endedReason session) (ss_replayEntries session))
  end.

(** ** Keeping the players *)

Lemma session_ids_spec session :
  NoDup (session_ids session) ∧ StronglySorted String.le (session_ids session) ∧
  ∀ playerID, playerID ∈ session_ids session ↔ is_Some (ss_players session !! playerID).
Proof.
  unfold session_ids. split_and!.
  - rewrite sort_by_perm. apply NoDup_elements.
  - apply (sort_by_sorted String.le id).
  - intros playerID. rewrite elem_of_sort_by, elem_of_elements. apply elem_of_dom.
Qed.

Lemma existing_players_lookup players playerID :
  NoDup (ps_ID <$> players) →
  existing_players players !! playerID = find_first (λ p, ps_ID p ≟ playerID) players.
Proof.
  unfold existing_players. induction players as [|p players IH] using rev_ind; [done|].
  rewrite fmap_app, NoDup_app. intros (Hnd & Hdisj & _).
  rewrite foldl_app, find_first_app, find_first_cons. cbn [foldl].
  destruct (decide (ps_ID p = playerID)) as [<-|Hne].
  - rewrite lookup_insert_eq, bool_decide_true by done.
    rewrite (proj2 (find_first_None _ _)); [done|]. intros q Hq.
    apply bool_decide_false. intros Heq. apply (Hdisj (ps_ID p)); [|by apply list_elem_of_singleton].
    rewrite <-Heq. by apply list_elem_of_fmap_2.
  - rewrite lookup_insert_ne, bool_decide_false by done. rewrite IH by done.
    by destruct (find_first _ _).
Qed.

Lemma sync_ids session :
  map ps_ID (gs_Players (ss_gameState (syncGameStatePlayersLocked session))) = session_ids session.
Proof.
  change (gs_Players (ss_gameState (syncGameStatePlayersLocked session))) with
    (map (synced_player (existing_players (gs_Players (ss_gameState session))) (ss_players session))
      (session_ids session)).
  rewrite map_map. transitivity (map id (session_ids session)); [|apply map_id].
  apply map_ext. intros playerID. reflexivity.
Qed.

(** Synchronising a match gives the game exactly the players of the session, once each
    and in the order of their identifiers; a player who was there keeps everything but
    the name, a new one starts alive and connected with three lives, and nothing else
    of the session changes. *)
Theorem syncGameStatePlayers_spec session
    (Hnd : NoDup (ps_ID <$> gs_Players (ss_gameState session))) :
  let session' := syncGameStatePlayersLocked session in
  let players := gs_Players (ss_gameState session') in
  session' = session <| ss_gameState ::= λ state, state <| gs_Players := players |> |> ∧
  map ps_ID players = session_ids session ∧
  (NoDup (map ps_ID players) ∧ StronglySorted String.le (map ps_ID players)) ∧
  (∀ playerID, playerID ∈ map ps_ID players ↔ is_Some (ss_players session !! playerID)) ∧
  ∀ p, p ∈ players → ∃ entry, ss_players session !! ps_ID p = Some entry ∧
    (p = new_player_state (ps_ID p) (pl_Name entry) ∧
       (∀ q, q ∈ gs_Players (ss_gameState session) → ps_ID q ≠ ps_ID p) ∨
     ∃ q, q ∈ gs_Players (ss_gameState session) ∧ ps_ID q = ps_ID p ∧ p = q <| ps_Name := pl_Name entry |>).
Proof.
  cbv zeta. rewrite !sync_ids. destruct (session_ids_spec session) as (Hn & Hs & He).
  split_and!; [reflexivity|done|done|done|done|].
  intros p (playerID & -> & [entry Hentry]%He)%list_elem_of_fmap.
  exists entry. change (ps_ID (synced_player ?e ?s playerID)) with playerID. split; [done|].
  unfold synced_player. rewrite Hentry, existing_players_lookup by done. simpl.
  destruct (find_first _ _) as [q|] eqn:Hq; simpl; [right|left].
  - apply find_first_Some in Hq as [Hq Hid]. bool_props. exists q. subst. split_and!; [done..|].
    by destruct q.
  - split; [reflexivity|]. rewrite find_first_None in Hq. intros q Hin.
    specialize (Hq q Hin). by bool_props.
Qed.

Lemma syncGameStatePlayers_spec_witness :
  let session := mkSession "m" "lobby" 30 0 None None "" 0
    {[ "b" := mkPlayerSession "b" "Bo" 0; "a" := mkPlayerSession "a" "Al" 0 ]} 0 0 false 0 ∅ ∅ ∅ ∅ ∅ ∅ ∅
    ∅ ∅ ∅ ∅ ∅ ∅ ∅ ∅ ∅ ∅ [] zero_GameState ∅ false in
  map ps_ID (gs_Players (ss_gameState (syncGameStatePlayersLocked session))) = ["a"; "b"].
Proof.
  intros session. destruct (syncGameStatePlayers_spec session) as (_ & Hids & _).
  - apply NoDup_nil_2.
  - rewrite Hids. vm_compute. reflexivity.
Defined.

(** ** The snapshot history *)

(** The history holds exactly the snapshots of a range of ticks. *)
Definition history_range (snap : Z → Snapshot) (history : gmap Z Snapshot) (first last : Z) : Prop :=
  ∀ t s, history !! t = Some s ↔ first <= t <= last ∧ s = snap t.

Lemma store_snapshot_range snap history last :
  (∀ t, sn_TickID (snap t) = t) → -1 <= last →
  history_range snap history (Z.max 0 (last - historyLimit)) last →
  history_range snap (store_snapshot history (snap (last + 1)))
    (Z.max 0 (last + 1 - historyLimit)) (last + 1).
Proof.
  intros Hsnap Hlast Hh t s. unfold store_snapshot. rewrite Hsnap.
  assert (<[last + 1 := snap (last + 1)]> history !! t = Some s ↔
    Z.max 0 (last - historyLimit) <= t <= last + 1 ∧ s = snap t) as Hins.
  { rewrite lookup_insert_Some, (Hh t s). unfold historyLimit in *.
    split; [intros [[<- <-]|(? & ? & ->)]; split; (done || lia)|intros [Ht ->]].
    destruct (decide (last + 1 = t)) as [<-|]; [by left|right]. split_and!; (done || lia). }
  destruct (last + 1 <=? historyLimit) eqn:Hle; bool_props; unfold historyLimit in *.
  - rewrite Hins. split; intros [? ->]; (split; [lia|done]).
  - rewrite map_lookup_filter_Some, Hins. simpl. split; [intros [[? ->] ?]|intros [? ->]].
    + split; [lia|done].
    + split_and!; (done || lia).
Qed.

(** The history after the snapshots of ticks [0] to [last]. *)
Definition recorded (snap : Z → Snapshot) (last : nat) : gmap Z Snapshot :=
  foldl store_snapshot ∅ (map (λ t, snap (Z.of_nat t)) (seq 0 (S last))).

Lemma recorded_range snap last :
  (∀ t, sn_TickID (snap t) = t) →
  history_range snap (recorded snap last) (Z.max 0 (Z.of_nat last - historyLimit)) (Z.of_nat last).
Proof.
  intros Hsnap. unfold recorded. induction last as [|last IH].
  - apply (store_snapshot_range snap ∅ (-1)); [done|lia|].
    intros t s. rewrite lookup_empty. unfold historyLimit. split; [done|lia].
  - rewrite seq_S, map_app, foldl_app. simpl foldl.
    replace (Z.of_nat (S last)) with (Z.of_nat last + 1) by lia.
    apply store_snapshot_range; [done|lia|done].
Qed.

Lemma seqZ_sorted from len : StronglySorted Z.le (seqZ from len).
Proof.
  destruct (decide (0 <= len)) as [Hl|]; [|rewrite seqZ_nil by lia; constructor].
  revert from. revert len Hl. apply (natlike_ind (λ len, ∀ from, StronglySorted Z.le (seqZ from len))).
  - intros from. constructor.
  - intros len Hlen IH from. rewrite seqZ_cons, Z.pred_succ by lia. constructor; [apply IH|].
    rewrite Forall_forall. intros t. rewrite elem_of_seqZ. lia.
Qed.

Lemma snapshots_since_range snap history first last afterTick :
  history_range snap history first last →
  snapshots_since history afterTick =
    map snap (seqZ (Z.max first (afterTick + 1)) (last - Z.max first (afterTick + 1) + 1)).
Proof.
  intros Hh. set (from := Z.max first (afterTick + 1)). unfold snapshots_since.
  assert (sort_by Z.le id (filter (λ tickID, afterTick < tickID) (map fst (map_to_list history))) =
    seqZ from (last - from + 1)) as ->.
  { symmetry. apply (sort_self_unique Z.le); [|apply seqZ_sorted].
    apply NoDup_Permutation; [apply NoDup_seqZ|apply NoDup_filter, (NoDup_fst_map_to_list history)|].
    intros t. rewrite elem_of_seqZ, list_elem_of_filter.
    change (map fst) with (fmap (M:=list) (@fst Z Snapshot)). rewrite list_elem_of_fmap. split.
    - intros Ht. split; [lia|]. exists (t, snap t). split; [done|].
      apply elem_of_map_to_list, Hh. split; [lia|done].
    - intros [Ht ([t' s] & -> & [Hr _]%elem_of_map_to_list%Hh)]. simpl in *. lia. }
  assert (∀ t, t ∈ seqZ from (last - from + 1) → history !! t = Some (snap t)) as Hl.
  { intros t Ht%elem_of_seqZ. apply Hh. split; [lia|done]. }
  revert Hl. generalize (seqZ from (last - from + 1)). intros l Hl.
  induction l as [|t l IH]; simpl; [done|].
  rewrite (Hl t) by (apply elem_of_cons; by left). f_equal. apply IH.
  intros t' Ht'. apply Hl, elem_of_cons. by right.
Qed.

(** A client that asks for the snapshots after a tick gets those of every later tick,
    in order and without a gap, as long as it is at most 256 ticks behind; one that is
    further behind gets the last 257, so that it can see the gap. *)
Theorem SnapshotsSince_gap_free snap last afterTick m matchID session
    (Hsnap : ∀ t, sn_TickID (snap t) = t)
    (Hm : mg_matches m !! matchID = Some session)
    (Hs : ss_snapshotHistory session = recorded snap last) :
  ∃ snapshots, SnapshotsSince m matchID afterTick = inr snapshots ∧
    map sn_TickID snapshots =
      seqZ (Z.max (Z.max 0 (Z.of_nat last - historyLimit)) (afterTick + 1))
        (Z.of_nat last - Z.max (Z.max 0 (Z.of_nat last - historyLimit)) (afterTick + 1) + 1) ∧
    (∀ s, s ∈ snapshots → s = snap (sn_TickID s)) ∧
    (-1 <= afterTick → Z.of_nat last - historyLimit - 1 <= afterTick →
      map sn_TickID snapshots = seqZ (afterTick + 1) (Z.of_nat last - afterTick)).
Proof.
  unfold SnapshotsSince. rewrite Hm, Hs. eexists. split; [done|].
  rewrite (snapshots_since_range snap _ _ _ afterTick (recorded_range snap last Hsnap)).
  set (from := Z.max (Z.max 0 (Z.of_nat last - historyLimit)) (afterTick + 1)).
  assert (∀ l, map sn_TickID (map snap l) = l) as Hids.
  { intros l. rewrite map_map. transitivity (map id l); [|apply map_id].
    apply map_ext. exact Hsnap. }
  rewrite Hids. split_and!; [done| |].
  - intros s (t & -> & _)%list_elem_of_fmap. by rewrite Hsnap.
  - intros H1 H2. f_equal; lia.
Qed.

(** A session at a tick, with nothing in it but the history of its ticks. *)
Definition recording (snap : Z → Snapshot) (last : nat) : matchSession :=
  mkSession "m" "running" 30 0 None None "" (Z.of_nat last) ∅ 0 0 false 0 ∅ ∅ ∅ ∅ ∅ ∅ ∅
    ∅ ∅ ∅ ∅ ∅ ∅ ∅ ∅ ∅ ∅ [] zero_GameState (recorded snap last) false.

Lemma SnapshotsSince_gap_free_witness : ∃ snapshots,
  SnapshotsSince (mkManager ServerConfig.DefaultConfig 1
    {[ "m" := recording (λ t, zero_Snapshot <| sn_TickID := t |>) 300 ]} ∅ []) "m" 290 = inr snapshots ∧
  map sn_TickID snapshots = [291; 292; 293; 294; 295; 296; 297; 298; 299; 300].
Proof.
  destruct (SnapshotsSince_gap_free (λ t, zero_Snapshot <| sn_TickID := t |>) 300 290
    (mkManager ServerConfig.DefaultConfig 1
      {[ "m" := recording (λ t, zero_Snapshot <| sn_TickID := t |>) 300 ]} ∅ []) "m"
    (recording (λ t, zero_Snapshot <| sn_TickID := t |>) 300))
    as (snapshots & Hs & _ & _ & Hids).
  - intros t. reflexivity.
  - apply lookup_insert_eq.
  - reflexivity.
  - exists snapshots. split; [exact Hs|]. apply Hids; unfold historyLimit; lia.
Defined.

(** ** Configuration *)

Lemma or_default_spec value default :
  0 <= value → 0 < default → 0 < ServerConfig.or_default value default ∧
  (0 < value → ServerConfig.or_default value default = value).
Proof.
  unfold ServerConfig.or_default. intros Hv Hd.
  destruct (decide (value = 0)) as [->|Hne].
  - rewrite bool_decide_true by done. lia.
  - rewrite bool_decide_false by done. lia.
Qed.

(** The fields of a normalised configuration, one by one. *)
Lemma normalized_fields c :
  let d := ServerConfig.normalized c in
  let lo := ServerConfig.or_default (ServerConfig.MinPlayers c) MinPlayers in
  let hi := ServerConfig.or_default (ServerConfig.MaxPlayers c) MaxPlayers in
  ServerConfig.MinPlayers d = Z.min lo hi ∧ ServerConfig.MaxPlayers d = hi ∧
  ServerConfig.TickRateHz d = ServerConfig.or_default (ServerConfig.TickRateHz c) ServerTickRateHz ∧
  ServerConfig.DaySeconds d =
    ServerConfig.or_default (ServerConfig.DaySeconds c) DayPhaseDurationSeconds ∧
  ServerConfig.NightSeconds d =
    ServerConfig.or_default (ServerConfig.NightSeconds c) NightPhaseDurationSeconds ∧
  ServerConfig.MaxCycles d = ServerConfig.or_default (ServerConfig.MaxCycles c) MaxDayNightCycles ∧
  ServerConfig.MatchIDPrefix d ≠ "".
Proof.
  destruct c as [lo hi rate day night cycles prefix]. unfold ServerConfig.normalized.
  cbn [ServerConfig.MinPlayers ServerConfig.MaxPlayers ServerConfig.TickRateHz ServerConfig.DaySeconds
    ServerConfig.NightSeconds ServerConfig.MaxCycles ServerConfig.MatchIDPrefix field_update].
  set (hi' := ServerConfig.or_default hi MaxPlayers). set (lo' := ServerConfig.or_default lo MinPlayers).
  destruct (hi' <? lo') eqn:Hlt; bool_props; cbn; (split_and!; [lia|done..|]);
    destruct (decide (TrimSpace prefix = "")) as [He|He];
    [rewrite bool_decide_true by done|rewrite bool_decide_false by done| |];
    try done; [rewrite bool_decide_true by done|rewrite bool_decide_false by done]; done.
Qed.

(** Whatever the configured numbers, a match needs at least one player and room for
    that many, ticks at a positive rate no slower than once a second, has day and night
    of the configured number of ticks without overflow, and has at least one cycle. *)
Theorem normalized_config_spec c (Hc : ServerConfig.in_range c) :
  let d := ServerConfig.normalized c in
  (1 <= ServerConfig.MinPlayers d <= ServerConfig.MaxPlayers d ∧ ServerConfig.MaxPlayers d < 2 ^ 8) ∧
  (1 <= ServerConfig.TickInterval c <= 1000000000 ∧
    ServerConfig.TickInterval c * ServerConfig.TickRateHz d <= 2 ^ 32 ) ∧
  Phase.DayDurationTicks (phaseConfig c) = ServerConfig.DaySeconds d * ServerConfig.TickRateHz d ∧
  Phase.NightDurationTicks (phaseConfig c) = ServerConfig.NightSeconds d * ServerConfig.TickRateHz d ∧
  1 <= Phase.DayDurationTicks (phaseConfig c) ∧ 1 <= Phase.NightDurationTicks (phaseConfig c) ∧
  1 <= Phase.MaxCycles (phaseConfig c) ∧ ServerConfig.MatchIDPrefix d ≠ "".
Proof.
  destruct Hc as (Hlo & Hhi & Hrate & Hday & Hnight & Hcyc).
  destruct (normalized_fields c) as (Elo & Ehi & Erate & Eday & Enight & Ecyc & Epre).
  unfold is_u8, is_u16, is_u32 in *. cbv zeta.
  assert (∀ v d b, 0 <= v < b → 0 < d < b → 1 <= ServerConfig.or_default v d < b) as Hor.
  { intros v d b Hv Hd. unfold ServerConfig.or_default. case_bool_decide; lia. }
  pose proof (Hor _ MinPlayers _ Hlo ltac:(unfold MinPlayers; lia)).
  pose proof (Hor _ MaxPlayers _ Hhi ltac:(unfold MaxPlayers; lia)).
  pose proof (Hor _ ServerTickRateHz _ Hrate ltac:(unfold ServerTickRateHz; lia)) as Hr.
  pose proof (Hor _ DayPhaseDurationSeconds _ Hday ltac:(unfold DayPhaseDurationSeconds; lia)) as Hd.
  pose proof (Hor _ NightPhaseDurationSeconds _ Hnight ltac:(unfold NightPhaseDurationSeconds; lia)) as Hn.
  pose proof (Hor _ MaxDayNightCycles _ Hcyc ltac:(unfold MaxDayNightCycles; lia)) as Hy.
  unfold ServerConfig.TickInterval, phaseConfig. cbn [Phase.DayDurationTicks Phase.NightDurationTicks Phase.MaxCycles].
  cbv zeta. rewrite <-Erate in Hr. rewrite <-Eday in Hd. rewrite <-Enight in Hn. rewrite <-Ecyc in Hy.
  rewrite !u64_small by (unfold is_u64; nia).
  rewrite Elo, Ehi. split_and!; try lia; try nia; try done.
  all: rewrite bool_decide_false by lia.
  all: pose proof (Z.quot_pos 1000000000 (ServerConfig.TickRateHz (ServerConfig.normalized c)) ltac:(lia) ltac:(lia)).
  all: destruct (_ <=? 0) eqn:Hle; bool_props; try lia.
  - rewrite Z.quot_div_nonneg by lia. apply Z.div_le_upper_bound; nia.
  - rewrite Z.quot_div_nonneg by lia.
    pose proof (Z.mul_div_le 1000000000 (ServerConfig.TickRateHz (ServerConfig.normalized c)) ltac:(lia)). nia.
Qed.

Lemma normalized_config_spec_witness :
  ServerConfig.in_range (ServerConfig.mkConfig 9 4 0 0 60 0 " ") ∧
  1 <= ServerConfig.TickInterval (ServerConfig.mkConfig 9 4 0 0 60 0 " ") <= 1000000000.
Proof.
  assert (ServerConfig.in_range (ServerConfig.mkConfig 9 4 0 0 60 0 " ")) as H
    by (vm_compute; repeat split; discriminate || reflexivity).
  split; [exact H|]. apply (normalized_config_spec _ H).
Defined.
