(* ===== verification/InputQueue.v ===== *)
(** * The input queue

    [internal/server/game/input_queue.go]: a command is validated, rate limited and
    scheduled one or two ticks ahead; the tick loop of manager.go takes the commands of
    its tick.  Decoding a JSON payload is the environment's ([PayloadDecoder]); the
    checks on what it decodes to are the code's.  Every operation runs under the
    manager's mutex, so an operation is one step.

    The second half follows a running match through any interleaving of submissions and
    ticks and relates what is accepted, what the replay log holds and what each tick is
    given. *)

From S2P Require Import Prelude Float32 Model GoStrings Layout Access Items Escape Cards Abilities Combat Replay Session.

#[local] Open Scope Z_scope.

(** ** Payloads *)

(** [json.Unmarshal] into each payload type; [None] is an error. *)
Class PayloadDecoder := {
  decode_movement : string → option MovementInputPayload;
  decode_aim : string → option AimInputPayload;
  decode_interact : string → option InteractPayload;
  decode_ability : string → option AbilityUsePayload;
  decode_card : string → option CardUsePayload;
  decode_item : string → option ItemUsePayload;
  decode_market : string → option BlackMarketPurchasePayload;
  decode_fire : string → option FireWeaponPayload;
  decode_equip : string → option EquipItemPayload;
  decode_drop : string → option DropItemPayload;
  decode_craft : string → option CraftItemPayload;
}.

Definition isSupportedInputCommand (commandType : InputCommandType) : bool :=
  bool_decide (commandType ∈
    [CmdMoveIntent; CmdAimIntent; CmdInteract; CmdUseAbility; CmdUseCard; CmdUseItem;
     CmdBlackMarketBuy; CmdFireWeapon; CmdEquipItem; CmdReload; CmdDropItem; CmdCraftItem]).

Definition isContinuousInput (commandType : InputCommandType) : bool :=
  bool_decide (commandType ∈ [CmdMoveIntent; CmdAimIntent]).

Definition validateAbilityUsePayload (payload : AbilityUsePayload) : bool :=
  TrimSpace (ap_Ability payload) ≠? "".

Definition validateCardUsePayload (payload : CardUsePayload) : bool :=
  if (cp_TargetItem payload ≠? "") && negb (IsKnownItem (cp_TargetItem payload)) then false
  else if bool_decide (cp_Card payload ∈ [CardLockSnap; CardDoorStop]) then
    cp_TargetDoorID payload ≠? 0
  else if bool_decide (cp_Card payload ∈ [CardItemSteal; CardItemGrab]) then
    TrimSpace (cp_TargetPlayerID payload) ≠? ""
  else true.

(** The checks of the interact command. *)
Definition valid_interact (msg : InteractPayload) : bool :=
  if (ip_EscapeRoute msg ≠? "") && negb (IsKnownRoute (ip_EscapeRoute msg)) then false
  else if (ip_MarketRoomID msg ≠? "") && negb (IsNightlyBlackMarketCandidate (ip_MarketRoomID msg))
  then false
  else if (ip_NightCardChoice msg ≠? "") && negb (IsKnownCard (ip_NightCardChoice msg)) then false
  else if ip_StashAction msg ≠? "" then
    let action := ToLower (TrimSpace (ip_StashAction msg)) in
    if (action ≠? "deposit") && (action ≠? "withdraw") then false
    else negb ((ip_StashItem msg ≟ "") || negb (IsKnownItem (ip_StashItem msg)))
  else true.

(** A named item, weapon, card or ability that the predicate knows. *)
Definition named (name : string) (known : string → bool) : bool :=
  if TrimSpace name ≟ "" then false else known name.

Section queue.
Context `{!PayloadDecoder}.

Definition validateInputPayload (commandType : InputCommandType) (payload : string) :
    option game_error :=
  let decode {T} (unmarshal : string → option T) (accepts : T → bool) : option game_error :=
    if payload ≟ "" then Some ErrInvalidInputPayload
    else match unmarshal payload with
    | None => Some ErrInvalidInputPayload
    | Some msg => if accepts msg then None else Some ErrInvalidInputPayload
    end in
  if commandType ≟ CmdMoveIntent then decode decode_movement (λ _, true)
  else if commandType ≟ CmdAimIntent then decode decode_aim (λ _, true)
  else if commandType ≟ CmdInteract then decode decode_interact valid_interact
  else if commandType ≟ CmdUseAbility then
    decode decode_ability (λ msg, named (ap_Ability msg) IsKnownAbility && validateAbilityUsePayload msg)
  else if commandType ≟ CmdUseCard then
    decode decode_card (λ msg, named (cp_Card msg) IsKnownCard && validateCardUsePayload msg)
  else if commandType ≟ CmdUseItem then
    decode decode_item (λ msg, named (iu_Item msg) IsKnownItem)
  else if commandType ≟ CmdBlackMarketBuy then
    decode decode_market (λ msg, named (bp_Item msg)
      (λ item, bool_decide (is_Some (BlackMarketOfferForItem item))))
  else if commandType ≟ CmdFireWeapon then
    decode decode_fire (λ msg, named (fw_Weapon msg) IsSupportedWeapon)
  else if commandType ≟ CmdEquipItem then
    decode decode_equip (λ msg, named (eq_Item msg) IsSupportedWeapon)
  else if commandType ≟ CmdDropItem then
    decode decode_drop (λ msg, named (dr_Item msg) IsKnownItem)
  else if commandType ≟ CmdCraftItem then
    decode decode_craft (λ msg, named (cr_Item msg) (λ item, bool_decide (is_Some (RecipeFor item))))
  else if commandType ≟ CmdReload then None
  else Some ErrInvalidInputCommand.

(** ** Scheduling *)

Definition computeScheduledTick (currentTick requestedTick : Z) (commandType : InputCommandType) :
    game_error + Z :=
  let earliest := u64 (currentTick + 1) in
  let latest := u64 (currentTick + 2) in
  if requestedTick ≟ 0 then inr earliest
  else if requestedTick <? currentTick then
    if isContinuousInput commandType then inr earliest else inl ErrInputTooLateDropped
  else if requestedTick <? earliest then inr earliest
  else if latest <? requestedTick then inr latest
  else inr requestedTick.

(** What [pruneRateWindows] does to [acceptedByTick]. *)
Definition prune_windows (windows : gmap Z (gmap PlayerID Z)) (currentTick : Z) :
    gmap Z (gmap PlayerID Z) :=
  if currentTick <=? 3 then windows
  else filter (λ '(tickID, _), currentTick - 3 <= tickID) windows.

Definition pruneRateWindows (session : matchSession) (currentTick : Z) : matchSession :=
  session <| ss_acceptedByTick ::= λ windows, prune_windows windows currentTick |>.

Definition sortInputCommands (commands : list InputCommand) : list InputCommand :=
  sort_by key_le command_key commands.

Record InputSubmitResult := mkSubmitResult {
  sr_MatchID : MatchID; sr_PlayerID : PlayerID; sr_ClientSeq : Z; sr_IngressSeq : Z;
  sr_ScheduledTick : Z;
}.

(** The accepted command, queued, logged, marked as seen and counted. *)
Definition accept_input (session : matchSession) (now : Z) (playerID : PlayerID)
    (command : InputCommand) (scheduledTick : Z) : matchSession :=
  let currentTick := ss_tickID session in
  let ingress := u64 (ss_nextIngressSeq session + 1) in
  let command := command <| ic_PlayerID := playerID |> <| ic_IngressSeq := ingress |>
                         <| ic_TargetTick := scheduledTick |> in
  let session := session <| ss_nextIngressSeq := ingress |> in
  let session := session <| ss_scheduledInputs ::= λ scheduled,
    <[scheduledTick := default [] (scheduled !! scheduledTick) ++ [command]]> scheduled |> in
  let session := session <| ss_replayEntries ::= λ entries,
    entries ++ [mkReplayEntry scheduledTick ingress now command] |> in
  let session := session <| ss_seenClientSeq ::= λ seen,
    <[playerID := {[ic_ClientSeq command]} ∪ default ∅ (seen !! playerID)]> seen |> in
  let session := session <| ss_acceptedByTick ::= λ windows,
    let counters := default ∅ (windows !! currentTick) in
    <[currentTick := <[playerID := u8 (default 0 (counters !! playerID) + 1)]> counters]> windows |> in
  pruneRateWindows session currentTick.

(** The part of [SubmitInput] after the match is found.  The inner maps are created on
    the first use, even when the command is then refused. *)
Definition submit_to_session (matchID : MatchID) (session : matchSession) (now : Z)
    (playerID : PlayerID) (command : InputCommand) :
    matchSession * (game_error + InputSubmitResult) :=
  if ss_status session ≠? MatchStatusRunning then (session, inl ErrMatchNotRunning)
  else if negb (bool_decide (is_Some (ss_players session !! playerID))) then
    (session, inl ErrInputPlayerMismatch)
  else
    let seenForPlayer := default ∅ (ss_seenClientSeq session !! playerID) in
    let session := session <| ss_seenClientSeq ::= <[playerID := seenForPlayer]> |> in
    if bool_decide (ic_ClientSeq command ∈ seenForPlayer) then (session, inl ErrDuplicateInput)
    else
      let currentTick := ss_tickID session in
      let windowCounters := default ∅ (ss_acceptedByTick session !! currentTick) in
      let session := session <| ss_acceptedByTick ::= <[currentTick := windowCounters]> |> in
      if MaxAcceptedCommandsPerPlayerPerTick <=? default 0 (windowCounters !! playerID) then
        (session, inl ErrInputRateLimited)
      else match computeScheduledTick currentTick (ic_TargetTick command) (ic_Type command) with
      | inl err => (session, inl err)
      | inr scheduledTick =>
          let session := accept_input session now playerID command scheduledTick in
          (session, inr (mkSubmitResult matchID playerID (ic_ClientSeq command)
             (ss_nextIngressSeq session) scheduledTick))
      end.

Definition SubmitInput (m : Manager) (now : Z) (matchID : MatchID) (command : InputCommand) :
    Manager * (game_error + InputSubmitResult) :=
  let playerID := TrimSpace (ic_PlayerID command) in
  if (playerID ≟ "") || (ic_ClientSeq command ≟ 0) || (ic_Type command ≟ "") then
    (m, inl ErrInvalidInputCommand)
  else if negb (isSupportedInputCommand (ic_Type command)) then (m, inl ErrInvalidInputCommand)
  else match validateInputPayload (ic_Type command) (ic_Payload command) with
  | Some err => (m, inl err)
  | None =>
      match mg_matches m !! matchID with
      | None => (m, inl ErrMatchNotFound)
      | Some session =>
          let '(session, result) := submit_to_session matchID session now playerID command in
          (m <| mg_matches ::= <[matchID := session]> |>, result)
      end
  end.

(** The commands of a tick, removed from the queue and in order: [ConsumeScheduledInputs],
    and the same three lines of the tick loop. *)
Definition take_scheduled (session : matchSession) (tickID : Z) : list InputCommand * matchSession :=
  (sortInputCommands (default [] (ss_scheduledInputs session !! tickID)),
   session <| ss_scheduledInputs ::= delete tickID |>).

Definition ConsumeScheduledInputs (m : Manager) (matchID : MatchID) (tickID : Z) :
    Manager * (game_error + list InputCommand) :=
  match mg_matches m !! matchID with
  | None => (m, inl ErrMatchNotFound)
  | Some session =>
      let '(out, session) := take_scheduled session tickID in
      (m <| mg_matches ::= <[matchID := session]> |>, inr out)
  end.

Definition PendingInputCounts (m : Manager) (matchID : MatchID) : game_error + gmap Z nat :=
  match mg_matches m !! matchID with
  | None => inl ErrMatchNotFound
  | Some session => inr ((λ commands, length commands) <$> ss_scheduledInputs session)
  end.

(** The head of the tick loop: the tick counter moves and the tick's commands are taken. *)
Definition begin_tick (session : matchSession) : list InputCommand * matchSession :=
  let session := session <| ss_tickID ::= λ tick, u64 (tick + 1) |> in
  let session := session <| ss_gameState ::= λ state, state <| gs_TickID := ss_tickID session |> |> in
  take_scheduled session (ss_tickID session).

End queue.

(** ** Scheduling: a clamp *)

Lemma computeScheduledTick_clamp currentTick requestedTick commandType :
  0 <= currentTick → currentTick + 2 < 2 ^ 64 → 0 <= requestedTick →
  computeScheduledTick currentTick requestedTick commandType =
    if decide (0 < requestedTick < currentTick ∧ isContinuousInput commandType = false)
    then inl ErrInputTooLateDropped
    else inr (Z.max (currentTick + 1) (Z.min (currentTick + 2) requestedTick)).
Proof.
  intros Hc Hmax Hr. unfold computeScheduledTick. rewrite !u64_small by (unfold is_u64; lia).
  destruct (decide (requestedTick = 0)) as [->|Hne].
  { rewrite bool_decide_true, decide_False by (done || lia). f_equal. lia. }
  rewrite bool_decide_false by done.
  destruct (isContinuousInput commandType); case_tests; case_decide; try f_equal; try lia; done || lia.
Qed.

(** A command is scheduled for the tick it asks for if that is one of the next two,
    and else for the nearer of them; only a command that is not continuous and names a
    tick that has passed is refused. *)
Theorem computeScheduledTick_spec currentTick requestedTick commandType
    (Hc : 0 <= currentTick) (Hmax : currentTick + 2 < 2 ^ 64) (Hr : 0 <= requestedTick) :
  (computeScheduledTick currentTick requestedTick commandType = inl ErrInputTooLateDropped ↔
     0 < requestedTick < currentTick ∧ commandType ≠ CmdMoveIntent ∧ commandType ≠ CmdAimIntent) ∧
  (∀ err, computeScheduledTick currentTick requestedTick commandType = inl err →
     err = ErrInputTooLateDropped) ∧
  ∀ tick, computeScheduledTick currentTick requestedTick commandType = inr tick →
    (currentTick < tick <= currentTick + 2) ∧
    (currentTick < requestedTick <= currentTick + 2 → tick = requestedTick) ∧
    (∀ other, currentTick < other <= currentTick + 2 →
      0 < requestedTick → Z.abs (tick - requestedTick) <= Z.abs (other - requestedTick)).
Proof.
  rewrite computeScheduledTick_clamp by done.
  assert (isContinuousInput commandType = false ↔
    commandType ≠ CmdMoveIntent ∧ commandType ≠ CmdAimIntent) as Hcont.
  { unfold isContinuousInput. rewrite bool_decide_eq_false, not_elem_of_cons.
    rewrite list_elem_of_singleton. done. }
  case_decide as Hd; rewrite Hcont in Hd.
  - split_and!; [done|intros err [=]; done|done].
  - split_and!; [split; [done|tauto]|done|].
    intros tick [= <-]. split_and!; lia.
Qed.

Lemma computeScheduledTick_spec_witness :
  computeScheduledTick 10 11 "interact" = inr 11 ∧ (11 <= 12).
Proof.
  destruct (computeScheduledTick_spec 10 11 "interact") as (_ & _ & H); [lia..|].
  assert (computeScheduledTick 10 11 "interact" = inr 11) as He by reflexivity.
  split; [exact He|]. destruct (H 11 He) as [Hb _]. lia.
Defined.

(** ** What the queue of a session is *)

Definition seen_by (session : matchSession) (playerID : PlayerID) : gset Z :=
  default ∅ (ss_seenClientSeq session !! playerID).
Definition accepted_in (session : matchSession) (tickID : Z) (playerID : PlayerID) : Z :=
  default 0 (default ∅ (ss_acceptedByTick session !! tickID) !! playerID).

(** Two sessions with the same queue: an inner map that is there and empty counts as one
    that is not there. *)
Record same_queue (s s' : matchSession) : Prop := mkSameQueue {
  sq_status : ss_status s = ss_status s';
  sq_tickID : ss_tickID s = ss_tickID s';
  sq_players : ss_players s = ss_players s';
  sq_ingress : ss_nextIngressSeq s = ss_nextIngressSeq s';
  sq_scheduled : ss_scheduledInputs s = ss_scheduledInputs s';
  sq_replay : ss_replayEntries s = ss_replayEntries s';
  sq_seen : ∀ playerID, seen_by s playerID = seen_by s' playerID;
  sq_accepted : ∀ tickID playerID, accepted_in s tickID playerID = accepted_in s' tickID playerID;
}.

#[export] Instance same_queue_equiv : Equivalence same_queue.
Proof.
  split.
  - intros s. by constructor.
  - intros s s' []. by constructor.
  - intros s1 s2 s3 [] []. constructor; intros; etrans; eauto.
Qed.

(** Creating the inner map of a key that has none changes nothing. *)
Lemma default_insert_same `{Countable K} {A} (d : A) (m : gmap K A) k k' :
  default d (<[k := default d (m !! k)]> m !! k') = default d (m !! k').
Proof.
  destruct (decide (k = k')) as [<-|]; [by rewrite lookup_insert_eq|by rewrite lookup_insert_ne].
Qed.

Lemma seen_touch_same session playerID :
  same_queue session (session <| ss_seenClientSeq ::= <[playerID := seen_by session playerID]> |>).
Proof.
  apply mkSameQueue; try reflexivity.
  intros p. unfold seen_by. symmetry. apply (default_insert_same ∅ (ss_seenClientSeq session)).
Qed.

Lemma window_touch_same session tick :
  same_queue session (session <| ss_acceptedByTick ::=
    <[tick := default ∅ (ss_acceptedByTick session !! tick)]> |>).
Proof.
  apply mkSameQueue; try reflexivity.
  intros t p. symmetry. exact (f_equal (λ w, default 0 (w !! p))
    (default_insert_same ∅ (ss_acceptedByTick session) tick t)).
Qed.

(** ** Accepting a command *)

Definition stored (s : matchSession) (playerID : PlayerID) (command : InputCommand) (tick : Z) :
    InputCommand :=
  command <| ic_PlayerID := playerID |> <| ic_IngressSeq := u64 (ss_nextIngressSeq s + 1) |>
          <| ic_TargetTick := tick |>.

(** What accepting [command] for [tick] does to the queue, and that it does nothing else. *)
Record queue_accepts (s : matchSession) (now : Z) (playerID : PlayerID) (command : InputCommand)
    (tick : Z) (s' : matchSession) : Prop := mkQueueAccepts {
  qa_status : ss_status s' = ss_status s;
  qa_tickID : ss_tickID s' = ss_tickID s;
  qa_players : ss_players s' = ss_players s;
  qa_ingress : ss_nextIngressSeq s' = u64 (ss_nextIngressSeq s + 1);
  qa_scheduled : ss_scheduledInputs s' =
    <[tick := default [] (ss_scheduledInputs s !! tick) ++ [stored s playerID command tick]]>
      (ss_scheduledInputs s);
  qa_replay : ss_replayEntries s' = ss_replayEntries s ++
    [mkReplayEntry tick (u64 (ss_nextIngressSeq s + 1)) now (stored s playerID command tick)];
  qa_seen : ∀ p, seen_by s' p =
    if decide (p = playerID) then {[ic_ClientSeq command]} ∪ seen_by s p else seen_by s p;
  qa_accepted : ∀ t p, ss_tickID s - 3 <= t → accepted_in s' t p =
    if decide (t = ss_tickID s ∧ p = playerID) then u8 (accepted_in s t p + 1) else accepted_in s t p;
  qa_pruned : ∀ t p, accepted_in s' t p = 0 ∨ ss_tickID s - 3 <= t ∨ ss_tickID s <= 3;
}.

Lemma accepted_in_prune windows current t p :
  default 0 (default ∅ (prune_windows windows current !! t) !! p) =
    if decide (current <= 3 ∨ current - 3 <= t) then default 0 (default ∅ (windows !! t) !! p : option Z)
    else 0.
Proof.
  unfold prune_windows. destruct (current <=? 3) eqn:Hc; bool_props.
  { by rewrite decide_True by (by left). }
  rewrite map_lookup_filter. destruct (windows !! t) as [w|]; simpl.
  - case_guard; simpl; case_decide; try done; lia.
  - by case_decide.
Qed.

Lemma accept_input_queue s now playerID command tick :
  queue_accepts s now playerID command tick (accept_input s now playerID command tick).
Proof.
  assert (∀ t p, accepted_in (accept_input s now playerID command tick) t p =
    if decide (ss_tickID s <= 3 ∨ ss_tickID s - 3 <= t) then
      if decide (t = ss_tickID s ∧ p = playerID) then u8 (accepted_in s t p + 1) else accepted_in s t p
    else 0) as Hacc.
  { intros t p. unfold accepted_in at 1. etrans; [apply accepted_in_prune|].
    case_decide; [|done]. change (ss_acceptedByTick ?x) with (ss_acceptedByTick x).
    cbn [field_update ss_tickID ss_acceptedByTick ss_seenClientSeq ss_nextIngressSeq].
    destruct (decide (t = ss_tickID s)) as [->|Ht].
    - rewrite lookup_insert_eq. simpl. destruct (decide (p = playerID)) as [->|Hp].
      + rewrite lookup_insert_eq, decide_True by done. reflexivity.
      + rewrite lookup_insert_ne, decide_False by naive_solver. reflexivity.
    - rewrite lookup_insert_ne, decide_False by naive_solver. reflexivity. }
  apply mkQueueAccepts; try reflexivity.
  - intros p. change (seen_by (accept_input s now playerID command tick) p) with (default ∅
      (<[playerID := {[ic_ClientSeq command]} ∪ default ∅ (ss_seenClientSeq s !! playerID)]>
        (ss_seenClientSeq s) !! p)).
    destruct (decide (p = playerID)) as [->|Hp]; [by rewrite lookup_insert_eq|].
    by rewrite lookup_insert_ne.
  - intros t p Ht. rewrite Hacc.
    destruct (decide (ss_tickID s <= 3 ∨ ss_tickID s - 3 <= t)); [done|lia].
  - intros t p. rewrite Hacc.
    destruct (decide (ss_tickID s <= 3 ∨ ss_tickID s - 3 <= t)); [tauto|by left].
Qed.

Lemma queue_accepts_same s s0 now playerID command tick s' :
  same_queue s s0 → queue_accepts s0 now playerID command tick s' →
  queue_accepts s now playerID command tick s'.
Proof.
  intros [E1 E2 E3 E4 E5 E6 E7 E8] [A1 A2 A3 A4 A5 A6 A7 A8 A9].
  unfold stored in *. apply mkQueueAccepts; unfold stored; rewrite ?E1, ?E2, ?E3, ?E4, ?E5, ?E6; try done.
  - intros p. rewrite E7. apply A7.
  - intros t p Ht. rewrite E8. by apply A8.
Qed.

(** When a session accepts a command. *)
Record may_submit (s : matchSession) (playerID : PlayerID) (command : InputCommand) : Prop :=
  mkMaySubmit {
  may_running : ss_status s = MatchStatusRunning;
  may_joined : is_Some (ss_players s !! playerID);
  may_fresh : ic_ClientSeq command ∉ seen_by s playerID;
  may_rate : accepted_in s (ss_tickID s) playerID < MaxAcceptedCommandsPerPlayerPerTick;
}.

Lemma submit_to_session_cases matchID s now playerID command s' result :
  submit_to_session matchID s now playerID command = (s', result) →
  match result with
  | inl err => same_queue s s' ∧
      (may_submit s playerID command →
        computeScheduledTick (ss_tickID s) (ic_TargetTick command) (ic_Type command) = inl err)
  | inr res =>
      may_submit s playerID command ∧
      computeScheduledTick (ss_tickID s) (ic_TargetTick command) (ic_Type command) =
        inr (sr_ScheduledTick res) ∧
      queue_accepts s now playerID command (sr_ScheduledTick res) s' ∧
      res = mkSubmitResult matchID playerID (ic_ClientSeq command) (ss_nextIngressSeq s')
              (sr_ScheduledTick res)
  end.
Proof.
  unfold submit_to_session.
  destruct (bool_decide (ss_status s = MatchStatusRunning)) eqn:Hrun; bool_props; cbn [negb];
    [|intros [= <- <-]; split; [done|by intros []]].
  destruct (bool_decide (is_Some (ss_players s !! playerID))) eqn:Hjoin; bool_props; cbn [negb];
    [|intros [= <- <-]; split; [done|by intros []]].
  set (s1 := s <| ss_seenClientSeq ::= _ |>).
  assert (same_queue s s1) as H1 by apply seen_touch_same.
  fold (seen_by s playerID). destruct (bool_decide (ic_ClientSeq command ∈ seen_by s playerID)) eqn:Hseen;
    bool_props; [intros [= <- <-]; split; [done|by intros []]|].
  set (s2 := s1 <| ss_acceptedByTick ::= _ |>).
  assert (same_queue s s2) as H2 by (etrans; [exact H1|apply window_touch_same]).
  change (default 0 (default ∅ (ss_acceptedByTick s1 !! ss_tickID s1) !! playerID)) with
    (accepted_in s1 (ss_tickID s1) playerID).
  rewrite <-(sq_accepted _ _ H1), <-(sq_tickID _ _ H1).
  destruct (_ <=? accepted_in s (ss_tickID s) playerID) eqn:Hrate; bool_props;
    [intros [= <- <-]; split; [done|]; intros [_ _ _ Hr]; lia|].
  assert (may_submit s playerID command) as Hmay by (by constructor).
  destruct (computeScheduledTick _ _ _) as [err|tick] eqn:Hsch; intros [= <- <-]; [by split|].
  split_and!; [done|done| |reflexivity].
  eapply queue_accepts_same; [exact H2|]. apply accept_input_queue.
Qed.

(** ** Submitting *)

Section submitting.
Context `{!PayloadDecoder}.

(** The checks that need no match. *)
Definition well_formed (command : InputCommand) : Prop :=
  TrimSpace (ic_PlayerID command) ≠ "" ∧ ic_ClientSeq command ≠ 0 ∧
  validateInputPayload (ic_Type command) (ic_Payload command) = None.

Lemma valid_type_supported commandType payload :
  validateInputPayload commandType payload = None →
  commandType ≠ "" ∧ isSupportedInputCommand commandType = true.
Proof.
  intros Hv. assert (isSupportedInputCommand commandType = true) as Hs.
  { destruct (isSupportedInputCommand commandType) eqn:Hs; [done|]. exfalso. revert Hv.
    unfold isSupportedInputCommand in Hs. apply bool_decide_eq_false in Hs.
    rewrite !not_elem_of_cons in Hs.
    destruct Hs as (? & ? & ? & ? & ? & ? & ? & ? & ? & ? & ? & ? & _).
    unfold validateInputPayload. rewrite !bool_decide_false by done. done. }
  split; [|done]. intros ->. by vm_compute in Hs.
Qed.

(** C12: A submitted command is accepted exactly when it is well formed, the match is
    running, the player has joined it, the player's sequence number is new, the player
    has had fewer than eight commands accepted in this tick and the command is not too
    late; it then gets the next ingress number and is queued and logged once, for the
    tick it is scheduled for.  A command that is refused leaves every queue as it was. *)
Theorem SubmitInput_spec m now matchID command :
  let playerID := TrimSpace (ic_PlayerID command) in
  let m' := (SubmitInput m now matchID command).1 in
  match (SubmitInput m now matchID command).2 with
  | inl err =>
      (∀ id, option_Forall2 same_queue (mg_matches m !! id) (mg_matches m' !! id)) ∧
      ∀ s, well_formed command → mg_matches m !! matchID = Some s → may_submit s playerID command →
        computeScheduledTick (ss_tickID s) (ic_TargetTick command) (ic_Type command) = inl err
  | inr res =>
      ∃ s s', well_formed command ∧ mg_matches m !! matchID = Some s ∧ may_submit s playerID command ∧
        computeScheduledTick (ss_tickID s) (ic_TargetTick command) (ic_Type command) =
          inr (sr_ScheduledTick res) ∧
        m' = m <| mg_matches ::= <[matchID := s']> |> ∧
        queue_accepts s now playerID command (sr_ScheduledTick res) s' ∧
        res = mkSubmitResult matchID playerID (ic_ClientSeq command) (ss_nextIngressSeq s')
                (sr_ScheduledTick res)
  end.
Proof.
  cbv zeta. assert (∀ id, option_Forall2 same_queue (mg_matches m !! id) (mg_matches m !! id)) as Hrefl.
  { intros id. destruct (mg_matches m !! id); constructor. done. }
  unfold SubmitInput, well_formed. set (playerID := TrimSpace (ic_PlayerID command)).
  destruct (bool_decide (playerID = "")) eqn:H1; bool_props; [split; [done|tauto]|].
  destruct (bool_decide (ic_ClientSeq command = 0)) eqn:H2; bool_props; [split; [done|tauto]|].
  destruct (validateInputPayload (ic_Type command) (ic_Payload command)) as [err|] eqn:Hv.
  { destruct (bool_decide (ic_Type command = "")); [split; [done|naive_solver]|]. cbn [orb].
    destruct (isSupportedInputCommand _); (split; [done|naive_solver]). }
  destruct (valid_type_supported _ _ Hv) as [Ht Hs].
  rewrite Hs, bool_decide_false by done. cbn [orb negb].
  destruct (mg_matches m !! matchID) as [s|] eqn:Hm; [|split; [done|naive_solver]].
  destruct (submit_to_session matchID s now playerID command) as [s' [err|res]] eqn:Hsub;
    apply submit_to_session_cases in Hsub; cbn [fst snd].
  - destruct Hsub as [Hsame Hno]. split; [|intros s0 _ [= <-]; auto].
    intros id. change (mg_matches (m <| mg_matches ::= <[matchID := s']> |>)) with
      (<[matchID := s']> (mg_matches m)).
    destruct (decide (matchID = id)) as [<-|Hid].
    + rewrite Hm, lookup_insert_eq. by constructor.
    + by rewrite lookup_insert_ne.
  - destruct Hsub as (Hmay & Hsch & Hacc & Hres). exists s, s'. by split_and!.
Qed.

End submitting.

(** ** A running match

    The queue of a session, with what was accepted and when, and what each tick was
    given.  A step is a submission, the head of a tick, or anything else the server does
    to a session between the two that leaves the queue alone.  The counters are 64 bits
    wide; a step that would wrap one is not considered. *)

Record queue_run := mkRun {
  qr_session : matchSession;
  qr_accepted : list (Z * InputCommand);
  qr_delivered : list (Z * list InputCommand);
}.

Inductive queue_step : queue_run → queue_run → Prop :=
  | step_submit s acc del matchID now playerID command s' result :
      0 <= ic_TargetTick command → ss_tickID s + 2 < 2 ^ 64 → ss_nextIngressSeq s + 1 < 2 ^ 64 →
      submit_to_session matchID s now playerID command = (s', result) →
      queue_step (mkRun s acc del)
        (mkRun s' (acc ++ match result with
                          | inl _ => []
                          | inr res => [(ss_tickID s, stored s playerID command (sr_ScheduledTick res))]
                          end) del)
  | step_tick s acc del commands s' :
      ss_tickID s + 1 < 2 ^ 64 → begin_tick s = (commands, s') →
      queue_step (mkRun s acc del) (mkRun s' acc (del ++ [(ss_tickID s', commands)]))
  | step_other s acc del s' :
      same_queue s s' → queue_step (mkRun s acc del) (mkRun s' acc del).

(** The queue of a match that has just started. *)
Record fresh_queue (s : matchSession) : Prop := mkFresh {
  fq_tickID : ss_tickID s = 0;
  fq_ingress : ss_nextIngressSeq s = 0;
  fq_scheduled : ss_scheduledInputs s = ∅;
  fq_replay : ss_replayEntries s = [];
  fq_accepted : ss_acceptedByTick s = ∅;
}.

(** The commands accepted for a tick, in the order in which they were accepted. *)
Definition batch (acc : list (Z * InputCommand)) (tick : Z) : list InputCommand :=
  filter (λ c, ic_TargetTick c = tick) (snd <$> acc).

(** How many commands of a player a tick accepted. *)
Definition accepted_at (acc : list (Z * InputCommand)) (tick : Z) (playerID : PlayerID) : Z :=
  Z.of_nat (length (filter (λ e, e.1 = tick ∧ ic_PlayerID e.2 = playerID) acc)).

Record queue_inv (r : queue_run) : Prop := mkQueueInv {
  qi_tick : 0 <= ss_tickID (qr_session r);
  qi_delivered : qr_delivered r =
    map (λ t, (t, batch (qr_accepted r) t)) (seqZ 1 (ss_tickID (qr_session r)));
  qi_pending : ∀ t, default [] (ss_scheduledInputs (qr_session r) !! t) =
    if decide (ss_tickID (qr_session r) < t) then batch (qr_accepted r) t else [];
  qi_replay : map re_Command (ss_replayEntries (qr_session r)) = snd <$> qr_accepted r;
  qi_entries : ∀ e, e ∈ ss_replayEntries (qr_session r) →
    re_AcceptedTick e = ic_TargetTick (re_Command e) ∧ re_IngressSeq e = ic_IngressSeq (re_Command e);
  qi_ingress : ss_nextIngressSeq (qr_session r) = Z.of_nat (length (qr_accepted r));
  qi_numbers : ic_IngressSeq <$> (snd <$> qr_accepted r) = seqZ 1 (Z.of_nat (length (qr_accepted r)));
  qi_window : ∀ e, e ∈ qr_accepted r →
    e.1 <= ss_tickID (qr_session r) ∧ e.1 < ic_TargetTick e.2 <= e.1 + 2;
  qi_fresh : NoDup (input_key <$> (snd <$> qr_accepted r));
  qi_seen : ∀ e, e ∈ qr_accepted r → ic_ClientSeq e.2 ∈ seen_by (qr_session r) (ic_PlayerID e.2);
  qi_rate : ∀ t p, accepted_at (qr_accepted r) t p <= MaxAcceptedCommandsPerPlayerPerTick;
  qi_count : ∀ p, accepted_in (qr_session r) (ss_tickID (qr_session r)) p =
    accepted_at (qr_accepted r) (ss_tickID (qr_session r)) p;
  qi_future : ∀ t p, ss_tickID (qr_session r) < t → accepted_in (qr_session r) t p = 0;
}.

Lemma batch_snoc acc tick c t :
  batch (acc ++ [(tick, c)]) t = batch acc t ++ (if decide (ic_TargetTick c = t) then [c] else []).
Proof. unfold batch. rewrite fmap_app, filter_app. simpl. by rewrite filter_cons, filter_nil. Qed.

Lemma accepted_at_snoc acc tick c t p :
  accepted_at (acc ++ [(tick, c)]) t p =
    accepted_at acc t p + (if decide (tick = t ∧ ic_PlayerID c = p) then 1 else 0).
Proof.
  unfold accepted_at. rewrite filter_app, length_app, filter_cons, filter_nil. simpl.
  case_decide; simpl; lia.
Qed.

Lemma accepted_at_none acc t p :
  (∀ e, e ∈ acc → e.1 ≠ t) → accepted_at acc t p = 0.
Proof.
  intros H. unfold accepted_at.
  induction acc as [|e acc IH]; [done|]. rewrite filter_cons, decide_False.
  - apply IH. intros e' He'. apply H, elem_of_cons. by right.
  - intros [He _]. by apply (H e); [apply elem_of_cons; left|].
Qed.

(** Commands numbered in order are in the order of [sortInputCommands]. *)
Lemma numbered_sorted acc n :
  ic_IngressSeq <$> (snd <$> acc) = seqZ n (Z.of_nat (length acc)) →
  StronglySorted (λ c d, ic_IngressSeq c < ic_IngressSeq d) (snd <$> (acc : list (Z * InputCommand))).
Proof.
  revert n. induction acc as [|[a c] acc IH]; intros n; [constructor|].
  rewrite !fmap_cons. cbn [length]. rewrite seqZ_cons by lia. intros [= Hc Hr].
  replace (Z.pred (Z.of_nat (S (length acc)))) with (Z.of_nat (length acc)) in Hr by lia.
  constructor; [by eapply IH|]. rewrite Forall_forall. intros d Hd.
  assert (ic_IngressSeq d ∈ ic_IngressSeq <$> (snd <$> acc)) as Hin by by apply list_elem_of_fmap_2.
  rewrite Hr, elem_of_seqZ in Hin. simpl in *. lia.
Qed.

Lemma sort_numbered l :
  StronglySorted (λ c d, ic_IngressSeq c < ic_IngressSeq d) l → sort_by key_le command_key l = l.
Proof.
  intros Hn. symmetry. apply sort_by_unique; [apply _..| |done|].
  - induction Hn as [|c l Hl IH Hc]; [constructor|]. rewrite fmap_cons. constructor; [|done].
    intros (d & Heq & Hd)%list_elem_of_fmap. apply (f_equal fst) in Heq. simpl in Heq.
    rewrite Forall_forall in Hc. apply Hc in Hd. lia.
  - induction Hn as [|c l Hl IH Hc]; constructor; [done|].
    eapply Forall_impl; [exact Hc|]. intros d Hd. simpl in Hd.
    unfold on_key, key_le, lex_le, command_key. simpl. rewrite decide_False by lia. lia.
Qed.

Lemma batch_sorted acc t :
  ic_IngressSeq <$> (snd <$> acc) = seqZ 1 (Z.of_nat (length acc)) →
  sortInputCommands (batch acc t) = batch acc t.
Proof.
  intros Hn. apply sort_numbered. eapply StronglySorted_sublist; [apply sublist_filter|].
  by eapply numbered_sorted.
Qed.

Lemma seqZ_snoc n : 0 <= n → seqZ 1 (n + 1) = seqZ 1 n ++ [n + 1].
Proof.
  intros Hn. rewrite seqZ_app by lia. f_equal. rewrite seqZ_cons, seqZ_nil by lia.
  f_equal. lia.
Qed.

Lemma fresh_queue_inv s : fresh_queue s → queue_inv (mkRun s [] []).
Proof.
  intros [Ht Hi Hs Hr Ha]. split; simpl; rewrite ?Ht, ?Hi, ?Hs, ?Hr; try done.
  - intros t. rewrite lookup_empty. by case_decide.
  - by intros e ?%elem_of_nil.
  - by intros e ?%elem_of_nil.
  - constructor.
  - by intros e ?%elem_of_nil.
  - intros p. unfold accepted_in. by rewrite Ha, lookup_empty.
  - intros t p _. unfold accepted_in. by rewrite Ha, lookup_empty.
Qed.

Lemma queue_inv_same s s' acc del :
  same_queue s s' → queue_inv (mkRun s acc del) → queue_inv (mkRun s' acc del).
Proof.
  intros [E1 E2 E3 E4 E5 E6 E7 E8] []; split; simpl in *; rewrite <-?E2, <-?E4, <-?E5, <-?E6; try done;
    intros; rewrite <-?E7, <-?E8; auto.
Qed.

Lemma begin_tick_queue s commands s' :
  begin_tick s = (commands, s') →
  commands = sortInputCommands (default [] (ss_scheduledInputs s !! u64 (ss_tickID s + 1))) ∧
  ss_tickID s' = u64 (ss_tickID s + 1) ∧
  ss_scheduledInputs s' = delete (u64 (ss_tickID s + 1)) (ss_scheduledInputs s) ∧
  ss_replayEntries s' = ss_replayEntries s ∧ ss_nextIngressSeq s' = ss_nextIngressSeq s ∧
  (∀ p, seen_by s' p = seen_by s p) ∧ ∀ t p, accepted_in s' t p = accepted_in s t p.
Proof. intros [= <- <-]. by split_and!. Qed.

Lemma queue_inv_tick s acc del commands s' :
  ss_tickID s + 1 < 2 ^ 64 → begin_tick s = (commands, s') → queue_inv (mkRun s acc del) →
  queue_inv (mkRun s' acc (del ++ [(ss_tickID s', commands)])).
Proof.
  intros Hroom (-> & B2 & B3 & B4 & B5 & B6 & B7)%begin_tick_queue []; simpl in *.
  rewrite u64_small in * by (unfold is_u64; lia).
  split; simpl; rewrite ?B2, ?B3, ?B4, ?B5; try done.
  - lia.
  - rewrite qi_delivered0, qi_pending0, decide_True, batch_sorted by (done || lia).
    by rewrite seqZ_snoc, map_app by lia.
  - intros t. destruct (decide (t = ss_tickID s + 1)) as [->|Hne].
    + rewrite lookup_delete_eq. by rewrite decide_False by lia.
    + rewrite lookup_delete_ne, qi_pending0 by done.
      destruct (decide (ss_tickID s < t)), (decide (ss_tickID s + 1 < t)); done || lia.
  - intros e He. destruct (qi_window0 e He). split; [lia|done].
  - intros e. rewrite B6. apply qi_seen0.
  - intros p. rewrite B7, qi_future0 by lia. symmetry. apply accepted_at_none.
    intros e He. destruct (qi_window0 e He). lia.
  - intros t p Ht. rewrite B7. apply qi_future0. lia.
Qed.

Lemma queue_inv_submit s acc del matchID now playerID command s' res :
  0 <= ic_TargetTick command → ss_tickID s + 2 < 2 ^ 64 → ss_nextIngressSeq s + 1 < 2 ^ 64 →
  submit_to_session matchID s now playerID command = (s', inr res) →
  queue_inv (mkRun s acc del) →
  queue_inv (mkRun s'
    (acc ++ [(ss_tickID s, stored s playerID command (sr_ScheduledTick res))]) del).
Proof.
  intros Htgt Htick Hing Hsub []; simpl in *.
  apply submit_to_session_cases in Hsub as (Hmay & Hsch & Hacc & _).
  destruct Hmay as [_ _ Hnew Hrate], Hacc as [_ A2 _ A4 A5 A6 A7 A8 _].
  rewrite computeScheduledTick_clamp in Hsch by done. case_decide; [done|]. injection Hsch as Hsch.
  rewrite u64_small in * by (unfold is_u64; lia).
  set (tick := sr_ScheduledTick res) in *. set (c := stored s playerID command tick) in *.
  assert (ic_TargetTick c = tick ∧ ic_PlayerID c = playerID ∧ ic_ClientSeq c = ic_ClientSeq command ∧
    ic_IngressSeq c = ss_nextIngressSeq s + 1) as (Ec1 & Ec2 & Ec3 & Ec4).
  { unfold c, stored. rewrite u64_small by (unfold is_u64; lia). done. }
  clearbody c. split; simpl; rewrite ?A2, ?A4, ?A6.
  - done.
  - rewrite qi_delivered0. apply map_ext_in. intros t Ht%list_elem_of_In%elem_of_seqZ.
    rewrite batch_snoc, Ec1, decide_False by lia. by rewrite app_nil_r.
  - intros t. rewrite A5, batch_snoc, Ec1.
    destruct (decide (tick = t)) as [<-|Hne].
    + rewrite lookup_insert_eq, decide_True, qi_pending0, decide_True by lia. done.
    + rewrite lookup_insert_ne, qi_pending0 by done. by rewrite app_nil_r.
  - rewrite map_app, qi_replay0, fmap_app. done.
  - intros e. rewrite elem_of_app, list_elem_of_singleton. intros [He| ->]; [auto|].
    split; symmetry; [exact Ec1|exact Ec4].
  - rewrite length_app, qi_ingress0. simpl. lia.
  - rewrite !fmap_app, qi_numbers0, length_app. simpl. rewrite Ec4, qi_ingress0.
    by rewrite Nat2Z.inj_add, seqZ_snoc by lia.
  - intros e. rewrite elem_of_app, list_elem_of_singleton. intros [He| ->]; [auto|].
    change (ss_tickID s <= ss_tickID s ∧ ss_tickID s < ic_TargetTick c <= ss_tickID s + 2).
    rewrite Ec1. lia.
  - rewrite !fmap_app, NoDup_app. split_and!; [done| |apply NoDup_singleton].
    intros k (d & -> & (e & -> & He)%list_elem_of_fmap)%list_elem_of_fmap.
    rewrite !list_fmap_singleton, list_elem_of_singleton.
    unfold input_key. cbn [snd]. rewrite Ec2, Ec3.
    intros [= Hp Hc]. apply Hnew. rewrite <-Hp, <-Hc. auto.
  - intros e. rewrite A7, elem_of_app, list_elem_of_singleton. intros [He| ->].
    + case_decide; [apply elem_of_union; right|]; auto.
    + simpl. rewrite Ec2, Ec3, decide_True by done. set_solver.
  - intros t p. rewrite accepted_at_snoc, Ec2. case_decide as Hd; [|rewrite Z.add_0_r; auto].
    destruct Hd as [<- <-]. rewrite qi_count0 in Hrate. unfold MaxAcceptedCommandsPerPlayerPerTick in *. lia.
  - intros p. rewrite A8, accepted_at_snoc, Ec2 by lia. rewrite qi_count0.
    destruct (decide (playerID = p)) as [<-|Hne].
    + rewrite !decide_True by done. apply u8_small. rewrite qi_count0 in Hrate.
      unfold is_u8, accepted_at, MaxAcceptedCommandsPerPlayerPerTick in *. lia.
    + rewrite !decide_False by naive_solver. lia.
  - intros t p Ht. rewrite A8, decide_False by lia. by apply qi_future0.
Qed.

Lemma queue_step_inv r r' : queue_step r r' → queue_inv r → queue_inv r'.
Proof.
  intros [s acc del matchID now playerID command s' [err|res] Ht Hr1 Hr2 Hsub|
          s acc del commands s' Hr Hb|s acc del s' Hs] Hinv.
  - apply submit_to_session_cases in Hsub as [Hsame _]. rewrite app_nil_r. by eapply queue_inv_same.
  - by eapply queue_inv_submit.
  - by eapply queue_inv_tick.
  - by eapply queue_inv_same.
Qed.

Lemma queue_run_inv s r :
  fresh_queue s → rtc queue_step (mkRun s [] []) r → queue_inv r.
Proof.
  intros Hs Hr. apply fresh_queue_inv in Hs. revert Hs.
  induction Hr as [|x y z Hxy _ IH]; [done|]. intros Hx. apply IH. by eapply queue_step_inv.
Qed.

Lemma queue_targets s r e :
  fresh_queue s → rtc queue_step (mkRun s [] []) r → e ∈ qr_accepted r → 0 <= e.1.
Proof.
  intros Hs Hr. apply fresh_queue_inv in Hs.
  cut (queue_inv r ∧ ∀ e, e ∈ qr_accepted r → 0 <= e.1); [intros [_ H]; auto|].
  assert (queue_inv (mkRun s [] []) ∧ ∀ e, e ∈ qr_accepted (mkRun s [] []) → 0 <= e.1) as H0
    by (split; [done|by intros ? ?%elem_of_nil]).
  clear Hs. induction Hr as [|x y z Hxy _ IH]; [done|]. apply IH. destruct H0 as [Hinv Hx].
  split; [by eapply queue_step_inv|].
  destruct Hxy as [? ? ? ? ? ? ? ? [|res]| |]; simpl in *; intros e'; rewrite ?app_nil_r; auto.
  rewrite elem_of_app, list_elem_of_singleton. intros [?| ->]; [auto|]. exact (qi_tick _ Hinv).
Qed.

(** ** What a running match guarantees *)

(** C1: However submissions and ticks interleave, tick [t] is given exactly the commands
    accepted for it, in the order in which they were accepted; no player's sequence
    number is accepted twice; what is not yet given is still queued under its tick; and
    the replay log is the list of accepted commands, numbered from one without a gap. *)
Theorem queue_delivers_accepted s r
    (Hs : fresh_queue s) (Hr : rtc queue_step (mkRun s [] []) r) :
  let acc := qr_accepted r in
  let s' := qr_session r in
  qr_delivered r = map (λ t, (t, batch acc t)) (seqZ 1 (ss_tickID s')) ∧
  (∀ t, ss_tickID s' < t → default [] (ss_scheduledInputs s' !! t) = batch acc t) ∧
  (∀ t, t <= ss_tickID s' → default [] (ss_scheduledInputs s' !! t) = []) ∧
  NoDup (input_key <$> (snd <$> acc)) ∧
  map re_Command (ss_replayEntries s') = snd <$> acc ∧
  map re_IngressSeq (ss_replayEntries s') = seqZ 1 (Z.of_nat (length acc)) ∧
  ∀ e, e ∈ ss_replayEntries s' → re_AcceptedTick e = ic_TargetTick (re_Command e).
Proof.
  destruct (queue_run_inv s r Hs Hr). cbv zeta. split_and!; try done.
  - intros t Ht. by rewrite qi_pending0, decide_True.
  - intros t Ht. rewrite qi_pending0, decide_False by lia. done.
  - rewrite <-qi_numbers0, <-qi_replay0.
    change (ic_IngressSeq <$> map re_Command (ss_replayEntries (qr_session r))) with
      (map ic_IngressSeq (map re_Command (ss_replayEntries (qr_session r)))).
    rewrite map_map. apply map_ext_in. intros e He%list_elem_of_In. by apply qi_entries0.
  - intros e He. by apply qi_entries0.
Qed.

(** C18: No command waits long: a command accepted at tick [a] is given to exactly one tick,
    after [a] and no later than [a + 2]. *)
Theorem queue_delivers_promptly s r a c
    (Hs : fresh_queue s) (Hr : rtc queue_step (mkRun s [] []) r)
    (Hacc : (a, c) ∈ qr_accepted r) (Hlate : a + 2 <= ss_tickID (qr_session r)) :
  ∃ t commands, (t, commands) ∈ qr_delivered r ∧ c ∈ commands ∧ a < t <= a + 2 ∧
    ∀ t' commands' c', (t', commands') ∈ qr_delivered r → c' ∈ commands' →
      input_key c' = input_key c → t' = t ∧ c' = c.
Proof.
  destruct (queue_run_inv s r Hs Hr). destruct (qi_window0 _ Hacc) as [_ Hw]. simpl in Hw.
  pose proof (queue_targets s r (a, c) Hs Hr Hacc) as Ha. simpl in Ha.
  exists (ic_TargetTick c), (batch (qr_accepted r) (ic_TargetTick c)). rewrite qi_delivered0.
  assert (c ∈ snd <$> qr_accepted r) as Hc by (apply list_elem_of_fmap; by exists (a, c)).
  split_and!; try lia.
  - apply list_elem_of_fmap. exists (ic_TargetTick c). split; [done|]. apply elem_of_seqZ. lia.
  - by apply list_elem_of_filter.
  - intros t' commands' c' (t & [= -> ->] & _)%list_elem_of_fmap [Ht Hc']%list_elem_of_filter Hk.
    assert (c' = c) as -> by (by eapply NoDup_key_inj). done.
Qed.

(** C19: In no tick does the server accept more than eight commands of one player. *)
Theorem queue_rate_limited s r tick playerID
    (Hs : fresh_queue s) (Hr : rtc queue_step (mkRun s [] []) r) :
  accepted_at (qr_accepted r) tick playerID <= MaxAcceptedCommandsPerPlayerPerTick.
Proof. apply (qi_rate _ (queue_run_inv s r Hs Hr)). Qed.

(** A log of commands with targets from tick one on is scheduled as it is. *)
Lemma schedule_unclamped l tick last :
  (∀ c, c ∈ l → 1 <= ic_TargetTick c) → tick <= last →
  map (retarget 1) (filter (λ c, clamped_target 1 c = tick ∧ tick <= last) l) =
    filter (λ c, ic_TargetTick c = tick) l.
Proof.
  intros Hl Hlast. induction l as [|c l IH]; [done|]. rewrite !filter_cons.
  assert (1 <= ic_TargetTick c) as Hc by (apply Hl, elem_of_cons; by left).
  assert (clamped_target 1 c = ic_TargetTick c) as Ht.
  { unfold clamped_target. rewrite bool_decide_false by lia. by rewrite (proj2 (Z.ltb_ge _ _)). }
  assert (retarget 1 c = c) as Hre by (unfold retarget; rewrite Ht; by destruct c).
  rewrite Ht. rewrite <-IH by (intros d Hd; apply Hl, elem_of_cons; by right).
  destruct (decide (ic_TargetTick c = tick)) as [He|He].
  - rewrite decide_True by done. simpl. by rewrite Hre.
  - by rewrite decide_False by tauto.
Qed.

(** C16: The log replays the match: a simulation over the logged commands gives every tick
    the commands the running match gave it. *)
Theorem replay_log_replays s r config tick
    (Hs : fresh_queue s) (Hr : rtc queue_step (mkRun s [] []) r)
    (Hstart : sc_StartTick config = 0 ∨ sc_StartTick config = 1)
    (Htick : 1 <= tick <= ss_tickID (qr_session r)) (Hend : tick <= sc_EndTick config) :
  (tick, commands_for_tick config (map re_Command (ss_replayEntries (qr_session r))) tick)
    ∈ qr_delivered r.
Proof.
  destruct (queue_run_inv s r Hs Hr). rewrite qi_replay0, commands_for_tick_eq, qi_delivered0.
  assert (start_tick config = 1) as -> by (unfold start_tick; destruct Hstart as [-> | ->]; done).
  assert (normalizeInputLog (snd <$> qr_accepted r) = snd <$> qr_accepted r) as ->.
  { unfold normalizeInputLog, Replay.sortInputCommands.
    rewrite sort_numbered by (by eapply numbered_sorted).
    apply dedupe_id; [done|]. intros c _. apply not_elem_of_empty. }
  rewrite schedule_unclamped; [| |done].
  - apply list_elem_of_fmap. exists tick. split; [done|]. apply elem_of_seqZ. lia.
  - intros c (e & -> & He)%list_elem_of_fmap. apply (queue_targets s) in He as He0; [|done..].
    destruct (qi_window0 _ He). lia.
Qed.

(** ** Witnesses: a match of two players *)

Inductive queue_action :=
  | Submit (now : Z) (playerID : PlayerID) (command : InputCommand)
  | Tick.

Definition run_action (r : queue_run) (a : queue_action) : queue_run :=
  let s := qr_session r in
  match a with
  | Submit now playerID command =>
      let '(s', result) := submit_to_session "m" s now playerID command in
      mkRun s' (qr_accepted r ++ match result with
        | inl _ => []
        | inr res => [(ss_tickID s, stored s playerID command (sr_ScheduledTick res))]
        end) (qr_delivered r)
  | Tick =>
      let '(commands, s') := begin_tick s in
      mkRun s' (qr_accepted r) (qr_delivered r ++ [(ss_tickID s', commands)])
  end.

(** No counter is about to wrap. *)
Definition action_fits (r : queue_run) (a : queue_action) : bool :=
  (ss_tickID (qr_session r) + 2 <? 2 ^ 64) && (ss_nextIngressSeq (qr_session r) + 1 <? 2 ^ 64) &&
  match a with Submit _ _ command => 0 <=? ic_TargetTick command | Tick => true end.

Fixpoint actions_fit (r : queue_run) (actions : list queue_action) : bool :=
  match actions with
  | [] => true
  | a :: actions => action_fits r a && actions_fit (run_action r a) actions
  end.

Lemma run_action_step r a : action_fits r a = true → queue_step r (run_action r a).
Proof.
  destruct r as [s acc del]. unfold action_fits. simpl. intros H. bool_props.
  destruct a as [now playerID command|]; simpl.
  - destruct (submit_to_session "m" s now playerID command) as [s' result] eqn:Hs. bool_props.
    by eapply step_submit.
  - destruct (begin_tick s) as [commands s'] eqn:Hs. eapply step_tick; [lia|done].
Qed.

Lemma run_actions_rtc actions r :
  actions_fit r actions = true → rtc queue_step r (foldl run_action r actions).
Proof.
  revert r. induction actions as [|a actions IH]; intros r; simpl; [done|].
  intros [Ha Hr]%andb_true_iff. eapply rtc_l; [by apply run_action_step|]. by apply IH.
Qed.

Definition two_player_session : matchSession :=
  mkSession "m" MatchStatusRunning 30 0 (Some 0) None "" 0
    {[ "ann" := mkPlayerSession "ann" "Ann" 0; "bob" := mkPlayerSession "bob" "Bob" 0 ]}
    0 0 false 0 ∅ ∅ ∅ ∅ ∅ ∅ ∅ ∅ ∅ ∅ ∅ ∅ ∅ ∅ ∅ ∅ ∅ [] zero_GameState ∅ true.

Definition demo_actions : list queue_action :=
  [Submit 5 "ann" (mkCommand "ann" 1 0 2 CmdMoveIntent "{}");
   Submit 6 "bob" (mkCommand "bob" 1 0 0 CmdReload "");
   Submit 7 "ann" (mkCommand "ann" 1 0 0 CmdMoveIntent "{}");
   Submit 8 "eve" (mkCommand "eve" 1 0 0 CmdReload ""); Tick;
   Submit 9 "bob" (mkCommand "bob" 2 0 9 CmdReload ""); Tick; Tick].

Definition demo_run : queue_run := foldl run_action (mkRun two_player_session [] []) demo_actions.

Lemma demo_fresh : fresh_queue two_player_session.
Proof. by split. Qed.

Lemma demo_reachable : rtc queue_step (mkRun two_player_session [] []) demo_run.
Proof. apply run_actions_rtc. by vm_compute. Qed.

Lemma queue_delivers_accepted_witness :
  map (λ d, (d.1, map input_key d.2)) (qr_delivered demo_run) =
    [(1, [("bob", 1)]); (2, [("ann", 1)]); (3, [("bob", 2)])].
Proof.
  destruct (queue_delivers_accepted _ _ demo_fresh demo_reachable) as [-> _].
  vm_compute. reflexivity.
Defined.

Lemma queue_delivers_promptly_witness :
  ∃ t commands, (t, commands) ∈ qr_delivered demo_run ∧
    mkCommand "ann" 1 1 2 CmdMoveIntent "{}" ∈ commands ∧ 0 < t <= 2.
Proof.
  destruct (queue_delivers_promptly _ _ 0 (mkCommand "ann" 1 1 2 CmdMoveIntent "{}")
    demo_fresh demo_reachable) as (t & commands & H1 & H2 & H3 & _).
  - vm_compute. left.
  - vm_compute. discriminate.
  - by exists t, commands.
Defined.

Lemma queue_rate_limited_witness : accepted_at (qr_accepted demo_run) 0 "ann" <= 8.
Proof. exact (queue_rate_limited _ _ 0 "ann" demo_fresh demo_reachable). Defined.

Lemma replay_log_replays_witness :
  (2, commands_for_tick (mkSimulation 7 0 3)
    (map re_Command (ss_replayEntries (qr_session demo_run))) 2) ∈ qr_delivered demo_run.
Proof.
  apply (replay_log_replays _ _ (mkSimulation 7 0 3) 2 demo_fresh demo_reachable).
  - by left.
  - split; vm_compute; discriminate.
  - vm_compute. discriminate.
Defined.
