(* ===== verification/Spawn.v ===== *)
(** * Entering a match: cells, loadouts, abilities, spawns and lives

    [internal/server/game/manager.go], the helpers of [StartMatch] and of a player's
    death: where players and the bribable prisoners appear, what they carry, which
    ability they have and how a life is lost.  Pointers into a slice are indices. *)

From S2P Require Import Prelude Float32 Model GoStrings Hashing Layout Access Items Combat Abilities Physics Session.

#[local] Open Scope Z_scope.

(** ** Positions *)

Definition spawnPositionForPlayerIndex (index : Z) : Vector2 :=
  from_option (λ room,
      let minX := pt_X (rm_Min room) in
      let minY := pt_Y (rm_Min room) in
      let maxX := pt_X (rm_Max room) in
      let maxY := pt_Y (rm_Max room) in
      let width := maxX - minX + 1 in
      if width <=? 0 then mkVector2 (f32_of_Z minX) (f32_of_Z minY)
      else
        let column := index `rem` width in
        let row := index `quot` width in
        let y := minY + row in
        let y := if maxY <? y then maxY else y in
        mkVector2 (f32_of_Z (minX + column)) (f32_of_Z y))
    (mkVector2 (f32_of_Z 2) (f32_of_Z 13)) (RoomOf defaultMatchLayout RoomCellBlockA).

Definition clamp_fraction (fraction : f32) : f32 :=
  let fraction := if f32_ltb fraction f32_zero then f32_zero else fraction in
  if f32_gtb fraction (f32_of_Z 1) then f32_of_Z 1 else fraction.

Definition clamp_coordinate (x lo hi : Z) : Z :=
  let x := if x <? lo then lo else x in if hi <? x then hi else x.

Definition spawnPositionAtRoomFraction (room : Room) (fractionX fractionY : f32) : Vector2 :=
  let half := f32_const 1 2 in
  let width := pt_X (rm_Max room) - pt_X (rm_Min room) in
  let height := pt_Y (rm_Max room) - pt_Y (rm_Min room) in
  let x := pt_X (rm_Min room) +
    f32_trunc_int (f32_add (f32_mul (f32_of_Z width) (clamp_fraction fractionX)) half) in
  let y := pt_Y (rm_Min room) +
    f32_trunc_int (f32_add (f32_mul (f32_of_Z height) (clamp_fraction fractionY)) half) in
  mkVector2 (f32_of_Z (clamp_coordinate x (pt_X (rm_Min room)) (pt_X (rm_Max room))))
    (f32_of_Z (clamp_coordinate y (pt_Y (rm_Min room)) (pt_Y (rm_Max room)))).

Definition ammo_room_spawns : list (f32 * f32) :=
  [(f32_const 22 100, f32_const 22 100); (f32_const 78 100, f32_const 22 100);
   (f32_const 22 100, f32_const 78 100); (f32_const 78 100, f32_const 78 100);
   (f32_const 50 100, f32_const 38 100); (f32_const 50 100, f32_const 62 100)].

Definition spawnPositionInRoom (roomID : RoomID) (index : Z) : Vector2 :=
  let index := if index <? 0 then 0 else index in
  from_option (λ room,
      if roomID ≟ RoomWardenHQ then
        spawnPositionAtRoomFraction room (f32_const 1 2) (f32_const 1 2)
      else if roomID ≟ RoomAmmoRoom then
        let fraction := default (f32_zero, f32_zero)
          (ammo_room_spawns !! Z.to_nat (index mod Z.of_nat (length ammo_room_spawns))) in
        spawnPositionAtRoomFraction room fraction.1 fraction.2
      else spawnPositionForPlayerIndex index)
    (spawnPositionForPlayerIndex index) (RoomOf defaultMatchLayout roomID).

Definition deterministicRespawnIndex (playerID : PlayerID) (modulo : Z) : Z :=
  if (modulo <=? 1) || (playerID ≟ "") then 0
  else fnv64a (string_bytes playerID) mod modulo.

Definition respawnLocationForPlayer (player : PlayerState) : RoomID * Vector2 :=
  if ps_Role player ≟ RoleWarden then (RoomWardenHQ, spawnPositionInRoom RoomWardenHQ 0)
  else if ps_Role player ≟ RoleDeputy then
    (RoomAmmoRoom, spawnPositionInRoom RoomAmmoRoom (deterministicRespawnIndex (ps_ID player) 6))
  else
    let spawnIndex := if 0 <? ps_AssignedCell player then ps_AssignedCell player - 1 else 0 in
    (RoomCellBlockA, spawnPositionForPlayerIndex spawnIndex).

(** ** Losing a life: the player, [lifeLost] and [permanentlyEliminated] *)

Definition consumeLifeAndRespawnIfAvailableLocked (player : PlayerState) : PlayerState * bool * bool :=
  let player :=
    if ps_LivesRemaining player ≟ 0 then player <| ps_LivesRemaining := DefaultPlayerLives |>
    else player in
  let player :=
    if 0 <? ps_LivesRemaining player then player <| ps_LivesRemaining ::= λ n, n - 1 |> else player in
  if ps_LivesRemaining player ≟ 0 then (player, true, true)
  else
    let player := player <| ps_Alive := true |> in
    let player := player <| ps_HeartsHalf := MaxHeartsHalfForRole (ps_Role player) |> in
    let player := player <| ps_TempHeartsHalf := 0 |> in
    let player := player <| ps_StunnedUntilTick := 0 |> in
    let player := player <| ps_SolitaryUntilTick := 0 |> in
    let player := player <| ps_LockedInCell := 0 |> in
    let player := player <| ps_Velocity := zero_Vector2 |> in
    let player := player <| ps_Effects := [] |> in
    let '(roomID, position) := respawnLocationForPlayer player in
    (player <| ps_CurrentRoomID := roomID |> <| ps_Position := position |>, true, false).

(** ** Cells *)

(** Where a player of a role starts; the two counters are the spawn indices used so far. *)
Definition spawn_player (player : PlayerState) (prisonerSpawnIndex deputySpawnIndex : Z) :
    PlayerState * Z * Z :=
  if ps_Role player ≟ RoleWarden then
    (player <| ps_CurrentRoomID := RoomWardenHQ |>
            <| ps_Position := spawnPositionInRoom RoomWardenHQ 0 |>,
     prisonerSpawnIndex, deputySpawnIndex)
  else if ps_Role player ≟ RoleDeputy then
    (player <| ps_CurrentRoomID := RoomAmmoRoom |>
            <| ps_Position := spawnPositionInRoom RoomAmmoRoom deputySpawnIndex |>,
     prisonerSpawnIndex, deputySpawnIndex + 1)
  else
    (player <| ps_CurrentRoomID := RoomCellBlockA |>
            <| ps_Position := spawnPositionForPlayerIndex prisonerSpawnIndex |>,
     prisonerSpawnIndex + 1, deputySpawnIndex).

Record cell_assignment := mkCellAssignment {
  ca_players : list PlayerState; ca_cells : list CellState;
  ca_prisoners : Z; ca_deputies : Z;
}.

(** One round of the loop: [idx] in the sorted order, [at] in the slice of players. *)
Definition assign_cell (st : cell_assignment) (idx at_ : nat) : cell_assignment :=
  match ca_players st !! at_ with
  | None => st
  | Some player =>
      let player := player <| ps_LockedInCell := 0 |> <| ps_Velocity := zero_Vector2 |>
                           <| ps_AssignedCell := 0 |> in
      let '(player, cells) :=
        match ca_cells st !! idx with
        | None => (player, ca_cells st)
        | Some cell =>
            let cell := cell <| cs_OwnerPlayerID := ps_ID player |>
                             <| cs_OccupantPlayerIDs := [ps_ID player] |> in
            (player <| ps_AssignedCell := cs_ID cell |>, <[idx := cell]> (ca_cells st))
        end in
      let '(player, prisoners, deputies) := spawn_player player (ca_prisoners st) (ca_deputies st) in
      mkCellAssignment (<[at_ := player]> (ca_players st)) cells prisoners deputies
  end.

Fixpoint assign_cells (st : cell_assignment) (idx : nat) (order : list nat) : cell_assignment :=
  match order with
  | [] => st
  | at_ :: order => assign_cells (assign_cell st idx at_) (S idx) order
  end.

(** The slice's indices in the order of the players' identifiers. *)
Definition player_order (players : list PlayerState) : list nat :=
  sort_by String.le (λ i, from_option ps_ID "" (players !! i)) (seq 0 (length players)).

Definition clear_cell (cell : CellState) : CellState :=
  cell <| cs_OwnerPlayerID := "" |> <| cs_OccupantPlayerIDs := [] |>.

Definition assignCellsLocked (session : matchSession) : matchSession :=
  let players := gs_Players (ss_gameState session) in
  let cells := ms_Cells (gs_Map (ss_gameState session)) in
  if (Z.of_nat (length players) =? 0) || (Z.of_nat (length cells) =? 0) then session
  else
    let st := assign_cells (mkCellAssignment players (map clear_cell cells) 0 0) 0
                (player_order players) in
    session <| ss_gameState ::= λ state, state
      <| gs_Players := ca_players st |>
      <| gs_Map ::= λ m, m <| ms_Cells := ca_cells st |> |> |>.

(** ** Abilities *)

Definition deterministicAssignedAbility (matchID : MatchID) (player : PlayerState) : AbilityType :=
  match AbilitiesForPlayer player with
  | [] => ""
  | eligible =>
      let choice := hash_choice
        (string_bytes matchID ++ string_bytes (ps_ID player) ++ string_bytes (ps_Role player))
        (length eligible) in
      default "" (eligible !! choice)
  end.

Definition assignRandomAbilitiesLocked (session : matchSession) : matchSession :=
  session <| ss_gameState ::= λ state, state <| gs_Players ::= map (λ player,
    player <| ps_AssignedAbility := deterministicAssignedAbility (ss_matchID session) player |>) |> |>.

(** ** Loadouts *)

Definition inventoryItemQuantity (inventory : list ItemStack) (item : ItemType) : Z :=
  from_option stk_Quantity 0 (find_first (λ stack, stk_Item stack ≟ item) inventory).

(** [_ = items.AddItem(player, ...)]: a refusal leaves the player. *)
Definition try_add (player : PlayerState) (item : ItemType) (amount : Z) : PlayerState :=
  default player (AddItem player item amount).

Definition syncAuthorityBulletStackLocked (player : PlayerState) : PlayerState * bool :=
  if negb (IsAuthorityPlayer player) then (player, false)
  else
    let '(player, changed) :=
      if authorityAmmoMax <? ps_Bullets player
      then (player <| ps_Bullets := authorityAmmoMax |>, true) else (player, false) in
    let current := inventoryItemQuantity (ps_Inventory player) ItemBullet in
    let '(player, changed) :=
      if 0 <? current then
        match RemoveItem player ItemBullet current with
        | Some player => (player, true)
        | None => (player, changed)
        end
      else (player, changed) in
    if 0 <? ps_Bullets player then
      match AddItem player ItemBullet (ps_Bullets player) with
      | Some player => (player, true)
      | None => (player, changed)
      end
    else (player, changed).

Definition preferredEquippedWeapon (player : PlayerState) : ItemType :=
  default "" (find_first (CanUseWeapon player) [ItemPistol; ItemHuntingRifle; ItemBaton; ItemShiv]).

Definition ensureEquippedItemForPlayerLocked (player : PlayerState) : PlayerState * bool :=
  if (ps_EquippedItem player ≠? "") && CanUseWeapon player (ps_EquippedItem player) then (player, false)
  else
    let next := preferredEquippedWeapon player in
    if ps_EquippedItem player ≟ next then (player, false)
    else (player <| ps_EquippedItem := next |>, true).

Definition normalizeInventoryToPlayerSlotsLocked (player : PlayerState) : PlayerState :=
  let canonical := sort_by String.le stk_Item (ps_Inventory player) in
  let rebuilt := zero_PlayerState <| ps_InventorySlots := ps_InventorySlots player |> in
  let rebuilt := foldl (λ rebuilt stack,
    if (stk_Item stack ≟ "") || (stk_Quantity stack ≟ 0) || negb (IsKnownItem (stk_Item stack))
    then rebuilt else try_add rebuilt (stk_Item stack) (stk_Quantity stack)) rebuilt canonical in
  player <| ps_Inventory := ps_Inventory rebuilt |>.

Definition loadout_player (player : PlayerState) : PlayerState :=
  let player := player <| ps_InventorySlots := playerInventorySlotCount |> in
  if IsAuthorityPlayer player then
    let player := player <| ps_Inventory := [] |> in
    let player := try_add player ItemBaton 1 in
    let player := try_add player ItemPistol 1 in
    let player :=
      if ps_Bullets player ≟ 0 then player <| ps_Bullets := authorityAmmoMax |> else player in
    let player :=
      if authorityAmmoMax <? ps_Bullets player then player <| ps_Bullets := authorityAmmoMax |>
      else player in
    let player := (syncAuthorityBulletStackLocked player).1 in
    player <| ps_EquippedItem := ItemPistol |>
  else (ensureEquippedItemForPlayerLocked (normalizeInventoryToPlayerSlotsLocked player)).1.

Definition applyInventoryLoadoutsLocked (state : GameState) : GameState :=
  state <| gs_Players ::= map loadout_player |>.

(** ** Bribable prisoners *)

Definition npc_spawn_probe : PlayerState :=
  zero_PlayerState <| ps_ID := "npc_spawn_probe" |> <| ps_Role := RoleGangMember |>
    <| ps_Faction := FactionPrisoner |>.

Definition npcPrisonerSpawnRoomCandidates (mapState : MapState) : list RoomID :=
  sort_strings (map rm_ID (filter (λ room, rm_ID room ≠ "" ∧
    (rm_IsCorridor room || CanEnterRoom npc_spawn_probe (rm_ID room) mapState) = true)
    (Rooms defaultMatchLayout))).

Definition npcPrisonerTaskVisitRooms : list RoomID :=
  npcPrisonerSpawnRoomCandidates (ToMapState defaultMatchLayout).

Definition spawn_room_score (matchID : MatchID) (roomID : RoomID) : Z :=
  fnv64a (string_bytes matchID ++ [0] ++ string_bytes roomID).

Definition deterministicNPCPrisonerSpawnRooms (matchID : MatchID) (mapState : MapState) (count : nat) :
    list RoomID :=
  take count (sort_by (lex_le Z.le String.le) (λ roomID, (spawn_room_score matchID roomID, roomID))
    (npcPrisonerSpawnRoomCandidates mapState)).

Definition npc_offers : list BlackMarketOffer :=
  sort_by String.le of_Item (filter (λ offer,
    ¬ (of_Quantity offer = 0 ∨ of_MoneyCardCost offer = 0) ∧
    of_Item offer ∉ [ItemGoldenBullet; ItemPistol; ItemHuntingRifle]) blackMarketOffers).

Definition deterministicNPCPrisonerOffer (matchID : MatchID) (roomID : RoomID) (entityID : EntityID)
    (cycle : Z) : option (ItemType * Z) :=
  let choice := hash_choice
    (string_bytes matchID ++ string_bytes roomID ++ string_bytes (Itoa entityID) ++ [cycle])
    (length npc_offers) in
  selected ← npc_offers !! choice;
  Some (of_Item selected, of_MoneyCardCost selected).

Definition npcPrisonerTags (state : npcPrisonerBribeState) : list string :=
  let tags :=
    ["npc_prisoner"; "offer_item:" +:+ br_OfferItem state;
     "offer_cost:" +:+ Itoa (br_OfferCost state); "stock:" +:+ Itoa (br_Stock state)] in
  let tags := if br_PayerID state ≠? "" then tags ++ ["payer:" +:+ br_PayerID state] else tags in
  let tags := if 0 <? br_PaidCards state then tags ++ ["paid:" +:+ Itoa (br_PaidCards state)] else tags in
  sort_strings tags.

Definition room_centre (roomID : RoomID) : Vector2 :=
  from_option (λ room, mkVector2
      (f32_div (f32_of_Z (pt_X (rm_Min room) + pt_X (rm_Max room))) (f32_of_Z 2))
      (f32_div (f32_of_Z (pt_Y (rm_Min room) + pt_Y (rm_Max room))) (f32_of_Z 2)))
    zero_Vector2 (RoomOf defaultMatchLayout roomID).

(** One round of the loop of [spawnNPCPrisonersLocked]. *)
Definition spawn_npc_prisoner (session : matchSession) (roomID : RoomID) : matchSession :=
  let entityID := u32 (ss_nextEntityID session + 1) in
  let session := session <| ss_nextEntityID := entityID |> in
  match deterministicNPCPrisonerOffer (ss_matchID session) roomID entityID 0 with
  | None => session
  | Some (offerItem, offerCost) =>
      let state := mkBribe offerItem offerCost 1 "" 0 in
      session <| ss_npcPrisonerBribeState ::= <[entityID := state]> |>
        <| ss_gameState ::= λ gs, gs <| gs_Entities ::= λ entities, entities ++
             [mkEntity entityID EntityKindNPCPrisoner "" (room_centre roomID) zero_Vector2 0 true roomID
                (npcPrisonerTags state)] |> |>
  end.

Definition spawnNPCPrisonersLocked (session : matchSession) : matchSession :=
  let spawnRooms := deterministicNPCPrisonerSpawnRooms (ss_matchID session)
    (gs_Map (ss_gameState session)) npcPrisonerSpawnCount in
  let spawnRooms := if spawnRooms ≟ [] then npcPrisonerTaskVisitRooms else spawnRooms in
  let spawnRooms := if spawnRooms ≟ [] then [RoomCorridorMain] else spawnRooms in
  foldl spawn_npc_prisoner session spawnRooms.

(** ** Where a player appears *)

Definition stands_in (position : Vector2) (roomID : RoomID) : Prop :=
  RoomAt defaultMatchLayout (TileFromPosition position) = Some roomID ∧
  IsWalkable defaultMatchLayout (TileFromPosition position) = true.

Lemma roundedInt_of_Z x : 0 <= x < 256 → roundedInt (f32_of_Z x) = x.
Proof.
  revert x. apply (u8_forall (λ x, roundedInt (f32_of_Z x) = x)).
  apply (bool_decide_unpack _). by vm_compute.
Qed.

Lemma TileFromPosition_of_Z x y :
  0 <= x < 256 → 0 <= y < 256 →
  TileFromPosition (mkVector2 (f32_of_Z x) (f32_of_Z y)) = mkPoint x y.
Proof. intros Hx Hy. unfold TileFromPosition. simpl. by rewrite !roundedInt_of_Z. Qed.

Lemma stands_in_room roomID room x y :
  roomID ∈ default_room_ids → roomID ≠ RoomCorridorMain →
  RoomOf defaultMatchLayout roomID = Some room →
  pt_X (rm_Min room) <= x <= pt_X (rm_Max room) → pt_Y (rm_Min room) <= y <= pt_Y (rm_Max room) →
  stands_in (mkVector2 (f32_of_Z x) (f32_of_Z y)) roomID.
Proof.
  intros Hin Hne Hroom Hx Hy.
  destruct (default_layout_room roomID Hin) as (room' & Hr & _ & Hbx & Hbx' & Hby & Hby' & Hall).
  rewrite Hroom in Hr. injection Hr as <-. unfold stands_in.
  rewrite TileFromPosition_of_Z by lia. apply Hall; [done|].
  unfold Contains. simpl. rewrite !andb_true_iff, !Z.leb_le. lia.
Qed.

Lemma clamp_coordinate_range x lo hi : lo <= hi → lo <= clamp_coordinate x lo hi <= hi.
Proof. unfold clamp_coordinate. intros H. case_tests; lia. Qed.

Lemma cell_block_spawn index : 0 <= index → stands_in (spawnPositionForPlayerIndex index) RoomCellBlockA.
Proof.
  intros Hi. assert (RoomCellBlockA ∈ default_room_ids) as Hin by (apply (bool_decide_unpack _); by vm_compute).
  destruct (default_layout_room _ Hin) as (room & Hr & _ & Hx & _ & Hy & _).
  unfold spawnPositionForPlayerIndex. rewrite Hr. cbn [from_option].
  rewrite (proj2 (Z.leb_gt _ _)) by lia.
  set (width := pt_X (rm_Max room) - pt_X (rm_Min room) + 1).
  pose proof (Z.rem_bound_pos index width Hi ltac:(lia)).
  pose proof (Z.quot_pos index width Hi ltac:(lia)).
  apply (stands_in_room _ room _ _ Hin); [by vm_compute|exact Hr|lia|].
  destruct (_ <? _) eqn:Hlt; bool_props; lia.
Qed.

Lemma room_spawn roomID index :
  roomID ∈ [RoomWardenHQ; RoomAmmoRoom] → stands_in (spawnPositionInRoom roomID index) roomID.
Proof.
  intros Hroom. assert (roomID ∈ default_room_ids ∧ roomID ≠ RoomCorridorMain) as [Hin Hne].
  { apply elem_of_cons in Hroom as [-> | ->%list_elem_of_singleton];
      (split; [apply (bool_decide_unpack _); by vm_compute|by vm_compute]). }
  destruct (default_layout_room _ Hin) as (room & Hr & _ & Hx & _ & Hy & _).
  unfold spawnPositionInRoom. rewrite Hr. cbn [from_option].
  apply elem_of_cons in Hroom as [-> | ->%list_elem_of_singleton].
  - rewrite bool_decide_true by done.
    apply (stands_in_room _ room _ _ Hin Hne Hr); apply clamp_coordinate_range; lia.
  - rewrite bool_decide_false, bool_decide_true by done.
    apply (stands_in_room _ room _ _ Hin Hne Hr); apply clamp_coordinate_range; lia.
Qed.

(** The places are tiles of the prison: no proof below needs to compute them. *)
#[local] Opaque spawnPositionInRoom spawnPositionForPlayerIndex.

(** Wherever a match puts a player, at its start or after a death, is a walkable tile
    of the room it records for the player, whatever the roles, the number of players and
    the identifiers. *)
Theorem spawn_positions_walkable player (Hcell : 0 <= ps_AssignedCell player) :
  stands_in (respawnLocationForPlayer player).2 (respawnLocationForPlayer player).1 ∧
  ∀ prisoners deputies, 0 <= prisoners →
    let '(player', prisoners', deputies') := spawn_player player prisoners deputies in
    stands_in (ps_Position player') (ps_CurrentRoomID player') ∧
    prisoners <= prisoners' <= prisoners + 1 ∧ deputies <= deputies' <= deputies + 1.
Proof.
  split.
  - unfold respawnLocationForPlayer. case_bool_decide; [apply room_spawn; by left|].
    case_bool_decide; [apply room_spawn; right; by left|].
    apply cell_block_spawn. case_tests; lia.
  - intros prisoners deputies Hp. unfold spawn_player.
    case_bool_decide; [split; [apply room_spawn; by left|lia]|].
    case_bool_decide; [split; [apply room_spawn; right; by left|lia]|].
    split; [by apply cell_block_spawn|lia].
Qed.

Definition last_cell_player : PlayerState := zero_PlayerState <| ps_AssignedCell := 200 |>.

Lemma spawn_positions_walkable_witness :
  stands_in (respawnLocationForPlayer last_cell_player).2 (respawnLocationForPlayer last_cell_player).1.
Proof.
  assert (0 <= ps_AssignedCell last_cell_player) as H by (vm_compute; discriminate).
  exact (proj1 (spawn_positions_walkable last_cell_player H)).
Defined.

Lemma respawnLocation_same p q :
  ps_Role p = ps_Role q → ps_ID p = ps_ID q → ps_AssignedCell p = ps_AssignedCell q →
  respawnLocationForPlayer p = respawnLocationForPlayer q.
Proof. unfold respawnLocationForPlayer. by intros -> -> ->. Qed.

(** Losing a life takes exactly one of the three a player starts with; the last one
    eliminates the player and changes nothing else, any other one brings the player back
    alive, with the role's full hearts, free of stun, solitary and effects, in the place
    of the role, and leaves what the player owns. *)
Theorem consumeLife_spec player (Hl : is_u8 (ps_LivesRemaining player)) :
  let lives := if ps_LivesRemaining player ≟ 0 then DefaultPlayerLives else ps_LivesRemaining player in
  let '(player', lifeLost, eliminated) := consumeLifeAndRespawnIfAvailableLocked player in
  lifeLost = true ∧ ps_LivesRemaining player' = lives - 1 ∧
  (eliminated = true ↔ lives = 1) ∧
  (eliminated = true → player' = player <| ps_LivesRemaining := 0 |>) ∧
  (eliminated = false →
    ps_Alive player' = true ∧ ps_HeartsHalf player' = MaxHeartsHalfForRole (ps_Role player) ∧
    ps_TempHeartsHalf player' = 0 ∧ ps_StunnedUntilTick player' = 0 ∧
    ps_SolitaryUntilTick player' = 0 ∧ ps_LockedInCell player' = 0 ∧ ps_Effects player' = [] ∧
    ps_Velocity player' = zero_Vector2 ∧
    (ps_CurrentRoomID player', ps_Position player') = respawnLocationForPlayer player ∧
    ps_Inventory player' = ps_Inventory player ∧ ps_Cards player' = ps_Cards player ∧
    ps_Bullets player' = ps_Bullets player ∧ ps_Role player' = ps_Role player ∧
    ps_ID player' = ps_ID player).
Proof.
  unfold is_u8 in Hl. cbv zeta. unfold consumeLifeAndRespawnIfAvailableLocked.
  set (p0 := if ps_LivesRemaining player ≟ 0 then _ else player).
  set (lives := if ps_LivesRemaining player ≟ 0 then DefaultPlayerLives else ps_LivesRemaining player).
  assert (p0 = player <| ps_LivesRemaining := lives |>) as ->.
  { unfold p0, lives. case_bool_decide; [done|by destruct player]. }
  assert (0 < lives) as Hpos by (unfold lives, DefaultPlayerLives; case_bool_decide; lia).
  clearbody lives. clear Hl.
  change (ps_LivesRemaining (player <| ps_LivesRemaining := lives |>)) with lives.
  rewrite (proj2 (Z.ltb_lt _ _)) by done.
  change (ps_LivesRemaining (_ <| ps_LivesRemaining ::= λ n, n - 1 |>)) with (lives - 1).
  destruct (decide (lives - 1 = 0)) as [Hz|Hz].
  - rewrite bool_decide_true by done. split_and!; try done; try lia.
    intros _. rewrite <-Hz. by destruct player.
  - rewrite bool_decide_false by done.
    rewrite (respawnLocation_same _ player) by reflexivity.
    destruct (respawnLocationForPlayer player) as [roomID position].
    split_and!; (reflexivity || done || lia || (intros _; split_and!; reflexivity)).
Qed.

Lemma consumeLife_spec_witness :
  let '(player', lifeLost, eliminated) := consumeLifeAndRespawnIfAvailableLocked
    (zero_PlayerState <| ps_LivesRemaining := 2 |>) in
  lifeLost = true ∧ ps_LivesRemaining player' = 1.
Proof.
  assert (is_u8 (ps_LivesRemaining (zero_PlayerState <| ps_LivesRemaining := 2 |>))) as H
    by (split; vm_compute; congruence).
  pose proof (consumeLife_spec (zero_PlayerState <| ps_LivesRemaining := 2 |>) H) as Hs.
  cbv zeta in Hs. destruct (consumeLifeAndRespawnIfAvailableLocked _) as [[p' lost] el].
  destruct Hs as (H1 & H2 & _). split; [exact H1|exact H2].
Defined.
