(* ===== verification/Lifecycle.v ===== *)
(** * The life of a match

    [internal/server/game/manager.go]: creating, joining, resuming, starting and ending
    matches, and shutting the manager down.  Each operation holds the manager's mutex
    throughout, so it is a function of the manager's state; the clock's answer is an
    argument, and so is the order in which Go ranges over a map where it shows.  Saving
    accounts to the store has no effect on the manager and is left out, as are the
    goroutine and the ticker of a match: [ss_looping] stands for its cancel function.

    The second half proves that every operation keeps what the manager knows of its
    matches: [manager_inv]. *)

From S2P Require Import Prelude Float32 Model GoStrings Layout Access Items Phase Combat Roles Physics Session InputQueue Spawn.
From stdpp Require Import pretty.

#[local] Open Scope Z_scope.
Import ServerConfig (phaseConfig).

(** ** Creating a match *)

(** [fmt.Sprintf] with the verb [%06d], for a number that is not negative. *)
Fixpoint zeros (n : nat) : string := match n with O => "" | S n => "0" +:+ zeros n end.
Definition Itoa06 (n : Z) : string := zeros (6 - String.length (Itoa n)) +:+ Itoa n.

Definition match_id (prefix : string) (n : Z) : MatchID := prefix +:+ "-" +:+ Itoa06 n.

Definition nextMatchIDLocked (m : Manager) : MatchID * Manager :=
  let m := m <| mg_nextMatchSequence ::= λ n, u64 (n + 1) |> in
  (match_id (ServerConfig.MatchIDPrefix (mg_config m)) (mg_nextMatchSequence m), m).

Definition appendEventLocked (m : Manager) (event : LifecycleEvent) : Manager :=
  m <| mg_events ::= λ events, events ++ [event] |>.

Definition new_session (config : ServerConfig.Config) (matchID : MatchID) (createdAt : Z) :
    matchSession :=
  mkSession matchID MatchStatusLobby (ServerConfig.TickRateHz config) createdAt None None "" 0
    ∅ 0 0 false 0 ∅ ∅ ∅ ∅ ∅ ∅ ∅ ∅ ∅ ∅ ∅ ∅ ∅ ∅ ∅ ∅ ∅ [] (newInitialGameState matchID MatchStatusLobby config)
    ∅ false.

Definition CreateMatch (m : Manager) (now : Z) : Manager * MatchSnapshot :=
  let '(matchID, m) := nextMatchIDLocked m in
  let session := new_session (mg_config m) matchID now in
  let m := m <| mg_matches ::= <[matchID := session]> |> in
  (appendEventLocked m (mkEvent LifecycleEventMatchCreated matchID "" 0 now ""),
   snapshotFromSession session).

(** ** Joining and coming back *)

Definition touch_last_processed (session : matchSession) (playerID : PlayerID) : matchSession :=
  match ss_lastProcessedClientSeq session !! playerID with
  | Some _ => session
  | None => session <| ss_lastProcessedClientSeq ::= <[playerID := 0]> |>
  end.

Definition set_session (m : Manager) (matchID : MatchID) (session : matchSession) : Manager :=
  m <| mg_matches ::= <[matchID := session]> |>.

Definition join_session (session : matchSession) (playerID : PlayerID) (name : string) (now : Z) :
    matchSession :=
  let session := session <| ss_players ::= <[playerID := mkPlayerSession playerID name now]> |> in
  syncGameStatePlayersLocked (touch_last_processed session playerID).

Definition JoinMatch (m : Manager) (now : Z) (matchID : MatchID) (playerID : PlayerID)
    (playerName : string) : Manager * (game_error + MatchSnapshot) :=
  if TrimSpace playerID ≟ "" then (m, inl ErrInvalidPlayerID)
  else
    let trimmedName := TrimSpace playerName in
    if trimmedName ≟ "" then (m, inl ErrInvalidPlayerName)
    else match mg_playerToMatch m !! playerID with
    | Some _ => (m, inl ErrPlayerAlreadyInMatch)
    | None =>
        match mg_matches m !! matchID with
        | None => (m, inl ErrMatchNotFound)
        | Some session =>
            if ss_status session ≠? MatchStatusLobby then (m, inl ErrMatchNotJoinable)
            else if ServerConfig.MaxPlayers (mg_config m) <=? Z.of_nat (size (ss_players session)) then
              (m, inl ErrMatchFull)
            else
              let session := join_session session playerID trimmedName now in
              let m := set_session m matchID session in
              let m := m <| mg_playerToMatch ::= <[playerID := matchID]> |> in
              (appendEventLocked m (mkEvent LifecycleEventPlayerJoined matchID playerID 0 now ""),
               inr (snapshotFromSession session))
        end
    end.

Definition MatchIDForPlayer (m : Manager) (playerID : PlayerID) : option MatchID :=
  let trimmedID := TrimSpace playerID in
  if trimmedID ≟ "" then None else mg_playerToMatch m !! trimmedID.

Definition resume_session (session : matchSession) (playerID : PlayerID) (name : string) : matchSession :=
  let session :=
    if name ≠? "" then session <| ss_players ::= alter (λ p, p <| pl_Name := name |>) playerID |>
    else session in
  let session := syncGameStatePlayersLocked (touch_last_processed session playerID) in
  default session (setPlayerConnectedLocked session playerID true).

Definition ResumePlayer (m : Manager) (matchID : MatchID) (playerID : PlayerID) (playerName : string) :
    Manager * (game_error + MatchSnapshot) :=
  let playerID := TrimSpace playerID in
  if playerID ≟ "" then (m, inl ErrInvalidPlayerID)
  else
    let trimmedName := TrimSpace playerName in
    match mg_matches m !! matchID with
    | None => (m, inl ErrMatchNotFound)
    | Some session =>
        if ss_status session ≟ MatchStatusGameOver then (m, inl ErrMatchNotJoinable)
        else if bool_decide (is_Some (mg_playerToMatch m !! playerID)) &&
                (default matchID (mg_playerToMatch m !! playerID) ≠? matchID) then
          (m, inl ErrPlayerAlreadyInMatch)
        else if negb (bool_decide (is_Some (ss_players session !! playerID))) then
          (m, inl ErrPlayerNotFound)
        else
          let session := resume_session session playerID trimmedName in
          let m := set_session m matchID session in
          (m <| mg_playerToMatch ::= <[playerID := matchID]> |>, inr (snapshotFromSession session))
    end.

Definition connect_session (session : matchSession) (playerID : PlayerID) (connected : bool) :
    matchSession * option game_error :=
  let session := touch_last_processed session playerID in
  match setPlayerConnectedLocked session playerID connected with
  | Some session => (session, None)
  | None =>
      let session := syncGameStatePlayersLocked session in
      match setPlayerConnectedLocked session playerID connected with
      | Some session => (session, None)
      | None => (session, Some ErrPlayerNotFound)
      end
  end.

Definition SetPlayerConnected (m : Manager) (matchID : MatchID) (playerID : PlayerID)
    (connected : bool) : Manager * option game_error :=
  let playerID := TrimSpace playerID in
  if playerID ≟ "" then (m, Some ErrInvalidPlayerID)
  else match mg_matches m !! matchID with
  | None => (m, Some ErrMatchNotFound)
  | Some session =>
      if negb (bool_decide (is_Some (ss_players session !! playerID))) then (m, Some ErrPlayerNotFound)
      else
        let '(session, err) := connect_session session playerID connected in
        (set_session m matchID session, err)
  end.

(** ** Starting *)

(** The game state a match starts from, before its players are set up. *)
Definition reset_game (config : ServerConfig.Config) (state : GameState) : GameState :=
  let state := state <| gs_Status := MatchStatusRunning |> in
  let state := state <| gs_TickID := 0 |> in
  let state := state <| gs_CycleCount := 0 |> in
  let state := state <| gs_Phase := Phase.InitialPhaseState (phaseConfig config) 1 |> in
  let state := state <| gs_Map ::= λ m, m <| ms_PowerOn := true |> <| ms_Alarm := zero_AlarmState |> |> in
  state <| gs_Entities := [] |>.

Definition reset_session (config : ServerConfig.Config) (session : matchSession) (startedAt : Z) :
    matchSession :=
  let session := session <| ss_status := MatchStatusRunning |> in
  let session := session <| ss_startedAt := Some startedAt |> in
  let session := session <| ss_tickID := 0 |> in
  let session := session <| ss_gameState ::= reset_game config |> in
  let session := session <| ss_nextEntityID := 0 |> in
  let session := session <| ss_blackMarketGoldenBulletSold := false |> in
  let session := session <| ss_alarmUsedDayStartTick := 0 |> in
  let session := session <| ss_guardEntityByRoom := ∅ |> in
  let session := session <| ss_guardLastShotTick := ∅ |> in
  let session := session <| ss_abilityCooldownUntil := ∅ |> in
  let session := session <| ss_abilityUsedDayStart := ∅ |> in
  let session := session <| ss_prisonerUnlockedRooms := ∅ |> in
  let session := session <| ss_lockSnapDoorRestores := ∅ |> in
  let session := session <| ss_npcPrisonerBribeState := ∅ |> in
  let session := session <| ss_ammoRestockUntil := ∅ |> in
  let session := session <| ss_projectileExpireTick := ∅ |> in
  session <| ss_replayEntries := [] |>.

(** An error of the role assignment is ignored. *)
Definition assign_roles (matchID : MatchID) (state : GameState) : GameState :=
  match ApplyAssignments state matchID with inr state => state | inl _ => state end.

(** Players, roles, abilities, cells, loadouts and bribable prisoners, in this order. *)
Definition populate_session (session : matchSession) : matchSession :=
  let session := syncGameStatePlayersLocked session in
  let session := session <| ss_gameState ::= assign_roles (ss_matchID session) |> in
  let session := assignRandomAbilitiesLocked session in
  let session := assignCellsLocked session in
  let session := session <| ss_gameState ::= ApplyRoleLoadouts |> in
  let session := session <| ss_gameState ::= applyInventoryLoadoutsLocked |> in
  spawnNPCPrisonersLocked session.

Definition empty_queues (session : matchSession) : matchSession :=
  let session := session <| ss_scheduledInputs := ∅ |> in
  let session := session <| ss_acceptedByTick := ∅ |> in
  session <| ss_seenClientSeq := ∅ |>.

Definition start_session (config : ServerConfig.Config) (session : matchSession) (startedAt : Z) :
    matchSession :=
  let session := populate_session (reset_session config session startedAt) in
  let session := empty_queues session in
  let session := session <| ss_lastProcessedClientSeq := (λ _, 0) <$> ss_players session |> in
  let session := session <| ss_snapshotHistory := ∅ |> in
  let session := storeSnapshotLocked session (makeFullSnapshotLocked session) in
  session <| ss_looping := true |>.

Definition StartMatch (m : Manager) (now : Z) (matchID : MatchID) :
    Manager * (game_error + MatchSnapshot) :=
  match mg_matches m !! matchID with
  | None => (m, inl ErrMatchNotFound)
  | Some session =>
      if ss_status session ≟ MatchStatusRunning then (m, inl ErrMatchAlreadyRunning)
      else if ss_status session ≟ MatchStatusGameOver then (m, inl ErrMatchAlreadyEnded)
      else if Z.of_nat (size (ss_players session)) <? ServerConfig.MinPlayers (mg_config m) then
        (m, inl ErrNotEnoughPlayers)
      else
        let session := start_session (mg_config m) session now in
        let m := set_session m matchID session in
        (appendEventLocked m (mkEvent LifecycleEventMatchStarted matchID "" 0 now ""),
         inr (snapshotFromSession session))
  end.

(** ** Ending *)

Definition forget_players (m : Manager) (session : matchSession) : Manager :=
  m <| mg_playerToMatch ::= λ index, index ∖ ((λ _, "") <$> ss_players session) |>.

Definition end_session (session : matchSession) (endedAt : Z) (reason : string) : matchSession :=
  let session := session <| ss_status := MatchStatusGameOver |> in
  let session := session <| ss_endedAt := Some endedAt |> in
  let session := session <| ss_endedReason := reason |> in
  let session := session <| ss_gameState ::= λ state,
    state <| gs_Status := MatchStatusGameOver |> <| gs_TickID := ss_tickID session |> |> in
  empty_queues session <| ss_looping := false |>.

Definition EndMatch (m : Manager) (now : Z) (matchID : MatchID) (reason : string) :
    Manager * (game_error + MatchSnapshot) :=
  let trimmedReason := TrimSpace reason in
  let trimmedReason := if trimmedReason ≟ "" then "manual_end" else trimmedReason in
  match mg_matches m !! matchID with
  | None => (m, inl ErrMatchNotFound)
  | Some session =>
      if ss_status session ≟ MatchStatusGameOver then (m, inl ErrMatchAlreadyEnded)
      else
        let session' := end_session session now trimmedReason in
        let m := forget_players (set_session m matchID session') session' in
        (appendEventLocked m (mkEvent LifecycleEventMatchEnded matchID "" 0 now trimmedReason),
         inr (snapshotFromSession session'))
  end.

(** The tick loop's own end of a match, when the win conditions give an outcome. *)
Definition finish_session (session : matchSession) (outcome : GameOverState) (timestamp : Z) :
    matchSession :=
  let session := session <| ss_status := MatchStatusGameOver |> in
  let session := session <| ss_endedAt := Some timestamp |> in
  let session := session <| ss_endedReason := go_Reason outcome |> in
  let session := session <| ss_gameState ::= λ state,
    state <| gs_Status := MatchStatusGameOver |> <| gs_GameOver := Some outcome |> |> in
  empty_queues session.

Definition finish_match (m : Manager) (matchID : MatchID) (session : matchSession)
    (outcome : GameOverState) (timestamp : Z) : Manager :=
  let session := finish_session session outcome timestamp in
  let m := forget_players (set_session m matchID session) session in
  appendEventLocked m
    (mkEvent LifecycleEventMatchEnded matchID "" 0 timestamp (ss_endedReason session)).

(** ** Shutting down *)

Definition close_session (session : matchSession) (endedAt : Z) : matchSession :=
  let session :=
    if ss_status session ≟ MatchStatusRunning then
      let session := session <| ss_status := MatchStatusGameOver |> in
      let session := session <| ss_endedAt := Some endedAt |> in
      let session := session <| ss_gameState ::= λ state,
        state <| gs_Status := MatchStatusGameOver |> <| gs_TickID := ss_tickID session |> |> in
      if TrimSpace (ss_endedReason session) ≟ "" then
        session <| ss_endedReason := "server_shutdown" |>
      else session
    else session in
  empty_queues session <| ss_looping := false |>.

(** One round of the loop over the matches. *)
Definition close_match (now : MatchID → Z) (m : Manager) (matchID : MatchID) : Manager :=
  match mg_matches m !! matchID with
  | None => m
  | Some session =>
      let session' := close_session session (now matchID) in
      let m := set_session (forget_players m session) matchID session' in
      if ss_status session ≟ MatchStatusRunning then
        appendEventLocked m (mkEvent LifecycleEventShutdown matchID "" 0 (now matchID)
          (ss_endedReason session'))
      else m
  end.

(** [order] lists the matches in the order in which Go ranges over them. *)
Definition Close (m : Manager) (now : MatchID → Z) (order : list MatchID) : Manager :=
  foldl (close_match now) m order.

(** ** A knockback from outside the tick loop *)

Definition knockback_session (session : matchSession) (playerID : PlayerID) (impulse : Vector2)
    (stunDurationTicks : Z) : option (matchSession * PlayerState) :=
  let state := ss_gameState session in
  playerIndex ← find_idx (λ p, ps_ID p ≟ playerID) (gs_Players state);
  player ← gs_Players state !! playerIndex;
  let occupied := BuildOccupiedTiles (gs_Players state) in
  let '(next, _, _) := ApplyKnockback player impulse defaultMatchLayout (gs_Map state) (Some occupied)
    (ss_tickID session) stunDurationTicks in
  let next :=
    match RoomAt defaultMatchLayout (TileFromPosition (ps_Position next)) with
    | Some roomID => next <| ps_CurrentRoomID := roomID |>
    | None => next
    end in
  Some (session <| ss_gameState ::= λ state, state <| gs_Players ::= <[playerIndex := next]> |> |>, next).

Definition ManagerApplyKnockback (m : Manager) (matchID : MatchID) (playerID : PlayerID)
    (impulse : Vector2) (stunDurationTicks : Z) : Manager * (game_error + PlayerState) :=
  match mg_matches m !! matchID with
  | None => (m, inl ErrMatchNotFound)
  | Some session =>
      if ss_status session ≠? MatchStatusRunning then (m, inl ErrMatchNotRunning)
      else match knockback_session session playerID impulse stunDurationTicks with
      | None => (m, inl ErrPlayerNotFound)
      | Some (session, next) => (set_session m matchID session, inr next)
      end
  end.

(** ** Match identifiers *)

Lemma digits_value_go (x : N) s :
  digits_value 0 (pretty_N_go x s) = digits_value (Z.of_N x) s.
Proof.
  revert s. induction (N.lt_wf_0 x) as [x _ IH]; intros s.
  destruct (decide (0 < x)%N) as [Hx|Hx].
  - rewrite pretty_N_go_step by done. rewrite IH by (apply N.div_lt; lia).
    cbn [digits_value]. assert (digit_of (pretty_N_char (x `mod` 10)) = Some (Z.of_N (x `mod` 10))) as ->.
    { assert (x `mod` 10 < 10)%N as Hm by (apply N.mod_lt; lia).
      revert Hm. generalize (x `mod` 10)%N. intros d Hd.
      assert (d = 0 ∨ d = 1 ∨ d = 2 ∨ d = 3 ∨ d = 4 ∨ d = 5 ∨ d = 6 ∨ d = 7 ∨ d = 8 ∨ d = 9)%N
        as Hc by lia. by destruct_or! Hc; subst d. }
    cbn [mbind option_bind]. f_equal. rewrite N2Z.inj_mod, N2Z.inj_div.
    pose proof (Z.div_mod (Z.of_N x) 10 ltac:(lia)). lia.
  - assert (x = 0%N) as -> by lia. by rewrite pretty_N_go_0.
Qed.

Lemma digits_value_zeros k n s : digits_value n (zeros k +:+ s) = digits_value (n * 10 ^ Z.of_nat k) s.
Proof.
  revert n. induction k as [|k IH]; intros n; [simpl; by rewrite Z.mul_1_r|].
  change (digits_value n (zeros (S k) +:+ s)) with (digits_value (10 * n + 0) (zeros k +:+ s)).
  rewrite IH, Nat2Z.inj_succ, Z.pow_succ_r by lia. f_equal. lia.
Qed.

Lemma Itoa06_value n : 0 <= n → digits_value 0 (Itoa06 n) = Some n.
Proof.
  intros Hn. unfold Itoa06. rewrite digits_value_zeros, Z.mul_0_l. unfold Itoa.
  destruct n as [|p|p]; [done| |lia]. change (pretty (Z.pos p)) with (pretty_N_go (N.pos p) "").
  by rewrite digits_value_go.
Qed.

Lemma match_id_inj prefix n n' : 0 <= n → 0 <= n' → match_id prefix n = match_id prefix n' → n = n'.
Proof.
  intros Hn Hn' Heq. unfold match_id in Heq.
  assert (∀ p a b, p +:+ a = p +:+ b → a = b) as Happ
    by (intros p a b; induction p as [|c p IH]; [done|]; intros [= H]; auto).
  apply Happ, Happ in Heq. apply (f_equal (digits_value 0)) in Heq.
  rewrite !Itoa06_value in Heq by done. congruence.
Qed.

(** ** The roster of a session: who is in it and in what state it is *)

Definition game_ids (s : matchSession) : list PlayerID := map ps_ID (gs_Players (ss_gameState s)).

(** Nothing that the manager's index depends on changes, and the game keeps its players. *)
Record same_roster (s s' : matchSession) : Prop := mkSameRoster {
  sr_matchID : ss_matchID s' = ss_matchID s;
  sr_status : ss_status s' = ss_status s;
  sr_players : dom (ss_players s') = dom (ss_players s);
  sr_ingress : ss_status s = MatchStatusLobby → ss_nextIngressSeq s' = ss_nextIngressSeq s;
  sr_game : game_ids s' = game_ids s;
}.

#[export] Instance same_roster_preorder : PreOrder same_roster.
Proof.
  split; [intros s; by constructor|].
  intros s1 s2 s3 [] []. constructor; [by etrans..| |by etrans].
  intros H. etrans; [|by auto]. apply sr_ingress1. congruence.
Qed.

Lemma map_IDs (f : PlayerState → PlayerState) l :
  (∀ p, ps_ID (f p) = ps_ID p) → map ps_ID (map f l) = map ps_ID l.
Proof. intros Hf. rewrite map_map. by apply map_ext. Qed.

Lemma insert_IDs l i p q :
  l !! i = Some p → ps_ID q = ps_ID p → map ps_ID (<[i := q]> l) = map ps_ID l.
Proof.
  intros Hp Hq. change (map ps_ID) with (fmap (M:=list) ps_ID).
  rewrite list_fmap_insert. apply list_insert_id. by rewrite list_lookup_fmap, Hp, Hq.
Qed.

Lemma alter_IDs (f : PlayerState → PlayerState) i l :
  (∀ p, ps_ID (f p) = ps_ID p) → map ps_ID (alter f i l) = map ps_ID l.
Proof.
  intros Hf. change (map ps_ID) with (fmap (M:=list) ps_ID).
  rewrite (list_fmap_alter ps_ID f id); [by apply list_alter_id|]. apply Forall_true. exact Hf.
Qed.

(** Updates of players that keep their identifiers keep the roster. *)
Lemma same_roster_players s (f : list PlayerState → list PlayerState) :
  (∀ l, map ps_ID (f l) = map ps_ID l) →
  same_roster s (s <| ss_gameState ::= λ state, state <| gs_Players ::= f |> |>).
Proof. intros Hf. constructor; try reflexivity. apply (Hf (gs_Players (ss_gameState s))). Qed.

Lemma same_roster_game s (f : GameState → GameState) :
  map ps_ID (gs_Players (f (ss_gameState s))) = map ps_ID (gs_Players (ss_gameState s)) →
  same_roster s (s <| ss_gameState ::= f |>).
Proof. intros Hf. constructor; try reflexivity. exact Hf. Qed.

Lemma same_roster_sync s :
  game_ids s = session_ids s → same_roster s (syncGameStatePlayersLocked s).
Proof. intros Hg. constructor; try reflexivity. etrans; [apply sync_ids|done]. Qed.

Lemma same_roster_touch s p : same_roster s (touch_last_processed s p).
Proof. unfold touch_last_processed. case_match; by constructor. Qed.

Lemma setPlayerConnected_roster s p c s' :
  setPlayerConnectedLocked s p c = Some s' → same_roster s s'.
Proof.
  unfold setPlayerConnectedLocked. case_bool_decide; [done|].
  destruct (find_idx _ _) as [i|]; simpl; [|done]. intros [= <-].
  apply same_roster_players. intros l. apply alter_IDs. intros q. by destruct c.
Qed.

Lemma try_add_ID p item amount : ps_ID (try_add p item amount) = ps_ID p.
Proof. unfold try_add. destruct (AddItem p item amount) as [p'|] eqn:Hp; [|done]. by apply AddItem_frame in Hp as [inv ->]. Qed.

Lemma sync_bullets_ID p : ps_ID (syncAuthorityBulletStackLocked p).1 = ps_ID p.
Proof.
  unfold syncAuthorityBulletStackLocked. destruct (IsAuthorityPlayer p); [|done]. cbn [negb].
  destruct (authorityAmmoMax <? ps_Bullets p);
    (destruct (0 <? inventoryItemQuantity _ _); [destruct (RemoveItem _ _ _) as [q|] eqn:Hq|]);
    try (apply RemoveItem_frame in Hq as [inv ->]);
    (destruct (0 <? ps_Bullets _); [destruct (AddItem _ _ _) as [r|] eqn:Hr|]);
    try (apply AddItem_frame in Hr as [inv' ->]); reflexivity.
Qed.

Lemma loadout_player_ID p : ps_ID (loadout_player p) = ps_ID p.
Proof.
  unfold loadout_player. destruct (IsAuthorityPlayer _).
  - change (ps_ID (?q <| ps_EquippedItem := _ |>)) with (ps_ID q). rewrite sync_bullets_ID.
    destruct (authorityAmmoMax <? _); [change (ps_ID (?q <| ps_Bullets := _ |>)) with (ps_ID q)|];
      (case_bool_decide; [change (ps_ID (?q <| ps_Bullets := _ |>)) with (ps_ID q)|]);
      by rewrite !try_add_ID.
  - unfold ensureEquippedItemForPlayerLocked. repeat (case_match; try reflexivity).
Qed.

(** *** Populating a match keeps its roster *)

Lemma assign_cell_IDs st idx at_ :
  map ps_ID (ca_players (assign_cell st idx at_)) = map ps_ID (ca_players st).
Proof.
  unfold assign_cell. destruct (ca_players st !! at_) as [player|] eqn:Hp; [|done].
  set (p0 := player <| ps_LockedInCell := _ |> <| ps_Velocity := _ |> <| ps_AssignedCell := _ |>).
  assert (∀ q a b, ps_ID (spawn_player q a b).1.1 = ps_ID q) as Hsp
    by (intros; unfold spawn_player; repeat case_match; done).
  assert (∀ q : PlayerState * list CellState, ps_ID q.1 = ps_ID player →
    map ps_ID (ca_players
      (let '(player, cells) := q in
       let '(player, prisoners, deputies) := spawn_player player (ca_prisoners st) (ca_deputies st) in
       mkCellAssignment (<[at_ := player]> (ca_players st)) cells prisoners deputies)) =
    map ps_ID (ca_players st)) as Hq.
  { intros [q cells] Hid. specialize (Hsp q (ca_prisoners st) (ca_deputies st)).
    destruct (spawn_player q _ _) as [[q' a] b]. simpl in *.
    eapply insert_IDs; [exact Hp|]. congruence. }
  apply Hq. destruct (ca_cells st !! idx); reflexivity.
Qed.

Lemma assign_cells_IDs st idx order :
  map ps_ID (ca_players (assign_cells st idx order)) = map ps_ID (ca_players st).
Proof.
  revert st idx. induction order as [|a order IH]; intros st idx; simpl; [done|].
  by rewrite IH, assign_cell_IDs.
Qed.

Lemma assignCells_roster s : same_roster s (assignCellsLocked s).
Proof.
  unfold assignCellsLocked. case_match; [done|]. constructor; try reflexivity.
  apply assign_cells_IDs.
Qed.

Lemma ApplyAssignments_IDs state matchID state' :
  ApplyAssignments state matchID = inr state' →
  map ps_ID (gs_Players state') = map ps_ID (gs_Players state).
Proof.
  unfold ApplyAssignments. destruct (gs_Players state) eqn:Hp; [intros [= <-]; by rewrite Hp|].
  rewrite <-Hp. destruct (Assign _ _); [done|]. intros [= <-].
  apply (map_IDs (assign_player _)). intros q. reflexivity.
Qed.

Lemma spawn_npc_roster s roomID : same_roster s (spawn_npc_prisoner s roomID).
Proof.
  unfold spawn_npc_prisoner. destruct (deterministicNPCPrisonerOffer _ _ _ _) as [[]|]; by constructor.
Qed.

Lemma foldl_roster {A} (f : matchSession → A → matchSession) l s :
  (∀ s a, same_roster s (f s a)) → same_roster s (foldl f s l).
Proof.
  intros Hf. revert s. induction l as [|a l IH]; intros s; simpl; [done|]. etrans; [apply Hf|apply IH].
Qed.

Lemma spawnNPCPrisoners_roster s : same_roster s (spawnNPCPrisonersLocked s).
Proof. unfold spawnNPCPrisonersLocked. apply foldl_roster. apply spawn_npc_roster. Qed.

Lemma assign_roles_IDs matchID state :
  map ps_ID (gs_Players (assign_roles matchID state)) = map ps_ID (gs_Players state).
Proof.
  unfold assign_roles. destruct (ApplyAssignments _ _) as [|st] eqn:Ha; [done|].
  by eapply ApplyAssignments_IDs.
Qed.

Lemma populate_roster s : game_ids s = session_ids s → same_roster s (populate_session s).
Proof.
  intros Hg. unfold populate_session. cbv zeta.
  etrans; [|apply spawnNPCPrisoners_roster].
  etrans; [|apply same_roster_game; apply (map_IDs loadout_player), loadout_player_ID].
  etrans; [|apply same_roster_game; apply (map_IDs apply_loadout); reflexivity].
  etrans; [|apply assignCells_roster].
  etrans; [|apply same_roster_players; intros l; by apply map_IDs].
  etrans; [|apply same_roster_game, assign_roles_IDs].
  by apply same_roster_sync.
Qed.

(** *** What the manager keeps of every match *)

Record session_inv (config : ServerConfig.Config) (matchID : MatchID) (s : matchSession) : Prop :=
  mkSessionInv {
  si_matchID : ss_matchID s = matchID;
  si_status : ss_status s = MatchStatusLobby ∨ ss_status s = MatchStatusRunning ∨
    ss_status s = MatchStatusGameOver;
  si_size : Z.of_nat (size (ss_players s)) <= ServerConfig.MaxPlayers config;
  si_running : ss_status s = MatchStatusRunning →
    ServerConfig.MinPlayers config <= Z.of_nat (size (ss_players s));
  si_game : game_ids s = session_ids s;
  si_lobby : ss_status s = MatchStatusLobby → ss_nextIngressSeq s = 0;
}.

(** The manager's index names, for each player, the one match that has the player and is
    not over. *)
Record manager_inv (m : Manager) : Prop := mkManagerInv {
  mi_config : 1 <= ServerConfig.MinPlayers (mg_config m) <= ServerConfig.MaxPlayers (mg_config m);
  mi_sequence : 0 <= mg_nextMatchSequence m;
  mi_names : ∀ id s, mg_matches m !! id = Some s →
    ∃ n, 1 <= n <= mg_nextMatchSequence m ∧
      id = match_id (ServerConfig.MatchIDPrefix (mg_config m)) n;
  mi_sessions : ∀ id s, mg_matches m !! id = Some s → session_inv (mg_config m) id s;
  mi_index : ∀ p id, mg_playerToMatch m !! p = Some id ↔
    ∃ s, mg_matches m !! id = Some s ∧ is_Some (ss_players s !! p) ∧ ss_status s ≠ MatchStatusGameOver;
}.

Lemma session_inv_roster config id s s' :
  same_roster s s' → session_inv config id s → session_inv config id s'.
Proof.
  intros [E1 E2 E3 E4 E5] []. split; rewrite <-?size_dom, ?E1, ?E2, ?E3, ?size_dom; try done.
  - unfold session_ids. by rewrite E5, E3.
  - intros H. rewrite E4 by done. auto.
Qed.

Lemma sr_member s s' p : same_roster s s' → is_Some (ss_players s' !! p) ↔ is_Some (ss_players s !! p).
Proof. intros Hr. rewrite <-!elem_of_dom. by rewrite (sr_players _ _ Hr). Qed.

(** Replacing a session and the index entries of its match keeps the invariant. *)
Lemma manager_inv_set m m' id s s' :
  manager_inv m → mg_matches m !! id = Some s → session_inv (mg_config m) id s' →
  mg_config m' = mg_config m → mg_nextMatchSequence m' = mg_nextMatchSequence m →
  mg_matches m' = <[id := s']> (mg_matches m) →
  (∀ p, mg_playerToMatch m' !! p = Some id ↔
    is_Some (ss_players s' !! p) ∧ ss_status s' ≠ MatchStatusGameOver) →
  (∀ p id', id' ≠ id → mg_playerToMatch m' !! p = Some id' ↔ mg_playerToMatch m !! p = Some id') →
  manager_inv m'.
Proof.
  intros [H0 H1 H2 H3 H4] Hs Hs' Ec Eq Em Hin Hother. split; rewrite ?Ec, ?Eq, ?Em; [done|done| | |].
  - intros id' s0. rewrite lookup_insert_Some. intros [[<- _]|[_ Hs0]]; eauto.
  - intros id' s0. rewrite lookup_insert_Some. intros [[<- <-]|[_ Hs0]]; auto.
  - intros p id'. destruct (decide (id' = id)) as [->|Hne].
    + rewrite Hin. setoid_rewrite lookup_insert_eq. naive_solver.
    + rewrite Hother, H4 by done. setoid_rewrite lookup_insert_ne; [done|congruence].
Qed.

(** A match not over that has the player is the player's match. *)
Lemma manager_inv_indexed m id s p :
  manager_inv m → mg_matches m !! id = Some s →
  mg_playerToMatch m !! p = Some id ↔ is_Some (ss_players s !! p) ∧ ss_status s ≠ MatchStatusGameOver.
Proof. intros Hm Hs. rewrite (mi_index _ Hm), Hs. naive_solver. Qed.

Lemma manager_inv_roster m id s s' :
  manager_inv m → mg_matches m !! id = Some s → same_roster s s' → manager_inv (set_session m id s').
Proof.
  intros Hm Hs Hr. apply (manager_inv_set m _ id s s'); try done.
  - eapply session_inv_roster; [done|]. by apply (mi_sessions _ Hm).
  - intros p. rewrite (sr_member _ _ _ Hr), (sr_status _ _ Hr). exact (manager_inv_indexed m id s _ Hm Hs).
Qed.

(** *** Each operation keeps it *)

Lemma manager_inv_new config : ServerConfig.in_range config → manager_inv (newManagerWithDeps config).
Proof.
  intros (Hlo & Hhi & _). split; [|done|by intros ? ? ?|by intros ? ? ?|].
  { change (mg_config (newManagerWithDeps config)) with (ServerConfig.normalized config).
    destruct (normalized_fields config) as (-> & -> & _). unfold is_u8 in *.
    destruct (or_default_spec (ServerConfig.MinPlayers config) MinPlayers) as [? _]; [lia|unfold MinPlayers; lia|].
    destruct (or_default_spec (ServerConfig.MaxPlayers config) MaxPlayers) as [? _]; [lia|unfold MaxPlayers; lia|]. lia. }
  intros p id. simpl. rewrite !lookup_empty. naive_solver.
Qed.

Lemma manager_inv_create m now :
  mg_nextMatchSequence m + 1 < 2 ^ 64 → manager_inv m →
  manager_inv (CreateMatch m now).1 ∧
  mg_matches m !! sm_MatchID (CreateMatch m now).2 = None.
Proof.
  intros Hroom [H0 H1 H2 H3 H4]. destruct m as [config seq matches index events]. simpl in *.
  unfold CreateMatch, nextMatchIDLocked, field_update. cbn -[new_session]. rewrite u64_small by (unfold is_u64; lia).
  set (id := match_id _ (seq + 1)).
  assert (matches !! id = None) as Hfresh.
  { destruct (matches !! id) as [s|] eqn:Hs; [|done]. exfalso.
    destruct (H2 id s Hs) as (n & Hn & Heq). apply match_id_inj in Heq; lia. }
  split; [|exact Hfresh]. split; simpl; [done|lia| | |].
  - intros id' s. rewrite lookup_insert_Some. intros [[<- _]|[_ Hs]].
    + exists (seq + 1). split; [lia|done].
    + destruct (H2 id' s Hs) as (n & Hn & ->). exists n. split; [lia|done].
  - intros id' s. rewrite lookup_insert_Some. intros [[<- <-]|[_ Hs]]; [|auto].
    split; simpl; try done; [by left|].
    change (Z.of_nat (size (∅ : gmap PlayerID PlayerSession)) <= ServerConfig.MaxPlayers config).
    rewrite map_size_empty. lia.
  - intros p id'. rewrite H4. destruct (decide (id' = id)) as [->|Hne].
    + setoid_rewrite lookup_insert_eq. rewrite Hfresh. split; [naive_solver|].
      intros (s & [= <-] & Hp & _). simpl in Hp. rewrite lookup_empty in Hp. by destruct Hp.
    + setoid_rewrite lookup_insert_ne; [done|congruence].
Qed.

Lemma manager_inv_event m event : manager_inv (appendEventLocked m event) ↔ manager_inv m.
Proof. destruct m. split; intros []; by split. Qed.

Lemma join_session_roster s p name now :
  ss_players (join_session s p name now) = <[p := mkPlayerSession p name now]> (ss_players s) ∧
  ss_status (join_session s p name now) = ss_status s.
Proof. unfold join_session, touch_last_processed. by case_match. Qed.

Lemma session_inv_join config id s p name now :
  session_inv config id s → ss_status s = MatchStatusLobby →
  Z.of_nat (size (ss_players s)) < ServerConfig.MaxPlayers config →
  session_inv config id (join_session s p name now).
Proof.
  intros [] Hst Hmax. destruct (join_session_roster s p name now) as [Epl Est].
  split; rewrite ?Est, ?Hst, ?Epl; auto.
  - unfold join_session, touch_last_processed. by case_match.
  - destruct (ss_players s !! p) eqn:Hp; [rewrite map_size_insert_Some by done; lia|].
    rewrite map_size_insert_None by done. lia.
  - intros [=].
  - etrans; [apply sync_ids|]. done.
  - intros _. etrans; [|by apply si_lobby0]. unfold join_session, touch_last_processed. by case_match.
Qed.

Lemma manager_inv_join m now id p name :
  manager_inv m → manager_inv (JoinMatch m now id p name).1.
Proof.
  intros Hm. unfold JoinMatch. case_bool_decide; [done|]. case_bool_decide; [done|].
  destruct (mg_playerToMatch m !! p) eqn:Hp; [done|].
  destruct (mg_matches m !! id) as [s|] eqn:Hs; [|done].
  case_bool_decide as Hst; cbn [negb]; [|done].
  destruct (_ <=? _) eqn:Hmax; bool_props; [done|]. cbn [fst]. apply manager_inv_event.
  pose proof (mi_sessions _ Hm _ _ Hs) as Hsess.
  destruct (join_session_roster s p (TrimSpace name) now) as [Epl Est].
  apply (manager_inv_set m _ id s (join_session s p (TrimSpace name) now)); try done.
  - by apply session_inv_join.
  - intros q. rewrite Epl, Est. simpl. destruct (decide (p = q)) as [<-|Hne].
    + rewrite !lookup_insert_eq, Hst. naive_solver.
    + rewrite !lookup_insert_ne by done. exact (manager_inv_indexed m id s _ Hm Hs).
  - intros q id' Hne. simpl. destruct (decide (p = q)) as [<-|].
    + rewrite lookup_insert_eq, Hp. naive_solver.
    + by rewrite lookup_insert_ne.
Qed.

Lemma same_roster_sync_after s s1 :
  game_ids s = session_ids s → same_roster s s1 → same_roster s (syncGameStatePlayersLocked s1).
Proof.
  intros Hg H1. etrans; [exact H1|]. apply same_roster_sync. destruct H1 as [_ _ E _ E'].
  unfold session_ids. by rewrite E', Hg, E.
Qed.

Lemma resume_roster s p name : game_ids s = session_ids s → same_roster s (resume_session s p name).
Proof.
  intros Hg. unfold resume_session.
  assert (∀ s1, same_roster s s1 → same_roster s
    (default (syncGameStatePlayersLocked (touch_last_processed s1 p))
      (setPlayerConnectedLocked (syncGameStatePlayersLocked (touch_last_processed s1 p)) p true))) as Hall.
  { intros s1 H1. assert (same_roster s (touch_last_processed s1 p)) as H2
      by (etrans; [exact H1|apply same_roster_touch]).
    pose proof (same_roster_sync_after _ _ Hg H2) as H3.
    destruct (setPlayerConnectedLocked _ _ _) eqn:Hc; [|exact H3].
    etrans; [exact H3|]. by eapply setPlayerConnected_roster. }
  apply Hall. destruct (name ≠? ""); [|done]. constructor; try reflexivity. apply dom_alter_L.
Qed.

Lemma connect_roster s p c : game_ids s = session_ids s → same_roster s (connect_session s p c).1.
Proof.
  intros Hg. unfold connect_session. pose proof (same_roster_touch s p) as H1.
  set (s1 := touch_last_processed s p) in *. clearbody s1.
  destruct (setPlayerConnectedLocked s1 p c) eqn:Hc.
  { etrans; [exact H1|]. by eapply setPlayerConnected_roster. }
  pose proof (same_roster_sync_after _ _ Hg H1) as H3.
  destruct (setPlayerConnectedLocked (syncGameStatePlayersLocked s1) p c) eqn:Hc'; [|exact H3].
  etrans; [exact H3|]. by eapply setPlayerConnected_roster.
Qed.

Lemma manager_inv_resume m id p name : manager_inv m → manager_inv (ResumePlayer m id p name).1.
Proof.
  intros Hm. unfold ResumePlayer. generalize (TrimSpace p). clear p. intros p.
  case_bool_decide; [done|]. destruct (mg_matches m !! id) as [s|] eqn:Hs; [|done].
  case_bool_decide as Hst; [done|]. destruct (_ && _); [done|].
  destruct (bool_decide (is_Some (ss_players s !! p))) eqn:Hp; bool_props; [|done]. cbn [negb fst].
  pose proof (mi_sessions _ Hm _ _ Hs) as Hsess.
  pose proof (resume_roster s p (TrimSpace name) (si_game _ _ _ Hsess)) as Hr.
  apply (manager_inv_set m _ id s (resume_session s p (TrimSpace name))); try done.
  - by eapply session_inv_roster.
  - intros q. rewrite (sr_member _ _ _ Hr), (sr_status _ _ Hr), <-(manager_inv_indexed m id s q Hm Hs). simpl.
    destruct (decide (p = q)) as [<-|Hne]; [|by rewrite lookup_insert_ne].
    rewrite lookup_insert_eq, (manager_inv_indexed m id s p Hm Hs). naive_solver.
  - intros q id' Hne. simpl. destruct (decide (p = q)) as [<-|]; [|by rewrite lookup_insert_ne].
    assert (mg_playerToMatch m !! p = Some id) as -> by by apply (manager_inv_indexed m id s p Hm Hs).
    by rewrite lookup_insert_eq.
Qed.

Lemma manager_inv_connect m id p c : manager_inv m → manager_inv (SetPlayerConnected m id p c).1.
Proof.
  intros Hm. unfold SetPlayerConnected. case_bool_decide; [done|].
  destruct (mg_matches m !! id) as [s|] eqn:Hs; [|done].
  destruct (negb _); [done|].
  pose proof (connect_roster s (TrimSpace p) c (si_game _ _ _ (mi_sessions _ Hm _ _ Hs))) as Hr.
  destruct (connect_session _ _ _) as [s' err]. by apply (manager_inv_roster m id s).
Qed.

(** *** Starting *)

(** Only the game, the entity counter and the prisoners' offers change. *)
Definition only_game (s s' : matchSession) : Prop :=
  ∃ game next bribes, s' = s <| ss_gameState := game |> <| ss_nextEntityID := next |>
    <| ss_npcPrisonerBribeState := bribes |>.

#[export] Instance only_game_preorder : PreOrder only_game.
Proof.
  split.
  - intros s. exists (ss_gameState s), (ss_nextEntityID s), (ss_npcPrisonerBribeState s). by destruct s.
  - intros s1 s2 s3 (g1 & n1 & b1 & ->) (g2 & n2 & b2 & ->). exists g2, n2, b2. by destruct s1.
Qed.

Lemma only_game_update s f : only_game s (s <| ss_gameState ::= f |>).
Proof. exists (f (ss_gameState s)), (ss_nextEntityID s), (ss_npcPrisonerBribeState s). by destruct s. Qed.

Lemma spawn_npc_only_game s roomID : only_game s (spawn_npc_prisoner s roomID).
Proof.
  unfold spawn_npc_prisoner. case_match; [case_match|];
    (match goal with |- only_game _ ?s' =>
       exists (ss_gameState s'), (ss_nextEntityID s'), (ss_npcPrisonerBribeState s') end);
    by destruct s.
Qed.

Lemma populate_only_game s : only_game s (populate_session s).
Proof.
  unfold populate_session, spawnNPCPrisonersLocked. cbv zeta.
  assert (∀ rooms s0, only_game s s0 → only_game s (foldl spawn_npc_prisoner s0 rooms)) as Hfold.
  { intros rooms. induction rooms as [|r rooms IH]; intros s0 H0; simpl; [done|].
    apply IH. etrans; [exact H0|apply spawn_npc_only_game]. }
  apply Hfold.
  etrans; [|apply only_game_update]. etrans; [|apply only_game_update].
  etrans; [|unfold assignCellsLocked; case_match; [reflexivity|apply only_game_update]].
  etrans; [|apply only_game_update]. etrans; [|apply only_game_update]. apply only_game_update.
Qed.

Record started (config : ServerConfig.Config) (s : matchSession) (now : Z) (s' : matchSession) : Prop :=
    mkStarted {
  st_matchID : ss_matchID s' = ss_matchID s;
  st_status : ss_status s' = MatchStatusRunning;
  st_players : ss_players s' = ss_players s;
  st_startedAt : ss_startedAt s' = Some now;
  st_game : game_ids s' = session_ids s';
  st_ingress : ss_nextIngressSeq s' = ss_nextIngressSeq s;
  st_queue : ss_nextIngressSeq s = 0 → fresh_queue s';
  st_seen : ss_seenClientSeq s' = ∅;
  st_acks : ss_lastProcessedClientSeq s' = (λ _, 0) <$> ss_players s;
  st_history : ss_snapshotHistory s' =
    {[0 := makeFullSnapshotLocked (s' <| ss_snapshotHistory := ∅ |> <| ss_looping := ss_looping s |>)]};
}.

Lemma start_session_started config s now :
  game_ids s = session_ids s → started config s now (start_session config s now).
Proof.
  intros Hg. unfold start_session.
  set (s1 := reset_session config s now).
  assert (game_ids s1 = session_ids s1) as Hg1 by exact Hg.
  pose proof (populate_roster s1 Hg1) as Hr. pose proof (populate_only_game s1) as Ho.
  revert Hr Ho. generalize (populate_session s1). intros s2 [_ _ Epl _ Egame] (game & next & bribes & Es2).
  assert (game_ids s2 = session_ids s2) as Hg2 by (unfold session_ids; by rewrite Egame, Hg1, Epl).
  clear Egame Epl. cbv zeta.
  match goal with |- started _ _ _ ?s' => assert (game_ids s' = session_ids s') as G by exact Hg2 end.
  clear Hg2. subst s2 s1. split; try reflexivity; [exact G|].
  intros Hi. by split.
Qed.

Lemma manager_inv_start m now id : manager_inv m → manager_inv (StartMatch m now id).1.
Proof.
  intros Hm. unfold StartMatch. destruct (mg_matches m !! id) as [s|] eqn:Hs; [|done].
  case_bool_decide as Hrun; [done|]. case_bool_decide as Hover; [done|].
  destruct (_ <? _) eqn:Hmin; bool_props; [done|]. cbn [fst]. apply manager_inv_event.
  pose proof (mi_sessions _ Hm _ _ Hs) as Hsess.
  destruct (start_session_started (mg_config m) s now (si_game _ _ _ Hsess)) as [E1 E2 E3 _ E4 E5 _ _ _ _].
  revert E1 E2 E3 E4 E5. generalize (start_session (mg_config m) s now). intros s' E1 E2 E3 E4 E5.
  apply (manager_inv_set m _ id s s'); try done.
  - destruct Hsess. split; rewrite ?E2, ?E3; auto; [congruence|intros [=]].
  - intros p. rewrite E2, E3. simpl. rewrite (manager_inv_indexed m id s p Hm Hs). naive_solver.
Qed.

(** *** Ending *)

Lemma forget_players_lookup m s p id :
  mg_playerToMatch (forget_players m s) !! p = Some id ↔
  ¬ is_Some (ss_players s !! p) ∧ mg_playerToMatch m !! p = Some id.
Proof.
  change (mg_playerToMatch (forget_players m s)) with
    (mg_playerToMatch m ∖ ((λ _, "") <$> ss_players s)).
  rewrite lookup_difference_Some, lookup_fmap, fmap_None, eq_None_not_Some. tauto.
Qed.

(** A match that is over, with its players forgotten. *)
Lemma manager_inv_over m id s s' :
  manager_inv m → mg_matches m !! id = Some s → ss_status s ≠ MatchStatusGameOver →
  ss_matchID s' = id → ss_status s' = MatchStatusGameOver →
  dom (ss_players s') = dom (ss_players s) → game_ids s' = game_ids s →
  manager_inv (forget_players (set_session m id s') s').
Proof.
  intros Hm Hs Hlive E1 E2 E3 E4. pose proof (mi_sessions _ Hm _ _ Hs) as Hsess.
  assert (∀ p, is_Some (ss_players s' !! p) ↔ is_Some (ss_players s !! p)) as Hdom
    by (intros p; by rewrite <-!elem_of_dom, E3).
  apply (manager_inv_set m _ id s s'); try done.
  - destruct Hsess. split; rewrite ?E1, ?E2, <-?size_dom, ?E3, ?size_dom; auto; try (intros [=]).
    unfold session_ids. by rewrite E4, E3.
  - intros p. rewrite forget_players_lookup, E2, Hdom. simpl.
    rewrite (manager_inv_indexed m id s p Hm Hs). naive_solver.
  - intros p id' Hne. rewrite forget_players_lookup, Hdom. simpl.
    pose proof (manager_inv_indexed m id s p Hm Hs) as Hid. split; [tauto|]. intros Hp. split; [|done].
    intros Hin. assert (mg_playerToMatch m !! p = Some id) by tauto. congruence.
Qed.

Lemma manager_inv_end m now id reason : manager_inv m → manager_inv (EndMatch m now id reason).1.
Proof.
  intros Hm. unfold EndMatch. destruct (mg_matches m !! id) as [s|] eqn:Hs; [|done].
  case_bool_decide as Hover; [done|]. cbn [fst]. apply manager_inv_event.
  apply (manager_inv_over m id s); try done. exact (si_matchID _ _ _ (mi_sessions _ Hm _ _ Hs)).
Qed.

Lemma manager_inv_finish m id s s' outcome timestamp :
  manager_inv m → mg_matches m !! id = Some s → ss_status s = MatchStatusRunning →
  same_roster s s' → manager_inv (finish_match m id s' outcome timestamp).
Proof.
  intros Hm Hs Hrun [E1 E2 E3 _ E5]. unfold finish_match. apply manager_inv_event.
  apply (manager_inv_over m id s); try done; [by rewrite Hrun|].
  etrans; [exact E1|]. exact (si_matchID _ _ _ (mi_sessions _ Hm _ _ Hs)).
Qed.

(** *** Commands and knockbacks *)

Lemma submit_roster `{!PayloadDecoder} id s now p c :
  same_roster s (submit_to_session id s now p c).1.
Proof.
  unfold submit_to_session. case_bool_decide as Hrun; cbn [negb]; [|done].
  repeat (case_match; try done); constructor; try reflexivity; rewrite Hrun; intros [=].
Qed.

Lemma ApplyKnockback_ID p impulse layout m occ now ticks :
  ps_ID (ApplyKnockback p impulse layout m occ now ticks).1.1 = ps_ID p.
Proof.
  unfold ApplyKnockback. destruct (resolveVectorMotion _ _ _ _ _) as [motion occ'].
  repeat case_match; reflexivity.
Qed.

Lemma knockback_roster s p impulse ticks s' q :
  knockback_session s p impulse ticks = Some (s', q) → same_roster s s'.
Proof.
  unfold knockback_session. destruct (find_idx _ _) as [i|]; simpl; [|done].
  destruct (gs_Players (ss_gameState s) !! i) as [player|] eqn:Hp; simpl; [|done].
  pose proof (ApplyKnockback_ID player impulse defaultMatchLayout (gs_Map (ss_gameState s))
    (Some (BuildOccupiedTiles (gs_Players (ss_gameState s)))) (ss_tickID s) ticks) as Hid.
  destruct (ApplyKnockback _ _ _ _ _ _ _) as [[next motion] occ]. simpl in Hid.
  destruct (RoomAt _ _); intros [= <- _];
    (constructor; try reflexivity; by apply (insert_IDs _ _ _ _ Hp)).
Qed.
