(* ===== verification/ManagerSane.v ===== *)
(** * What a manager keeps, also after it was closed

    [Close] forgets the players of every match, and leaves a match of the lobby in the lobby
    with them.  From then on the index may miss a player; what it says stays true.  This file
    has that weaker invariant, [manager_sane], and that every operation keeps it. *)

From S2P Require Import Prelude Float32 Model GoStrings Layout Access Items Phase Combat Roles Physics Session InputQueue Spawn Lifecycle.

#[local] Open Scope Z_scope.

(** Like [manager_inv], but the index need not name every player. *)
Record manager_sane (m : Manager) : Prop := mkManagerSane {
  sn_config : 1 <= ServerConfig.MinPlayers (mg_config m) <= ServerConfig.MaxPlayers (mg_config m);
  sn_sequence : 0 <= mg_nextMatchSequence m;
  sn_names : ∀ id s, mg_matches m !! id = Some s →
    ∃ n, 1 <= n <= mg_nextMatchSequence m ∧
      id = match_id (ServerConfig.MatchIDPrefix (mg_config m)) n;
  sn_sessions : ∀ id s, mg_matches m !! id = Some s → session_inv (mg_config m) id s;
  sn_index : ∀ p id, mg_playerToMatch m !! p = Some id →
    ∃ s, mg_matches m !! id = Some s ∧ is_Some (ss_players s !! p) ∧ ss_status s ≠ MatchStatusGameOver;
}.

Lemma manager_inv_sane m : manager_inv m → manager_sane m.
Proof. intros []. split; try done. intros p id. apply mi_index. Qed.

(** One match is replaced, and the index says nothing new that is not so. *)
Lemma manager_sane_set m m' id s s' :
  manager_sane m → mg_matches m !! id = Some s → session_inv (mg_config m) id s' →
  mg_config m' = mg_config m → mg_nextMatchSequence m' = mg_nextMatchSequence m →
  mg_matches m' = <[id := s']> (mg_matches m) →
  (∀ p id', mg_playerToMatch m' !! p = Some id' →
    id' = id ∧ is_Some (ss_players s' !! p) ∧ ss_status s' ≠ MatchStatusGameOver ∨
    id' ≠ id ∧ mg_playerToMatch m !! p = Some id') →
  manager_sane m'.
Proof.
  intros [H0 H1 H2 H3 H4] Hs Hs' Ec Eq Em Hin. split; rewrite ?Ec, ?Eq, ?Em; [done|done| | |].
  - intros id' s0. rewrite lookup_insert_Some. intros [[<- _]|[_ Hs0]]; eauto.
  - intros id' s0. rewrite lookup_insert_Some. intros [[<- <-]|[_ Hs0]]; auto.
  - intros p id' [(-> & Hp & Hlive)|[Hne Hp]]%Hin; [exists s'; by rewrite lookup_insert_eq|].
    destruct (H4 p id' Hp) as (t & Ht & ?). exists t. by rewrite lookup_insert_ne.
Qed.

(** No player of the match leaves it, and it is not over now if it was not. *)
Lemma manager_sane_keep m m' id s s' :
  manager_sane m → mg_matches m !! id = Some s → session_inv (mg_config m) id s' →
  mg_config m' = mg_config m → mg_nextMatchSequence m' = mg_nextMatchSequence m →
  mg_matches m' = <[id := s']> (mg_matches m) →
  dom (ss_players s) ⊆ dom (ss_players s') →
  (ss_status s ≠ MatchStatusGameOver → ss_status s' ≠ MatchStatusGameOver) →
  (∀ p id', mg_playerToMatch m' !! p = Some id' → mg_playerToMatch m !! p = Some id' ∨
    id' = id ∧ is_Some (ss_players s' !! p) ∧ ss_status s' ≠ MatchStatusGameOver) →
  manager_sane m'.
Proof.
  intros Hm Hs Hs' Ec Eq Em Hdom Hlive Hin. apply (manager_sane_set m m' id s s'); try done.
  intros p id' [Hp|?]%Hin; [|by left]. destruct (decide (id' = id)) as [->|Hne]; [|by right]. left.
  destruct (sn_index _ Hm _ _ Hp) as (s0 & Hs0 & Hmem & Hl). assert (s0 = s) as -> by congruence.
  split; [done|]. split; [|by apply Hlive]. apply elem_of_dom, Hdom. by apply elem_of_dom.
Qed.

Lemma manager_sane_roster m id s s' :
  manager_sane m → mg_matches m !! id = Some s → same_roster s s' → manager_sane (set_session m id s').
Proof.
  intros Hm Hs Hr. apply (manager_sane_keep m _ id s s'); try done.
  - eapply session_inv_roster; [done|]. by apply (sn_sessions _ Hm).
  - by rewrite (sr_players _ _ Hr).
  - by rewrite (sr_status _ _ Hr).
  - intros p id' Hp. by left.
Qed.

Lemma manager_sane_event m event : manager_sane (appendEventLocked m event) ↔ manager_sane m.
Proof. destruct m. split; intros []; by split. Qed.

(** ** Each operation keeps it *)

Lemma manager_sane_create m now :
  mg_nextMatchSequence m + 1 < 2 ^ 64 → manager_sane m →
  manager_sane (CreateMatch m now).1 ∧ mg_matches m !! sm_MatchID (CreateMatch m now).2 = None.
Proof.
  intros Hroom [H0 H1 H2 H3 H4]. destruct m as [config seq matches index events]. simpl in *.
  unfold CreateMatch, nextMatchIDLocked, field_update. cbn -[new_session]. rewrite u64_small by (unfold is_u64; lia).
  set (id := match_id _ (seq + 1)).
  assert (matches !! id = None) as Hfresh.
  { destruct (matches !! id) as [s|] eqn:Hs; [|done]. exfalso.
    destruct (H2 id s Hs) as (n & Hn & Heq). apply match_id_inj in Heq; lia. }
  split; [|exact Hfresh]. split; simpl; [done|lia| | |].
  - intros id' s. rewrite lookup_insert_Some. intros [[<- _]|[_ Hs]].
    + exists (seq + 1). split; [lia|done].
    + destruct (H2 id' s Hs) as (n & Hn & ->). exists n. split; [lia|done].
  - intros id' s. rewrite lookup_insert_Some. intros [[<- <-]|[_ Hs]]; [|auto].
    split; simpl; try done; [by left|].
    change (Z.of_nat (size (∅ : gmap PlayerID PlayerSession)) <= ServerConfig.MaxPlayers config).
    rewrite map_size_empty. lia.
  - intros p id' (s & Hs & ?)%H4. exists s. rewrite lookup_insert_ne; [done|congruence].
Qed.

Lemma manager_sane_join m now id p name : manager_sane m → manager_sane (JoinMatch m now id p name).1.
Proof.
  intros Hm. unfold JoinMatch. case_bool_decide; [done|]. case_bool_decide; [done|].
  destruct (mg_playerToMatch m !! p) eqn:Hp; [done|].
  destruct (mg_matches m !! id) as [s|] eqn:Hs; [|done].
  case_bool_decide as Hst; cbn [negb]; [|done].
  destruct (_ <=? _) eqn:Hmax; bool_props; [done|]. cbn [fst]. apply manager_sane_event.
  destruct (join_session_roster s p (TrimSpace name) now) as [Epl Est].
  apply (manager_sane_keep m _ id s (join_session s p (TrimSpace name) now)); try done.
  - apply session_inv_join; [by apply (sn_sessions _ Hm)|done|done].
  - rewrite Epl. set_solver.
  - by rewrite Est.
  - intros q id'. rewrite Epl, Est, Hst. simpl. destruct (decide (p = q)) as [<-|Hne]; [|rewrite lookup_insert_ne by done; by left].
    rewrite !lookup_insert_eq. intros [= <-]. right. by split_and!.
Qed.

Lemma manager_sane_resume m id p name : manager_sane m → manager_sane (ResumePlayer m id p name).1.
Proof.
  intros Hm. unfold ResumePlayer. generalize (TrimSpace p). clear p. intros p.
  case_bool_decide; [done|]. destruct (mg_matches m !! id) as [s|] eqn:Hs; [|done].
  case_bool_decide as Hst; [done|]. destruct (_ && _); [done|].
  destruct (bool_decide (is_Some (ss_players s !! p))) eqn:Hp; bool_props; [|done]. cbn [negb fst].
  pose proof (resume_roster s p (TrimSpace name) (si_game _ _ _ (sn_sessions _ Hm _ _ Hs))) as Hr.
  apply (manager_sane_keep m _ id s (resume_session s p (TrimSpace name))); try done.
  - eapply session_inv_roster; [exact Hr|]. by apply (sn_sessions _ Hm).
  - by rewrite (sr_players _ _ Hr).
  - by rewrite (sr_status _ _ Hr).
  - intros q id'. rewrite (sr_member _ _ _ Hr), (sr_status _ _ Hr). simpl.
    destruct (decide (p = q)) as [<-|Hne]; [|rewrite lookup_insert_ne by done; by left].
    rewrite lookup_insert_eq. intros [= <-]. by right.
Qed.

Lemma manager_sane_connect m id p c : manager_sane m → manager_sane (SetPlayerConnected m id p c).1.
Proof.
  intros Hm. unfold SetPlayerConnected. case_bool_decide; [done|].
  destruct (mg_matches m !! id) as [s|] eqn:Hs; [|done]. destruct (negb _); [done|].
  pose proof (connect_roster s (TrimSpace p) c (si_game _ _ _ (sn_sessions _ Hm _ _ Hs))) as Hr.
  destruct (connect_session _ _ _) as [s' err]. by apply (manager_sane_roster m id s).
Qed.

Lemma manager_sane_start m now id : manager_sane m → manager_sane (StartMatch m now id).1.
Proof.
  intros Hm. unfold StartMatch. destruct (mg_matches m !! id) as [s|] eqn:Hs; [|done].
  case_bool_decide as Hrun; [done|]. case_bool_decide as Hover; [done|].
  destruct (_ <? _) eqn:Hmin; bool_props; [done|]. cbn [fst]. apply manager_sane_event.
  pose proof (sn_sessions _ Hm _ _ Hs) as Hsess.
  destruct (start_session_started (mg_config m) s now (si_game _ _ _ Hsess)) as [E1 E2 E3 _ E4 E5 _ _ _ _].
  revert E1 E2 E3 E4 E5. generalize (start_session (mg_config m) s now). intros s' E1 E2 E3 E4 E5.
  apply (manager_sane_keep m _ id s s'); try done.
  - destruct Hsess. split; rewrite ?E2, ?E3; auto; [congruence|intros [=]].
  - by rewrite E3.
  - by rewrite E2.
  - intros p id' Hp. by left.
Qed.

(** The players of a match are forgotten, and the match is replaced. *)
Lemma manager_sane_forget m m' id s s' :
  manager_sane m → mg_matches m !! id = Some s → session_inv (mg_config m) id s' →
  mg_config m' = mg_config m → mg_nextMatchSequence m' = mg_nextMatchSequence m →
  mg_matches m' = <[id := s']> (mg_matches m) →
  (∀ p id', mg_playerToMatch m' !! p = Some id' →
    mg_playerToMatch m !! p = Some id' ∧ ¬ is_Some (ss_players s !! p)) →
  manager_sane m'.
Proof.
  intros Hm Hs Hs' Ec Eq Em Hin. apply (manager_sane_set m m' id s s'); try done.
  intros p id' [Hp Hout]%Hin. right. split; [|done]. intros ->.
  destruct (sn_index _ Hm _ _ Hp) as (s0 & Hs0 & Hmem & _). apply Hout. congruence.
Qed.

Lemma manager_sane_end m now id reason : manager_sane m → manager_sane (EndMatch m now id reason).1.
Proof.
  intros Hm. unfold EndMatch. destruct (mg_matches m !! id) as [s|] eqn:Hs; [|done].
  case_bool_decide as Hover; [done|]. cbn [fst]. apply manager_sane_event.
  set (s' := end_session _ _ _). pose proof (sn_sessions _ Hm _ _ Hs) as [].
  apply (manager_sane_forget m _ id s s'); try done; [split; try done; right; by right|].
  intros p id'. rewrite forget_players_lookup. intros [Hp ?]. done.
Qed.

Lemma manager_sane_finish m id s s' outcome timestamp :
  manager_sane m → mg_matches m !! id = Some s → same_roster s s' →
  manager_sane (finish_match m id s' outcome timestamp).
Proof.
  intros Hm Hs [E1 E2 E3 _ E5]. unfold finish_match. apply manager_sane_event.
  pose proof (sn_sessions _ Hm _ _ Hs) as [].
  apply (manager_sane_forget m _ id s (finish_session s' outcome timestamp)); try done.
  - split; try done.
    + by etransitivity.
    + right. by right.
    + change (Z.of_nat (size (ss_players s')) <= ServerConfig.MaxPlayers (mg_config m)).
      rewrite <-size_dom, E3, size_dom. done.
    + change (game_ids s' = session_ids s'). unfold session_ids. by rewrite E5, E3.
  - intros p id'. rewrite forget_players_lookup. intros [Hp ?]. split; [done|].
    by rewrite <-elem_of_dom, <-E3, elem_of_dom.
Qed.

(** *** Shutting down *)

Lemma close_match_shape now m id :
  mg_matches (close_match now m id) = alter (λ s, close_session s (now id)) id (mg_matches m) ∧
  (∀ p id', mg_playerToMatch (close_match now m id) !! p = Some id' ↔
    mg_playerToMatch m !! p = Some id' ∧
    ∀ s, mg_matches m !! id = Some s → ¬ is_Some (ss_players s !! p)).
Proof.
  unfold close_match. destruct (mg_matches m !! id) as [s|] eqn:Hs.
  - assert (∀ m', mg_matches m' = <[id := close_session s (now id)]> (mg_matches m) →
      mg_playerToMatch m' = mg_playerToMatch (forget_players m s) →
      mg_matches m' = alter (λ s, close_session s (now id)) id (mg_matches m) ∧
      (∀ p id', mg_playerToMatch m' !! p = Some id' ↔ mg_playerToMatch m !! p = Some id' ∧
        ∀ s', Some s = Some s' → ¬ is_Some (ss_players s' !! p))) as Hm'.
    { intros m' -> ->. split.
      - apply map_eq. intros id'. destruct (decide (id = id')) as [<-|Hne].
        + by rewrite lookup_insert_eq, lookup_alter_eq, Hs.
        + by rewrite lookup_insert_ne, lookup_alter_ne.
      - intros p id'. rewrite forget_players_lookup. naive_solver. }
    case_match; by apply Hm'.
  - split; [|naive_solver]. apply map_eq. intros id'. destruct (decide (id = id')) as [<-|Hne].
    + by rewrite lookup_alter_eq, Hs.
    + by rewrite lookup_alter_ne.
Qed.

(** A match keeps its players; one that runs is over, another is as it was. *)
Lemma close_session_keeps s now :
  ss_matchID (close_session s now) = ss_matchID s ∧ ss_players (close_session s now) = ss_players s ∧
  ss_nextIngressSeq (close_session s now) = ss_nextIngressSeq s ∧
  game_ids (close_session s now) = game_ids s ∧
  ss_status (close_session s now) = (if ss_status s ≟ MatchStatusRunning then MatchStatusGameOver else ss_status s).
Proof. unfold close_session. case_bool_decide as H; [case_match|]; by split_and!. Qed.

Lemma manager_sane_close_match now m id : manager_sane m → manager_sane (close_match now m id).
Proof.
  intros Hm. destruct (close_match_shape now m id) as [Em Ei].
  destruct (mg_matches m !! id) as [s|] eqn:Hs; [|unfold close_match; by rewrite Hs].
  destruct (close_session_keeps s (now id)) as (E1 & E2 & E3 & E4 & E5).
  apply (manager_sane_forget m _ id s (close_session s (now id))); try done.
  - destruct (sn_sessions _ Hm _ _ Hs). split; rewrite ?E1, ?E2, ?E5; try done.
    + case_bool_decide; [right; by right|done].
    + case_bool_decide; [intros [=]|done].
    + unfold session_ids. by rewrite E4, E2.
    + case_bool_decide; [intros [=]|]. rewrite E3. done.
  - unfold close_match. rewrite Hs. by case_match.
  - unfold close_match. rewrite Hs. by case_match.
  - rewrite Em. apply map_eq. intros id'. destruct (decide (id = id')) as [<-|Hne].
    + by rewrite lookup_insert_eq, lookup_alter_eq, Hs.
    + by rewrite lookup_insert_ne, lookup_alter_ne.
  - intros p id' [Hp H]%Ei. split; [done|]. by apply H.
Qed.

Lemma manager_sane_close m now order : manager_sane m → manager_sane (Close m now order).
Proof.
  unfold Close. revert m. induction order as [|id order IH]; intros m Hm; [done|]. cbn [foldl].
  by apply IH, manager_sane_close_match.
Qed.
