(* ===== verification/Matches.v ===== *)
(** * The matches of a manager, over its whole life

    The operations of [Lifecycle] and [InputQueue] as steps of a manager, with and without its
    shutdown among them, and what every history of them keeps: a player is in at most one match
    that is not over until the manager is closed, matches only move on, a match that starts has
    an empty queue, and the errors of each operation. *)

From S2P Require Import Prelude Float32 Model GoStrings Layout Access Items Phase Combat Roles Physics Session InputQueue Spawn Lifecycle ManagerSane.

#[local] Open Scope Z_scope.

(** ** Every history of the manager *)

Section histories.
Context `{Hdec : !PayloadDecoder}.

(** Any operation of a manager that is not closed; a tick of a running match, which may do anything to the
    match but change its roster, and may end it (what a tick does is [run_tick], whose
    steps these are: [run_tick_steps]); an event for the log.  A history in which the 64-bit counter of
    matches wraps is not considered. *)
Inductive manager_step : Manager → Manager → Prop :=
  | step_create m now :
      mg_nextMatchSequence m + 1 < 2 ^ 64 → manager_step m (CreateMatch m now).1
  | step_join m now id p name : manager_step m (JoinMatch m now id p name).1
  | step_resume m id p name : manager_step m (ResumePlayer m id p name).1
  | step_connect m id p connected : manager_step m (SetPlayerConnected m id p connected).1
  | step_start m now id : manager_step m (StartMatch m now id).1
  | step_end m now id reason : manager_step m (EndMatch m now id reason).1
  | step_input m now id command : manager_step m (SubmitInput m now id command).1
  | step_knock m id p impulse ticks : manager_step m (ManagerApplyKnockback m id p impulse ticks).1
  | step_run m id s s' :
      mg_matches m !! id = Some s → ss_status s = MatchStatusRunning → same_roster s s' →
      manager_step m (set_session m id s')
  | step_finish m id s s' outcome timestamp :
      mg_matches m !! id = Some s → ss_status s = MatchStatusRunning → same_roster s s' →
      manager_step m (finish_match m id s' outcome timestamp)
  | step_log m event : manager_step m (appendEventLocked m event).

(** Any operation of the manager at all: [Close] as well, whatever comes after it.  [order] lists
    the matches in the order in which Go ranges over them. *)
Inductive life_step (m : Manager) : Manager → Prop :=
  | life_open m' : manager_step m m' → life_step m m'
  | life_close now order : order ≡ₚ (map_to_list (mg_matches m)).*1 → life_step m (Close m now order).

(** Submitting and pushing replace one match by one with the same roster, or do nothing. *)
Lemma submit_set m now id command :
  (SubmitInput m now id command).1 = m ∨
  ∃ s s', mg_matches m !! id = Some s ∧ same_roster s s' ∧
    (SubmitInput m now id command).1 = set_session m id s'.
Proof.
  unfold SubmitInput. case_match; [by left|]. case_match; [by left|].
  destruct (validateInputPayload _ _); [by left|].
  destruct (mg_matches m !! id) as [s|] eqn:Hs; [|by left].
  pose proof (submit_roster id s now (TrimSpace (ic_PlayerID command)) command) as Hr.
  destruct (submit_to_session _ _ _ _ _) as [s' r]. right. by exists s, s'.
Qed.

Lemma knockback_set m id p impulse ticks :
  (ManagerApplyKnockback m id p impulse ticks).1 = m ∨
  ∃ s s', mg_matches m !! id = Some s ∧ same_roster s s' ∧
    (ManagerApplyKnockback m id p impulse ticks).1 = set_session m id s'.
Proof.
  unfold ManagerApplyKnockback. destruct (mg_matches m !! id) as [s|] eqn:Hs; [|by left].
  case_match; [by left|]. destruct (knockback_session s p impulse ticks) as [[s' q]|] eqn:Hk; [|by left].
  right. exists s, s'. by apply knockback_roster in Hk.
Qed.

Lemma manager_step_inv m m' : manager_step m m' → manager_inv m → manager_inv m'.
Proof.
  intros Hstep Hm. destruct Hstep.
  - by apply manager_inv_create.
  - by apply manager_inv_join.
  - by apply manager_inv_resume.
  - by apply manager_inv_connect.
  - by apply manager_inv_start.
  - by apply manager_inv_end.
  - destruct (submit_set m now id command) as [->|(s & s' & Hs & Hr & ->)]; [done|].
    by eapply manager_inv_roster.
  - destruct (knockback_set m id p impulse ticks) as [->|(s & s' & Hs & Hr & ->)]; [done|].
    by eapply manager_inv_roster.
  - by eapply manager_inv_roster.
  - by eapply manager_inv_finish.
  - by apply manager_inv_event.
Qed.

Lemma manager_reachable_inv config m :
  ServerConfig.in_range config → rtc manager_step (newManagerWithDeps config) m → manager_inv m.
Proof.
  intros Hc%manager_inv_new Hr. revert Hc.
  induction Hr as [m|m1 m2 m3 Hs _ IH]; [done|]. intros Hm. by apply IH, (manager_step_inv m1).
Qed.

Lemma manager_step_sane m m' : manager_step m m' → manager_sane m → manager_sane m'.
Proof.
  intros Hstep Hm. destruct Hstep.
  - by apply manager_sane_create.
  - by apply manager_sane_join.
  - by apply manager_sane_resume.
  - by apply manager_sane_connect.
  - by apply manager_sane_start.
  - by apply manager_sane_end.
  - destruct (submit_set m now id command) as [->|(s & s' & Hs & Hr & ->)]; [done|].
    by eapply manager_sane_roster.
  - destruct (knockback_set m id p impulse ticks) as [->|(s & s' & Hs & Hr & ->)]; [done|].
    by eapply manager_sane_roster.
  - by eapply manager_sane_roster.
  - by eapply manager_sane_finish.
  - by apply manager_sane_event.
Qed.

Lemma life_step_sane m m' : life_step m m' → manager_sane m → manager_sane m'.
Proof. intros [m'' Hstep|now order _]; [by apply manager_step_sane|apply manager_sane_close]. Qed.

Lemma life_sane config m :
  ServerConfig.in_range config → rtc life_step (newManagerWithDeps config) m → manager_sane m.
Proof.
  intros Hc%manager_inv_new%manager_inv_sane Hr. revert Hc.
  induction Hr as [m|m1 m2 m3 Hs _ IH]; [done|]. intros Hm. by apply IH, (life_step_sane m1).
Qed.

(** *** A match only ever moves on *)

Definition status_rank (status : MatchStatus) : Z :=
  if status ≟ MatchStatusLobby then 0 else if status ≟ MatchStatusRunning then 1 else 2.

Record moved_on (s s' : matchSession) : Prop := mkMovedOn {
  mo_matchID : ss_matchID s' = ss_matchID s;
  mo_rank : status_rank (ss_status s) <= status_rank (ss_status s');
  mo_members : dom (ss_players s) ⊆ dom (ss_players s');
  mo_closed : ss_status s ≠ MatchStatusLobby → dom (ss_players s') = dom (ss_players s);
}.

Lemma rank_lobby status : status_rank status <= 0 → status = MatchStatusLobby.
Proof. unfold status_rank. case_bool_decide; [done|]. case_bool_decide; lia. Qed.

#[export] Instance moved_on_preorder : PreOrder moved_on.
Proof.
  split; [intros s; by split|].
  intros s1 s2 s3 [] []. split; [congruence|lia|set_solver|].
  intros H. rewrite mo_closed1, mo_closed0; try done.
  intros Hl. apply H, rank_lobby. rewrite Hl in mo_rank0. done.
Qed.

Lemma moved_on_roster s s' : same_roster s s' → moved_on s s'.
Proof. intros [E1 E2 E3 _ _]. split; rewrite ?E1, ?E2, ?E3; done. Qed.

(** Every match of the first manager is in the second, further on or where it was. *)
Definition history (m m' : Manager) : Prop :=
  ∀ id s, mg_matches m !! id = Some s → ∃ s', mg_matches m' !! id = Some s' ∧ moved_on s s'.

#[export] Instance history_preorder : PreOrder history.
Proof.
  split; [intros m id s Hs; by exists s|].
  intros m1 m2 m3 H1 H2 id s Hs. destruct (H1 _ _ Hs) as (s2 & Hs2 & Hm2).
  destruct (H2 _ _ Hs2) as (s3 & Hs3 & Hm3). exists s3. split; [done|by etrans].
Qed.

Lemma history_set m m' id s s' :
  mg_matches m !! id = Some s → mg_matches m' = <[id := s']> (mg_matches m) → moved_on s s' → history m m'.
Proof.
  intros Hs Hm Hs' id' s0 Hs0. rewrite Hm. destruct (decide (id = id')) as [<-|Hne].
  - exists s'. rewrite lookup_insert_eq. split; [done|]. congruence.
  - exists s0. by rewrite lookup_insert_ne.
Qed.

Lemma history_over m m' id s s' :
  mg_matches m !! id = Some s → mg_matches m' = <[id := s']> (mg_matches m) →
  ss_matchID s' = ss_matchID s → dom (ss_players s') = dom (ss_players s) →
  ss_status s' = MatchStatusGameOver → history m m'.
Proof.
  intros Hs Hm E1 E2 E3. apply (history_set m m' id s s'); [done..|].
  split; rewrite ?E2; try done. rewrite E3. unfold status_rank. repeat case_bool_decide; try done; lia.
Qed.

Lemma join_history m now id p name : history m (JoinMatch m now id p name).1.
Proof.
  unfold JoinMatch. case_bool_decide; [done|]. case_bool_decide; [done|].
  destruct (mg_playerToMatch m !! p); [done|]. destruct (mg_matches m !! id) as [s|] eqn:Hs; [|done].
  case_bool_decide as Hst; cbn [negb]; [|done]. destruct (_ <=? _); [done|].
  apply (history_set m _ id s (join_session s p (TrimSpace name) now)); [done|reflexivity|].
  destruct (join_session_roster s p (TrimSpace name) now) as [Epl Est].
  split; rewrite ?Est, ?Epl; [|done|set_solver|done].
  unfold join_session, touch_last_processed. by case_match.
Qed.

Lemma resume_history m id p name : manager_sane m → history m (ResumePlayer m id p name).1.
Proof.
  intros Hm. unfold ResumePlayer. case_bool_decide; [done|].
  destruct (mg_matches m !! id) as [s|] eqn:Hs; [|done].
  case_bool_decide; [done|]. destruct (_ && _); [done|]. destruct (negb _); [done|].
  eapply (history_set m _ id s); [done|reflexivity|].
  apply moved_on_roster, resume_roster. exact (si_game _ _ _ (sn_sessions _ Hm _ _ Hs)).
Qed.

Lemma connect_history m id p c : manager_sane m → history m (SetPlayerConnected m id p c).1.
Proof.
  intros Hm. unfold SetPlayerConnected. case_bool_decide; [done|].
  destruct (mg_matches m !! id) as [s|] eqn:Hs; [|done]. destruct (negb _); [done|].
  pose proof (connect_roster s (TrimSpace p) c (si_game _ _ _ (sn_sessions _ Hm _ _ Hs))) as Hr.
  destruct (connect_session _ _ _) as [s' err].
  eapply (history_set m _ id s); [done|reflexivity|]. by apply moved_on_roster.
Qed.

Lemma start_history m now id : manager_sane m → history m (StartMatch m now id).1.
Proof.
  intros Hm. unfold StartMatch. destruct (mg_matches m !! id) as [s|] eqn:Hs; [|done].
  case_bool_decide as Hrun; [done|]. case_bool_decide as Hover; [done|]. destruct (_ <? _); [done|].
  pose proof (sn_sessions _ Hm _ _ Hs) as Hsess.
  destruct (start_session_started (mg_config m) s now (si_game _ _ _ Hsess)) as [E1 E2 E3 _ _ _ _ _ _ _].
  revert E1 E2 E3. generalize (start_session (mg_config m) s now). intros s' E1 E2 E3.
  apply (history_set m _ id s s'); [done|reflexivity|].
  split; rewrite ?E2, ?E3; try done.
  destruct (si_status _ _ _ Hsess) as [->|[->|?]]; by vm_compute.
Qed.

Lemma end_history m now id reason : history m (EndMatch m now id reason).1.
Proof.
  unfold EndMatch. destruct (mg_matches m !! id) as [s|] eqn:Hs; [|done]. case_bool_decide; [done|].
  eapply (history_over m _ id s); [done|reflexivity..].
Qed.

Lemma manager_step_history m m' : manager_step m m' → manager_sane m → history m m'.
Proof.
  intros Hstep Hm. destruct Hstep.
  - destruct (manager_sane_create m now) as [_ Hfresh]; [done..|]. intros id s Hs.
    exists s. split; [|done]. destruct m. simpl in *. rewrite lookup_insert_ne; [done|congruence].
  - apply join_history.
  - by apply resume_history.
  - by apply connect_history.
  - by apply start_history.
  - apply end_history.
  - destruct (submit_set m now id command) as [->|(s & s' & Hs & Hr & ->)]; [done|].
    eapply history_set; [done|reflexivity|by apply moved_on_roster].
  - destruct (knockback_set m id p impulse ticks) as [->|(s & s' & Hs & Hr & ->)]; [done|].
    eapply history_set; [done|reflexivity|by apply moved_on_roster].
  - eapply history_set; [done|reflexivity|by apply moved_on_roster].
  - destruct H1. eapply (history_over m _ id s); [done|reflexivity|done|done|done].
  - intros id s Hs. by exists s.
Qed.

(** Closing, match by match. *)
Lemma Close_shape m now order :
  NoDup order →
  (∀ id, mg_matches (Close m now order) !! id =
    (λ s, if bool_decide (id ∈ order) then close_session s (now id) else s) <$> mg_matches m !! id) ∧
  (∀ p id', mg_playerToMatch (Close m now order) !! p = Some id' ↔
    mg_playerToMatch m !! p = Some id' ∧
    ∀ id s, id ∈ order → mg_matches m !! id = Some s → ¬ is_Some (ss_players s !! p)).
Proof.
  unfold Close. revert m. induction order as [|id0 order IH]; intros m Hnd; simpl.
  { split; [|set_solver]. intros id. by destruct (mg_matches m !! id). }
  apply NoDup_cons in Hnd as [Hnin Hnd]. destruct (IH (close_match now m id0) Hnd) as [IHm IHi].
  destruct (close_match_shape now m id0) as [Em Ei]. split.
  - intros id. rewrite IHm, Em. destruct (decide (id0 = id)) as [<-|Hne].
    + rewrite lookup_alter_eq. rewrite (bool_decide_true (id0 ∈ id0 :: order)) by set_solver.
      rewrite bool_decide_false by done. by destruct (mg_matches m !! id0).
    + rewrite lookup_alter_ne by done. destruct (mg_matches m !! id); [|done]. simpl. f_equal.
      rewrite (bool_decide_ext (id ∈ order) (id ∈ id0 :: order)) by set_solver. done.
  - intros p id'. rewrite IHi, Ei, Em. split.
    + intros [[Hp H0] H]. split; [done|]. intros id s [->|Hid]%elem_of_cons Hs; [by apply H0|].
      apply (H id); [done|]. rewrite lookup_alter_ne; [done|congruence].
    + intros [Hp H]. split_and!; [done| |].
      * intros s. apply H. set_solver.
      * intros id s Hid. destruct (decide (id0 = id)) as [<-|Hne]; [done|].
        rewrite lookup_alter_ne by done. apply H. set_solver.
Qed.

Lemma close_history m now order : NoDup order → history m (Close m now order).
Proof.
  intros Hnd id s Hs. destruct (Close_shape m now order Hnd) as [Em _]. rewrite Em, Hs. simpl.
  eexists. split; [reflexivity|]. case_bool_decide; [|done].
  destruct (close_session_keeps s (now id)) as (E1 & E2 & _ & _ & E5).
  split; rewrite ?E1, ?E2, ?E5; try done. case_bool_decide as Hr; [|done]. rewrite Hr. by vm_compute.
Qed.

Lemma life_step_history m m' : life_step m m' → manager_sane m → history m m'.
Proof.
  intros [m'' Hstep|now order Horder] Hm; [by apply manager_step_history|].
  apply close_history. rewrite Horder. apply NoDup_fst_map_to_list.
Qed.

(** ** What holds of every manager the server can reach *)

(** C4: In every manager reached from a new one by any operations and ticks in any order, a
    shutdown and what follows it included, while the 64-bit counter of matches does not wrap: whom
    the index by player names is in the match it names, which is not over; every match is stored under its own identifier and holds at most
    the configured number of players, and at least the configured minimum once it runs; and the
    players of its game are its players, once each and in order.  As long as the manager was
    never closed, moreover, the index names every player of a match that is not over, and a
    player is in at most one such match. *)
Theorem reachable_matches config m
    (Hconfig : ServerConfig.in_range config)
    (Hreach : rtc life_step (newManagerWithDeps config) m) :
  (∀ p id, mg_playerToMatch m !! p = Some id → ∃ s, mg_matches m !! id = Some s ∧
    is_Some (ss_players s !! p) ∧ ss_status s ≠ MatchStatusGameOver) ∧
  (∀ id s, mg_matches m !! id = Some s → ss_matchID s = id ∧
    Z.of_nat (size (ss_players s)) <= ServerConfig.MaxPlayers (mg_config m) ∧
    (ss_status s = MatchStatusRunning →
      ServerConfig.MinPlayers (mg_config m) <= Z.of_nat (size (ss_players s))) ∧
    map ps_ID (gs_Players (ss_gameState s)) = session_ids s) ∧
  (rtc manager_step (newManagerWithDeps config) m →
   (∀ p id, mg_playerToMatch m !! p = Some id ↔ ∃ s, mg_matches m !! id = Some s ∧
     is_Some (ss_players s !! p) ∧ ss_status s ≠ MatchStatusGameOver) ∧
   (∀ p id id' s s', mg_matches m !! id = Some s → mg_matches m !! id' = Some s' →
     is_Some (ss_players s !! p) → is_Some (ss_players s' !! p) →
     ss_status s ≠ MatchStatusGameOver → ss_status s' ≠ MatchStatusGameOver → id = id')).
Proof.
  pose proof (life_sane config m Hconfig Hreach) as Hsane. split; [apply (sn_index _ Hsane)|]. split.
  { intros id s Hs. by destruct (sn_sessions _ Hsane _ _ Hs). }
  intros Hopen. pose proof (manager_reachable_inv config m Hconfig Hopen) as Hm. split; [apply (mi_index _ Hm)|].
  intros p id id' s s' Hs Hs' Hp Hp' Hl Hl'.
  assert (mg_playerToMatch m !! p = Some id) as E1 by by apply (manager_inv_indexed m id s).
  assert (mg_playerToMatch m !! p = Some id') as E2 by by apply (manager_inv_indexed m id' s').
  congruence.
Qed.

(** C5: From any manager the server reached, whatever happens next, a shutdown included, while the
    64-bit counter of matches does not wrap, no match disappears or changes its identifier, its status never goes back (lobby, running, over), no
    player leaves it, and none joins once it has left the lobby. *)
Theorem matches_move_on config m m'
    (Hconfig : ServerConfig.in_range config)
    (Hreach : rtc life_step (newManagerWithDeps config) m) (Hnext : rtc life_step m m') :
  ∀ id s, mg_matches m !! id = Some s → ∃ s', mg_matches m' !! id = Some s' ∧ moved_on s s'.
Proof.
  pose proof (life_sane config m Hconfig Hreach) as Hm. clear Hreach.
  change (history m m'). induction Hnext as [m|m1 m2 m3 Hs _ IH]; [done|].
  etrans; [by apply life_step_history|]. by apply IH, (life_step_sane m1).
Qed.

(** ** Each operation on its own *)

Lemma JoinMatch_cases m now id p name :
  (∃ err, JoinMatch m now id p name = (m, inl err) ∧
    ¬ (TrimSpace p ≠ "" ∧ TrimSpace name ≠ "" ∧ mg_playerToMatch m !! p = None ∧
       ∃ s, mg_matches m !! id = Some s ∧ ss_status s = MatchStatusLobby ∧
         Z.of_nat (size (ss_players s)) < ServerConfig.MaxPlayers (mg_config m))) ∨
  (TrimSpace p ≠ "" ∧ TrimSpace name ≠ "" ∧ mg_playerToMatch m !! p = None ∧
   ∃ s m', mg_matches m !! id = Some s ∧ ss_status s = MatchStatusLobby ∧
     Z.of_nat (size (ss_players s)) < ServerConfig.MaxPlayers (mg_config m) ∧
     let s' := join_session s p (TrimSpace name) now in
     JoinMatch m now id p name = (m', inr (snapshotFromSession s')) ∧
     mg_matches m' = <[id := s']> (mg_matches m) ∧
     mg_playerToMatch m' = <[p := id]> (mg_playerToMatch m)).
Proof.
  unfold JoinMatch. case_bool_decide; [left; eexists; split; [done|tauto]|].
  case_bool_decide; [left; eexists; split; [done|tauto]|].
  destruct (mg_playerToMatch m !! p) eqn:Hp; [left; eexists; split; [done|naive_solver]|].
  destruct (mg_matches m !! id) as [s|] eqn:Hs; [|left; eexists; split; [done|naive_solver]].
  case_bool_decide; cbn [negb]; [|left; eexists; split; [done|naive_solver]].
  destruct (_ <=? _) eqn:Hmax; bool_props; [left; eexists; split; [done|]|].
  { intros (_ & _ & _ & s0 & [= <-] & _ & Hlt). lia. }
  right. split_and!; try done. eexists s, _. by split_and!.
Qed.

(** A player joins exactly when both names have a visible character, the player is in no
    match, and the match exists, is in the lobby and has room; then the match has the
    player (connected, alive, with three lives) besides everybody it had, and
    the index names it.  Otherwise nothing changes. *)
Theorem JoinMatch_spec m now id p name :
  ((∃ snapshot, (JoinMatch m now id p name).2 = inr snapshot) ↔
    TrimSpace p ≠ "" ∧ TrimSpace name ≠ "" ∧ mg_playerToMatch m !! p = None ∧
    ∃ s, mg_matches m !! id = Some s ∧ ss_status s = MatchStatusLobby ∧
      Z.of_nat (size (ss_players s)) < ServerConfig.MaxPlayers (mg_config m)) ∧
  match JoinMatch m now id p name with
  | (m', inl _) => m' = m
  | (m', inr snapshot) =>
      mg_playerToMatch m' = <[p := id]> (mg_playerToMatch m) ∧
      ∃ s s', mg_matches m !! id = Some s ∧ mg_matches m' = <[id := s']> (mg_matches m) ∧
        snapshot = snapshotFromSession s' ∧
        ss_players s' = <[p := mkPlayerSession p (TrimSpace name) now]> (ss_players s) ∧
        map ps_ID (gs_Players (ss_gameState s')) = session_ids s' ∧ ss_status s' = MatchStatusLobby
  end.
Proof.
  destruct (JoinMatch_cases m now id p name) as [(err & -> & Hno)|
    (Hp & Hn & Hi & s & m' & Hs & Hst & Hmax & -> & Em & Ei)]; cbn [snd]; (split; [split|]).
  - by intros [? [=]].
  - tauto.
  - done.
  - intros _. split_and!; try done. by exists s.
  - eauto.
  - split; [exact Ei|]. exists s, (join_session s p (TrimSpace name) now).
    destruct (join_session_roster s p (TrimSpace name) now) as [Epl Est].
    split_and!; try done; [etrans; [apply sync_ids|reflexivity]|congruence].
Qed.

(** A match starts exactly when it exists, is in the lobby and has the minimum of
    players; then it runs from tick 0 with the same players, all of them in the game,
    an empty queue, a history of the one full snapshot of tick 0, and every player's last
    processed command at 0.  Otherwise nothing changes. *)
Theorem StartMatch_spec m now id
    (Hm : manager_inv m) :
  ((∃ snapshot, (StartMatch m now id).2 = inr snapshot) ↔
    ∃ s, mg_matches m !! id = Some s ∧ ss_status s = MatchStatusLobby ∧
      ServerConfig.MinPlayers (mg_config m) <= Z.of_nat (size (ss_players s))) ∧
  match StartMatch m now id with
  | (m', inl _) => m' = m
  | (m', inr snapshot) =>
      mg_playerToMatch m' = mg_playerToMatch m ∧
      ∃ s s', mg_matches m !! id = Some s ∧ mg_matches m' = <[id := s']> (mg_matches m) ∧
        snapshot = snapshotFromSession s' ∧ started (mg_config m) s now s' ∧ fresh_queue s'
  end.
Proof.
  unfold StartMatch. destruct (mg_matches m !! id) as [s|] eqn:Hs; cbn [snd];
    [|split; [split; [by intros [? [=]]|naive_solver]|done]].
  pose proof (mi_sessions _ Hm _ _ Hs) as Hsess.
  case_bool_decide as Hrun; [split; [split; [by intros [? [=]]|intros (s0 & [= <-] & Hl & _); by rewrite Hl in Hrun]|done]|].
  case_bool_decide as Hover; [split; [split; [by intros [? [=]]|intros (s0 & [= <-] & Hl & _); by rewrite Hl in Hover]|done]|].
  assert (ss_status s = MatchStatusLobby) as Hl by (destruct Hsess; naive_solver).
  destruct (_ <? _) eqn:Hmin; bool_props;
    [split; [split; [by intros [? [=]]|intros (s0 & [= <-] & _ & Hge); lia]|done]|].
  cbn [snd]. pose proof (start_session_started (mg_config m) s now (si_game _ _ _ Hsess)) as Hst.
  revert Hst. generalize (start_session (mg_config m) s now). intros s' Hst. split; [split; [|eauto]|].
  - intros _. by exists s.
  - split; [done|]. exists s, s'. split_and!; try done.
    apply (st_queue _ _ _ _ Hst), (si_lobby _ _ _ Hsess), Hl.
Qed.

(** C20: Ending a match that is not over keeps it, with its players and the reason given
    (trimmed, [manual_end] when blank), empties its queues, and frees its players: the
    index names no match for them, so each may join any match with room at once.
    Otherwise nothing changes. *)
Theorem EndMatch_frees_players m now id reason
    (Hm : manager_inv m) :
  match EndMatch m now id reason with
  | (m', inl err) => m' = m ∧ (err = ErrMatchNotFound ∨ err = ErrMatchAlreadyEnded)
  | (m', inr snapshot) =>
      ∃ s s', mg_matches m !! id = Some s ∧ ss_status s ≠ MatchStatusGameOver ∧
        mg_matches m' = <[id := s']> (mg_matches m) ∧
        ss_status s' = MatchStatusGameOver ∧ ss_players s' = ss_players s ∧
        ss_endedReason s' = (if TrimSpace reason ≟ "" then "manual_end" else TrimSpace reason) ∧
        ss_scheduledInputs s' = ∅ ∧ snapshot = snapshotFromSession s' ∧
        (∀ p, mg_playerToMatch m' !! p =
          if bool_decide (p ∈ dom (ss_players s)) then None else mg_playerToMatch m !! p) ∧
        (∀ p other t name now', p ∈ dom (ss_players s) → other ≠ id → mg_matches m !! other = Some t →
          ss_status t = MatchStatusLobby → TrimSpace p ≠ "" → TrimSpace name ≠ "" →
          Z.of_nat (size (ss_players t)) < ServerConfig.MaxPlayers (mg_config m) →
          ∃ joined, (JoinMatch m' now' other p name).2 = inr joined)
  end.
Proof.
  unfold EndMatch. destruct (mg_matches m !! id) as [s|] eqn:Hs; [|by split; [|left]].
  case_bool_decide as Hover; [by split; [|right]|].
  match goal with |- context [appendEventLocked ?m' ?e] => set (m1 := appendEventLocked m' e) end.
  assert (∀ p, p ∈ dom (ss_players s) → mg_playerToMatch m1 !! p = None) as Hfree.
  { intros p Hp%elem_of_dom. apply eq_None_ne_Some. intros id'.
    change (mg_playerToMatch m1) with (mg_playerToMatch (forget_players m s)).
    rewrite forget_players_lookup. tauto. }
  exists s. eexists. split_and!; try reflexivity; [done|..].
  - intros p. case_bool_decide as Hp; [by apply Hfree|]. apply option_eq. intros id'.
    change (mg_playerToMatch m1) with (mg_playerToMatch (forget_players m s)).
    rewrite forget_players_lookup, <-elem_of_dom. tauto.
  - intros p other t name now' Hp Hother Ht Hlobby Hid Hname Hroom.
    destruct (JoinMatch_cases m1 now' other p name) as [(err & _ & [])|
      (_ & _ & _ & t' & m' & _ & _ & _ & -> & _)]; [|by eexists].
    split_and!; try done; [by apply Hfree|]. exists t. split_and!; try done.
    change (mg_matches m1) with (<[id := end_session s now
      (if TrimSpace reason ≟ "" then "manual_end" else TrimSpace reason)]> (mg_matches m)).
    by rewrite lookup_insert_ne.
Qed.

(** *** Shutting down *)

Lemma close_session_players s now : ss_players (close_session s now) = ss_players s.
Proof. unfold close_session. case_match; [case_match|]; reflexivity. Qed.

Lemma if_true `{Decision P} {A} (x y : A) : P → (if bool_decide P then x else y) = x.
Proof. intros. by rewrite bool_decide_true. Qed.
Lemma if_false `{Decision P} {A} (x y : A) : ¬ P → (if bool_decide P then x else y) = y.
Proof. intros. by rewrite bool_decide_false. Qed.

(** Closing a manager the server reached, in whatever order Go ranges over the matches:
    no match disappears or loses a player, none is left running, a running one is over
    with a reason ([server_shutdown] when it had none), the others keep their
    status, every queue is empty, and no player is in a match any more. *)
Theorem Close_spec config m now order
    (Hconfig : ServerConfig.in_range config)
    (Hreach : rtc manager_step (newManagerWithDeps config) m)
    (Horder : order ≡ₚ (map_to_list (mg_matches m)).*1) :
  mg_playerToMatch (Close m now order) = ∅ ∧
  dom (mg_matches (Close m now order)) = dom (mg_matches m) ∧
  ∀ id s, mg_matches m !! id = Some s → ∃ s', mg_matches (Close m now order) !! id = Some s' ∧
    ss_players s' = ss_players s ∧ ss_scheduledInputs s' = ∅ ∧ ss_looping s' = false ∧
    if ss_status s ≟ MatchStatusRunning then
      ss_status s' = MatchStatusGameOver ∧ ss_endedAt s' = Some (now id) ∧
      ss_endedReason s' = (if TrimSpace (ss_endedReason s) ≟ "" then "server_shutdown" else ss_endedReason s)
    else ss_status s' = ss_status s ∧ ss_endedReason s' = ss_endedReason s.
Proof.
  pose proof (manager_reachable_inv config m Hconfig Hreach) as Hm.
  assert (NoDup order) as Hnd by (rewrite Horder; apply NoDup_fst_map_to_list).
  destruct (Close_shape m now order Hnd) as [Em Ei].
  assert (∀ id s, mg_matches m !! id = Some s → id ∈ order) as Hall.
  { intros id s Hs. rewrite Horder, list_elem_of_fmap. exists (id, s). split; [done|]. by apply elem_of_map_to_list. }
  split_and!.
  - apply map_empty. intros p. apply eq_None_ne_Some. intros id [Hid H]%Ei.
    apply (mi_index _ Hm) in Hid as (s & Hs & Hp & _). by apply (H id s); [eapply Hall| |].
  - apply set_eq. intros id. rewrite !elem_of_dom, Em. by rewrite fmap_is_Some.
  - intros id s Hs. rewrite Em, Hs. simpl. eexists. split; [reflexivity|].
    rewrite bool_decide_true by by eapply Hall. rewrite close_session_players.
    unfold close_session. case_bool_decide; [|by split_and!].
    case_bool_decide as Hr; split_and!; try reflexivity.
    + symmetry. exact (if_true _ _ Hr).
    + symmetry. exact (if_false _ _ Hr).
Qed.

End histories.

(** ** A name the index can never find *)

(** JoinMatch checks the trimmed player ID but stores the player under the ID as it was
    given, while every other operation looks the trimmed ID up: a player whose ID has
    outer white space joins, and then has no match, cannot resume and cannot connect. *)
Theorem JoinMatch_untrimmed m now id p name snapshot
    (Hm : manager_inv m)
    (Htrim : TrimSpace p ≠ p) (Hfree : mg_playerToMatch m !! TrimSpace p = None)
    (Hjoin : (JoinMatch m now id p name).2 = inr snapshot) :
  let m' := (JoinMatch m now id p name).1 in
  mg_playerToMatch m' !! p = Some id ∧
  MatchIDForPlayer m' p = None ∧
  (∀ again, (ResumePlayer m' id p again).2 = inl ErrPlayerNotFound) ∧
  (∀ connected, (SetPlayerConnected m' id p connected).2 = Some ErrPlayerNotFound).
Proof.
  destruct (JoinMatch_cases m now id p name) as [(err & Heq & _)|
    (Hp & _ & _ & s & m' & Hs & Hst & _ & Heq & Em & Ei)]; rewrite Heq in *; [done|].
  cbn [fst]. cbv zeta. destruct (join_session_roster s p (TrimSpace name) now) as [Epl Est].
  assert (ss_players s !! TrimSpace p = None) as Hout.
  { apply eq_None_not_Some. intros Hin.
    assert (mg_playerToMatch m !! TrimSpace p = Some id) as Hx; [|by rewrite Hx in Hfree].
    apply (manager_inv_indexed m id s); [done..|]. split; [done|by rewrite Hst]. }
  assert (mg_playerToMatch m' !! TrimSpace p = None) as Hin' by (rewrite Ei; by rewrite lookup_insert_ne).
  assert (mg_matches m' !! id = Some (join_session s p (TrimSpace name) now)) as Hs'
    by (rewrite Em; apply lookup_insert_eq).
  assert (ss_players (join_session s p (TrimSpace name) now) !! TrimSpace p = None) as Hout'
    by (rewrite Epl; by rewrite lookup_insert_ne).
  clear Em Heq Hjoin. revert Est Hs' Hout'. generalize (join_session s p (TrimSpace name) now).
  intros s' Est Hs' Hout'. split_and!.
  - rewrite Ei. apply lookup_insert_eq.
  - unfold MatchIDForPlayer. by case_bool_decide.
  - intros again. unfold ResumePlayer. rewrite bool_decide_false by done. rewrite Hs', Est, Hst, Hin', Hout'.
    done.
  - intros connected. unfold SetPlayerConnected. rewrite bool_decide_false by done. by rewrite Hs', Hout'.
Qed.

(** ** A manager with two players *)

Definition demo_config : ServerConfig.Config := ServerConfig.mkConfig 2 12 20 0 0 0 "".

Definition demo_lobby : Manager :=
  let m := (CreateMatch (newManagerWithDeps demo_config) 100).1 in
  let m := (JoinMatch m 110 "match-000001" "ann" "Ann").1 in
  (JoinMatch m 120 "match-000001" "bob" "Bob").1.

Lemma demo_config_in_range : ServerConfig.in_range demo_config.
Proof. unfold ServerConfig.in_range, is_u8, is_u16, is_u32. simpl. lia. Qed.

(** A decoder that takes no payload: the demonstrations submit nothing. *)
Definition no_payloads : PayloadDecoder :=
  {| decode_movement := λ _, None; decode_aim := λ _, None; decode_interact := λ _, None;
     decode_ability := λ _, None; decode_card := λ _, None; decode_item := λ _, None;
     decode_market := λ _, None; decode_fire := λ _, None; decode_equip := λ _, None;
     decode_drop := λ _, None; decode_craft := λ _, None |}.

Definition demo_id : MatchID := "match-000001".

Lemma demo_reachable_lobby :
  rtc (manager_step (Hdec := no_payloads)) (newManagerWithDeps demo_config) demo_lobby.
Proof.
  unfold demo_lobby. eapply rtc_l; [by apply step_create|].
  eapply rtc_l; [apply step_join|]. eapply rtc_l; [apply step_join|]. done.
Qed.

Lemma demo_joined : mg_playerToMatch demo_lobby !! "bob" = Some demo_id.
Proof. reflexivity. Qed.

Lemma demo_lobby_inv : manager_inv demo_lobby.
Proof. exact (manager_reachable_inv _ _ demo_config_in_range demo_reachable_lobby). Qed.

Lemma demo_life : rtc (life_step (Hdec := no_payloads)) (newManagerWithDeps demo_config) demo_lobby.
Proof. refine (rtc_subrel _ _ _ _ _ demo_reachable_lobby). intros m m'. apply life_open. Qed.

Lemma demo_order : [demo_id] ≡ₚ (map_to_list (mg_matches demo_lobby)).*1.
Proof. assert (((map_to_list (mg_matches demo_lobby)).*1) = [demo_id]) as -> by reflexivity. done. Qed.

(** The lobby before and after a shutdown. *)
Lemma reachable_matches_witness :
  (∃ s, mg_matches demo_lobby !! demo_id = Some s ∧
    is_Some (ss_players s !! "bob") ∧ ss_status s ≠ MatchStatusGameOver) ∧
  (∀ s, mg_matches (Close demo_lobby (λ _, 140) [demo_id]) !! demo_id = Some s →
    map ps_ID (gs_Players (ss_gameState s)) = session_ids s).
Proof.
  split.
  - apply (reachable_matches demo_config demo_lobby demo_config_in_range demo_life); [exact demo_reachable_lobby|].
    exact demo_joined.
  - intros s Hs. apply (reachable_matches (Hdec := no_payloads) demo_config (Close demo_lobby (λ _, 140) [demo_id])
      demo_config_in_range) with (id := demo_id); [|exact Hs].
    eapply rtc_r; [exact demo_life|]. apply life_close, demo_order.
Defined.

Lemma demo_session : ∃ s, mg_matches demo_lobby !! demo_id = Some s ∧
  ss_status s = MatchStatusLobby ∧ size (ss_players s) = 2%nat.
Proof.
  assert (ss_status <$> mg_matches demo_lobby !! demo_id = Some MatchStatusLobby) as H1 by reflexivity.
  assert ((λ s, size (ss_players s)) <$> mg_matches demo_lobby !! demo_id = Some 2%nat) as H2 by reflexivity.
  revert H1 H2. generalize (mg_matches demo_lobby !! demo_id). intros [s|]; [|discriminate].
  intros H1 H2. simpl in *. exists s. split; [done|]. split; congruence.
Qed.

Lemma matches_move_on_witness : ∃ s s', mg_matches demo_lobby !! demo_id = Some s ∧
  mg_matches (EndMatch demo_lobby 130 demo_id "").1 !! demo_id = Some s' ∧ moved_on s s'.
Proof.
  destruct demo_session as (s & Hs & _). exists s.
  destruct (matches_move_on (Hdec := no_payloads) demo_config demo_lobby
    (EndMatch demo_lobby 130 demo_id "").1 demo_config_in_range demo_life
    (rtc_once _ _ (life_open (Hdec := no_payloads) _ _ (step_end (Hdec := no_payloads) demo_lobby 130 demo_id ""))) demo_id s Hs) as (s' & Hs' & Hm).
  exists s'. by split_and!.
Defined.

Lemma StartMatch_spec_witness : ∃ snapshot, (StartMatch demo_lobby 130 demo_id).2 = inr snapshot.
Proof.
  assert (ServerConfig.MinPlayers (mg_config demo_lobby) = 2) as Hmin by reflexivity.
  generalize demo_session, demo_lobby_inv, Hmin. generalize demo_lobby. clear Hmin.
  intros m (s & Hs & Hst & Hsize) Hm Hmin. apply (StartMatch_spec m 130 demo_id Hm).
  exists s. split_and!; [done..|]. rewrite Hsize, Hmin. lia.
Defined.

Lemma EndMatch_frees_players_witness :
  mg_playerToMatch (EndMatch demo_lobby 130 demo_id " ").1 !! "bob" = None.
Proof.
  generalize demo_session, demo_lobby_inv, demo_joined. generalize demo_lobby.
  intros m (s & Hs & Hst & _) Hm Hbob.
  pose proof (EndMatch_frees_players m 130 demo_id " " Hm) as H.
  assert (∃ snapshot, (EndMatch m 130 demo_id " ").2 = inr snapshot) as [snapshot Hok]
    by (unfold EndMatch; rewrite Hs, Hst; by eexists).
  destruct (EndMatch m 130 demo_id " ") as [m' result]. cbn [fst snd] in *. subst result.
  destruct H as (s0 & s' & Hs0 & _ & _ & _ & _ & _ & _ & _ & Hindex & _). rewrite Hindex.
  rewrite bool_decide_true; [done|]. apply elem_of_dom.
  by apply (manager_inv_indexed m demo_id s0 "bob" Hm Hs0).
Defined.

Lemma Close_spec_witness : mg_playerToMatch (Close demo_lobby (λ _, 140) [demo_id]) = ∅.
Proof.
  apply (Close_spec (Hdec := no_payloads) demo_config demo_lobby (λ _, 140) [demo_id]
    demo_config_in_range demo_reachable_lobby demo_order).
Defined.

Lemma JoinMatch_untrimmed_witness :
  MatchIDForPlayer (JoinMatch demo_lobby 130 demo_id " cat " "Cat").1 " cat " = None.
Proof.
  assert (mg_playerToMatch demo_lobby !! "cat" = None ∧ mg_playerToMatch demo_lobby !! " cat " = None ∧
    ServerConfig.MaxPlayers (mg_config demo_lobby) = 12) as Hfree by by split_and!.
  generalize demo_session, demo_lobby_inv, Hfree. generalize demo_lobby. clear Hfree.
  intros m (s & Hs & Hst & Hsize) Hm (Hcat & Hraw & Hmax).
  destruct (JoinMatch_cases m 130 demo_id " cat " "Cat") as [(err & _ & [])|
    (_ & _ & _ & t & m' & _ & _ & _ & Heq & _)].
  { split_and!; [by vm_compute..|done|]. exists s. split_and!; [done..|]. rewrite Hsize, Hmax. lia. }
  apply (JoinMatch_untrimmed m 130 demo_id " cat " "Cat" (snapshotFromSession (join_session t " cat " (TrimSpace "Cat") 130)) Hm).
  - by vm_compute.
  - exact Hcat.
  - by rewrite Heq.
Defined.

(** ** After a shutdown

    Closing forgets who is in a match of the lobby, the match stays in the lobby, and nothing
    refuses a later call: the player can be let into a second match. *)
Definition demo_twice : Manager :=
  let m := (CreateMatch demo_lobby 130).1 in
  let m := Close m (λ _, 140) [demo_id; "match-000002"] in
  (JoinMatch m 150 "match-000002" "bob" "Bob").1.

(** The player is in a match of the lobby. *)
Definition waits_in (id : MatchID) (p : PlayerID) (m : Manager) : bool :=
  match mg_matches m !! id with
  | Some s => bool_decide (is_Some (ss_players s !! p)) && (ss_status s ≟ MatchStatusLobby)
  | None => false
  end.

Lemma Close_lets_in_twice : rtc (life_step (Hdec := no_payloads)) (newManagerWithDeps demo_config) demo_twice ∧
  waits_in demo_id "bob" demo_twice = true ∧ waits_in "match-000002" "bob" demo_twice = true.
Proof.
  split; [|split; by vm_compute]. unfold demo_twice. eapply rtc_r; [eapply rtc_r; [eapply rtc_r; [exact demo_life|]|]|].
  - apply life_open, step_create. by vm_compute.
  - apply life_close. by vm_compute.
  - apply life_open, step_join.
Qed.
