(* ===== verification/Matchmaking.v ===== *)
(** * Matchmaking

    [internal/server/matchmaking/service.go]: a player asks for a lobby, with a preferred
    region and the latencies of the regions; the service answers with the best lobby that can
    be joined, or with a new match.  It reaches the matches through an interface, the Go
    [manager], here the class [MatchManager]; the manager of [Session] and [Lifecycle] is its
    instance.

    The mutex is Go's, and the order in which Go ranges over a map is an argument.  What the
    clocks answer are arguments too. *)

From S2P Require Import Prelude Float32 Model GoStrings Layout Access Items Phase Combat Roles Physics Session InputQueue Spawn Lifecycle Matches.
From Stdlib Require Import Ascii.

#[local] Open Scope Z_scope.

(** What the service asks of the matches. *)
Class MatchManager (M : Type) := {
  manager_CreateMatch : M → Z → M * MatchSnapshot;
  manager_ListMatchSnapshots : M → list MatchSnapshot;
  manager_MatchConstraints : M → Z * Z;
}.

Definition MatchConstraints (m : Manager) : Z * Z :=
  (ServerConfig.MinPlayers (mg_config m), ServerConfig.MaxPlayers (mg_config m)).

#[export] Instance game_manager : MatchManager Manager := {|
  manager_CreateMatch := CreateMatch;
  manager_ListMatchSnapshots := ListMatchSnapshots;
  manager_MatchConstraints := MatchConstraints;
|}.

Module Matchmaking.

Definition DefaultRegionID : string := "global".
Definition MaxRegionIDLength : nat := 24.
Definition MaxRegionLatencyEntries : Z := 12.
Definition MaxRegionLatencyMS : Z := 2000.

(** ** Data *)

Record Lobby := mkLobby {
  lb_MatchID : MatchID;
  lb_Region : string;
  lb_Status : MatchStatus;
  lb_PlayerCount : Z;
  lb_MinPlayers : Z;
  lb_MaxPlayers : Z;
  lb_OpenSlots : Z;
  lb_Joinable : bool;
  lb_ReadyToStart : bool;
  lb_CreatedAt : Z;
}.

Record QueueRequest := mkRequest {
  qr_PlayerID : PlayerID;
  qr_PreferredRegion : string;
  qr_RegionLatencyMS : gmap string Z;
  qr_ExcludeMatchIDs : list MatchID;
}.

Record QueueMetrics := mkMetrics {
  QueuedTotal : Z;
  AllocatedTotal : Z;
  CurrentDepth : Z;
  MaxDepth : Z;
}.
#[export] Instance QueueMetrics_eta : RecordEta QueueMetrics := λ r,
  mkMetrics (QueuedTotal r) (AllocatedTotal r) (CurrentDepth r) (MaxDepth r).

Record queueEntry := mkEntry {
  qe_ticketID : string;
  qe_playerID : PlayerID;
  qe_preferredRegion : string;
  qe_regionLatencyMS : gmap string Z;
  qe_excludeMatchIDs : gset MatchID;
  qe_enqueuedAt : Z;
}.

Record QueueEntrySnapshot := mkEntrySnapshot {
  qs_TicketID : string;
  qs_PlayerID : PlayerID;
  qs_PreferredRegion : string;
  qs_EnqueuedAt : Z;
  qs_QueuePosition : Z;
}.

Record Service := mkService {
  nextTicketSequence : Z;
  queue : list queueEntry;
  matchRegions : gmap MatchID string;
  queueMetrics : QueueMetrics;
}.
#[export] Instance Service_eta : RecordEta Service := λ r,
  mkService (nextTicketSequence r) (queue r) (matchRegions r) (queueMetrics r).

Definition NewService : Service := mkService 0 [] ∅ (mkMetrics 0 0 0 0).

(** ** Regions *)

(** Bytes above 127 belong to runes that are not safe. *)
Definition safe_char (c : ascii) : bool :=
  let n := Z.of_nat (nat_of_ascii c) in
  (97 <=? n) && (n <=? 122) || (65 <=? n) && (n <=? 90) || (48 <=? n) && (n <=? 57) ||
  (c ≟ "-"%char) || (c ≟ "_"%char).
Definition isSafeIdentifier (value : string) : bool := forallb safe_char (String.list_ascii_of_string value).

Definition NormalizeRegionID (region : string) : string :=
  let trimmed := ToLower (TrimSpace region) in
  if trimmed ≟ "" then ""
  else if (MaxRegionIDLength <? String.length trimmed)%nat then ""
  else if negb (isSafeIdentifier trimmed) then "" else trimmed.

Definition validateRegionID (region : string) : bool :=
  let trimmed := TrimSpace region in
  if trimmed ≟ "" then true else NormalizeRegionID trimmed ≠? "".

Inductive request_error :=
  | InvalidRegion
  | TooManyLatencies
  | InvalidLatencyKey (region : string)
  | InvalidLatencyValue (region : string).

(** The loop over the latencies, in the order of Go's range: the first complaint. *)
Fixpoint validate_latencies (latencies : gmap string Z) (order : list string) : option request_error :=
  match order with
  | [] => None
  | region :: order =>
      let latency := default 0 (latencies !! region) in
      if negb (validateRegionID region) then Some (InvalidLatencyKey region)
      else if (latency ≟ 0) || (MaxRegionLatencyMS <? latency) then Some (InvalidLatencyValue region)
      else validate_latencies latencies order
  end.

Definition ValidateQueueRequest (order : list string) (request : QueueRequest) : option request_error :=
  if negb (validateRegionID (qr_PreferredRegion request)) then Some InvalidRegion
  else if MaxRegionLatencyEntries <? Z.of_nat (size (qr_RegionLatencyMS request)) then Some TooManyLatencies
  else validate_latencies (qr_RegionLatencyMS request) order.

Definition normalize_latency (latencies : gmap string Z) (out : gmap string Z) (region : string) : gmap string Z :=
  let latency := default 0 (latencies !! region) in
  let normalizedRegion := NormalizeRegionID region in
  if (normalizedRegion ≟ "") || (latency ≟ 0) || (MaxRegionLatencyMS <? latency) then out
  else <[normalizedRegion := latency]> out.

Definition normalizeQueueRequest (order : list string) (request : QueueRequest) : QueueRequest :=
  mkRequest (TrimSpace (qr_PlayerID request)) (NormalizeRegionID (qr_PreferredRegion request))
    (foldl (normalize_latency (qr_RegionLatencyMS request)) ∅ order)
    (filter (λ id, id ≠ "") (map TrimSpace (qr_ExcludeMatchIDs request))).

Definition chooseCreationRegion (request : QueueRequest) : string :=
  if qr_PreferredRegion request ≠? "" then qr_PreferredRegion request
  else if size (qr_RegionLatencyMS request) ≟ 0%nat then DefaultRegionID
  else
    let regions := sort_strings (elements (dom (qr_RegionLatencyMS request))) in
    (foldl (λ '(bestRegion, bestLatency) region,
      let latency := default 0 (qr_RegionLatencyMS request !! region) in
      if latency <? bestLatency then (region, latency) else (bestRegion, bestLatency))
      (DefaultRegionID, MaxRegionLatencyMS + 1) regions).1.

(** ** Lobbies *)

Definition lobbyFromMatchSnapshot (snapshot : MatchSnapshot) (minPlayers maxPlayers : Z) (region : string) : Lobby :=
  let playerCount := u8 (Z.of_nat (length (sm_Players snapshot))) in
  let openSlots := if playerCount <? maxPlayers then u8 (maxPlayers - playerCount) else 0 in
  mkLobby (sm_MatchID snapshot) region (sm_Status snapshot) playerCount minPlayers maxPlayers openSlots
    ((sm_Status snapshot ≟ MatchStatusLobby) && (0 <? openSlots)) (minPlayers <=? playerCount)
    (sm_CreatedAt snapshot).

(** What the comparison of [sortLobbiesForRequest] looks at, one after the other; a smaller
    key comes first.  Where neither region has a known latency the comparison goes on. *)
Definition lobby_key (request : QueueRequest) (lobby : Lobby) : Z * (Z * (Z * (Z * (Z * (Z * MatchID))))) :=
  let preferred := qr_PreferredRegion request in
  let latency := qr_RegionLatencyMS request !! lb_Region lobby in
  (if lb_Joinable lobby then 0 else 1,
   (if (preferred ≠? "") && (lb_Region lobby ≠? preferred) then 1 else 0,
    (if latency is Some _ then 0 else 1,
     (default 0 latency,
      (- lb_PlayerCount lobby,
       (lb_CreatedAt lobby, lb_MatchID lobby)))))).
Definition lobby_key_le : relation (Z * (Z * (Z * (Z * (Z * (Z * MatchID)))))) :=
  lex_le Z.le (lex_le Z.le (lex_le Z.le (lex_le Z.le (lex_le Z.le (lex_le Z.le String.le))))).
#[export] Instance lobby_key_dec : RelDecision lobby_key_le.
Proof. unfold lobby_key_le. apply _. Defined.
#[export] Instance lobby_key_total : Total lobby_key_le.
Proof. unfold lobby_key_le. apply _. Qed.
#[export] Instance lobby_key_partial : PartialOrder lobby_key_le.
Proof. unfold lobby_key_le. apply _. Qed.

Definition sortLobbiesForRequest (lobbies : list Lobby) (request : QueueRequest) : list Lobby :=
  sort_by lobby_key_le (lobby_key request) lobbies.

(** Asking for a match nobody placed puts it in the default region. *)
Definition regionForMatchLocked (s : Service) (matchID : MatchID) : Service * string :=
  if matchID ≟ "" then (s, DefaultRegionID)
  else match matchRegions s !! matchID with
  | Some region => (s, region)
  | None => (s <| matchRegions ::= <[matchID := DefaultRegionID]> |>, DefaultRegionID)
  end.

Section service.
Context {M : Type} `{!MatchManager M}.

Fixpoint list_lobbies (s : Service) (minPlayers maxPlayers : Z) (includeRunning : bool)
    (snapshots : list MatchSnapshot) : Service * list Lobby :=
  match snapshots with
  | [] => (s, [])
  | snapshot :: snapshots =>
      let '(s, region) := regionForMatchLocked s (sm_MatchID snapshot) in
      let lobby := lobbyFromMatchSnapshot snapshot minPlayers maxPlayers region in
      let '(s, lobbies) := list_lobbies s minPlayers maxPlayers includeRunning snapshots in
      (s, if negb includeRunning && (lb_Status lobby ≠? MatchStatusLobby) then lobbies else lobby :: lobbies)
  end.

Definition listLobbiesLocked (m : M) (s : Service) (includeRunning : bool) (request : QueueRequest) :
    Service * list Lobby :=
  let '(minPlayers, maxPlayers) := manager_MatchConstraints m in
  let '(s, lobbies) := list_lobbies s minPlayers maxPlayers includeRunning (manager_ListMatchSnapshots m) in
  (s, sortLobbiesForRequest lobbies request).

Definition ListLobbiesForRequest (m : M) (s : Service) (includeRunning : bool) (order : list string)
    (request : QueueRequest) : Service * list Lobby :=
  listLobbiesLocked m s includeRunning (normalizeQueueRequest order request).

(** ** The queue *)

Definition ticket_id (n : Z) : string := "queue-" +:+ Itoa06 n.

Definition enqueueRequestLocked (s : Service) (now : Z) (request : QueueRequest) : Service * queueEntry :=
  let s := s <| nextTicketSequence ::= λ n, u64 (n + 1) |> in
  let entry := mkEntry (ticket_id (nextTicketSequence s)) (qr_PlayerID request) (qr_PreferredRegion request)
    (qr_RegionLatencyMS request)
    (list_to_set (filter (λ id, id ≠ "") (map TrimSpace (qr_ExcludeMatchIDs request)))) now in
  let s := if qe_playerID entry ≠? ""
           then s <| queue ::= filter (λ existing, qe_playerID existing ≠ qe_playerID entry) |> else s in
  let s := s <| queue ::= λ q, sort_by (lex_le Z.le String.le) (λ e, (qe_enqueuedAt e, qe_ticketID e)) (q ++ [entry]) |> in
  let depth := Z.of_nat (length (queue s)) in
  let s := s <| queueMetrics ::= λ metrics, metrics <| QueuedTotal ::= λ n, u64 (n + 1) |>
    <| CurrentDepth := depth |> <| MaxDepth ::= λ d, if d <? depth then depth else d |> |> in
  (s, entry).

Definition dequeueByTicketIDLocked (s : Service) (ticketID : string) : Service :=
  if (ticketID ≟ "") || (length (queue s) =? 0)%nat then s
  else
    let s := s <| queue ::= filter (λ entry, qe_ticketID entry ≠ ticketID) |> in
    s <| queueMetrics ::= λ metrics, metrics <| CurrentDepth := Z.of_nat (length (queue s)) |> |>.

(** The ticket is done: the same three lines on each of the four ways out. *)
Definition allocated (s : Service) (ticketID : string) : Service :=
  let s := dequeueByTicketIDLocked s ticketID in
  s <| queueMetrics ::= λ metrics, metrics <| AllocatedTotal ::= λ n, u64 (n + 1) |> |>.

Definition create_lobby (m : M) (s : Service) (createdAt : Z) (request : QueueRequest) (ticketID : string) :
    M * Service * Lobby :=
  let region := chooseCreationRegion request in
  let '(minPlayers, maxPlayers) := manager_MatchConstraints m in
  let '(m, created) := manager_CreateMatch m createdAt in
  let s := s <| matchRegions ::= <[sm_MatchID created := region]> |> in
  (m, allocated s ticketID, lobbyFromMatchSnapshot created minPlayers maxPlayers region).

Definition FindOrCreateLobbyForRequest (m : M) (s : Service) (now createdAt : Z) (order : list string)
    (request : QueueRequest) : M * Service * Lobby :=
  let normalized := normalizeQueueRequest order request in
  let '(s, entry) := enqueueRequestLocked s now normalized in
  let '(s, lobbies) := listLobbiesLocked m s false normalized in
  let fits lobby :=
    lb_Joinable lobby &&
    ((qr_PreferredRegion normalized ≟ "") || (lb_Region lobby ≟ qr_PreferredRegion normalized)) &&
    negb (bool_decide (lb_MatchID lobby ∈ qe_excludeMatchIDs entry)) in
  match find_first fits lobbies with
  | Some lobby => (m, allocated s (qe_ticketID entry), lobby)
  | None => create_lobby m s createdAt normalized (qe_ticketID entry)
  end.

Definition FindOrCreateLobby (m : M) (s : Service) (now createdAt : Z) : M * Service * Lobby :=
  FindOrCreateLobbyForRequest m s now createdAt [] (mkRequest "" "" ∅ []).

Definition ListLobbies (m : M) (s : Service) (includeRunning : bool) : Service * list Lobby :=
  ListLobbiesForRequest m s includeRunning [] (mkRequest "" "" ∅ []).
End service.

(** ** Queries *)

Definition queue_metrics (s : Service) : QueueMetrics :=
  queueMetrics s <| CurrentDepth := Z.of_nat (length (queue s)) |>.

Definition QueueSnapshot (s : Service) : list QueueEntrySnapshot :=
  imap (λ idx entry, mkEntrySnapshot (qe_ticketID entry) (qe_playerID entry) (qe_preferredRegion entry)
    (qe_enqueuedAt entry) (Z.of_nat idx + 1)) (queue s).

Definition MatchRegion (s : Service) (matchID : MatchID) : Service * string := regionForMatchLocked s matchID.

(** ** The queue between two requests *)

Lemma regionForMatch_only s id : (regionForMatchLocked s id).1 = s <| matchRegions := matchRegions (regionForMatchLocked s id).1 |>.
Proof. unfold regionForMatchLocked. destruct (id ≟ ""); [by destruct s|]. destruct (_ !! id); by destruct s. Qed.

Lemma list_lobbies_only s lo hi running snapshots :
  (list_lobbies s lo hi running snapshots).1 =
    s <| matchRegions := matchRegions (list_lobbies s lo hi running snapshots).1 |>.
Proof.
  revert s. induction snapshots as [|snapshot snapshots IH]; intros s; cbn [list_lobbies]; [by destruct s|].
  pose proof (regionForMatch_only s (sm_MatchID snapshot)) as H1.
  destruct (regionForMatchLocked s _) as [s1 region]. cbn [fst] in H1. specialize (IH s1).
  destruct (list_lobbies s1 lo hi running snapshots) as [s2 lobbies]. cbn [fst] in *. rewrite IH, H1. by destruct s.
Qed.

Section keeps.
Context {M : Type} `{!MatchManager M}.

Lemma listLobbies_only (m : M) s running request :
  (listLobbiesLocked m s running request).1 = s <| matchRegions := matchRegions (listLobbiesLocked m s running request).1 |>.
Proof.
  unfold listLobbiesLocked. destruct (manager_MatchConstraints m) as [lo hi].
  pose proof (list_lobbies_only s lo hi running (manager_ListMatchSnapshots m)) as H.
  by destruct (list_lobbies _ _ _ _ _) as [s1 lobbies].
Qed.

(** Anything the service is asked, in any order, about matches that change as they like. *)
Inductive service_step : Service → Service → Prop :=
  | step_find (m : M) s now createdAt order request :
      service_step s (FindOrCreateLobbyForRequest m s now createdAt order request).1.2
  | step_list (m : M) s running order request :
      service_step s (ListLobbiesForRequest m s running order request).1
  | step_region s matchID : service_step s (MatchRegion s matchID).1.

(** Nobody waits between two requests. *)
Record settled (s : Service) : Prop := {
  se_queue : queue s = [];
  se_metrics : QueuedTotal (queueMetrics s) = AllocatedTotal (queueMetrics s) ∧
    CurrentDepth (queueMetrics s) = 0 ∧ 0 <= MaxDepth (queueMetrics s) <= 1;
}.

Lemma ticket_not_blank n : ticket_id n ≠ "".
Proof. done. Qed.

Lemma enqueue_settled s now request :
  settled s →
  let '(s', entry) := enqueueRequestLocked s now request in
  queue s' = [entry] ∧ qe_ticketID entry ≠ "" ∧ AllocatedTotal (queueMetrics s') = AllocatedTotal (queueMetrics s) ∧
  QueuedTotal (queueMetrics s') = u64 (QueuedTotal (queueMetrics s) + 1) ∧ 0 <= MaxDepth (queueMetrics s') <= 1.
Proof.
  destruct s as [n q regions [queued allocated depth most]].
  intros [Hq (_ & _ & Hm)]. cbn [queue queueMetrics QueuedTotal AllocatedTotal MaxDepth] in *. subst q.
  unfold enqueueRequestLocked. cbv zeta. set (entry := mkEntry _ _ _ _ _ _).
  set (s1 := if (_ : bool) then (_ : Service) else _).
  assert (s1 = mkService (u64 (n + 1)) [] regions (mkMetrics queued allocated depth most)) as ->.
  { unfold s1. by destruct (_ ≠? _). }
  split; [reflexivity|]. split; [done|]. split; [reflexivity|]. split; [reflexivity|].
  change (0 <= (if most <? 1 then 1 else most) <= 1). destruct (most <? 1) eqn:H; bool_props; lia.
Qed.

Lemma allocated_settled s entry :
  queue s = [entry] → qe_ticketID entry ≠ "" →
  QueuedTotal (queueMetrics s) = u64 (AllocatedTotal (queueMetrics s) + 1) → 0 <= MaxDepth (queueMetrics s) <= 1 →
  settled (allocated s (qe_ticketID entry)).
Proof.
  destruct s as [n q regions [queued allocations depth most]].
  cbn [queue queueMetrics QueuedTotal AllocatedTotal MaxDepth]. intros -> Ht Hn Hm.
  unfold allocated, dequeueByTicketIDLocked. cbv zeta. rewrite (bool_decide_eq_false_2 _ Ht). cbn [length Nat.eqb orb queue].
  assert (filter (λ e, qe_ticketID e ≠ qe_ticketID entry) [entry] = []) as Hf.
  { rewrite filter_cons_False; [done|]. by intros []. }
  split.
  - exact Hf.
  - split; [exact Hn|]. split; [|exact Hm].
    change (Z.of_nat (length (filter (λ e, qe_ticketID e ≠ qe_ticketID entry) [entry])) = 0). by rewrite Hf.
Qed.

Lemma find_settled (m : M) s now createdAt order request :
  settled s → settled (FindOrCreateLobbyForRequest m s now createdAt order request).1.2.
Proof.
  intros Hs. pose proof (enqueue_settled s now (normalizeQueueRequest order request) Hs) as He.
  destruct Hs as [_ (Hn & _)]. unfold FindOrCreateLobbyForRequest. cbv zeta.
  destruct (enqueueRequestLocked s now _) as [s1 entry]. destruct He as (Hq & Ht & Ha & Hqt & Hm).
  pose proof (listLobbies_only m s1 false (normalizeQueueRequest order request)) as H2.
  destruct (listLobbiesLocked m s1 false _) as [s2 lobbies]. cbn [fst] in H2.
  assert (queue s2 = [entry] ∧ QueuedTotal (queueMetrics s2) = u64 (AllocatedTotal (queueMetrics s2) + 1) ∧
    0 <= MaxDepth (queueMetrics s2) <= 1) as (Hq2 & Hqt2 & Hm2) by (rewrite H2; cbn; split_and!; [done|congruence|lia|lia]).
  clear H2. destruct (find_first _ lobbies) as [lobby|]; cbn [fst snd]; [by apply allocated_settled|].
  unfold create_lobby. cbv zeta. destruct (manager_MatchConstraints m) as [lo hi].
  destruct (manager_CreateMatch m createdAt) as [m' created]. cbn [fst snd]. by apply allocated_settled.
Qed.

(** Between two requests nobody waits: whatever the service is asked, about whatever
    matches, every request for a lobby has been answered when the next one is looked at.  The queue is empty,
    as many requests were allocated as were queued, and the depth was never more than one. *)
Theorem queue_settled s (Hreach : rtc service_step NewService s) :
  queue s = [] ∧ QueueSnapshot s = [] ∧ CurrentDepth (queue_metrics s) = 0 ∧
  QueuedTotal (queue_metrics s) = AllocatedTotal (queue_metrics s) ∧ 0 <= MaxDepth (queue_metrics s) <= 1.
Proof.
  assert (settled NewService) as H0 by (split; [done|]; cbn; split_and!; done).
  assert (settled s) as [Hq (Ht & _ & Hm)].
  { induction Hreach as [|s1 s2 s3 Hs _ IH]; [done|]. apply IH. destruct Hs as [m s now createdAt order request|m s r o request|s id].
    - by apply find_settled.
    - unfold ListLobbiesForRequest. rewrite listLobbies_only. by destruct H0; split.
    - unfold MatchRegion. rewrite regionForMatch_only. by destruct H0; split. }
  unfold QueueSnapshot, queue_metrics. cbn. rewrite Hq. split_and!; done || lia.
Qed.
End keeps.

(** ** Which region a match is created in *)

Definition better_region (latencies : gmap string Z) : string * Z → string → string * Z :=
  λ '(bestRegion, bestLatency) region,
    let latency := default 0 (latencies !! region) in
    if latency <? bestLatency then (region, latency) else (bestRegion, bestLatency).

Lemma best_fold latencies regions b bl b' bl' :
  StronglySorted String.le regions → (∀ r, r ∈ regions → is_Some (latencies !! r)) →
  foldl (better_region latencies) (b, bl) regions = (b', bl') →
  (b' = b ∧ bl' = bl ∨ latencies !! b' = Some bl' ∧ bl' < bl) ∧
  ∀ r x, r ∈ regions → latencies !! r = Some x → bl' <= x ∧ (bl' = x → b' = b ∧ bl' = bl ∨ String.le b' r).
Proof.
  intros Hs. revert b bl. induction Hs as [|r0 regions Hs IH Hr0]; intros b bl Hl; cbn [foldl].
  { intros [= <- <-]. split; [by left|]. intros r x Hr. by apply not_elem_of_nil in Hr. }
  destruct (Hl r0) as [x0 Hx0]; [by left|]. unfold better_region at 2. rewrite Hx0. cbn [default from_option id].
  assert (∀ r, r ∈ regions → is_Some (latencies !! r)) as Hl' by (intros r Hr; apply Hl; by right).
  rewrite Forall_forall in Hr0. destruct (x0 <? bl) eqn:Hlt; bool_props; intros Hf;
    destruct (IH _ _ Hl' Hf) as [Hbest Hall]; clear IH Hf.
  - split; [right; destruct Hbest as [[-> ->]|[? ?]]; [done|split; [done|lia]]|].
    intros r x [->|Hr]%elem_of_cons Hx.
    + assert (x = x0) as -> by congruence. destruct Hbest as [[-> ->]|[_ ?]]; [|lia].
      split; [done|]. intros _. by right.
    + destruct (Hall r x Hr Hx) as [Hle Heq]. split; [done|]. intros E. right.
      destruct (Heq E) as [[-> _]|?]; [by apply Hr0|done].
  - split; [done|]. intros r x [->|Hr]%elem_of_cons Hx; [|by apply Hall].
    assert (x = x0) as -> by congruence. destruct Hbest as [[-> ->]|[_ ?]]; [|lia]. split; [lia|by left].
Qed.

(** The preferred region; or, among the regions of known latency, the nearest, the first by name
    where two are as near; or the default. *)
Definition best_region (request : QueueRequest) (region : string) : Prop :=
  if qr_PreferredRegion request ≠? "" then region = qr_PreferredRegion request
  else if bool_decide (qr_RegionLatencyMS request = ∅) then region = DefaultRegionID
  else ∃ latency, qr_RegionLatencyMS request !! region = Some latency ∧
    ∀ other x, qr_RegionLatencyMS request !! other = Some x →
      latency < x ∨ latency = x ∧ String.le region other.

Lemma normalized_latencies order request region latency :
  qr_RegionLatencyMS (normalizeQueueRequest order request) !! region = Some latency → latency <= MaxRegionLatencyMS.
Proof.
  cbn [normalizeQueueRequest qr_RegionLatencyMS].
  assert (∀ out : gmap string Z, (∀ r x, out !! r = Some x → x <= MaxRegionLatencyMS) →
    ∀ r x, foldl (normalize_latency (qr_RegionLatencyMS request)) out order !! r = Some x → x <= MaxRegionLatencyMS) as Hgen.
  { induction order as [|r0 order IH]; intros out Hout; cbn [foldl]; [done|]. apply IH.
    intros r x. unfold normalize_latency. cbv zeta. destruct (_ || _ || _) eqn:Hb; [apply Hout|].
    apply orb_false_iff in Hb as [_ Hb]. bool_props. intros [[<- <-]|[_ Hx]]%lookup_insert_Some; [lia|by eapply Hout]. }
  apply Hgen. intros r x. by rewrite lookup_empty.
Qed.

Lemma chooseCreationRegion_best order request :
  best_region (normalizeQueueRequest order request) (chooseCreationRegion (normalizeQueueRequest order request)).
Proof.
  pose proof (normalized_latencies order request) as Hmax. revert Hmax.
  generalize (normalizeQueueRequest order request). intros r Hmax. unfold best_region, chooseCreationRegion.
  destruct (qr_PreferredRegion r ≠? ""); [done|]. set (lat := qr_RegionLatencyMS r) in *.
  destruct (decide (lat = ∅)) as [->|Hne].
  { rewrite bool_decide_eq_true_2 by done. by rewrite map_size_empty. }
  rewrite bool_decide_eq_false_2 by done. rewrite bool_decide_eq_false_2 by (by rewrite map_size_empty_iff).
  change (foldl _ _ (sort_strings (elements (dom lat)))) with
    (foldl (better_region lat) (DefaultRegionID, MaxRegionLatencyMS + 1) (sort_strings (elements (dom lat)))).
  destruct (foldl _ _ _) as [b bl] eqn:Hf. apply best_fold in Hf.
  - destruct Hf as [Hb Hall]. cbn [fst].
    assert (∀ other x, lat !! other = Some x → other ∈ sort_strings (elements (dom lat))) as Hin.
    { intros other x Hx. apply elem_of_sort_by, elem_of_elements. by apply elem_of_dom_2 in Hx. }
    destruct Hb as [[-> ->]|[Hb Hlt]].
    + apply map_choose in Hne as (r0 & x0 & Hx0). destruct (Hall r0 x0) as [Hle _]; [by eapply Hin|done|].
      specialize (Hmax _ _ Hx0). lia.
    + exists bl. split; [done|]. intros other x Hx. destruct (Hall other x) as [Hle Heq]; [by eapply Hin|done|].
      destruct (decide (bl = x)) as [->|]; [right|left; lia]. split; [done|]. destruct (Heq eq_refl) as [[_ ?]|?]; [lia|done].
  - apply (sort_by_sorted String.le id).
  - intros r0 Hr0. apply elem_of_sort_by, elem_of_elements in Hr0. by apply elem_of_dom.
Qed.

(** ** Which lobby is given *)

Lemma regions_only s s' lo hi running snapshots :
  matchRegions s = matchRegions s' →
  (list_lobbies s lo hi running snapshots).2 = (list_lobbies s' lo hi running snapshots).2.
Proof.
  revert s s'. induction snapshots as [|snapshot snapshots IH]; intros s s' Hs; cbn [list_lobbies]; [done|].
  assert ((regionForMatchLocked s (sm_MatchID snapshot)).2 = (regionForMatchLocked s' (sm_MatchID snapshot)).2 ∧
    matchRegions (regionForMatchLocked s (sm_MatchID snapshot)).1 =
    matchRegions (regionForMatchLocked s' (sm_MatchID snapshot)).1) as [H1 H2].
  { unfold regionForMatchLocked. rewrite Hs. destruct (_ ≟ ""); [done|]. destruct (_ !! _); [done|].
    split; [done|]. cbn. by rewrite Hs. }
  destruct (regionForMatchLocked s _) as [s1 r1], (regionForMatchLocked s' _) as [s2 r2]. cbn [fst snd] in *. subst r2.
  specialize (IH s1 s2 H2).
  destruct (list_lobbies s1 _ _ _ _) as [s3 l3], (list_lobbies s2 _ _ _ _) as [s4 l4]. cbn [snd] in *. by rewrite IH.
Qed.

Lemma find_first_least {A K} (R : relation K) `{!Reflexive R} (key : A → K) (p : A → bool) l x y :
  StronglySorted (on_key R key) l → find_first p l = Some x → y ∈ l → p y = true → R (key x) (key y).
Proof.
  intros Hs. induction Hs as [|z l Hs IH Hz]; [done|]. rewrite find_first_cons. destruct (p z) eqn:Hp.
  - intros [= ->] [->|Hy]%elem_of_cons _; [reflexivity|]. rewrite Forall_forall in Hz. exact (Hz _ Hy).
  - intros Hx [->|Hy]%elem_of_cons Hpy; [congruence|]. by apply IH.
Qed.

Section choice.
Context {M : Type} `{!MatchManager M}.

Definition excluded (request : QueueRequest) : list MatchID :=
  filter (λ id, id ≠ "") (map TrimSpace (qr_ExcludeMatchIDs request)).

(** What the player asked for. *)
Definition wanted (request : QueueRequest) (lobby : Lobby) : Prop :=
  lb_Joinable lobby = true ∧
  (NormalizeRegionID (qr_PreferredRegion request) = "" ∨ lb_Region lobby = NormalizeRegionID (qr_PreferredRegion request)) ∧
  lb_MatchID lobby ∉ excluded request.

(** The lobbies as the player would see them listed. *)
Definition offered (m : M) (s : Service) (order : list string) (request : QueueRequest) : list Lobby :=
  (ListLobbiesForRequest m s false order request).2.

Lemma excluded_twice ids :
  list_to_set (C := gset MatchID) (filter (λ id, id ≠ "") (map TrimSpace (filter (λ id, id ≠ "") (map TrimSpace ids)))) =
  list_to_set (filter (λ id, id ≠ "") (map TrimSpace ids)).
Proof.
  apply set_eq. intros id. rewrite !elem_of_list_to_set, !list_elem_of_filter. split; intros [Hne Hid]; (split; [done|]).
  - apply list_elem_of_fmap in Hid as (x & -> & [_ Hx]%list_elem_of_filter).
    apply list_elem_of_fmap in Hx as (y & -> & Hy). rewrite TrimSpace_idem. by apply (list_elem_of_fmap_2 TrimSpace).
  - apply list_elem_of_fmap. exists id. apply list_elem_of_fmap in Hid as (y & -> & Hy).
    split; [by rewrite TrimSpace_idem|]. apply list_elem_of_filter. split; [done|]. by apply (list_elem_of_fmap_2 TrimSpace).
Qed.

Lemma listed_sorted (m : M) s request :
  StronglySorted (on_key lobby_key_le (lobby_key request)) (listLobbiesLocked m s false request).2.
Proof.
  unfold listLobbiesLocked. destruct (manager_MatchConstraints m) as [lo hi].
  destruct (list_lobbies _ _ _ _ _) as [s1 lobbies]. apply (sort_by_sorted lobby_key_le (lobby_key request)).
Qed.
Lemma listed_regions (m : M) s s' request :
  matchRegions s = matchRegions s' →
  (listLobbiesLocked m s false request).2 = (listLobbiesLocked m s' false request).2.
Proof.
  intros Hs. unfold listLobbiesLocked. destruct (manager_MatchConstraints m) as [lo hi].
  pose proof (regions_only s s' lo hi false (manager_ListMatchSnapshots m) Hs) as H.
  destruct (list_lobbies s _ _ _ _) as [s1 l1], (list_lobbies s' _ _ _ _) as [s2 l2]. cbn [snd] in *. by rewrite H.
Qed.
Lemma allocated_regions s ticket : matchRegions (allocated s ticket) = matchRegions s.
Proof. unfold allocated, dequeueByTicketIDLocked. by destruct (_ || _). Qed.

Lemma find_or_create (m : M) s now createdAt order request :
  let '(m', s', lobby) := FindOrCreateLobbyForRequest m s now createdAt order request in
  (lobby ∈ offered m s order request ∧ wanted request lobby ∧ m' = m ∧
     ∀ other, other ∈ offered m s order request → wanted request other →
       lobby_key_le (lobby_key (normalizeQueueRequest order request) lobby)
                    (lobby_key (normalizeQueueRequest order request) other)) ∨
  ((∀ other, other ∈ offered m s order request → ¬ wanted request other) ∧
     let region := chooseCreationRegion (normalizeQueueRequest order request) in
     let '(minPlayers, maxPlayers) := manager_MatchConstraints m in
     let '(created_in, created) := manager_CreateMatch m createdAt in
     m' = created_in ∧ lobby = lobbyFromMatchSnapshot created minPlayers maxPlayers region ∧
     matchRegions s' !! lb_MatchID lobby = Some region).
Proof.
  unfold FindOrCreateLobbyForRequest, offered, ListLobbiesForRequest. cbv zeta.
  set (normalized := normalizeQueueRequest order request).
  destruct (enqueueRequestLocked s now normalized) as [s1 entry] eqn:He.
  assert (matchRegions s1 = matchRegions s ∧
    qe_excludeMatchIDs entry = list_to_set (excluded request)) as [Hr Hx].
  { unfold enqueueRequestLocked in He. cbv zeta in He. injection He as <- <-.
    split; [by destruct (_ ≠? _)|]. apply excluded_twice. }
  clear He. pose proof (listed_sorted m s1 normalized) as Hsorted.
  pose proof (listed_regions m s1 s normalized Hr) as Hlist. rewrite <-Hlist. clear Hlist.
  destruct (listLobbiesLocked m s1 false normalized) as [s2 lobbies]. cbn [snd] in *.
  set (fits := λ lobby, _ && _ && _).
  assert (∀ lobby, fits lobby = true ↔ wanted request lobby) as Hfits.
  { intros lobby. unfold fits, wanted. rewrite !andb_true_iff, orb_true_iff, negb_true_iff, !bool_decide_eq_true,
      bool_decide_eq_false, Hx, elem_of_list_to_set. tauto. }
  destruct (find_first fits lobbies) as [lobby|] eqn:Hf.
  - left. pose proof (find_first_Some _ _ _ Hf) as [Hin Hp]. split; [done|]. split; [by apply Hfits|]. split; [done|].
    intros other Ho Hw. eapply (find_first_least lobby_key_le); [exact Hsorted|exact Hf|exact Ho|by apply Hfits].
  - rewrite find_first_None in Hf. unfold create_lobby. cbv zeta.
    destruct (manager_MatchConstraints m) as [lo hi]. destruct (manager_CreateMatch m createdAt) as [m' created].
    right. split; [|split; [done|]].
    { intros other Ho Hw%Hfits. specialize (Hf other Ho). congruence. }
    split; [done|]. rewrite allocated_regions. apply lookup_insert_eq.
Qed.

(** The lobby a player is given is the best of those that are listed, can be joined, lie in
    the preferred region if there is one, and are not excluded, and no match is created; only when there is none, a match is created, in the
    preferred region or in the nearest. *)
Theorem FindOrCreateLobby_spec (m : M) s now createdAt order request :
  let '(m', s', lobby) := FindOrCreateLobbyForRequest m s now createdAt order request in
  (lobby ∈ offered m s order request ∧ wanted request lobby ∧ m' = m ∧
     ∀ other, other ∈ offered m s order request → wanted request other →
       lobby_key_le (lobby_key (normalizeQueueRequest order request) lobby)
                    (lobby_key (normalizeQueueRequest order request) other)) ∨
  ((∀ other, other ∈ offered m s order request → ¬ wanted request other) ∧
     let region := chooseCreationRegion (normalizeQueueRequest order request) in
     let '(minPlayers, maxPlayers) := manager_MatchConstraints m in
     let '(created_in, created) := manager_CreateMatch m createdAt in
     m' = created_in ∧ lobby = lobbyFromMatchSnapshot created minPlayers maxPlayers region ∧
     matchRegions s' !! lb_MatchID lobby = Some region ∧
     best_region (normalizeQueueRequest order request) region).
Proof.
  pose proof (find_or_create m s now createdAt order request) as H.
  destruct (FindOrCreateLobbyForRequest m s now createdAt order request) as [[m' s'] lobby].
  destruct H as [H|[Hno H]]; [by left|right]. split; [done|]. cbv zeta in *.
  destruct (manager_MatchConstraints m) as [lo hi]. destruct (manager_CreateMatch m createdAt) as [m1 created].
  destruct H as (-> & -> & Hr). split_and!; try done. apply chooseCreationRegion_best.
Qed.
End choice.

Lemma list_lobbies_elem s lo hi running snapshots lobby :
  lobby ∈ (list_lobbies s lo hi running snapshots).2 →
  ∃ snapshot region, snapshot ∈ snapshots ∧ lobby = lobbyFromMatchSnapshot snapshot lo hi region.
Proof.
  revert s. induction snapshots as [|snapshot snapshots IH]; intros s; cbn [list_lobbies].
  { intros H. by apply not_elem_of_nil in H. }
  destruct (regionForMatchLocked s _) as [s1 region]. specialize (IH s1).
  destruct (list_lobbies s1 lo hi running snapshots) as [s2 lobbies]. cbn [snd] in *. intros Hin.
  destruct (_ && _).
  - destruct (IH Hin) as (sn & r & Hsn & ->). exists sn, r. split; [by right|done].
  - apply elem_of_cons in Hin as [->|Hin]; [exists snapshot, region; split; [by left|done]|].
    destruct (IH Hin) as (sn & r & Hsn & ->). exists sn, r. split; [by right|done].
Qed.

(** ** With the manager of the game *)

Lemma offered_match (m : Manager) s order request lobby :
  lobby ∈ offered m s order request →
  ∃ id session region, mg_matches m !! id = Some session ∧
    lobby = lobbyFromMatchSnapshot (snapshotFromSession session) (ServerConfig.MinPlayers (mg_config m))
      (ServerConfig.MaxPlayers (mg_config m)) region.
Proof.
  unfold offered, ListLobbiesForRequest, listLobbiesLocked. cbn [manager_MatchConstraints game_manager MatchConstraints].
  set (request' := normalizeQueueRequest order request). clearbody request'. unfold MatchConstraints.
  pose proof (list_lobbies_elem s (ServerConfig.MinPlayers (mg_config m)) (ServerConfig.MaxPlayers (mg_config m)) false
    (manager_ListMatchSnapshots m) lobby) as H.
  destruct (list_lobbies _ _ _ _ _) as [s1 lobbies]. cbn [snd] in *. unfold sortLobbiesForRequest.
  rewrite elem_of_sort_by. intros Hin. destruct (H Hin) as (snapshot & region & Hs & ->).
  cbn [manager_ListMatchSnapshots game_manager] in Hs. unfold ListMatchSnapshots in Hs.
  rewrite elem_of_sort_by in Hs. apply list_elem_of_fmap in Hs as ([id session] & -> & Hs%elem_of_map_to_list).
  by exists id, session, region.
Qed.

Lemma snapshot_players session :
  length (sm_Players (snapshotFromSession session)) = size (ss_players session).
Proof. cbn. by rewrite length_sort_by, length_map, length_map_to_list. Qed.

(** C35: The lobby a player is given can be joined: right after the answer, a player with a name who is in
    no match joins the match of the lobby, whether it was there or was created. *)
Theorem allocated_lobby_joinable m s now createdAt order request joinedAt playerID name
    (Hm : manager_inv m) (Hmax : is_u8 (ServerConfig.MaxPlayers (mg_config m)))
    (Hroom : mg_nextMatchSequence m + 1 < 2 ^ 64)
    (Hplayer : TrimSpace playerID ≠ "") (Hname : TrimSpace name ≠ "")
    (Hfree : mg_playerToMatch m !! playerID = None) :
  let '(m', _, lobby) := FindOrCreateLobbyForRequest m s now createdAt order request in
  ∃ m2 snapshot, JoinMatch m' joinedAt (lb_MatchID lobby) playerID name = (m2, inr snapshot) ∧
    mg_playerToMatch m2 !! playerID = Some (lb_MatchID lobby).
Proof.
  pose proof (find_or_create m s now createdAt order request) as H.
  destruct (FindOrCreateLobbyForRequest m s now createdAt order request) as [[m' s'] lobby].
  assert (mg_playerToMatch m' !! playerID = None ∧ ∃ session, mg_matches m' !! lb_MatchID lobby = Some session ∧
    ss_status session = MatchStatusLobby ∧
    Z.of_nat (size (ss_players session)) < ServerConfig.MaxPlayers (mg_config m')) as (Hp & session & Hs & Hst & Hsize).
  - destruct H as [(Hin & (Hj & _) & -> & _)|(_ & H)].
    + split; [exact Hfree|]. destruct (offered_match _ _ _ _ _ Hin) as (id & session & region & Hs & ->).
      pose proof (mi_sessions _ Hm _ _ Hs) as Hsess. exists session.
      change (lb_MatchID (lobbyFromMatchSnapshot (snapshotFromSession session) _ _ _)) with (ss_matchID session).
      rewrite (si_matchID _ _ _ Hsess). split; [exact Hs|].
      unfold lobbyFromMatchSnapshot in Hj. cbv zeta in Hj. cbn [lb_Joinable] in Hj.
      rewrite snapshot_players in Hj. apply andb_true_iff in Hj as [Hst Hopen]. apply bool_decide_eq_true in Hst.
      split; [exact Hst|]. pose proof (si_size _ _ _ Hsess) as Hle. unfold is_u8 in Hmax.
      rewrite u8_small in Hopen by (unfold is_u8; lia).
      destruct (_ <? ServerConfig.MaxPlayers (mg_config m)) eqn:Hlt in Hopen; bool_props; lia.
    + cbv zeta in H. cbn [manager_MatchConstraints game_manager] in H. unfold MatchConstraints in H.
      cbn [manager_CreateMatch game_manager] in H. pose proof (mi_config _ Hm) as Hc.
      destruct m as [config seq matches index events]. unfold CreateMatch, nextMatchIDLocked in H. cbv zeta in H.
      destruct H as (-> & -> & _). cbn in Hfree, Hc. split; [exact Hfree|].
      eexists. split; [apply lookup_insert_eq|]. split; [done|].
      change (Z.of_nat (size (∅ : gmap PlayerID PlayerSession)) < ServerConfig.MaxPlayers config). rewrite map_size_empty. lia.
  - destruct (JoinMatch_cases m' joinedAt (lb_MatchID lobby) playerID name) as [(err & _ & Hno)|(_ & _ & _ & s2 & m2 & _ & _ & _ & Hj)].
    + destruct Hno. split; [done|]. split; [done|]. split; [done|]. by exists session.
    + destruct Hj as (Hj & _ & Hidx). eexists m2, _. split; [exact Hj|]. rewrite Hidx. apply lookup_insert_eq.
Qed.

(** ** Witnesses: a third player looks for the match of the demonstration *)

Definition demo_request : QueueRequest := mkRequest "cat" " EU " {["eu" := 40; "us" := 120]} ["match-000009"].

Definition demo_found : Manager * Service * Lobby :=
  FindOrCreateLobbyForRequest demo_lobby NewService 125 125 ["eu"; "us"] demo_request.

Lemma queue_settled_witness : queue demo_found.1.2 = [] ∧ QueuedTotal (queue_metrics demo_found.1.2) = 1.
Proof.
  destruct (queue_settled (M := Manager) demo_found.1.2) as [H _].
  { apply rtc_once, step_find. }
  split; [exact H|by vm_compute].
Defined.

Lemma allocated_lobby_joinable_witness : ∃ m2 snapshot,
  JoinMatch demo_found.1.1 126 (lb_MatchID demo_found.2) "cat" "Cat" = (m2, inr snapshot).
Proof.
  pose proof (allocated_lobby_joinable demo_lobby NewService 125 125 ["eu"; "us"] demo_request 126 "cat" "Cat"
    demo_lobby_inv ltac:(by vm_compute) ltac:(by vm_compute) ltac:(by vm_compute) ltac:(by vm_compute)
    ltac:(by vm_compute)) as H.
  change (FindOrCreateLobbyForRequest demo_lobby NewService 125 125 ["eu"; "us"] demo_request) with demo_found in H.
  destruct demo_found as [[m' s'] lobby]. destruct H as (m2 & snapshot & H & _). by exists m2, snapshot.
Defined.
End Matchmaking.
