(* ===== verification/Actions.v ===== *)
(** * Acting on a match: the state of a tick, feedback and effects

    [internal/server/game/manager.go]: what the handlers of a tick share.  A handler works
    on the session and on the sets of what it changed, which become the delta snapshot; a
    pointer to a player is the player's index.  This file has that state, the messages
    players get, and the timed effects on a player. *)

From S2P Require Import Prelude Float32 Model GoStrings Layout Access Items Physics Session Spawn.
From Stdlib Require Import Ascii.

#[local] Open Scope Z_scope.

(** ** The state of a tick *)

(** The session, the arguments [changedPlayers], [changedDoors], [changedCells],
    [changedEntities] and [removedEntities] that the handlers share, and the map of
    occupied tiles. *)
Record tickState := mkTick {
  tk_session : matchSession;
  tk_players : gset PlayerID;
  tk_doors : gset DoorID;
  tk_cells : gset CellID;
  tk_entities : gset EntityID;
  tk_removed : gset EntityID;
  tk_occupied : gmap Point PlayerID;
}.
#[export] Instance tickState_eta : RecordEta tickState := λ r,
  mkTick (tk_session r) (tk_players r) (tk_doors r) (tk_cells r) (tk_entities r) (tk_removed r)
    (tk_occupied r).

Definition tk_game (t : tickState) : GameState := ss_gameState (tk_session t).
Definition tk_map (t : tickState) : MapState := gs_Map (tk_game t).
Definition tk_now (t : tickState) : Z := ss_tickID (tk_session t).

Definition on_game (f : GameState → GameState) (t : tickState) : tickState :=
  t <| tk_session ::= λ s, s <| ss_gameState ::= f |> |>.
Definition on_map (f : MapState → MapState) : tickState → tickState :=
  on_game (λ state, state <| gs_Map ::= f |>).

(** The player an index points to; the indices of the handlers are in range. *)
Definition session_player (i : nat) (session : matchSession) : PlayerState :=
  default zero_PlayerState (gs_Players (ss_gameState session) !! i).
Definition set_player (i : nat) (p : PlayerState) (session : matchSession) : matchSession :=
  session <| ss_gameState ::= λ state, state <| gs_Players ::= <[i := p]> |> |>.

Definition player_at (t : tickState) (i : nat) : PlayerState := session_player i (tk_session t).
Definition put_player (i : nat) (p : PlayerState) (t : tickState) : tickState :=
  t <| tk_session ::= set_player i p |>.

Definition mark_player (playerID : PlayerID) (t : tickState) : tickState :=
  t <| tk_players ::= λ changed, {[playerID]} ∪ changed |>.
Definition mark_door (doorID : DoorID) (t : tickState) : tickState :=
  t <| tk_doors ::= λ changed, {[doorID]} ∪ changed |>.
Definition mark_cell (cellID : CellID) (t : tickState) : tickState :=
  t <| tk_cells ::= λ changed, {[cellID]} ∪ changed |>.
Definition mark_entity (entityID : EntityID) (t : tickState) : tickState :=
  t <| tk_entities ::= λ changed, {[entityID]} ∪ changed |>.
Definition mark_removed (entityID : EntityID) (t : tickState) : tickState :=
  t <| tk_entities ::= λ changed, changed ∖ {[entityID]} |>
    <| tk_removed ::= λ removed, {[entityID]} ∪ removed |>.
Definition mark_if (b : bool) (mark : tickState → tickState) (t : tickState) : tickState :=
  if b then mark t else t.

Definition find_player (players : list PlayerState) (playerID : PlayerID) : option nat :=
  find_idx (λ p, ps_ID p ≟ playerID) players.
Definition find_door (doors : list DoorState) (doorID : DoorID) : option nat :=
  find_idx (λ d, ds_ID d ≟ doorID) doors.
Definition findEntityIndexByID (entities : list EntityState) (entityID : EntityID) : option nat :=
  find_idx (λ e, es_ID e ≟ entityID) entities.

(** [playerIndex]: the last player with the identifier. *)
Definition player_index (players : list PlayerState) : gmap PlayerID nat :=
  list_to_map (reverse (imap (λ i p, (ps_ID p, i)) players)).

(** ** Labels *)

Definition replace_char (a b : ascii) : string → string :=
  fix go s := match s with
  | EmptyString => EmptyString
  | String c s => String (if Ascii.eqb c a then b else c) (go s)
  end.

Definition roomLabelForFeedback (roomID : RoomID) : string :=
  if roomID ≟ RoomCorridorMain then "Main Corridor"
  else if roomID ≟ RoomCellBlockA then "Cell Block A"
  else if roomID ≟ RoomWardenHQ then "Warden HQ"
  else if roomID ≟ RoomCameraRoom then "Camera Room"
  else if roomID ≟ RoomPowerRoom then "Power Room"
  else if roomID ≟ RoomAmmoRoom then "Ammo Room"
  else if roomID ≟ RoomBlackMarket then "Black Market"
  else if roomID ≟ RoomCafeteria then "Cafeteria"
  else if roomID ≟ RoomMailRoom then "Mail Room"
  else if roomID ≟ RoomCourtyard then "Courtyard"
  else if roomID ≟ RoomRoofLookout then "Roof Lookout"
  else replace_char "_" " " roomID.

Definition doorOpenLabel (open : bool) : string := if open then "opened" else "closed".

Definition formatHalfHearts (halfHearts : Z) : string :=
  let whole := halfHearts / 2 in
  if halfHearts `mod` 2 ≟ 0 then Itoa whole else Itoa whole +:+ ".5".

Definition maxTickRate (rate : Z) : Z := if rate ≟ 0 then 1 else rate.

Definition summarizeInventoryForFeedback (inventory : list ItemStack) : string :=
  if inventory ≟ [] then "empty"
  else
    let parts := omap (λ stack,
      if (stk_Item stack ≟ "") || (stk_Quantity stack ≟ 0) then None
      else Some (stk_Item stack +:+ " x" +:+ Itoa (stk_Quantity stack))) inventory in
    if parts ≟ [] then "empty" else Join (sort_strings parts) ", ".

(** ** Feedback *)

Definition applyActionFeedbackLocked (player : PlayerState) (kind : ActionFeedbackKind)
    (level : ActionFeedbackLevel) (message : string) (tickID : Z) : PlayerState * bool :=
  if kind ≟ "" then (player, false)
  else
    let trimmedMessage := TrimSpace message in
    if trimmedMessage ≟ "" then (player, false)
    else
      let level := if level ≟ "" then ActionFeedbackLevelInfo else level in
      let next := mkActionFb kind level trimmedMessage tickID in
      if ps_LastActionFeedback player ≟ next then (player, false)
      else (player <| ps_LastActionFeedback := next |>, true).

Definition applyEscapeFeedbackLocked (player : PlayerState) (route : EscapeRouteType) (success : bool)
    (reason : string) (tickID : Z) : PlayerState * bool :=
  if route ≟ "" then (player, false)
  else
    let status := if success then EscapeAttemptStatusSuccess else EscapeAttemptStatusFailed in
    let next := mkEscapeFb route status (TrimSpace reason) tickID in
    if ps_LastEscapeAttempt player ≟ next then (player, false)
    else (player <| ps_LastEscapeAttempt := next |>, true).

(** Feedback to the player at an index, with the answer. *)
Definition feedback (i : nat) (kind : ActionFeedbackKind) (level : ActionFeedbackLevel)
    (message : string) (t : tickState) : tickState * bool :=
  let '(player, changed) := applyActionFeedbackLocked (player_at t i) kind level message (tk_now t) in
  (put_player i player t, changed).

(** The same where the answer marks the player as changed. *)
Definition feedback_marked (i : nat) (kind : ActionFeedbackKind) (level : ActionFeedbackLevel)
    (message : string) (t : tickState) : tickState :=
  let '(t, changed) := feedback i kind level message t in
  mark_if changed (mark_player (ps_ID (player_at t i))) t.

(** [ensureEquippedItemForPlayerLocked] on the player at an index, and with a mark. *)
Definition ensure_equipped (i : nat) (t : tickState) : tickState * bool :=
  let '(player, changed) := ensureEquippedItemForPlayerLocked (player_at t i) in
  (put_player i player t, changed).
Definition ensure_equipped_marked (i : nat) (t : tickState) : tickState :=
  let '(t, changed) := ensure_equipped i t in
  mark_if changed (mark_player (ps_ID (player_at t i))) t.

(** ** Effects *)

(** An effect that is there already, brought up to date; and whether it changed. *)
Definition refresh_effect (endsTick : Z) (sourcePID : PlayerID) (sourceID : EntityID) (stacks : Z)
    (e : EffectState) : EffectState * bool :=
  let '(e, changed) :=
    if ef_EndsTick e <? endsTick then (e <| ef_EndsTick := endsTick |>, true) else (e, false) in
  let '(e, changed) :=
    if (sourcePID ≠? "") && (ef_SourcePID e ≠? sourcePID) then (e <| ef_SourcePID := sourcePID |>, true)
    else (e, changed) in
  let '(e, changed) :=
    if (sourceID ≠? 0) && (ef_SourceID e ≠? sourceID) then (e <| ef_SourceID := sourceID |>, true)
    else (e, changed) in
  if ef_Stacks e <? stacks then (e <| ef_Stacks := stacks |>, true) else (e, changed).

Definition upsertEffectLocked (player : PlayerState) (effect : EffectType) (endsTick : Z)
    (sourcePID : PlayerID) (sourceID : EntityID) (stacks : Z) : PlayerState * bool :=
  if effect ≟ "" then (player, false)
  else
    let stacks := if stacks ≟ 0 then 1 else stacks in
    match find_idx (λ e, ef_Effect e ≟ effect) (ps_Effects player) with
    | Some index =>
        let '(e, changed) := refresh_effect endsTick sourcePID sourceID stacks
          (default zero_EffectState (ps_Effects player !! index)) in
        (player <| ps_Effects ::= <[index := e]> |>, changed)
    | None =>
        (player <| ps_Effects ::= λ effects,
           effects ++ [mkEffect effect endsTick stacks sourceID sourcePID] |>, true)
    end.

Definition removeEffectLocked (player : PlayerState) (effect : EffectType) : PlayerState * bool :=
  if effect ≟ "" then (player, false)
  else
    let next := filter (λ e, ef_Effect e ≠ effect) (ps_Effects player) in
    if (length next <? length (ps_Effects player))%nat then (player <| ps_Effects := next |>, true)
    else (player, false).

Definition effect_over (tickID : Z) (e : EffectState) : bool :=
  (ef_EndsTick e ≠? 0) && (ef_EndsTick e <? tickID).

Definition hasActiveEffect (player : PlayerState) (effect : EffectType) (tickID : Z) : bool :=
  existsb (λ e, (ef_Effect e ≟ effect) && negb (effect_over tickID e)) (ps_Effects player).

(** The part of [expireTimedStatesLocked] about one player's effects. *)
Definition expire_effects (tickID : Z) (player : PlayerState) : PlayerState * bool :=
  let next := filter (λ e, effect_over tickID e = false) (ps_Effects player) in
  if (length next <? length (ps_Effects player))%nat then
    let armorActive := existsb (λ e, ef_Effect e ≟ EffectArmorPlate) next in
    let player := player <| ps_Effects := next |> in
    (if negb armorActive && (0 <? ps_TempHeartsHalf player) then player <| ps_TempHeartsHalf := 0 |>
     else player, true)
  else (player, false).
