(* ===== verification/Keyed.v ===== *)
(** * Lists kept by identifier

    Players, doors, cells, entities and zones are slices in which every element carries its
    identifier.  The server merges two such slices for a delta, and the client merges a delta
    into its state, by the same steps: a map by identifier, in which a later element replaces
    an earlier one, then the identifiers in order.  [by_key] is that map. *)

From S2P Require Import Prelude.

Section keyed.
Context {K A : Type} `{Countable K} (key : A → K).

Definition by_key (l : list A) : gmap K A :=
  list_to_map (reverse (map (λ x, (key x, x)) l)).

(** The elements of the map, in the order of the identifiers. *)
Definition in_order (le : relation K) `{!RelDecision le} (m : gmap K A) : list A :=
  omap (λ k, m !! k) (sort_by le id (elements (dom m))).

(** The second list's elements over the first's. *)
Definition merge_by (le : relation K) `{!RelDecision le} (first second : list A) : list A :=
  in_order le (by_key (first ++ second)).

(** ** The map *)

Lemma by_key_nil : by_key [] = ∅.
Proof. done. Qed.
Lemma by_key_app l1 l2 : by_key (l1 ++ l2) = by_key l2 ∪ by_key l1.
Proof. unfold by_key. by rewrite map_app, reverse_app, list_to_map_app. Qed.
Lemma by_key_snoc l x : by_key (l ++ [x]) = <[key x := x]> (by_key l).
Proof. rewrite by_key_app. by rewrite insert_union_singleton_l. Qed.

Lemma by_key_Some l k x : by_key l !! k = Some x → x ∈ l ∧ key x = k.
Proof.
  induction l as [|y l IH] using rev_ind; [done|]. rewrite by_key_snoc, lookup_insert_Some.
  intros [[<- ->]|[_ Hx]]; [set_solver|]. destruct (IH Hx). set_solver.
Qed.
Lemma by_key_is_Some l k : is_Some (by_key l !! k) ↔ k ∈ map key l.
Proof.
  induction l as [|y l IH] using rev_ind.
  { split; [by intros [x Hx]|]. intros Hk. by apply not_elem_of_nil in Hk. }
  rewrite by_key_snoc, lookup_insert_is_Some, IH, map_app. simpl.
  destruct (decide (key y = k)); set_solver.
Qed.
Lemma by_key_None l k : by_key l !! k = None ↔ k ∉ map key l.
Proof. by rewrite eq_None_not_Some, by_key_is_Some. Qed.

(** Where identifiers are distinct, the first element with an identifier is the one. *)
Lemma by_key_find l k :
  NoDup (map key l) → by_key l !! k = find_first (λ x, key x ≟ k) l.
Proof.
  intros Hnd. destruct (find_first _ l) as [x|] eqn:Hx.
  - apply find_first_Some in Hx as [Hin Hk]. bool_props. subst k.
    destruct (by_key l !! key x) as [y|] eqn:Hy'; pose proof Hy' as Hy.
    + apply by_key_Some in Hy as [Hy Hkey]. f_equal. by apply (NoDup_key_inj key l).
    + apply by_key_None in Hy. destruct Hy. by apply (list_elem_of_fmap_2 key).
  - apply by_key_None. intros Hin. apply list_elem_of_fmap in Hin as (x & -> & Hin).
    rewrite find_first_None in Hx. specialize (Hx x Hin). by bool_props.
Qed.

(** ** Merging *)

Lemma by_key_omap (f : K → option A) ks k :
  (∀ k x, f k = Some x → key x = k) →
  by_key (omap f ks) !! k = if decide (k ∈ ks) then f k else None.
Proof.
  intros Hf. induction ks as [|j ks IH] using rev_ind; [done|]. rewrite omap_app, by_key_app.
  destruct (f j) as [x|] eqn:Hj; cbn [omap list_omap]; rewrite Hj.
  - change [x] with ([] ++ [x]). rewrite by_key_snoc. destruct (decide (j = k)) as [->|Hne].
    + rewrite decide_True by set_solver. rewrite (Hf k x Hj), lookup_union, lookup_insert_eq, Hj. by destruct (_ !! k).
    + rewrite (Hf j x Hj). rewrite lookup_union_r by (by rewrite lookup_insert_ne). rewrite IH.
      apply decide_ext. set_solver.
  - rewrite by_key_nil, (left_id_L ∅ (∪)), IH. case_decide; [by rewrite decide_True by set_solver|].
    case_decide; [|done]. assert (k = j) as -> by set_solver. done.
Qed.

Section order.
Context (le : relation K) `{!RelDecision le, !PartialOrder le, !Total le}.

Lemma by_key_in_order (m : gmap K A) :
  (∀ k x, m !! k = Some x → key x = k) → by_key (in_order le m) = m.
Proof.
  intros Hm. apply map_eq. intros k. unfold in_order. rewrite by_key_omap by done.
  case_decide as Hk; [done|]. symmetry. apply not_elem_of_dom. intros Hdom. apply Hk.
  apply (elem_of_sort_by le). by apply elem_of_elements.
Qed.
Lemma by_key_merge l1 l2 : by_key (merge_by le l1 l2) = by_key l2 ∪ by_key l1.
Proof.
  unfold merge_by. rewrite by_key_in_order; [apply by_key_app|].
  intros k x Hx. by apply by_key_Some in Hx as [_ ?].
Qed.
Lemma merge_by_keys l1 l2 : map key (merge_by le l1 l2) = sort_by le id (elements (dom (by_key (l1 ++ l2)))).
Proof.
  unfold merge_by, in_order. set (m := by_key (l1 ++ l2)).
  assert (∀ k, k ∈ sort_by le id (elements (dom m)) → is_Some (m !! k)) as Hks.
  { intros k Hk. apply (elem_of_sort_by le) in Hk. by apply elem_of_dom, elem_of_elements. }
  assert (∀ k x, m !! k = Some x → key x = k) as Hm.
  { intros k x Hx. by apply by_key_Some in Hx as [_ ?]. }
  clearbody m. induction (sort_by le id (elements (dom m))) as [|k ks IH]; [done|].
  destruct (Hks k ltac:(left)) as [x Hx]. cbn [omap list_omap]. rewrite Hx. simpl.
  f_equal; [by apply Hm|]. apply IH. intros j Hj. apply Hks. by right.
Qed.
(** The result has no identifier twice, and has them in order. *)
Lemma merge_by_NoDup l1 l2 : NoDup (map key (merge_by le l1 l2)).
Proof. rewrite merge_by_keys, (sort_by_perm le). apply NoDup_elements. Qed.
Lemma merge_by_sorted l1 l2 : StronglySorted le (map key (merge_by le l1 l2)).
Proof. rewrite merge_by_keys. apply (sort_by_sorted le id). Qed.
End order.

(** ** Removing *)

Lemma by_key_filter (P : K → Prop) `{∀ k, Decision (P k)} l :
  by_key (filter (λ x, P (key x)) l) = filter (λ kx, P kx.1) (by_key l).
Proof.
  induction l as [|x l IH] using rev_ind; [by rewrite by_key_nil, map_filter_empty|].
  rewrite filter_app, by_key_snoc, by_key_app, IH, filter_cons, filter_nil.
  destruct (decide (P (key x))) as [Hp|Hp].
  - rewrite map_filter_insert_True by done. change [x] with ([] ++ [x]). rewrite by_key_snoc.
    by rewrite by_key_nil, insert_empty, <-insert_union_singleton_l.
  - rewrite map_filter_insert_False, by_key_nil, (left_id_L ∅ (∪)) by done.
    symmetry. apply map_filter_delete_not. intros y Hy. done.
Qed.

Lemma lookup_filter_key (gone : list K) (m : gmap K A) k :
  k ∉ gone → filter (λ kx, kx.1 ∉ gone) m !! k = m !! k.
Proof.
  intros Hk. destruct (m !! k) as [x|] eqn:Hx; [by apply map_lookup_filter_Some|].
  apply map_lookup_filter_None. by left.
Qed.

(** ** Updating in place *)

Lemma by_key_Forall2 (R : relation A) l l' k :
  Forall2 (λ x y, key y = key x ∧ R x y) l l' → option_Forall2 R (by_key l !! k) (by_key l' !! k).
Proof.
  revert l'. induction l as [|x l IH] using rev_ind; intros l' Hl.
  { apply Forall2_nil_inv_l in Hl as ->. constructor. }
  apply Forall2_app_inv_l in Hl as (l1 & l2 & H1 & H2 & ->).
  apply Forall2_cons_inv_l in H2 as (y & l3 & [Hkey HR] & H3 & ->). apply Forall2_nil_inv_l in H3 as ->.
  rewrite !by_key_snoc, Hkey. destruct (decide (key x = k)) as [<-|Hne].
  - rewrite !lookup_insert_eq. by constructor.
  - rewrite !lookup_insert_ne by done. by apply IH.
Qed.
End keyed.
