(* ===== verification/Changes.v ===== *)
(** * What a handler may change, and what it reports

    Every handler of a tick changes the session and says which players, doors, cells and
    entities it touched; the delta snapshot is made of what was said.  [changes D n] relates
    the states before and after: whatever differs was reported, except for the players of
    [D], whom the caller still has to report, and at most [n] entities were made.  The
    relation composes, so a handler is checked one assignment at a time; the files of the
    handlers end with their lemmas, and [Mirror] puts them together. *)

From S2P Require Import Prelude Float32 Model GoStrings Layout Access Items Physics Prison Cards Combat Roles Session Spawn Actions.
From Stdlib Require Import SpecFloat.

#[local] Open Scope Z_scope.

(** ** Players *)

(** Go's [==] takes the two zeros for one number, so a player's position and velocity count
    with one zero only. *)
Definition one_zero (x : f32) : f32 := match x with S754_zero _ => S754_zero false | _ => x end.
Definition vector_view (v : Vector2) : Vector2 := mkVector2 (one_zero (vX v)) (one_zero (vY v)).
Definition player_view (p : PlayerState) : PlayerState :=
  p <| ps_Position ::= vector_view |> <| ps_Velocity ::= vector_view |>.

(** What holds of every player of a match: bytes are bytes, the living have hearts left and
    the hand is in order and no larger than a hand may be. *)
Record sound_player (p : PlayerState) : Prop := {
  sound_hearts : is_u8 (ps_HeartsHalf p);
  sound_temp : is_u8 (ps_TempHeartsHalf p);
  sound_alive : ps_Alive p = true → 0 < ps_HeartsHalf p;
  sound_hand : StronglySorted String.le (ps_Cards p);
  sound_hand_size : Z.of_nat (length (ps_Cards p)) <= MaxCardsHeld;
}.

(** The player keeps the identifier, stays sound, and what it is told it is told now. *)
Definition steady (now : Z) (p p' : PlayerState) : Prop :=
  ps_ID p' = ps_ID p ∧ (sound_player p → sound_player p') ∧
  (ps_LastActionFeedback p' = ps_LastActionFeedback p ∨ afb_TickID (ps_LastActionFeedback p') = now).

Lemma steady_refl {now} p : steady now p p.
Proof. split_and!; auto. Qed.
Lemma steady_trans {now} p q r : steady now p q → steady now q r → steady now p r.
Proof.
  intros (H1 & H2 & H3) (H4 & H5 & H6). split_and!; [congruence|auto|].
  destruct H6 as [H6|H6]; [rewrite H6|]; auto.
Qed.

(** An update that leaves identifier, life, hearts, hand and messages alone. *)
Definition same_vitals (p p' : PlayerState) : Prop :=
  ps_ID p' = ps_ID p ∧ ps_Alive p' = ps_Alive p ∧ ps_HeartsHalf p' = ps_HeartsHalf p ∧
  ps_TempHeartsHalf p' = ps_TempHeartsHalf p ∧ ps_Cards p' = ps_Cards p ∧
  ps_LastActionFeedback p' = ps_LastActionFeedback p.

Lemma same_vitals_refl p : same_vitals p p.
Proof. done. Qed.
Lemma same_vitals_trans p q r : same_vitals p q → same_vitals q r → same_vitals p r.
Proof. unfold same_vitals. intuition congruence. Qed.
Lemma same_vitals_steady {now} p p' : same_vitals p p' → steady now p p'.
Proof.
  intros (Hid & Ha & Hh & Ht & Hc & Hf). split_and!; [done| |by left]. intros [].
  split; rewrite ?Ha, ?Hh, ?Ht, ?Hc; auto.
Qed.

(** The players of [ids] are reported, or someone still has to report them. *)
Definition player_change (now : Z) (ids : gset PlayerID) (p p' : PlayerState) : Prop :=
  steady now p p' ∧ (ps_ID p ∈ ids ∨ player_view p' = player_view p).

Lemma player_change_refl {now} ids p : player_change now ids p p.
Proof. split; [apply steady_refl|by right]. Qed.
Lemma player_change_trans {now} ids ids' p q r :
  ids ⊆ ids' → player_change now ids p q → player_change now ids' q r → player_change now ids' p r.
Proof.
  intros Hsub [H1 H2] [H3 H4]. split; [by eapply steady_trans|].
  destruct H1 as [Hid _]. rewrite Hid in H4.
  destruct H4 as [?|H4]; [by left|]. destruct H2 as [?|H2]; [left; set_solver|]. right. congruence.
Qed.
Lemma player_change_weaken {now} ids ids' p q :
  ids ⊆ ids' → player_change now ids p q → player_change now ids' p q.
Proof. intros Hsub [H1 [H2|H2]]; (split; [done|]); [left; set_solver|by right]. Qed.

(** ** Doors and cells *)

Definition door_change (ids : gset DoorID) (d d' : DoorState) : Prop :=
  ds_ID d' = ds_ID d ∧ (ds_ID d ∈ ids ∨ d' = d).
Definition cell_change (ids : gset CellID) (c c' : CellState) : Prop :=
  cs_ID c' = cs_ID c ∧ (cs_ID c ∈ ids ∨ c' = c).

(** ** Entities *)

Definition entity_in (l : list EntityState) (k : EntityID) : option EntityState :=
  find_first (λ e, es_ID e ≟ k) l.
Definition entity_of (t : tickState) (k : EntityID) : option EntityState :=
  entity_in (gs_Entities (tk_game t)) k.

(** Identifiers are distinct and given out in order; what was removed is gone. *)
Record entities_ok (t : tickState) : Prop := {
  eo_distinct : NoDup (map es_ID (gs_Entities (tk_game t)));
  eo_given : Forall (λ k, k <= ss_nextEntityID (tk_session t)) (map es_ID (gs_Entities (tk_game t)));
  eo_counter : 0 <= ss_nextEntityID (tk_session t);
  eo_removed : ∀ k, k ∈ tk_removed t → entity_of t k = None ∧ k <= ss_nextEntityID (tk_session t);
}.

Definition entity_report (t t' : tickState) (k : EntityID) : Prop :=
  (entity_of t' k = entity_of t k ∧ (k ∈ tk_entities t → k ∈ tk_entities t')) ∨
  (is_Some (entity_of t' k) ∧ k ∈ tk_entities t') ∨
  (entity_of t' k = None ∧ k ∈ tk_removed t').

(** At most [n] entities are made, which does not exhaust the identifiers. *)
Definition entities_change (n : Z) (t t' : tickState) : Prop :=
  entities_ok t → ss_nextEntityID (tk_session t) + n < 2 ^ 32 →
  entities_ok t' ∧
  ss_nextEntityID (tk_session t) <= ss_nextEntityID (tk_session t')
    <= ss_nextEntityID (tk_session t) + n ∧
  tk_removed t ⊆ tk_removed t' ∧ ∀ k, entity_report t t' k.

Lemma entities_change_trans n m t t' t'' :
  0 <= n → 0 <= m → entities_change n t t' → entities_change m t' t'' → entities_change (n + m) t t''.
Proof.
  intros Hn Hm H1 H2 Hok Hroom. destruct (H1 Hok) as (Hok' & Hnext & Hrem & Hrep); [lia|].
  destruct (H2 Hok') as (Hok'' & Hnext' & Hrem' & Hrep'); [lia|].
  split_and!; [done|lia|lia|set_solver|]. intros k.
  destruct (Hrep' k) as [[He Hin]|[?|?]]; [|by right; left|by right; right].
  destruct (Hrep k) as [[He' Hin']|[[??]|[??]]].
  - left. split; [congruence|auto].
  - right; left. rewrite He. auto.
  - right; right. rewrite He. split; [done|]. set_solver.
Qed.

(** ** The relation *)

(** What no handler of a tick touches: who plays, the clock, the queue, the history. *)
Definition tick_frame (t : tickState) :=
  let s := tk_session t in
  let g := ss_gameState s in
  ((ss_matchID s, ss_status s, ss_tickRateHz s, ss_createdAt s, ss_startedAt s, ss_endedAt s),
   (ss_endedReason s, ss_tickID s, ss_players s, ss_nextIngressSeq s, ss_scheduledInputs s),
   (ss_seenClientSeq s, ss_acceptedByTick s, ss_replayEntries s, ss_snapshotHistory s, ss_looping s),
   (gs_MatchID g, gs_TickID g, gs_Status g, gs_CycleCount g, gs_Phase g, gs_GameOver g),
   ms_RestrictedZones (gs_Map g)).

Definition tk_playerStates (t : tickState) : list PlayerState := gs_Players (tk_game t).
Definition tk_doorStates (t : tickState) : list DoorState := ms_Doors (tk_map t).
Definition tk_cellStates (t : tickState) : list CellState := ms_Cells (tk_map t).

Record changes (D : gset PlayerID) (n : Z) (t t' : tickState) : Prop := {
  ch_frame : tick_frame t' = tick_frame t;
  ch_told_players : tk_players t ⊆ tk_players t';
  ch_told_doors : tk_doors t ⊆ tk_doors t';
  ch_told_cells : tk_cells t ⊆ tk_cells t';
  ch_players : Forall2 (player_change (tk_now t) (tk_players t' ∪ D)) (tk_playerStates t) (tk_playerStates t');
  ch_doors : Forall2 (door_change (tk_doors t')) (tk_doorStates t) (tk_doorStates t');
  ch_cells : Forall2 (cell_change (tk_cells t')) (tk_cellStates t) (tk_cellStates t');
  ch_entities : entities_change n t t';
}.

Lemma Forall2_compose {A} (R1 R2 R : relation A) l1 l2 l3 :
  (∀ x y z, R1 x y → R2 y z → R x z) → Forall2 R1 l1 l2 → Forall2 R2 l2 l3 → Forall2 R l1 l3.
Proof.
  intros HR H. revert l3. induction H as [|x y l1 l2 Hxy _ IH]; intros l3 H2;
    inversion H2; subst; constructor; eauto.
Qed.

Lemma entities_change_same n t t' :
  0 <= n →
  gs_Entities (tk_game t') = gs_Entities (tk_game t) →
  ss_nextEntityID (tk_session t') = ss_nextEntityID (tk_session t) →
  tk_entities t' = tk_entities t → tk_removed t' = tk_removed t →
  entities_change n t t'.
Proof.
  intros Hn He Hnext Hent Hrem [H1 H2 H3 H4] _.
  assert (∀ k, entity_of t' k = entity_of t k) as Hof by (intros k; unfold entity_of; by rewrite He).
  split_and!; rewrite ?Hnext, ?Hrem; [|lia|lia|done|].
  - split; rewrite ?He, ?Hnext, ?Hrem; try done. intros k. rewrite Hof. auto.
  - intros k. left. by rewrite Hof, Hent.
Qed.

Lemma changes_refl D t : changes D 0 t t.
Proof.
  split; try done.
  - apply Forall_Forall2_diag, Forall_forall. intros p _. apply player_change_refl.
  - apply Forall_Forall2_diag, Forall_forall. intros d _. split; auto.
  - apply Forall_Forall2_diag, Forall_forall. intros c _. split; auto.
  - by apply entities_change_same.
Qed.

Lemma changes_trans D n m t t' t'' :
  0 <= n → 0 <= m → changes D n t t' → changes D m t' t'' → changes D (n + m) t t''.
Proof.
  intros Hn Hm H1 H2. pose proof (ch_told_players _ _ _ _ H2). pose proof (ch_told_doors _ _ _ _ H2).
  pose proof (ch_told_cells _ _ _ _ H2).
  destruct H1 as [F1 P1 D1 C1 p1 d1 c1 e1], H2 as [F2 P2 D2 C2 p2 d2 c2 e2].
  assert (tk_now t' = tk_now t) as Hnow by by injection F1. rewrite Hnow in p2.
  split; [congruence|set_solver|set_solver|set_solver|..|by eapply entities_change_trans].
  - eapply Forall2_compose; [|exact p1|exact p2]. intros x y z. apply player_change_trans. set_solver.
  - eapply Forall2_compose; [|exact d1|exact d2]. intros x y z [Hid Hd] [Hid' Hd'].
    split; [congruence|]. rewrite Hid in Hd'. set_solver by congruence.
  - eapply Forall2_compose; [|exact c1|exact c2]. intros x y z [Hid Hd] [Hid' Hd'].
    split; [congruence|]. rewrite Hid in Hd'. set_solver by congruence.
Qed.

(** Handlers that make no entity compose without counting. *)
Lemma changes_step D t t' t'' : changes D 0 t t' → changes D 0 t' t'' → changes D 0 t t''.
Proof. intros. by apply (changes_trans D 0 0 t t' t''). Qed.

Lemma changes_weaken D D' n m t t' : D ⊆ D' → n <= m → changes D n t t' → changes D' m t t'.
Proof.
  intros HD Hn [? ? ? ? Hp ? ? He]. split; try done.
  - eapply Forall2_impl; [exact Hp|]. intros p p'. apply player_change_weaken. set_solver.
  - intros Hok Hroom. destruct (He Hok) as (? & ? & ? & ?); [lia|]. split_and!; try done; lia.
Qed.
Lemma changes_none D n t t' : 0 <= n → changes ∅ 0 t t' → changes D n t t'.
Proof. intros Hn. apply changes_weaken; [set_solver|done]. Qed.

(** ** The steps handlers are made of *)

(** Assignments to what is neither in the delta nor in the frame. *)
Lemma changes_silent D t t' :
  tick_frame t' = tick_frame t →
  (tk_players t', tk_doors t', tk_cells t', tk_entities t', tk_removed t') =
    (tk_players t, tk_doors t, tk_cells t, tk_entities t, tk_removed t) →
  (tk_playerStates t', tk_doorStates t', tk_cellStates t') =
    (tk_playerStates t, tk_doorStates t, tk_cellStates t) →
  (gs_Entities (tk_game t'), ss_nextEntityID (tk_session t')) =
    (gs_Entities (tk_game t), ss_nextEntityID (tk_session t)) →
  changes D 0 t t'.
Proof.
  intros Hf [= Hp Hd Hc He Hr] [= Hps Hds Hcs] [= Hes Hn].
  pose proof (changes_refl D t) as []. split; rewrite ?Hp, ?Hd, ?Hc, ?Hps, ?Hds, ?Hcs; try done.
  by apply entities_change_same.
Qed.

Lemma Forall2_put {A} (R : relation A) (l : list A) (i : nat) (x y : A) :
  (∀ z, R z z) → (∀ z, l !! i = Some z → z = x) → R x y → Forall2 R l (<[i := y]> l).
Proof.
  intros Hrefl Hx HR. destruct (l !! i) as [z|] eqn:Hi.
  - rewrite <-(list_insert_id l i z) at 1 by done. apply Forall2_insert.
    + by apply Forall_Forall2_diag, Forall_forall.
    + by rewrite (Hx z).
  - rewrite list_insert_ge by (by apply lookup_ge_None). by apply Forall_Forall2_diag, Forall_forall.
Qed.

Lemma session_player_lookup i s p : gs_Players (ss_gameState s) !! i = Some p → p = session_player i s.
Proof. unfold session_player. by intros ->. Qed.

Lemma changes_put D t i p : player_change (tk_now t) D (player_at t i) p → changes D 0 t (put_player i p t).
Proof.
  intros Hp. pose proof (changes_refl D t) as [? ? ? ? ? ? ? ?].
  split; try done; [|by apply entities_change_same].
  change (tk_playerStates (put_player i p t)) with (<[i := p]> (tk_playerStates t)).
  apply (Forall2_put _ _ _ (player_at t i)); [apply player_change_refl| |].
  - intros q. apply session_player_lookup.
  - eapply player_change_weaken; [|exact Hp]. set_solver.
Qed.

(** The player an assignment changes has to be reported. *)
Lemma changes_put_steady D t i p :
  steady (tk_now t) (player_at t i) p → ps_ID (player_at t i) ∈ D → changes D 0 t (put_player i p t).
Proof. intros. apply changes_put. split; auto. Qed.

Lemma changes_mark_player D t id : changes D 0 t (mark_player id t).
Proof.
  pose proof (changes_refl D t) as [? ? ? ? Hp ? ? ?]. split; try done; [simpl; set_solver| |by apply entities_change_same].
  eapply Forall2_impl; [exact Hp|]. intros p p'. apply player_change_weaken. simpl. set_solver.
Qed.
Lemma changes_mark_door D t id : changes D 0 t (mark_door id t).
Proof.
  pose proof (changes_refl D t) as [? ? ? ? ? Hd ? ?]. split; try done; [simpl; set_solver| |by apply entities_change_same].
  eapply Forall2_impl; [exact Hd|]. intros d d' [? [?|?]]; split; auto. left. simpl. set_solver.
Qed.
Lemma changes_mark_cell D t id : changes D 0 t (mark_cell id t).
Proof.
  pose proof (changes_refl D t) as [? ? ? ? ? ? Hc ?]. split; try done; [simpl; set_solver| |by apply entities_change_same].
  eapply Forall2_impl; [exact Hc|]. intros d d' [? [?|?]]; split; auto. left. simpl. set_solver.
Qed.
Lemma changes_mark_entity D t id : changes D 0 t (mark_entity id t).
Proof.
  pose proof (changes_refl D t) as []. split; try done.
  intros [H1 H2 H3 H4] _. split_and!; [by split|simpl; lia|simpl; lia|done|].
  intros k. left. split; [done|]. simpl. set_solver.
Qed.
Lemma changes_mark_if D t b mark :
  (∀ t, changes D 0 t (mark t)) → changes D 0 t (mark_if b mark t).
Proof. intros H. destruct b; [apply H|apply changes_refl]. Qed.

(** Reporting the player who was left to be reported. *)
Lemma changes_settle D n t t' id :
  changes (D ∪ {[id]}) n t t' → changes D n t (mark_player id t').
Proof.
  intros [? ? ? ? Hp ? ? He]. split; try done; [simpl; set_solver| |].
  - eapply Forall2_impl; [exact Hp|]. intros p p'. apply player_change_weaken. simpl. set_solver.
  - intros Hok Hroom. destruct (He Hok Hroom) as ([] & [? ?] & ? & ?). split_and!; try done; by split.
Qed.
Lemma changes_settle_if D n t t' id (b : bool) :
  changes (if b then D ∪ {[id]} else D) n t t' → changes D n t (mark_if b (mark_player id) t').
Proof. destruct b; [apply changes_settle|done]. Qed.

(** The player at an index stays the same person. *)
Lemma changes_steady D n t t' i : changes D n t t' → steady (tk_now t) (player_at t i) (player_at t' i).
Proof.
  intros [? ? ? ? Hp ? ? ?]. unfold player_at, session_player.
  change (gs_Players (ss_gameState (tk_session t))) with (tk_playerStates t).
  change (gs_Players (ss_gameState (tk_session t'))) with (tk_playerStates t').
  destruct (tk_playerStates t !! i) as [p|] eqn:Hi.
  - destruct (Forall2_lookup_l _ _ _ _ _ Hp Hi) as (p' & -> & [Hs _]). exact Hs.
  - assert (tk_playerStates t' !! i = None) as ->; [|apply steady_refl].
    apply lookup_ge_None. rewrite <-(Forall2_length _ _ _ Hp). by apply lookup_ge_None.
Qed.
Lemma changes_ID D n t t' i : changes D n t t' → ps_ID (player_at t' i) = ps_ID (player_at t i).
Proof. intros H. apply (changes_steady _ _ _ _ i H). Qed.
Lemma changes_now D n t t' : changes D n t t' → tk_now t' = tk_now t.
Proof. intros [H]. by injection H. Qed.

(** All the players at once, and the reports after that. *)
Lemma changes_put_all D t l :
  Forall2 (player_change (tk_now t) D) (tk_playerStates t) l →
  changes D 0 t (on_game (λ g, g <| gs_Players := l |>) t).
Proof.
  intros Hl. pose proof (changes_refl D t) as [? ? ? ? ? ? ? ?].
  split; try done; [|by apply entities_change_same].
  eapply Forall2_impl; [exact Hl|]. intros p p'. apply player_change_weaken. set_solver.
Qed.
Lemma changes_settle_all D n t t' l :
  changes (D ∪ list_to_set l) n t t' → changes D n t (foldl (λ t id, mark_player id t) t' l).
Proof.
  revert t'. induction l as [|id l IH]; intros t'; simpl; [by rewrite (right_id_L ∅ (∪))|].
  intros H. apply IH, changes_settle. eapply changes_weaken; [|done|exact H]. set_solver.
Qed.

Lemma changes_frame_facts D n t t' :
  changes D n t t' →
  gs_MatchID (tk_game t') = gs_MatchID (tk_game t) ∧ gs_TickID (tk_game t') = gs_TickID (tk_game t) ∧
  gs_Status (tk_game t') = gs_Status (tk_game t) ∧ gs_Phase (tk_game t') = gs_Phase (tk_game t) ∧
  gs_GameOver (tk_game t') = gs_GameOver (tk_game t) ∧
  ms_RestrictedZones (tk_map t') = ms_RestrictedZones (tk_map t) ∧ tk_now t' = tk_now t.
Proof. intros [H]. unfold tick_frame in H. by injection H. Qed.

(** ** Handlers that say whether the player changed *)

(** An update of a player with a flag: without the flag there was no change. *)
Definition tells (now : Z) (p : PlayerState) (r : PlayerState * bool) : Prop :=
  steady now p r.1 ∧ (r.2 = false → r.1 = p).

Lemma tells_same {now} p : tells now p (p, false).
Proof. split; [apply steady_refl|done]. Qed.
Lemma tells_vitals {now} p p' : same_vitals p p' → tells now p (p', true).
Proof. split; [by apply same_vitals_steady|done]. Qed.
Lemma tells_steady {now} p p' : steady now p p' → tells now p (p', true).
Proof. by split. Qed.
(** One update after the other, with the flags collected. *)
Lemma tells_or {now} p q b r : tells now p (q, b) → tells now q r → tells now p (r.1, b || r.2).
Proof.
  intros [H1 H2] [H3 H4]. split; [by eapply steady_trans|]. simpl in *.
  intros [Hb Hr]%orb_false_iff. rewrite H4, H2; auto.
Qed.

(** A handler's answer: when it is false nothing about the player is left to be reported. *)
Definition owes (id : PlayerID) (t : tickState) (r : tickState * bool) : Prop :=
  changes (if r.2 then {[id]} else ∅) 0 t r.1.

Lemma owes_none id t t' b : changes ∅ 0 t t' → owes id t (t', b).
Proof. intros H. by apply changes_none. Qed.
Lemma owes_true id t t' : changes {[id]} 0 t t' → owes id t (t', true).
Proof. done. Qed.
Lemma owes_mark id t t' b : owes id t (t', b) → changes ∅ 0 t (mark_if b (mark_player id) t').
Proof.
  intros H. apply changes_settle_if. unfold owes in H. simpl in H. destruct b; [|done].
  by rewrite (left_id_L ∅ (∪)).
Qed.
Lemma owes_D id D t r : id ∈ D → owes id t r → changes D 0 t r.1.
Proof. intros Hid. apply changes_weaken; [|done]. destruct r.2; set_solver. Qed.
Lemma owes_trans id t r r' :
  owes id t r → owes id r.1 r' → (r.2 = true → r'.2 = true) → owes id t r'.
Proof.
  unfold owes. intros H1 H2 Hb. eapply changes_step; [|exact H2].
  eapply changes_weaken; [|done|exact H1]. destruct r.2, r'.2; set_solver by naive_solver.
Qed.
Lemma owes_or id t t' b r : owes id t (t', b) → owes id t' r → owes id t (r.1, b || r.2).
Proof.
  intros H1 H2. eapply owes_trans; [exact H1| |by destruct b].
  unfold owes in *. simpl in *. eapply changes_weaken; [|done|exact H2].
  destruct b, r.2; set_solver.
Qed.

Lemma owes_put i p b t :
  tells (tk_now t) (player_at t i) (p, b) → owes (ps_ID (player_at t i)) t (put_player i p t, b).
Proof.
  intros [Hs Hb]. apply changes_put. split; [exact Hs|]. simpl in *.
  destruct b; [left; set_solver|right; by rewrite Hb].
Qed.

Lemma with_players_same t : on_game (λ g, g <| gs_Players := tk_playerStates t |>) t = t.
Proof. destruct t as [s ? ? ? ? ? ?]. destruct s as []. by destruct ss_gameState. Qed.
Lemma put_player_id i p t : <[i := p]> (tk_playerStates t) = tk_playerStates t → put_player i p t = t.
Proof.
  intros H. rewrite <-(with_players_same t) at 2. rewrite <-H. reflexivity.
Qed.
Lemma put_player_same i t : put_player i (player_at t i) t = t.
Proof.
  apply put_player_id. change (player_at t i) with (default zero_PlayerState (tk_playerStates t !! i)).
  destruct (tk_playerStates t !! i) as [p|] eqn:Hi.
  - by apply list_insert_id.
  - apply list_insert_ge. by apply lookup_ge_None.
Qed.

(** ** Updates of one player *)

Lemma tells_feedback p kind level message tick :
  tells tick p (applyActionFeedbackLocked p kind level message tick).
Proof.
  unfold applyActionFeedbackLocked. cbv zeta. repeat case_match; simplify_eq; try apply tells_same;
    (apply tells_steady; split_and!; [done|intros []; by split|by right]).
Qed.
Lemma tells_escape_feedback {now} p route success reason tick :
  tells now p (applyEscapeFeedbackLocked p route success reason tick).
Proof.
  unfold applyEscapeFeedbackLocked. cbv zeta. repeat case_match; simplify_eq;
    try apply tells_same; by apply tells_vitals.
Qed.
Lemma tells_ensure_equipped {now} p : tells now p (ensureEquippedItemForPlayerLocked p).
Proof.
  unfold ensureEquippedItemForPlayerLocked. cbv zeta. repeat case_match; simplify_eq;
    try apply tells_same; by apply tells_vitals.
Qed.
Lemma refresh_effect_same ends source sourceID stacks e e' :
  refresh_effect ends source sourceID stacks e = (e', false) → e' = e.
Proof.
  unfold refresh_effect. cbv zeta.
  repeat match goal with |- context [if ?b then _ else _] => destruct b; cbv beta iota end; congruence.
Qed.
Lemma tells_upsert {now} p effect ends source sourceID stacks :
  tells now p (upsertEffectLocked p effect ends source sourceID stacks).
Proof.
  unfold upsertEffectLocked. cbv zeta. case_match; [apply tells_same|].
  destruct (find_idx _ _) as [k|] eqn:Hk; [|by apply tells_vitals].
  destruct (refresh_effect _ _ _ _ _) as [e changed] eqn:He.
  split; [by apply same_vitals_steady|]. cbn [fst snd]. intros ->.
  apply refresh_effect_same in He as ->. apply find_idx_Some in Hk as (x & Hx & _).
  rewrite Hx. cbn [default from_option id]. destruct p. unfold field_update. cbn in *. f_equal.
  by apply list_insert_id.
Qed.
Lemma filter_shorter {A} (P : A → Prop) `{∀ x, Decision (P x)} (l : list A) :
  (length (filter P l) <? length l)%nat = false → filter P l = l.
Proof.
  intros H0%Nat.ltb_ge. induction l as [|x l IH]; [done|]. rewrite filter_cons in *.
  case_decide; simpl in *; [f_equal; apply IH; lia|].
  pose proof (length_filter P l). lia.
Qed.
Lemma tells_remove_effect {now} p effect : tells now p (removeEffectLocked p effect).
Proof.
  unfold removeEffectLocked. cbv zeta. repeat case_match; try apply tells_same. by apply tells_vitals.
Qed.
Lemma tells_expire_effects {now} tick p : tells now p (expire_effects tick p).
Proof.
  unfold expire_effects. cbv zeta. case_match; [|apply tells_same]. apply tells_steady.
  case_match; [|by apply same_vitals_steady]. split_and!; [done| |by left]. intros []. by split.
Qed.

(** Items and cards. *)
Lemma AddItem_vitals p item amount p' : AddItem p item amount = Some p' → same_vitals p p'.
Proof. unfold AddItem. intros H. by repeat case_match; simplify_option_eq. Qed.
Lemma RemoveItem_vitals p item amount p' : RemoveItem p item amount = Some p' → same_vitals p p'.
Proof.
  unfold RemoveItem. intros H. case_match; [done|].
  apply bind_Some in H as (next & _ & H). case_match; by simplify_eq.
Qed.
Lemma Craft_vitals p item p' : Craft p item = Some p' → same_vitals p p'.
Proof. unfold Craft. intros H. by simplify_option_eq. Qed.
Lemma TransferItem_vitals p q item amount p' q' :
  TransferItem p q item amount = Some (p', q') → same_vitals p p' ∧ same_vitals q q'.
Proof. unfold TransferItem. intros H. do 2 (case_match; [done|]). by simplify_option_eq. Qed.
Lemma try_add_vitals p item amount : same_vitals p (try_add p item amount).
Proof.
  unfold try_add. destruct (AddItem p item amount) eqn:H; [|apply same_vitals_refl].
  by apply AddItem_vitals in H.
Qed.
Lemma tells_sync {now} p : tells now p (syncAuthorityBulletStackLocked p).
Proof.
  unfold syncAuthorityBulletStackLocked. case_match; [apply tells_same|].
  assert (tells now p (if authorityAmmoMax <? ps_Bullets p
            then (p <| ps_Bullets := authorityAmmoMax |>, true) else (p, false))) as H1.
  { case_match; [by apply tells_vitals|apply tells_same]. }
  destruct (if authorityAmmoMax <? ps_Bullets p then _ else _) as [q b].
  match goal with |- context [inventoryItemQuantity ?i ?b] => set (current := inventoryItemQuantity i b) end.
  assert (tells now p (if 0 <? current then
            match RemoveItem q ItemBullet current with Some r => (r, true) | None => (q, b) end
          else (q, b))) as H2.
  { case_match; [|done]. destruct (RemoveItem q ItemBullet current) eqn:Hr; [|done].
    apply tells_steady. destruct H1 as [H1 _]. eapply steady_trans; [exact H1|].
    by eapply same_vitals_steady, RemoveItem_vitals. }
  destruct (if 0 <? current then _ else _) as [r c]. case_match; [|done].
  destruct (AddItem r ItemBullet (ps_Bullets r)) eqn:Ha; [|done]. apply tells_steady.
  destruct H2 as [H2 _]. eapply steady_trans; [exact H2|]. by eapply same_vitals_steady, AddItem_vitals.
Qed.

Lemma AddCard_steady {now} p card p' : AddCard p card = Some p' → steady now p p'.
Proof.
  unfold AddCard. intros H. repeat case_match; simplify_eq. split_and!; [done| |by left]. intros [].
  split; try done; [exact (sort_by_sorted String.le id _)|].
  cbn. rewrite length_sort_by, length_app. simpl. bool_props. unfold MaxCardsHeld in *. lia.
Qed.
Lemma StronglySorted_delete {A} (R : relation A) i l : StronglySorted R l → StronglySorted R (delete i l).
Proof.
  intros H. revert i. induction H as [|x l Hl IH Hx]; intros [|i]; simpl; try done;
    [by constructor..|]. constructor; [done|]. by apply Forall_delete.
Qed.
Lemma RemoveCard_steady {now} p card p' : RemoveCard p card = Some p' → steady now p p'.
Proof.
  unfold RemoveCard. intros H. case_match; [done|]. apply bind_Some in H as (index & _ & H).
  simplify_eq. split_and!; [done| |by left]. intros []. split; try done; [by apply StronglySorted_delete|].
  cbn. pose proof (sublist_length _ _ (sublist_delete (ps_Cards p) index)). lia.
Qed.
(** A card that leaves an orderly hand and comes back leaves no trace. *)
Lemma RemoveCard_AddCard p card p' :
  sound_player p → RemoveCard p card = Some p' → AddCard p' card = Some p.
Proof.
  intros [_ _ _ Hs Hlen] H. unfold RemoveCard in H.
  destruct (IsKnownCard card) eqn:Hknown; [|done]. case_match; [done|].
  apply bind_Some in H as (index & Hi & H). simplify_eq.
  apply find_idx_Some in Hi as (c & Hc & Heq & _). bool_props. subst c.
  pose proof (length_delete (ps_Cards p) index (mk_is_Some _ _ Hc)) as Hd.
  pose proof (lookup_lt_Some _ _ _ Hc). unfold AddCard. rewrite Hknown. cbn [negb].
  change (ps_Cards (p <| ps_Cards ::= delete index |>)) with (delete index (ps_Cards p)).
  rewrite (proj2 (Z.leb_gt _ _)) by lia. f_equal.
  change (p <| ps_Cards ::= delete index |> <| ps_Cards ::= λ cards, sort_strings (cards ++ [card]) |>)
    with (p <| ps_Cards := sort_strings (delete index (ps_Cards p) ++ [card]) |>).
  assert (sort_strings (delete index (ps_Cards p) ++ [card]) = ps_Cards p) as ->; [|by destruct p].
  transitivity (sort_strings (ps_Cards p)); [|by apply (sort_self_id String.le)]. apply (sort_self_proper String.le _ _).
  symmetry. rewrite (delete_Permutation (ps_Cards p) index card Hc) at 1. apply Permutation_cons_append.
Qed.

(** Damage, lives, stuns and penalties. *)
Lemma ApplyDamage_steady {now} p damage : is_u8 damage → steady now p (ApplyDamage p damage).1.
Proof.
  intros Hd. split_and!; [by unfold ApplyDamage; repeat case_match| |left; by unfold ApplyDamage; repeat case_match].
  intros Hp.
  destruct (decide (damage = 0 ∨ ps_Alive p = false)) as [Hno|Hyes].
  - assert (ApplyDamage p damage = (p, zero_DamageResult)) as ->; [|done].
    unfold ApplyDamage. destruct Hno as [-> | ->]; [done|]. by rewrite orb_true_r.
  - destruct Hp as [Hh Ht Ha Hs Hl]. destruct (ps_Alive p) eqn:Halive; [|tauto].
    specialize (Ha eq_refl). rewrite ApplyDamage_live; [|naive_solver..]. cbv zeta. unfold is_u8 in *.
    case_bool_decide; split; cbn; unfold is_u8; try done; lia.
Qed.
(** Damage that applies to nobody changes nobody. *)
Lemma ApplyDamage_none p damage :
  sound_player p → is_u8 damage → dm_AppliedHalf (ApplyDamage p damage).2 = 0 →
  ApplyDamage p damage = (p, zero_DamageResult).
Proof.
  intros [Hh Ht Ha _ _] Hd. destruct (decide (damage = 0 ∨ ps_Alive p = false)) as [Hno|Hyes].
  - intros _. unfold ApplyDamage. destruct Hno as [-> | ->]; [done|]. by rewrite orb_true_r.
  - destruct (ps_Alive p) eqn:Halive; [|tauto]. specialize (Ha eq_refl).
    rewrite ApplyDamage_live; [|naive_solver..]. cbv zeta. cbn. unfold is_u8 in *. lia.
Qed.

Lemma MaxHearts_range role : 0 < MaxHeartsHalfForRole role ∧ is_u8 (MaxHeartsHalfForRole role).
Proof. unfold MaxHeartsHalfForRole, loadoutForRole. repeat case_match; by vm_compute. Qed.
Lemma consumeLife_steady {now} p : steady now p (consumeLifeAndRespawnIfAvailableLocked p).1.1.
Proof.
  unfold consumeLifeAndRespawnIfAvailableLocked. cbv zeta.
  set (p1 := if ps_LivesRemaining p ≟ 0 then _ else p).
  assert (same_vitals p p1) as H1 by (unfold p1; by case_match).
  set (p2 := if 0 <? ps_LivesRemaining p1 then _ else p1).
  assert (same_vitals p p2) as H2.
  { eapply same_vitals_trans; [exact H1|]. unfold p2. by case_match. }
  clearbody p2. case_match; [by apply same_vitals_steady|].
  destruct (respawnLocationForPlayer _) as [room position].
  eapply steady_trans; [apply same_vitals_steady, H2|].
  pose proof (MaxHearts_range (ps_Role p2)) as [Hpos Hbyte].
  split_and!; [done| |by left]. intros []. by split.
Qed.
Lemma tells_penalty {now} p phase tick : tells now p (ApplyUnjustShotPenalty p phase tick).
Proof.
  unfold ApplyUnjustShotPenalty. do 3 (case_match; [apply tells_same|]). cbv zeta.
  destruct (ps_SolitaryUntilTick p <? _); case_match; try apply tells_same; by apply tells_vitals.
Qed.
Lemma ApplyKnockback_vitals p impulse layout m occupied tick duration :
  same_vitals p (ApplyKnockback p impulse layout m occupied tick duration).1.1.
Proof. unfold ApplyKnockback. cbv zeta. repeat case_match; simplify_eq/=; done. Qed.
Lemma ConsumeShotCost_tells p weapon golden :
  let r := ConsumeShotCostAndResolveDamage p weapon golden in
  same_vitals p r.1 ∧ (r.2 = None → r.1 = p) ∧ (∀ damage, r.2 = Some damage → is_u8 damage).
Proof.
  cbv zeta. unfold ConsumeShotCostAndResolveDamage. repeat case_match; simplify_eq/=; 
    (split_and!; [try done; by eapply RemoveItem_vitals|try done|intros ? [=]; subst; by vm_compute]).
Qed.

(** ** The shared handlers of [Actions] *)

Lemma owes_feedback i kind level message t :
  owes (ps_ID (player_at t i)) t (feedback i kind level message t).
Proof.
  unfold feedback. destruct (applyActionFeedbackLocked _ _ _ _ _) as [p b] eqn:H.
  apply owes_put. rewrite <-H. apply tells_feedback.
Qed.
Lemma owes_ensure_equipped i t : owes (ps_ID (player_at t i)) t (ensure_equipped i t).
Proof.
  unfold ensure_equipped. destruct (ensureEquippedItemForPlayerLocked _) as [p b] eqn:H.
  apply owes_put. rewrite <-H. apply tells_ensure_equipped.
Qed.

(** An answer that marks the player it is about. *)
Lemma owes_marked i t r :
  owes (ps_ID (player_at t i)) t r →
  changes ∅ 0 t (mark_if r.2 (mark_player (ps_ID (player_at r.1 i))) r.1).
Proof.
  intros H. destruct r as [t' b]. cbn [fst snd].
  replace (ps_ID (player_at t' i)) with (ps_ID (player_at t i)); [by apply owes_mark|].
  symmetry. eapply changes_ID, H.
Qed.
Lemma changes_feedback_marked D i kind level message t :
  changes D 0 t (feedback_marked i kind level message t).
Proof.
  apply changes_none; [done|]. unfold feedback_marked.
  pose proof (owes_marked i t _ (owes_feedback i kind level message t)) as H.
  by destruct (feedback i kind level message t).
Qed.
Lemma changes_ensure_equipped_marked D i t : changes D 0 t (ensure_equipped_marked i t).
Proof.
  apply changes_none; [done|]. unfold ensure_equipped_marked.
  pose proof (owes_marked i t _ (owes_ensure_equipped i t)) as H. by destruct (ensure_equipped i t).
Qed.

(** A player in the hands of the caller. *)
Lemma changes_feedback D i kind level message t :
  ps_ID (player_at t i) ∈ D → changes D 0 t (feedback i kind level message t).1.
Proof. intros H. eapply owes_D; [exact H|]. apply owes_feedback. Qed.
Lemma changes_ensure_equipped D i t :
  ps_ID (player_at t i) ∈ D → changes D 0 t (ensure_equipped i t).1.
Proof. intros H. eapply owes_D; [exact H|]. apply owes_ensure_equipped. Qed.

(** Assignments to one player that are marked right away. *)
Lemma put_player_ID i p t :
  steady (tk_now t) (player_at t i) p → ps_ID (player_at (put_player i p t) i) = ps_ID (player_at t i).
Proof. intros H. eapply (changes_ID {[ps_ID (player_at t i)]} 0), changes_put_steady; [done|set_solver]. Qed.
Lemma changes_put_then i p t t' :
  steady (tk_now t) (player_at t i) p → changes {[ps_ID (player_at t i)]} 0 (put_player i p t) t' →
  changes ∅ 0 t (mark_player (ps_ID (player_at t i)) t').
Proof.
  intros Hs H. apply changes_settle. rewrite (left_id_L ∅ (∪)). eapply changes_step; [|exact H].
  apply changes_put_steady; [done|set_solver].
Qed.
Lemma changes_put_marked D i p t :
  steady (tk_now t) (player_at t i) p → changes D 0 t (mark_player (ps_ID (player_at t i)) (put_player i p t)).
Proof. intros H. apply changes_settle, changes_put_steady; [done|set_solver]. Qed.
Lemma changes_put_mark_if D i p b t :
  tells (tk_now t) (player_at t i) (p, b) →
  changes D 0 t (mark_if b (mark_player (ps_ID (player_at t i))) (put_player i p t)).
Proof. intros H. by apply changes_none, owes_mark, owes_put. Qed.

(** Loops. *)
Lemma changes_fold {A} D (f : tickState → A → tickState) (l : list A) t :
  (∀ t x, x ∈ l → changes D 0 t (f t x)) → changes D 0 t (foldl f t l).
Proof.
  revert t. induction l as [|x l IH]; intros t H; simpl; [apply changes_refl|].
  eapply changes_step; [apply H; left|]. apply IH. intros t' y Hy. apply H. by right.
Qed.
Lemma changes_fold_count {A} D (f : tickState → A → tickState) (l : list A) t :
  (∀ t x, changes D 1 t (f t x)) → changes D (Z.of_nat (length l)) t (foldl f t l).
Proof.
  revert t. induction l as [|x l IH]; intros t H; cbn [foldl length]; [apply changes_refl|].
  replace (Z.of_nat (S (length l))) with (1 + Z.of_nat (length l)) by lia.
  eapply changes_trans; [lia|lia|apply H|]. by apply IH.
Qed.

(** Sound states stay sound. *)
Definition sound (t : tickState) : Prop := Forall sound_player (tk_playerStates t).

Lemma sound_changes D n t t' : changes D n t t' → sound t → sound t'.
Proof.
  intros H. destruct H as [_ _ _ _ Hp _ _ _]. unfold sound. induction Hp as [|p p' l l' [(_ & Hs & _) _] _ IH]; [done|].
  inversion 1; subst. constructor; auto.
Qed.
Lemma sound_zero : sound_player zero_PlayerState.
Proof. split; try done; constructor. Qed.
Lemma sound_at t i : sound t → sound_player (player_at t i).
Proof.
  intros H. change (player_at t i) with (default zero_PlayerState (tk_playerStates t !! i)).
  destruct (tk_playerStates t !! i) as [p|] eqn:Hi; [|apply sound_zero].
  by apply (Forall_lookup_1 _ _ _ _ H Hi).
Qed.

(** Nobody has a message of this tick without being reported. *)
Definition messages_told (t : tickState) : Prop :=
  ∀ p, p ∈ tk_playerStates t → afb_TickID (ps_LastActionFeedback p) = tk_now t →
  ps_ID p ∈ tk_players t.

Lemma player_view_feedback p q :
  player_view p = player_view q → ps_LastActionFeedback p = ps_LastActionFeedback q.
Proof. intros H. by apply (f_equal ps_LastActionFeedback) in H. Qed.
Lemma messages_told_changes n t t' : changes ∅ n t t' → messages_told t → messages_told t'.
Proof.
  intros H Ht p' (i & Hi)%list_elem_of_lookup Htick. rewrite (changes_now _ _ _ _ H) in Htick.
  pose proof (ch_told_players _ _ _ _ H) as Hsub.
  destruct (Forall2_lookup_r _ _ _ _ _ (ch_players _ _ _ _ H) Hi) as (p & Hp & [[Hid _] Hc]).
  rewrite Hid. destruct Hc as [Hc|Hv]; [set_solver|]. apply Hsub, Ht.
  - by eapply list_elem_of_lookup_2.
  - by rewrite <-(player_view_feedback _ _ Hv).
Qed.

(** A message that is not told was told before in this tick. *)
Lemma feedback_untold i kind level message t :
  kind ≠ "" → TrimSpace message ≠ "" → (feedback i kind level message t).2 = false →
  (feedback i kind level message t).1 = t ∧
  afb_TickID (ps_LastActionFeedback (player_at t i)) = tk_now t.
Proof.
  intros Hk Hm. unfold feedback, applyActionFeedbackLocked.
  rewrite bool_decide_eq_false_2 by done. cbv zeta. rewrite bool_decide_eq_false_2 by done.
  destruct (ps_LastActionFeedback (player_at t i) ≟ _) eqn:He; [|done]. cbn [fst snd]. intros _.
  bool_props. split; [apply put_player_same|]. by rewrite He.
Qed.

(** Updates that touch the inventory and the weapon in hand only. *)
Definition only_goods (p p' : PlayerState) : Prop :=
  p' = p <| ps_Inventory := ps_Inventory p' |> <| ps_EquippedItem := ps_EquippedItem p' |>.

Lemma only_goods_refl p : only_goods p p.
Proof. by destruct p. Qed.
Lemma only_goods_trans p q r : only_goods p q → only_goods q r → only_goods p r.
Proof. unfold only_goods. intros H1 H2. rewrite H2, H1. done. Qed.
Lemma only_goods_vitals p p' : only_goods p p' → same_vitals p p'.
Proof. unfold only_goods. intros ->. done. Qed.
Lemma only_goods_steady {now} p p' : only_goods p p' → steady now p p'.
Proof. intros. by apply same_vitals_steady, only_goods_vitals. Qed.
Lemma only_goods_feedback p p' :
  only_goods p p' → ps_LastActionFeedback p' = ps_LastActionFeedback p.
Proof. unfold only_goods. by intros ->. Qed.
Lemma AddItem_goods p item amount p' : AddItem p item amount = Some p' → only_goods p p'.
Proof. unfold AddItem. intros H. case_match; [done|]. simplify_option_eq. by destruct p. Qed.
Lemma RemoveItem_goods p item amount p' : RemoveItem p item amount = Some p' → only_goods p p'.
Proof.
  unfold RemoveItem. intros H. case_match; [done|].
  apply bind_Some in H as (next & _ & H). case_match; simplify_eq. by destruct p.
Qed.
Lemma ensure_equipped_goods p : only_goods p (ensureEquippedItemForPlayerLocked p).1.
Proof.
  unfold ensureEquippedItemForPlayerLocked. cbv zeta. by repeat case_match; destruct p.
Qed.

(** ** Entities *)

(** The entities [G] are gone, the others are in their places, the changed ones reported. *)
Inductive kept (reported G : gset EntityID) : list EntityState → list EntityState → Prop :=
  | kept_nil : kept reported G [] []
  | kept_here e e' l l' :
      es_ID e' = es_ID e → es_ID e ∈ reported ∨ e' = e → es_ID e ∉ G →
      kept reported G l l' → kept reported G (e :: l) (e' :: l')
  | kept_gone e l l' : es_ID e ∈ G → kept reported G l l' → kept reported G (e :: l) l'.

Lemma kept_refl reported l : kept reported ∅ l l.
Proof. induction l; [constructor|]. apply kept_here; auto. set_solver. Qed.
Lemma kept_ids reported G l l' : kept reported G l l' → map es_ID l' `sublist_of` map es_ID l.
Proof. induction 1 as [|e e' l l' He _ _ _ IH|]; simpl; [done|rewrite He|]; by constructor. Qed.
Lemma kept_find reported G l l' k :
  kept reported G l l' →
  (k ∈ G ∧ entity_in l' k = None) ∨ ((k ∉ G) ∧ entity_in l k = None ∧ entity_in l' k = None) ∨
  ((k ∉ G) ∧ ∃ e e', entity_in l k = Some e ∧ entity_in l' k = Some e' ∧ (k ∈ reported ∨ e' = e)).
Proof.
  intros H. unfold entity_in. destruct (decide (k ∈ G)) as [Hk|Hk]; [left|right]; 
    induction H as [|e e' l l' He Hr HG _ IH|e l l' HG _ IH]; rewrite ?find_first_cons; try auto.
  - rewrite He, bool_decide_eq_false_2 by congruence. auto.
  - rewrite He. case_bool_decide as Hid; [|done]. right. split; [done|]. rewrite <-Hid. eauto 6.
  - rewrite bool_decide_eq_false_2 by congruence. done.
Qed.

Lemma entities_change_kept G t t' :
  kept (tk_entities t') G (gs_Entities (tk_game t)) (gs_Entities (tk_game t')) →
  ss_nextEntityID (tk_session t') = ss_nextEntityID (tk_session t) →
  tk_entities t ⊆ tk_entities t' ∪ G → tk_removed t' = tk_removed t ∪ G →
  (∀ k, k ∈ G → k ∈ map es_ID (gs_Entities (tk_game t))) →
  entities_change 0 t t'.
Proof.
  intros Hl Hnext Hent Hrem HG [Hnd Hgiven Hnn Hgone] _.
  pose proof (kept_ids _ _ _ _ Hl) as Hids. pose proof (λ k, kept_find _ _ _ _ k Hl) as Hfind.
  split_and!; rewrite ?Hnext, ?Hrem; [|lia|lia|set_solver|].
  - split; rewrite ?Hnext, ?Hrem; try done.
    + by eapply sublist_NoDup.
    + rewrite Forall_forall in *. intros k Hk. apply Hgiven. by eapply elem_of_submseteq, sublist_submseteq.
    + intros k Hk. destruct (Hfind k) as [[Hin Hn]|[(Hn & H1 & H2)|(Hn & e & e' & H1 & H2 & _)]].
      * split; [done|]. rewrite Forall_forall in Hgiven. apply Hgiven, HG, Hin.
      * split; [done|]. apply Hgone. set_solver.
      * exfalso. destruct (Hgone k) as [Hx _]; [set_solver|]. unfold entity_of in Hx. congruence.
  - intros k. unfold entity_report, entity_of.
    destruct (Hfind k) as [[Hin Hn]|[(Hn & H1 & H2)|(Hn & e & e' & H1 & H2 & [Hr|Hr])]].
    + right; right. split; [done|]. rewrite Hrem. set_solver.
    + left. rewrite H1, H2. set_solver.
    + right; left. rewrite H2. eauto.
    + left. rewrite H1, H2, Hr. set_solver.
Qed.

(** One entity is brought up to date and reported. *)
Definition with_entity (k : nat) (f : EntityState → EntityState) : tickState → tickState :=
  on_game (λ g, g <| gs_Entities ::= alter f k |>).
Lemma kept_alter reported k f l e :
  l !! k = Some e → es_ID e ∈ reported → es_ID (f e) = es_ID e → kept reported ∅ l (alter f k l).
Proof.
  revert k. induction l as [|x l IH]; intros [|k] Hk He Hf; simplify_eq/=.
  - apply kept_here; [done|by left|set_solver|apply kept_refl].
  - apply kept_here; [done|by right|set_solver|]. by apply IH.
Qed.
Lemma changes_with_entity D k f e t :
  gs_Entities (tk_game t) !! k = Some e → es_ID (f e) = es_ID e →
  changes D 0 t (mark_entity (es_ID e) (with_entity k f t)).
Proof.
  intros He Hf. pose proof (changes_refl D t) as []. split; try done.
  apply (entities_change_kept ∅); [|done|simpl; set_solver|simpl; set_solver|set_solver].
  apply (kept_alter _ k f _ e); [done|simpl; set_solver|done].
Qed.

(** A new entity: the next identifier, at the end of the list, reported. *)
Definition with_new_entity (e : EntityState) : tickState → tickState :=
  on_game (λ g, g <| gs_Entities ::= λ es, es ++ [e] |>).
Definition next_entity_id (t : tickState) : EntityID := u32 (ss_nextEntityID (tk_session t) + 1).

Lemma entities_change_new e t t' :
  es_ID e = next_entity_id t → ss_nextEntityID (tk_session t') = next_entity_id t →
  gs_Entities (tk_game t') = gs_Entities (tk_game t) ++ [e] →
  tk_entities t' = {[es_ID e]} ∪ tk_entities t → tk_removed t' = tk_removed t →
  entities_change 1 t t'.
Proof.
  unfold next_entity_id. intros Hid Hnext Hl Hent Hrem [Hnd Hgiven Hnn Hgone] Hroom.
  rewrite u32_small in * by (unfold is_u32; lia). rewrite Forall_forall in Hgiven.
  assert (∀ k, entity_of t' k = match entity_of t k with Some x => Some x
                                | None => if es_ID e ≟ k then Some e else None end) as Hof.
  { intros k. unfold entity_of, entity_in. rewrite Hl, find_first_app, find_first_cons.
    by destruct (find_first _ (gs_Entities (tk_game t))). }
  split_and!; rewrite ?Hnext, ?Hrem; [|lia|lia|done|].
  - split; rewrite ?Hl, ?Hnext, ?Hrem, ?map_app; try lia.
    + apply NoDup_app. split_and!; [done| |apply NoDup_singleton].
      intros k Hk Hin. apply list_elem_of_singleton in Hin as ->. apply Hgiven in Hk. lia.
    + rewrite Forall_forall. intros k [Hk|Hk]%elem_of_app; [apply Hgiven in Hk; lia|].
      apply list_elem_of_singleton in Hk. lia.
    + intros k Hk. destruct (Hgone k Hk) as [Hn Hle]. rewrite Hof, Hn.
      rewrite bool_decide_eq_false_2 by lia. split; [done|lia].
  - intros k. unfold entity_report. rewrite Hof, Hent. destruct (entity_of t k) as [x|] eqn:Hk.
    + left. set_solver.
    + case_bool_decide; [right; left; set_solver|left; set_solver].
Qed.

(** ** Two players *)

Lemma player_at_put_ne i j p t : i ≠ j → player_at (put_player i p t) j = player_at t j.
Proof.
  intros Hne. change (player_at (put_player i p t) j)
    with (default zero_PlayerState (<[i := p]> (tk_playerStates t) !! j)).
  by rewrite list_lookup_insert_ne.
Qed.
Lemma TransferItem_distinct p q item amount r : TransferItem p q item amount = Some r → ps_ID p ≠ ps_ID q.
Proof. unfold TransferItem. intros H. case_match; [done|]. case_match; [done|]. by bool_props. Qed.

(** Items that move between two players. *)
Lemma changes_transfer D i j item amount source target t :
  TransferItem (player_at t i) (player_at t j) item amount = Some (source, target) →
  ps_ID (player_at t i) ∈ D → ps_ID (player_at t j) ∈ D →
  changes D 0 t (put_player j target (put_player i source t)).
Proof.
  intros Htr Hi Hj. pose proof (TransferItem_distinct _ _ _ _ _ Htr) as Hne.
  apply TransferItem_vitals in Htr as [Hs Hr].
  assert (player_at (put_player i source t) j = player_at t j) as Hpj
    by (apply player_at_put_ne; congruence).
  eapply changes_step; [by apply (changes_put_steady _ t i), Hi; apply same_vitals_steady|].
  apply changes_put_steady; rewrite Hpj; [by apply same_vitals_steady|done].
Qed.

Lemma player_at_put i p t : is_Some (tk_playerStates t !! i) → player_at (put_player i p t) i = p.
Proof.
  intros Hi. change (player_at (put_player i p t) i)
    with (default zero_PlayerState (<[i := p]> (tk_playerStates t) !! i)).
  by rewrite list_lookup_insert_eq by (by apply lookup_lt_is_Some).
Qed.
Lemma put_player_put i p q t : put_player i q (put_player i p t) = put_player i q t.
Proof.
  change (put_player i q (put_player i p t))
    with (on_game (λ g, g <| gs_Players := <[i := q]> (<[i := p]> (tk_playerStates t)) |>) t).
  by rewrite list_insert_insert_eq.
Qed.
(** A player who is not there has nothing. *)
Lemma player_at_there i t : player_at t i ≠ zero_PlayerState → is_Some (tk_playerStates t !! i).
Proof.
  change (player_at t i) with (default zero_PlayerState (tk_playerStates t !! i)).
  destruct (tk_playerStates t !! i); [eauto|done].
Qed.

(** A player who is reported already owes nothing. *)
Lemma changes_reported D n t t' id :
  id ∈ tk_players t' → changes (D ∪ {[id]}) n t t' → changes D n t t'.
Proof.
  intros Hid [? ? ? ? Hp ? ? ?]. split; try done.
  eapply Forall2_impl; [exact Hp|]. intros p p'. apply player_change_weaken. set_solver.
Qed.

(** The message of this tick that a player already has was told. *)
Definition told_at (i : nat) (t : tickState) : Prop :=
  afb_TickID (ps_LastActionFeedback (player_at t i)) = tk_now t → ps_ID (player_at t i) ∈ tk_players t.

Lemma messages_told_at i t : is_Some (tk_playerStates t !! i) → messages_told t → told_at i t.
Proof.
  intros [p Hi] Ht Htick. unfold player_at in *. rewrite <-(session_player_lookup i _ p) in * by done.
  apply Ht; [|done]. by eapply list_elem_of_lookup_2.
Qed.

Lemma told_at_changes i n t t' : changes ∅ n t t' → told_at i t → told_at i t'.
Proof.
  intros H Ht Htick. rewrite (changes_ID _ _ _ _ i H). rewrite (changes_now _ _ _ _ H) in Htick.
  pose proof (ch_told_players _ _ _ _ H) as Hsub.
  destruct (tk_playerStates t !! i) as [p|] eqn:Hi.
  - destruct (Forall2_lookup_l _ _ _ _ _ (ch_players _ _ _ _ H) Hi) as (p' & Hi' & [_ Hc]).
    unfold told_at, player_at in *. rewrite <-(session_player_lookup i _ p Hi) in *.
    rewrite <-(session_player_lookup i _ p' Hi') in Htick.
    destruct Hc as [Hc|Hv]; [set_solver|]. apply Hsub, Ht. by rewrite <-(player_view_feedback _ _ Hv).
  - apply Hsub, Ht. rewrite <-Htick.
    assert (tk_playerStates t' !! i = None) as Hi'.
    { apply lookup_ge_None. rewrite <-(Forall2_length _ _ _ (ch_players _ _ _ _ H)). by apply lookup_ge_None. }
    change (player_at t' i) with (default zero_PlayerState (tk_playerStates t' !! i)).
    change (player_at t i) with (default zero_PlayerState (tk_playerStates t !! i)).
    by rewrite Hi, Hi'.
Qed.

(** A message of a caller whose earlier changes are not reported yet: either the player is told
    now, or was told before. *)
Lemma owes_told i kind level message t t1 :
  kind ≠ "" → TrimSpace message ≠ "" → told_at i t →
  changes {[ps_ID (player_at t i)]} 0 t t1 →
  ps_LastActionFeedback (player_at t1 i) = ps_LastActionFeedback (player_at t i) →
  owes (ps_ID (player_at t i)) t (feedback i kind level message t1).
Proof.
  intros Hk Hm Ht Hc Hsame. destruct (feedback i kind level message t1).2 eqn:Hb.
  - unfold owes. rewrite Hb. eapply changes_step; [exact Hc|]. apply changes_feedback.
    rewrite (changes_ID _ _ _ _ i Hc). set_solver.
  - destruct (feedback_untold i kind level message t1 Hk Hm Hb) as [Heq Htick].
    unfold owes. rewrite Hb, Heq. apply (changes_reported _ _ _ _ (ps_ID (player_at t i)));
      [|by rewrite (left_id_L ∅ (∪))].
    apply (ch_told_players _ _ _ _ Hc), Ht. by rewrite <-Hsame, Htick, (changes_now _ _ _ _ Hc).
Qed.

(** The index of the players by identifier. *)
Definition index_ok (playerIndex : gmap PlayerID nat) (t : tickState) : Prop :=
  ∀ id i, playerIndex !! id = Some i → is_Some (tk_playerStates t !! i) ∧ ps_ID (player_at t i) = id.

Lemma index_ok_changes D n t t' playerIndex :
  changes D n t t' → index_ok playerIndex t → index_ok playerIndex t'.
Proof.
  intros H Hok id i Hi. destruct (Hok id i Hi) as [Hin Hid].
  split; [|by rewrite (changes_ID _ _ _ _ i H)].
  apply lookup_lt_is_Some in Hin. apply lookup_lt_is_Some.
  by rewrite <-(Forall2_length _ _ _ (ch_players _ _ _ _ H)).
Qed.

Lemma player_index_ok t : index_ok (player_index (tk_playerStates t)) t.
Proof.
  intros id i Hi. unfold player_index in Hi. apply elem_of_list_to_map_2 in Hi.
  rewrite elem_of_reverse in Hi. apply elem_of_lookup_imap in Hi as (j & p & Heq & Hp). simplify_eq.
  split; [eauto|]. apply session_player_lookup in Hp as Heq. unfold player_at. by rewrite <-Heq.
Qed.

(** What every handler needs of the state, and keeps. *)
Record ready (playerIndex : gmap PlayerID nat) (t : tickState) : Prop := {
  rd_sound : sound t;
  rd_index : index_ok playerIndex t;
  rd_told : messages_told t;
}.
Lemma ready_changes playerIndex n t t' : changes ∅ n t t' → ready playerIndex t → ready playerIndex t'.
Proof.
  intros H [H1 H2 H3]. split; [by eapply sound_changes|by eapply index_ok_changes|by eapply messages_told_changes].
Qed.
Lemma ready_told_at playerIndex t id i : ready playerIndex t → playerIndex !! id = Some i → told_at i t.
Proof. intros [_ Hi Ht] Hid. apply messages_told_at; [by eapply Hi|done]. Qed.

(** A loop whose steps need a ready state; each step makes at most [m] entities. *)
Lemma changes_fold_ready {A} playerIndex (m : Z) (f : tickState → A → tickState) (l : list A) t :
  0 <= m → (∀ t x, ready playerIndex t → changes ∅ m t (f t x)) →
  ready playerIndex t → changes ∅ (m * Z.of_nat (length l)) t (foldl f t l).
Proof.
  intros Hm Hf. revert t. induction l as [|x l IH]; intros t Ht; cbn [foldl length].
  { rewrite Z.mul_0_r. apply changes_refl. }
  replace (m * Z.of_nat (S (length l))) with (m + m * Z.of_nat (length l)) by lia.
  eapply changes_trans; [lia|lia|by apply Hf|]. apply IH. eapply ready_changes; [by apply Hf|done].
Qed.
