(* ===== verification/NightCards.v ===== *)
(** * The cards offered at night

    [internal/server/game/manager.go]: at every nightfall each living player with a free
    card slot is offered three different cards, drawn from the catalogue by a generator
    seeded with the match, the player and the cycle; the player keeps one.

    The loop that draws runs until it has three different cards.  That it ends is not
    obvious: nothing in the code bounds it.  It does end, for every seed, because the
    generator runs through all 64-bit numbers before it repeats one
    ([next_seed_full_cycle]).  The model's loop makes at most [2 ^ 64] draws, by halving, so
    it still evaluates. *)

From S2P Require Import Prelude Float32 Model GoStrings Hashing Layout Access Items Physics Cards Session Spawn Actions Changes.

#[local] Open Scope Z_scope.

(** ** Drawing *)

Definition fnv_multiplier : Z := 1099511628211.
Definition fnv_mask : Z := 1469598103934665603.

Definition next_seed (seed : Z) : Z := Z.lxor (u64 (seed * fnv_multiplier)) fnv_mask.

Definition draw_card (catalog : list CardType) (seed : Z) : CardType :=
  default "" (catalog !! Z.to_nat (seed mod Z.of_nat (length catalog))).

(** One round of the loop: the next seed, and the cards picked so far. *)
Definition draw_step (catalog : list CardType) (st : Z * list CardType) : Z * list CardType :=
  let '(seed, out) := st in
  let candidate := draw_card catalog seed in
  (next_seed seed, if bool_decide (candidate ∈ out) then out else out ++ [candidate]).

(** At most [2 ^ depth] rounds, until there are enough cards. *)
Fixpoint draw_loop (depth : nat) (catalog : list CardType) (choiceCount : nat)
    (st : Z * list CardType) : Z * list CardType :=
  if (choiceCount <=? length st.2)%nat then st
  else match depth with
  | O => draw_step catalog st
  | S depth => draw_loop depth catalog choiceCount (draw_loop depth catalog choiceCount st)
  end.

Definition night_seed (matchID : MatchID) (playerID : PlayerID) (cycle : Z) : Z :=
  fnv64a (string_bytes matchID ++ [0] ++ string_bytes playerID ++ [cycle]).

Definition deterministicNightCardChoices (matchID : MatchID) (playerID : PlayerID) (cycle : Z)
    (choiceCount : nat) : list CardType :=
  let catalog := KnownCards in
  let choiceCount := Nat.min choiceCount (length catalog) in
  sort_strings (draw_loop 64 catalog choiceCount (night_seed matchID playerID cycle, [])).2.

(** ** Offering, clearing, choosing *)

(** The offer to one player, and whether it changed. *)
Definition offer_night_cards (matchID : MatchID) (cycle : Z) (player : PlayerState) :
    PlayerState * bool :=
  let withdraw :=
    if ps_NightCardChoices player ≟ [] then (player, false)
    else (player <| ps_NightCardChoices := [] |>, true) in
  if negb (ps_Alive player) then withdraw
  else if MaxCardsHeld <=? Z.of_nat (length (ps_Cards player)) then withdraw
  else
    let next := deterministicNightCardChoices matchID (ps_ID player) cycle 3 in
    if ps_NightCardChoices player ≟ next then (player, false)
    else (player <| ps_NightCardChoices := next |>, true).

Definition clear_night_cards (player : PlayerState) : PlayerState * bool :=
  if ps_NightCardChoices player ≟ [] then (player, false)
  else (player <| ps_NightCardChoices := [] |>, true).

(** Runs over the players; the identifiers of those that changed, in their order. *)
Definition each_player (f : PlayerState → PlayerState * bool) (session : matchSession) :
    matchSession * list PlayerID :=
  (session <| ss_gameState ::= λ state, state <| gs_Players ::= map (λ p, (f p).1) |> |>,
   omap (λ p, if (f p).2 then Some (ps_ID p) else None) (gs_Players (ss_gameState session))).

Definition assignNightCardOffersForCycleLocked (session : matchSession) (cycle : Z) :
    matchSession * list PlayerID :=
  each_player (offer_night_cards (ss_matchID session) cycle) session.

Definition clearNightCardChoicesLocked (session : matchSession) : matchSession * list PlayerID :=
  each_player clear_night_cards session.

(** The player, whether a card was chosen, and the message. *)
Definition trySelectNightCardLocked (player : PlayerState) (choice : CardType) :
    PlayerState * bool * string :=
  if negb (IsKnownCard choice) then (player, false, "Night card selection failed.")
  else if ps_NightCardChoices player ≟ [] then
    (player, false, "No night card selection is pending.")
  else if negb (bool_decide (choice ∈ ps_NightCardChoices player)) then
    (player, false, "Selected card is not in your night options.")
  else if MaxCardsHeld <=? Z.of_nat (length (ps_Cards player)) then
    (player, false, "Card slots are full (" +:+ Itoa (Z.of_nat (length (ps_Cards player))) +:+ "/" +:+
      Itoa MaxCardsHeld +:+ ").")
  else match AddCard player choice with
  | None => (player, false, "Failed to add selected card.")
  | Some player =>
      (player <| ps_NightCardChoices := [] |>, true, "Night card selected: " +:+ choice +:+ ".")
  end.

(** ** The generator runs through every seed

    Modulo [2 ^ k] the next seed depends only on the seed modulo [2 ^ k], and bit [k] of
    the next seed is bit [k] of the seed, flipped by a carry that depends on the lower
    bits.  Over one cycle of the lower bits the carries add up to
    [Σ (x * multiplier / 2 ^ k)], which is odd because half of [multiplier - 1] is odd; so
    the cycle doubles with every bit. *)

Section full_cycle.
Variables p c : Z.
Hypothesis Hp : p mod 4 = 3.
Hypothesis Hp0 : 0 < p.
Hypothesis Hc : c mod 2 = 1.

Definition zsum (l : list Z) : Z := foldr Z.add 0 l.

Lemma zsum_perm l l' : l ≡ₚ l' → zsum l = zsum l'.
Proof. induction 1; simpl; lia. Qed.

Lemma zsum_map_add (f g : Z → Z) l : zsum (map f l) + zsum (map g l) = zsum (map (λ x, f x + g x) l).
Proof. induction l; simpl; lia. Qed.

Lemma zsum_const (a : Z) (l : list Z) : zsum (map (λ _, a) l) = a * Z.of_nat (length l).
Proof. induction l; simpl length; simpl; lia. Qed.

Lemma multiplier_coprime k : 0 <= k → Z.gcd p (2 ^ k) = 1.
Proof.
  intros Hk. apply Z.coprime_pow_r; [done|]. change (Z.gcd p 2 = 1).
  pose proof (Z.gcd_divide_l p 2) as [a Ha]. pose proof (Z.divide_pos_le (Z.gcd p 2) 2 ltac:(lia) (Z.gcd_divide_r p 2)).
  pose proof (Z.gcd_nonneg p 2). assert (Z.gcd p 2 ≠ 0) as Hz by (intros E%Z.gcd_eq_0_l; lia).
  assert (Z.gcd p 2 = 1 ∨ Z.gcd p 2 = 2) as [|E] by lia; [done|].
  rewrite E in Ha. pose proof (Z.div_mod p 4 ltac:(lia)). lia.
Qed.

Lemma carry_pair m x : 0 < x < m → Z.gcd p m = 1 → x * p / m + (m - x) * p / m = p - 1.
Proof.
  intros Hx Hg. assert ((x * p) mod m ≠ 0) as Hr.
  { intros H. apply Z.mod_divide in H; [|lia]. rewrite Z.mul_comm in H.
    apply Z.gauss in H; [|by rewrite Z.gcd_comm]. apply Z.divide_pos_le in H; lia. }
  pose proof (Z.div_mod (x * p) m ltac:(lia)) as E. pose proof (Z.mod_pos_bound (x * p) m ltac:(lia)).
  assert ((m - x) * p / m = p - 1 - x * p / m) as ->; [|lia].
  symmetry. apply (Z.div_unique _ _ _ (m - (x * p) mod m)); [lia|]. nia.
Qed.

Lemma carry_total m : 0 < m → Z.gcd p m = 1 →
  2 * zsum (map (λ x, x * p / m) (seqZ 0 m)) = (m - 1) * (p - 1).
Proof.
  intros Hm Hg. rewrite seqZ_cons by lia. rewrite map_cons, Z.mul_0_l, Z.div_0_l by lia.
  change (Z.succ 0) with 1.
  change (zsum (0 :: ?l)) with (0 + zsum l).
  assert (map (λ x, m - x) (seqZ 1 (Z.pred m)) ≡ₚ seqZ 1 (Z.pred m)) as Hperm.
  { apply NoDup_Permutation.
    - apply (NoDup_fmap_2_strong (λ x, m - x)); [intros; lia|apply NoDup_seqZ].
    - apply NoDup_seqZ.
    - intros x. change (map ?f ?l) with (f <$> l). rewrite list_elem_of_fmap.
      setoid_rewrite elem_of_seqZ. split.
      + intros (y & -> & Hy). lia.
      + intros Hx. exists (m - x). lia. }
  assert (zsum (map (λ x, (m - x) * p / m) (seqZ 1 (Z.pred m))) =
    zsum (map (λ x, x * p / m) (seqZ 1 (Z.pred m)))) as Hrev.
  { rewrite <-(zsum_perm _ _ (Permutation_map (λ x, x * p / m) Hperm)). by rewrite map_map. }
  assert (zsum (map (λ x, x * p / m) (seqZ 1 (Z.pred m))) +
    zsum (map (λ x, (m - x) * p / m) (seqZ 1 (Z.pred m))) = (m - 1) * (p - 1)); [|lia].
  rewrite zsum_map_add. transitivity (zsum (map (λ _, p - 1) (seqZ 1 (Z.pred m)))).
  - f_equal. apply map_ext_in. intros x Hx%list_elem_of_In%elem_of_seqZ. apply carry_pair; [lia|done].
  - rewrite zsum_const, length_seqZ, Z2Nat.id by lia. lia.
Qed.

(** The carries of one cycle of the lower bits, with the bit of the mask, add up to an odd
    number. *)
Lemma carries_odd k : 0 <= k →
  zsum (map (λ x, x * p / 2 ^ k + c / 2 ^ k) (seqZ 0 (2 ^ k))) mod 2 = 1.
Proof.
  intros Hk. rewrite <-zsum_map_add, zsum_const, length_seqZ.
  pose proof (carry_total (2 ^ k) ltac:(lia) (multiplier_coprime k Hk)) as Ht.
  pose proof (Z.div_mod p 4 ltac:(lia)) as Ep. rewrite Hp in Ep.
  destruct (decide (k = 0)) as [->|Hne].
  - change (2 ^ 0) with 1 in *. rewrite Z.div_1_r. change (Z.of_nat (Z.to_nat 1)) with 1.
    rewrite Z.mul_1_r. assert (zsum (map (λ x, x * p / 1) (seqZ 0 1)) = 0) as -> by reflexivity. by rewrite Z.add_0_l.
  - assert (2 ^ k = 2 * 2 ^ (k - 1)) as E.
    { rewrite <-Z.pow_succ_r by lia. f_equal. lia. }
    rewrite Z2Nat.id by lia. rewrite E at 3. set (S := zsum _) in *.
    pose proof (Z.pow_pos_nonneg 2 (k - 1) ltac:(lia) ltac:(lia)).
    assert (S = (2 * 2 ^ (k - 1) - 1) * (2 * (p / 4) + 1)) as -> by (rewrite E in Ht; lia).
    rewrite (Z.mod_eq _ 2) by lia.
    set (a := 2 ^ (k - 1)). set (b := p / 4). set (d := c / (2 ^ k)).
    assert (((2 * a - 1) * (2 * b + 1) + d * (2 * a)) = 1 + (a * (2 * b + 1) - b - 1 + d * a) * 2) as -> by lia.
    rewrite Z.div_add by lia. change (1 / 2) with 0. lia.
Qed.

Hypothesis Hc64 : is_u64 c.

Definition next_of (x : Z) : Z := Z.lxor (u64 (x * p)) c.

Lemma lxor_mod a b k : 0 <= k → Z.lxor a b mod 2 ^ k = Z.lxor (a mod 2 ^ k) (b mod 2 ^ k).
Proof.
  intros Hk. apply Z.bits_inj'. intros n Hn.
  rewrite Z.lxor_spec, !Z.testbit_mod_pow2, Z.lxor_spec by done. by destruct (n <? k).
Qed.

Lemma u64_mod_pow2 a k : 0 <= k <= 64 → u64 a mod 2 ^ k = a mod 2 ^ k.
Proof.
  intros Hk. apply Z.bits_inj'. intros n Hn. unfold u64. rewrite !Z.testbit_mod_pow2 by lia.
  destruct (n <? k) eqn:Hlt; [|done]. apply Z.ltb_lt in Hlt.
  assert ((n <? 64) = true) as -> by (apply Z.ltb_lt; lia). done.
Qed.

Lemma next_of_mod x k : 0 <= k <= 64 → next_of x mod 2 ^ k = Z.lxor ((x mod 2 ^ k * p) mod 2 ^ k) (c mod 2 ^ k).
Proof.
  intros Hk. unfold next_of. rewrite lxor_mod, u64_mod_pow2 by lia.
  by rewrite Z.mul_mod_idemp_l by lia.
Qed.

Lemma next_of_range x : is_u64 (next_of x).
Proof.
  pose proof (u64_mod_pow2 (x * p) 64 ltac:(lia)). unfold is_u64 in *.
  assert (next_of x mod 2 ^ 64 = next_of x) as <-; [|apply Z.mod_pos_bound; lia].
  unfold next_of. rewrite lxor_mod by lia. f_equal; [|by apply Z.mod_small].
  apply Z.mod_small, u64_range.
Qed.

Lemma next_of_bit x k : 0 <= k < 64 →
  (next_of x / 2 ^ k) mod 2 = (x / 2 ^ k + (x mod 2 ^ k * p / 2 ^ k + c / 2 ^ k)) mod 2.
Proof.
  intros Hk. rewrite <-Z.testbit_spec' by lia. unfold next_of. rewrite Z.lxor_spec.
  assert (Z.testbit (u64 (x * p)) k = Z.testbit (x * p) k) as ->.
  { unfold u64. rewrite Z.testbit_mod_pow2 by lia. assert ((k <? 64) = true) as -> by (apply Z.ltb_lt; lia). done. }
  assert (∀ a b, Z.b2z (xorb a b) = (Z.b2z a + Z.b2z b) mod 2) as -> by (by intros [] []).
  rewrite !Z.testbit_spec' by lia. rewrite <-Z.add_mod by lia. rewrite Z.add_assoc.
  rewrite <-(Z.add_mod_idemp_l (_ + _)) by lia. rewrite <-(Z.add_mod_idemp_l (x * p / _)) by lia.
  f_equal. f_equal. pose proof (Z.div_mod x (2 ^ k) ltac:(lia)) as E.
  assert (x * p / 2 ^ k = x / 2 ^ k * p + x mod 2 ^ k * p / 2 ^ k) as ->.
  { rewrite E at 1. rewrite Z.mul_add_distr_r.
    replace (2 ^ k * (x / 2 ^ k) * p) with (x / 2 ^ k * p * 2 ^ k) by lia. by rewrite Z.div_add_l by lia. }
  pose proof (Z.div_mod p 4 ltac:(lia)) as Ep. rewrite Hp in Ep.
  set (q := x / 2 ^ k). set (r := x mod 2 ^ k * p / 2 ^ k).
  replace (q * p + r) with (q + r + q * (2 * (p / 4) + 1) * 2) by lia. apply Z.mod_add. lia.
Qed.

Lemma iter_low n x y k : 0 <= k <= 64 → x mod 2 ^ k = y mod 2 ^ k →
  Nat.iter n next_of x mod 2 ^ k = Nat.iter n next_of y mod 2 ^ k.
Proof.
  intros Hk E. induction n as [|n IH]; simpl; [done|]. by rewrite !next_of_mod, IH by done.
Qed.

Definition carries (k : Z) (x : Z) (n : nat) : list Z := map (λ i, Nat.iter i next_of x mod 2 ^ k) (seq 0 n).

Lemma iter_bit n x k : 0 <= k < 64 →
  (Nat.iter n next_of x / 2 ^ k) mod 2 =
  (x / 2 ^ k + zsum (map (λ r, r * p / 2 ^ k + c / 2 ^ k) (carries k x n))) mod 2.
Proof.
  intros Hk. unfold carries. induction n as [|n IH]; [by rewrite Z.add_0_r|].
  rewrite seq_S, !map_app. simpl. rewrite next_of_bit by done.
  rewrite <-Z.add_mod_idemp_l, IH, Z.add_mod_idemp_l by lia. f_equal.
  assert (∀ l a, zsum (l ++ [a]) = zsum l + a) as -> by (induction l as [|b l IHl]; intros a; simpl; [|rewrite IHl]; lia).
  lia.
Qed.

Definition cycles (k : nat) : Prop := ∀ x,
  Nat.iter (2 ^ k) next_of x mod 2 ^ Z.of_nat k = x mod 2 ^ Z.of_nat k ∧
  ∀ y, ∃ i, (i < 2 ^ k)%nat ∧ Nat.iter i next_of x mod 2 ^ Z.of_nat k = y mod 2 ^ Z.of_nat k.

Lemma cycles_flip k x : (k < 64)%nat → cycles k →
  (Nat.iter (2 ^ k) next_of x / 2 ^ Z.of_nat k) mod 2 = (x / 2 ^ Z.of_nat k + 1) mod 2.
Proof.
  intros Hk Hcyc. rewrite iter_bit by lia.
  assert (carries (Z.of_nat k) x (2 ^ k) ≡ₚ seqZ 0 (2 ^ Z.of_nat k)) as Hperm.
  { symmetry. apply submseteq_length_Permutation.
    - apply NoDup_submseteq; [apply NoDup_seqZ|]. intros y Hy%elem_of_seqZ.
      destruct (Hcyc x) as [_ Hall]. destruct (Hall y) as (i & Hi & Hiy).
      unfold carries. change (map ?f ?l) with (f <$> l). apply list_elem_of_fmap. exists i.
      split; [|apply elem_of_seq; lia]. rewrite Hiy. symmetry. apply Z.mod_small. lia.
    - unfold carries. rewrite length_map, length_seq, length_seqZ.
      assert (Z.of_nat (2 ^ k) = 2 ^ Z.of_nat k) by by rewrite Nat2Z.inj_pow. lia. }
  rewrite (zsum_perm _ _ (Permutation_map _ Hperm)).
  rewrite <-Z.add_mod_idemp_r by lia. by rewrite carries_odd by lia.
Qed.

Lemma mod_pow2_succ a k : a mod 2 ^ Z.of_nat (S k) = a mod 2 ^ Z.of_nat k + 2 ^ Z.of_nat k * ((a / 2 ^ Z.of_nat k) mod 2).
Proof.
  rewrite Nat2Z.inj_succ, Z.pow_succ_r, Z.mul_comm by lia. apply Z.rem_mul_r; lia.
Qed.

Lemma iter_plus m n x : Nat.iter (m + n) next_of x = Nat.iter m next_of (Nat.iter n next_of x).
Proof. apply Nat.iter_add. Qed.

Lemma other_bit a b : a mod 2 ≠ b mod 2 → (a mod 2 + 1) mod 2 = b mod 2.
Proof.
  pose proof (Z.mod_pos_bound a 2 ltac:(lia)). pose proof (Z.mod_pos_bound b 2 ltac:(lia)). intros Hne.
  assert (a mod 2 = 0 ∨ a mod 2 = 1) as [E|E] by lia; rewrite E in *;
    [change ((0 + 1) mod 2) with 1|change ((1 + 1) mod 2) with 0]; lia.
Qed.

Lemma cycles_all k : (k <= 64)%nat → cycles k.
Proof.
  induction k as [|k IH]; intros Hk x.
  { change (2 ^ Z.of_nat 0) with 1. rewrite !Z.mod_1_r. split; [done|]. intros y. exists O.
    rewrite !Z.mod_1_r. simpl. lia. }
  specialize (IH ltac:(lia)). assert (2 ^ S k = 2 ^ k + 2 ^ k)%nat as E2 by (simpl; lia).
  pose proof (cycles_flip k x ltac:(lia) IH) as Hflip. destruct (IH x) as [Hlow Hall].
  rewrite E2. split.
  - rewrite iter_plus, !mod_pow2_succ. rewrite (cycles_flip k _ ltac:(lia) IH).
    destruct (IH (Nat.iter (2 ^ k) next_of x)) as [-> _]. rewrite Hlow.
    rewrite <-Z.add_mod_idemp_l, Hflip, Z.add_mod_idemp_l by lia.
    replace (x / 2 ^ Z.of_nat k + 1 + 1) with (x / 2 ^ Z.of_nat k + 1 * 2) by lia. by rewrite Z.mod_add by lia.
  - intros y. destruct (Hall y) as (i & Hi & Hiy).
    destruct (decide ((Nat.iter i next_of x / 2 ^ Z.of_nat k) mod 2 = (y / 2 ^ Z.of_nat k) mod 2)) as [Hb|Hb].
    + exists i. split; [lia|]. by rewrite !mod_pow2_succ, Hiy, Hb.
    + exists (i + 2 ^ k)%nat. split; [lia|]. rewrite Nat.add_comm, iter_plus, !mod_pow2_succ.
      destruct (IH (Nat.iter i next_of x)) as [-> _]. rewrite Hiy, (cycles_flip k _ ltac:(lia) IH).
      f_equal. f_equal. rewrite <-Z.add_mod_idemp_l by lia. by apply other_bit.
Qed.

Lemma next_of_full_cycle x y : is_u64 x → is_u64 y → ∃ i, (i < 2 ^ 64)%nat ∧ Nat.iter i next_of x = y.
Proof.
  intros Hx Hy. destruct (cycles_all 64 ltac:(lia) x) as [_ Hall]. destruct (Hall y) as (i & Hi & E).
  exists i. split; [done|]. assert (is_u64 (Nat.iter i next_of x)) as Hr.
  { destruct i; [done|]. apply next_of_range. }
  rewrite !Z.mod_small in E by (unfold is_u64 in *; change (Z.of_nat 64) with 64; lia). done.
Qed.

End full_cycle.

(** Every seed comes up within [2 ^ 64] draws, whatever the first one is. *)
Lemma next_seed_full_cycle x y : is_u64 x → is_u64 y → ∃ i, (i < 2 ^ 64)%nat ∧ Nat.iter i next_seed x = y.
Proof.
  apply (next_of_full_cycle fnv_multiplier fnv_mask); [reflexivity..|]. unfold is_u64, fnv_mask. lia.
Qed.

(** ** The loop *)

Section drawing.
Variable catalog : list CardType.
Hypothesis Hnodup : NoDup catalog.
Hypothesis Hsize : 0 < Z.of_nat (length catalog) < 2 ^ 64.

Definition drawn (seed : Z) (i : nat) : Z * list CardType := Nat.iter i (draw_step catalog) (seed, []).

Lemma draw_card_in seed : draw_card catalog seed ∈ catalog.
Proof.
  unfold draw_card. pose proof (Z.mod_pos_bound seed (Z.of_nat (length catalog)) ltac:(lia)).
  destruct (lookup_lt_is_Some_2 catalog (Z.to_nat (seed mod Z.of_nat (length catalog)))) as [card Hcard]; [lia|].
  rewrite Hcard. by apply list_elem_of_lookup_2 in Hcard.
Qed.

Lemma draw_card_small j card : catalog !! j = Some card → draw_card catalog (Z.of_nat j) = card.
Proof.
  intros Hj. pose proof (lookup_lt_Some _ _ _ Hj). unfold draw_card.
  by rewrite Z.mod_small, Nat2Z.id, Hj by lia.
Qed.

Lemma draw_step_facts st :
  let st' := draw_step catalog st in
  st'.1 = next_seed st.1 ∧ st.2 ⊆ st'.2 ∧ draw_card catalog st.1 ∈ st'.2 ∧
  (length st'.2 <= S (length st.2))%nat ∧
  (NoDup st.2 ∧ st.2 ⊆ catalog → NoDup st'.2 ∧ st'.2 ⊆ catalog).
Proof.
  destruct st as [seed out]. simpl. pose proof (draw_card_in seed) as Hin.
  case_bool_decide as Hd; split_and!; try done; [lia|set_solver|set_solver|rewrite length_app; simpl; lia|].
  intros [Hnd Hsub]. split; [|set_solver]. apply NoDup_app. split_and!; [done| |apply NoDup_singleton].
  intros x Hx ->%list_elem_of_singleton. done.
Qed.

Lemma drawn_facts seed i :
  (drawn seed i).1 = Nat.iter i next_seed seed ∧ NoDup (drawn seed i).2 ∧ (drawn seed i).2 ⊆ catalog ∧
  ∀ j, (j < i)%nat → draw_card catalog (Nat.iter j next_seed seed) ∈ (drawn seed i).2.
Proof.
  unfold drawn. induction i as [|i (IH1 & IH2 & IH3 & IH4)]; simpl.
  { split_and!; [done|constructor|set_solver|lia]. }
  destruct (draw_step_facts (Nat.iter i (draw_step catalog) (seed, []))) as (E1 & E2 & E3 & _ & E5).
  destruct (E5 (conj IH2 IH3)) as [E6 E7]. split_and!; [by rewrite E1, IH1|done|done|].
  intros j Hj. destruct (decide (j = i)) as [->|Hne]; [by rewrite <-IH1|]. apply E2, IH4. lia.
Qed.

Lemma draw_loop_iter depth n st :
  ∃ i, draw_loop depth catalog n st = Nat.iter i (draw_step catalog) st ∧
    ((n <= length (draw_loop depth catalog n st).2)%nat ∨ i = (2 ^ depth)%nat).
Proof.
  revert st. induction depth as [|depth IH]; intros st.
  - simpl. destruct (n <=? length st.2)%nat eqn:Hn; [exists O|exists 1%nat; auto].
    split; [done|left; by apply Nat.leb_le].
  - cbn [draw_loop]. destruct (n <=? length st.2)%nat eqn:Hn.
    { exists O. split; [done|left; by apply Nat.leb_le]. }
    destruct (IH st) as (i & Ei & Hi). set (st1 := draw_loop depth catalog n st) in *.
    destruct (IH st1) as (j & Ej & Hj). exists (j + i)%nat. rewrite Ej. split.
    { by rewrite Ei, Nat.iter_add. }
    rewrite <-Ej. destruct Hj as [Hj|Hj]; [by left|]. destruct Hi as [Hi|Hi].
    + left. assert (draw_loop depth catalog n st1 = st1) as ->; [|done].
      apply Nat.leb_le in Hi. destruct depth; simpl; by rewrite Hi.
    + right. simpl. lia.
Qed.

Lemma draw_loop_bound depth n st :
  (length st.2 <= n)%nat → (length (draw_loop depth catalog n st).2 <= n)%nat.
Proof.
  revert st. induction depth as [|depth IH]; intros st Hst; simpl;
    (destruct (n <=? length st.2)%nat eqn:Hn; [done|apply Nat.leb_gt in Hn]).
  - destruct (draw_step_facts st) as (_ & _ & _ & Hlen & _). lia.
  - by apply IH, IH.
Qed.

Lemma draw_loop_complete seed n : is_u64 seed → (n <= length catalog)%nat →
  let out := (draw_loop 64 catalog n (seed, [])).2 in
  length out = n ∧ NoDup out ∧ out ⊆ catalog.
Proof.
  intros Hseed Hn. cbv zeta. destruct (draw_loop_iter 64 n (seed, [])) as (i & Ei & Hi).
  pose proof (draw_loop_bound 64 n (seed, []) ltac:(simpl; lia)) as Hle.
  revert Ei Hi Hle. generalize (draw_loop 64 catalog n (seed, [])). intros st -> Hi Hle.
  destruct (drawn_facts seed i) as (_ & Hnd & Hsub & Hall). unfold drawn in *.
  split_and!; [|done|done]. destruct Hi as [Hi|Hi]; [lia|].
  assert (length catalog <= length (Nat.iter i (draw_step catalog) (seed, [])).2)%nat; [|lia].
  apply submseteq_length, NoDup_submseteq; [done|]. intros card Hcard.
  apply list_elem_of_lookup_1 in Hcard as [j Hj]. pose proof (lookup_lt_Some _ _ _ Hj).
  destruct (next_seed_full_cycle seed (Z.of_nat j)) as (m & Hm & Em); [done|unfold is_u64; lia|].
  rewrite <-(draw_card_small j card Hj), <-Em. apply Hall. by rewrite Hi.
Qed.
End drawing.

#[global] Arguments deterministicNightCardChoices : simpl never.
#[global] Arguments draw_loop : simpl never.

(** Drawing the night cards always ends: whatever the match, the player and the cycle,
    and however many cards are asked for, the loop finds that many different cards (or
    the whole catalogue, if it is smaller), all of them known, and gives them in order. *)
Theorem deterministicNightCardChoices_spec matchID playerID cycle choiceCount :
  let choices := deterministicNightCardChoices matchID playerID cycle choiceCount in
  length choices = Nat.min choiceCount 11 ∧ NoDup choices ∧
  (∀ card, card ∈ choices → IsKnownCard card = true) ∧ StronglySorted String.le choices.
Proof.
  cbv zeta. unfold deterministicNightCardChoices.
  destruct (draw_loop_complete KnownCards ltac:(apply (bool_decide_unpack _); by vm_compute) ltac:(simpl; lia)
    (night_seed matchID playerID cycle) (Nat.min choiceCount (length KnownCards))) as (Hlen & Hnd & Hsub);
    [apply fnv64a_range|lia|].
  set (out := (draw_loop _ _ _ _).2) in *. clearbody out. split_and!.
  - by rewrite (Permutation_length (sort_by_perm _ _ _)).
  - by rewrite sort_by_perm.
  - intros card Hc. apply elem_of_sort_by, Hsub in Hc. unfold IsKnownCard. by apply bool_decide_true.
  - apply (sort_by_sorted String.le id).
Qed.

#[global] Opaque deterministicNightCardChoices.

(** At nightfall every living player with a free card slot holds an offer of three
    different cards drawn for the cycle, and nobody else holds one; a player takes a card exactly
    when it is in the offer and a slot is free, gets that card and nothing else, and the
    offer is gone; at daybreak no offer is left. *)
Theorem night_card_offers session cycle choice player :
  (∀ p, p ∈ gs_Players (ss_gameState (assignNightCardOffersForCycleLocked session cycle).1) →
    ps_NightCardChoices p =
      if ps_Alive p && (Z.of_nat (length (ps_Cards p)) <? MaxCardsHeld) then
        deterministicNightCardChoices (ss_matchID session) (ps_ID p) cycle 3
      else []) ∧
  (∀ p, p ∈ gs_Players (ss_gameState (clearNightCardChoicesLocked session).1) → ps_NightCardChoices p = []) ∧
  let '(player', taken, _) := trySelectNightCardLocked player choice in
  (taken = true ↔ IsKnownCard choice = true ∧ choice ∈ ps_NightCardChoices player ∧
    Z.of_nat (length (ps_Cards player)) < MaxCardsHeld) ∧
  (if taken then
     ps_Cards player' ≡ₚ choice :: ps_Cards player ∧ ps_NightCardChoices player' = [] ∧
     player' = player <| ps_Cards := ps_Cards player' |> <| ps_NightCardChoices := [] |>
   else player' = player).
Proof.
  split_and!.
  - intros p Hp. apply list_elem_of_fmap in Hp as (q & -> & _). unfold offer_night_cards.
    destruct (ps_Alive q) eqn:Ha; cbn [negb].
    2: { case_bool_decide as Hc; simpl; rewrite Ha; done. }
    destruct (MaxCardsHeld <=? _) eqn:Hm; bool_props.
    { assert ((Z.of_nat (length (ps_Cards q)) <? MaxCardsHeld) = false) as Hf by (apply Z.ltb_ge; lia).
      case_bool_decide as Hc; simpl; rewrite Ha, Hf; done. }
    assert ((Z.of_nat (length (ps_Cards q)) <? MaxCardsHeld) = true) as Hf by (apply Z.ltb_lt; lia).
    case_bool_decide as Hc; simpl; rewrite Ha, Hf; done.
  - intros p Hp. apply list_elem_of_fmap in Hp as (q & -> & _). unfold clear_night_cards.
    by case_bool_decide.
  - unfold trySelectNightCardLocked, AddCard.
    destruct (IsKnownCard choice) eqn:Hk; cbn [negb]; [|split; [split; [done|by intros [? _]]|done]].
    case_bool_decide as Hc.
    { split; [|done]. split; [done|]. rewrite Hc. intros (_ & []%not_elem_of_nil & _). }
    case_bool_decide as Hin; cbn [negb]; [|split; [split; [done|tauto]|done]].
    destruct (MaxCardsHeld <=? _) eqn:Hm; bool_props; (split; [split|]; try done); [lia|].
    split_and!; [|done|by destruct player]. simpl. rewrite (sort_by_perm _ _ _).
    by rewrite Permutation_app_comm.
Qed.

(** ** What they change and report *)

Lemma select_tells {now} p choice : tells now p (trySelectNightCardLocked p choice).1.
Proof.
  unfold trySelectNightCardLocked. repeat (case_match; [apply tells_same|]).
  destruct (AddCard p choice) as [q|] eqn:Ha; [|apply tells_same]. apply tells_steady.
  eapply steady_trans; [by eapply AddCard_steady|]. by apply same_vitals_steady.
Qed.
Lemma offer_tells {now} matchID cycle p : tells now p (offer_night_cards matchID cycle p).
Proof.
  unfold offer_night_cards. cbv zeta. repeat case_match; try apply tells_same; by apply tells_vitals.
Qed.
Lemma clear_tells {now} p : tells now p (clear_night_cards p).
Proof. unfold clear_night_cards. case_match; [apply tells_same|by apply tells_vitals]. Qed.
