(* ===== verification/Economy.v ===== *)
(** * Stashes, tasks, deals and the market

    [internal/server/game/manager.go]: what prisoners do for things.  A cell owner keeps
    items in the cell's stash; a bribable prisoner hands out a task a day, rewarded with a
    money card, and at night sells an item for money cards; the leader of the gang chooses the
    room of the nightly black market, where prisoners buy. *)

From S2P Require Import Prelude Float32 Model GoStrings Hashing Layout Access Items Physics Cards Session Spawn Actions Changes.

#[local] Open Scope Z_scope.

(** ** The stash of a cell *)

Definition set_cell (i : nat) (cell : CellState) (session : matchSession) : matchSession :=
  session <| ss_gameState ::= λ state, state <| gs_Map ::= λ m, m <| ms_Cells ::= <[i := cell]> |> |> |>.

(** [model.PlayerState{Inventory: ...}]: a carrier for the stack functions. *)
Definition stash_carrier (cell : CellState) : PlayerState :=
  zero_PlayerState <| ps_Inventory := cs_Stash cell |>.

Definition deposit (session : matchSession) (cellIndex playerIndex : nat) (cell : CellState)
    (item : ItemType) (amount : Z) : matchSession * bool * string * CellID :=
  match RemoveItem (session_player playerIndex session) item amount with
  | None => (session, false, "Not enough " +:+ item +:+ " to stash.", 0)
  | Some livePlayer =>
      match AddItem (stash_carrier cell) item amount with
      | None =>
          let livePlayer := default livePlayer (AddItem livePlayer item amount) in
          (set_player playerIndex livePlayer session, false, "Cell stash is full.", 0)
      | Some carrier =>
          let session := set_cell cellIndex (cell <| cs_Stash := ps_Inventory carrier |>) session in
          let '(livePlayer, _) := ensureEquippedItemForPlayerLocked livePlayer in
          (set_player playerIndex livePlayer session, true,
           "Stashed " +:+ item +:+ " x" +:+ Itoa amount +:+ ".", cs_ID cell)
      end
  end.

Definition withdraw (session : matchSession) (cellIndex playerIndex : nat) (cell : CellState)
    (item : ItemType) (amount : Z) : matchSession * bool * string * CellID :=
  match RemoveItem (stash_carrier cell) item amount with
  | None => (session, false, "No " +:+ item +:+ " in cell stash.", 0)
  | Some carrier =>
      match AddItem (session_player playerIndex session) item amount with
      | None => (session, false, "Inventory full; cannot withdraw.", 0)
      | Some livePlayer =>
          let session := set_cell cellIndex (cell <| cs_Stash := ps_Inventory carrier |>) session in
          let '(livePlayer, _) := ensureEquippedItemForPlayerLocked livePlayer in
          (set_player playerIndex livePlayer session, true,
           "Withdrew " +:+ item +:+ " x" +:+ Itoa amount +:+ ".", cs_ID cell)
      end
  end.

(** The session, whether it applied, the message and the changed cell; the level is
    success when it applied and warning otherwise. *)
Definition applyCellStashInteractLocked (session : matchSession) (player : PlayerState)
    (payload : InteractPayload) : matchSession * bool * string * CellID :=
  let deny message := (session, false, message, 0) in
  let action := ToLower (TrimSpace (ip_StashAction payload)) in
  if (action ≠? "deposit") && (action ≠? "withdraw") then deny "Unknown stash action."
  else if ip_StashItem payload ≟ "" then deny "Select an item for stash action."
  else if ps_AssignedCell player ≟ 0 then deny "No assigned cell stash."
  else if ps_CurrentRoomID player ≠? RoomCellBlockA then deny "Go to your cell block to use stash."
  else
    let cells := ms_Cells (gs_Map (ss_gameState session)) in
    match find_idx (λ cell, cs_ID cell ≟ ps_AssignedCell player) cells with
    | None => deny "Assigned cell was not found."
    | Some cellIndex =>
        let cell := default zero_CellState (cells !! cellIndex) in
        if cs_OwnerPlayerID cell ≠? ps_ID player then deny "Only the cell owner can use this stash."
        else match find_player (gs_Players (ss_gameState session)) (ps_ID player) with
        | None => deny "Player state unavailable."
        | Some playerIndex =>
            let amount := if ip_StashAmount payload ≟ 0 then 1 else ip_StashAmount payload in
            if action ≟ "deposit" then deposit session cellIndex playerIndex cell (ip_StashItem payload) amount
            else withdraw session cellIndex playerIndex cell (ip_StashItem payload) amount
        end
    end.

(** ** Tasks of the day *)

Definition task_items : list ItemType := [ItemWood; ItemMetalSlab; ItemLockPick].

Definition le_bytes32 (n : Z) : list Z :=
  [n mod 256; Z.shiftr n 8 mod 256; Z.shiftr n 16 mod 256; Z.shiftr n 24 mod 256].

Definition deterministicNPCTaskForDay (matchID : MatchID) (playerID : PlayerID) (dayStartTick : Z)
    (entityID : EntityID) : npcTaskState :=
  let visitRooms := if npcPrisonerTaskVisitRooms ≟ [] then [RoomCorridorMain] else npcPrisonerTaskVisitRooms in
  let seed := fnv64a (string_bytes matchID ++ [0] ++ string_bytes playerID ++ le_bytes64 dayStartTick ++
                      le_bytes32 entityID) in
  if seed mod 10 <? 7 then
    mkTask 0 npcTaskVisitRoom (default "" (visitRooms !! Z.to_nat (seed mod Z.of_nat (length visitRooms)))) "" 1 0
  else
    mkTask 0 npcTaskHoldItem "" (default "" (task_items !! Z.to_nat (seed mod Z.of_nat (length task_items)))) 1 0.

Definition npcTaskDescription (task : npcTaskState) : string :=
  if nt_Type task ≟ npcTaskVisitRoom then
    if nt_TargetRoomID task ≟ "" then "Visit the requested location."
    else "Go to " +:+ roomLabelForFeedback (nt_TargetRoomID task) +:+
           ", then interact with an NPC prisoner for reward."
  else if nt_Type task ≟ npcTaskHoldItem then
    if nt_TargetItem task ≟ "" then "Bring a requested item."
    else "Bring " +:+ nt_TargetItem task +:+ " in inventory, then interact with an NPC prisoner."
  else "No active task.".

Definition npcTaskProgress (task : npcTaskState) (player : PlayerState) : string :=
  if nt_Type task ≟ npcTaskVisitRoom then
    if nt_TargetRoomID task ≟ "" then "Visit the assigned room."
    else if ps_CurrentRoomID player ≟ nt_TargetRoomID task then "Return to an NPC prisoner to claim reward."
    else "Go to " +:+ roomLabelForFeedback (nt_TargetRoomID task) +:+ "."
  else if nt_Type task ≟ npcTaskHoldItem then
    if nt_TargetItem task ≟ "" then "Hold the requested item."
    else if HasItem player (nt_TargetItem task) 1 then "Return to an NPC prisoner to claim reward."
    else "Carry " +:+ nt_TargetItem task +:+ " x1 in inventory."
  else "No active task.".

Definition isNPCTaskComplete (task : npcTaskState) (player : PlayerState) : bool :=
  if nt_Type task ≟ npcTaskVisitRoom then
    (nt_TargetRoomID task ≠? "") && (ps_CurrentRoomID player ≟ nt_TargetRoomID task)
  else if nt_Type task ≟ npcTaskHoldItem then
    (nt_TargetItem task ≠? "") && HasItem player (nt_TargetItem task) 1
  else false.

(** Hands out money cards while there is room: at most [n] of them, and how many. *)
Fixpoint reward_cards (n : nat) (player : PlayerState) : PlayerState * Z :=
  match n with
  | O => (player, 0)
  | S n =>
      match AddCard player CardMoney with
      | None => (player, 0)
      | Some player => let '(player, added) := reward_cards n player in (player, added + 1)
      end
  end.

Definition set_task (playerID : PlayerID) (task : npcTaskState) (session : matchSession) : matchSession :=
  session <| ss_npcTaskByPlayer ::= <[playerID := task]> |>.

(** [None] when the entity is no task giver for the player; otherwise the session, whether the
    player changed, and the message with its level. *)
Definition tryHandleNPCPrisonerTaskInteractLocked (session : matchSession) (i : nat) (entityID : EntityID) :
    option (matchSession * bool * string * ActionFeedbackLevel) :=
  let player := session_player i session in
  let state := ss_gameState session in
  if entityID ≟ 0 then None
  else if negb (ps_Alive player) || negb (IsPrisonerPlayer player) then None
  else
    entityIndex ← findEntityIndexByID (gs_Entities state) entityID;
    let entity := default zero_EntityState (gs_Entities state !! entityIndex) in
    if negb (es_Active entity) || (es_Kind entity ≠? EntityKindNPCPrisoner) then None
    else if (es_RoomID entity ≟ "") || (ps_CurrentRoomID player ≟ "") ||
            (es_RoomID entity ≠? ps_CurrentRoomID player) then None
    else if ph_Current (gs_Phase state) ≠? PhaseDay then
      Some (session, false, "NPC tasks can only be managed during day phase.", ActionFeedbackLevelWarning)
    else
      let dayStart := ph_StartedTick (gs_Phase state) in
      if dayStart ≟ 0 then
        Some (session, false, "Task board unavailable until day starts.", ActionFeedbackLevelWarning)
      else
        let known := ss_npcTaskByPlayer session !! ps_ID player in
        let task := default (mkTask 0 "" "" "" 0 0) known in
        if negb (bool_decide (is_Some known)) || (nt_DayStartTick task ≠? dayStart) then
          let task := deterministicNPCTaskForDay (ss_matchID session) (ps_ID player) dayStart (es_ID entity) in
          let task := task <| nt_DayStartTick := dayStart |> <| nt_AssignedBy := es_ID entity |> in
          let task := if nt_RewardCards task ≟ 0 then task <| nt_RewardCards := 1 |> else task in
          Some (set_task (ps_ID player) task session, false, "Task assigned: " +:+ npcTaskDescription task,
                ActionFeedbackLevelInfo)
        else if nt_Type task ≟ "" then
          Some (session, false, "No task assigned this day.", ActionFeedbackLevelInfo)
        else if negb (isNPCTaskComplete task player) then
          Some (session, false, "Task in progress: " +:+ npcTaskProgress task player, ActionFeedbackLevelInfo)
        else
          let '(player, added) := reward_cards (Z.to_nat (nt_RewardCards task)) player in
          let task := task <| nt_Type := "" |> <| nt_TargetRoomID := "" |> <| nt_TargetItem := "" |>
                           <| nt_RewardCards := 0 |> in
          let session := set_task (ps_ID player) task (set_player i player session) in
          if added ≟ 0 then
            Some (session, false, "Task complete, but card slots are full. Spend cards and retry.",
                  ActionFeedbackLevelWarning)
          else
            Some (session, true, "Task complete. Earned " +:+ Itoa added +:+ " money card(s).",
                  ActionFeedbackLevelSuccess).

(** ** The nightly black market *)

Definition trySetNightlyBlackMarketLocked (session : matchSession) (player : PlayerState)
    (targetRoomID : RoomID) : matchSession * bool :=
  let state := ss_gameState session in
  if (targetRoomID ≟ "") || negb (ps_Alive player) || (ps_Role player ≠? RoleGangLeader) ||
     (ph_Current (gs_Phase state) ≠? PhaseNight) then (session, false)
  else if negb (IsNightlyBlackMarketCandidate targetRoomID) then (session, false)
  else if ms_BlackMarketRoomID (gs_Map state) ≟ targetRoomID then (session, false)
  else
    (session <| ss_gameState ::= λ state, state <| gs_Map ::= λ m,
       m <| ms_BlackMarketRoomID := targetRoomID |> |> |>, true).

Definition matchContainsGoldenBulletLocked (session : matchSession) : bool :=
  existsb (λ player, HasItem player ItemGoldenBullet 1) (gs_Players (ss_gameState session)) ||
  existsb (λ entity,
    match ParseDroppedItem entity with
    | None => false
    | Some (item, quantity) => if quantity ≟ 0 then false else item ≟ ItemGoldenBullet
    end) (gs_Entities (ss_gameState session)).

Definition countPlayerCards (player : PlayerState) (target : CardType) : Z :=
  if target ≟ "" then 0
  else Z.of_nat (length (filter (λ card, card = target) (ps_Cards player))).

(** Puts back what was taken before a card was missing. *)
Fixpoint restore_cards (n : nat) (target : CardType) (player : PlayerState) : PlayerState :=
  match n with
  | O => player
  | S n => restore_cards n target (default player (AddCard player target))
  end.

Fixpoint consume_cards (n : nat) (target : CardType) (removed : nat) (player : PlayerState) :
    PlayerState * bool :=
  match n with
  | O => (player, true)
  | S n =>
      match RemoveCard player target with
      | None => (restore_cards removed target player, false)
      | Some player => consume_cards n target (S removed) player
      end
  end.

Definition consumePlayerCards (player : PlayerState) (target : CardType) (quantity : Z) :
    PlayerState * bool :=
  if target ≟ "" then (player, false) else consume_cards (Z.to_nat quantity) target 0 player.

Definition applyBlackMarketPurchaseLocked (session : matchSession) (i : nat)
    (payload : BlackMarketPurchasePayload) :
    matchSession * bool * string * ActionFeedbackLevel :=
  let deny message level := (session, false, message, level) in
  let player := session_player i session in
  let state := ss_gameState session in
  match BlackMarketOfferForItem (bp_Item payload) with
  | None => deny "Offer unavailable." ActionFeedbackLevelError
  | Some offer =>
      if (of_Quantity offer ≟ 0) || (of_MoneyCardCost offer ≟ 0) then
        deny "Offer unavailable." ActionFeedbackLevelError
      else if negb (ps_Alive player) || negb (IsPrisonerPlayer player) then
        deny "Only living prisoners can buy." ActionFeedbackLevelWarning
      else if ph_Current (gs_Phase state) ≠? PhaseNight then
        deny "Market opens at night." ActionFeedbackLevelWarning
      else
        let marketRoomID := ms_BlackMarketRoomID (gs_Map state) in
        if (marketRoomID ≟ "") || (ps_CurrentRoomID player ≟ "") || (ps_CurrentRoomID player ≠? marketRoomID)
        then
          if marketRoomID ≟ "" then deny "Market room is not set." ActionFeedbackLevelWarning
          else deny ("Go to " +:+ marketRoomID +:+ " to buy.") ActionFeedbackLevelWarning
        else if (of_Item offer ≟ ItemGoldenBullet) &&
                (ss_blackMarketGoldenBulletSold session || matchContainsGoldenBulletLocked session) then
          deny "Golden bullet already sold this match." ActionFeedbackLevelWarning
        else if countPlayerCards player CardMoney <? of_MoneyCardCost offer then
          deny ("Need " +:+ Itoa (of_MoneyCardCost offer) +:+ " money cards.") ActionFeedbackLevelWarning
        else match AddItem player (of_Item offer) (of_Quantity offer) with
        | None => deny "Inventory full; purchase cancelled." ActionFeedbackLevelWarning
        | Some player =>
            let '(player, paid) := consumePlayerCards player CardMoney (of_MoneyCardCost offer) in
            if negb paid then
              let player := default player (RemoveItem player (of_Item offer) (of_Quantity offer)) in
              (set_player i player session, false, "Payment failed; purchase cancelled.",
               ActionFeedbackLevelError)
            else
              let '(player, _) := ensureEquippedItemForPlayerLocked player in
              let session := set_player i player session in
              let session :=
                if of_Item offer ≟ ItemGoldenBullet then session <| ss_blackMarketGoldenBulletSold := true |>
                else session in
              (session, true,
               "Purchased " +:+ of_Item offer +:+ " x" +:+ Itoa (of_Quantity offer) +:+ " for " +:+
                 Itoa (of_MoneyCardCost offer) +:+ " money card(s).", ActionFeedbackLevelSuccess)
        end
  end.

(** ** Deals with bribable prisoners *)

Definition zero_bribe : npcPrisonerBribeState := mkBribe "" 0 0 "" 0.

Definition set_bribe (entityID : EntityID) (bribe : npcPrisonerBribeState) (session : matchSession) :
    matchSession :=
  session <| ss_npcPrisonerBribeState ::= <[entityID := bribe]> |>.

Definition set_tags (index : nat) (bribe : npcPrisonerBribeState) (session : matchSession) : matchSession :=
  session <| ss_gameState ::= λ state, state <| gs_Entities ::=
    alter (λ e, e <| es_Tags := npcPrisonerTags bribe |>) index |> |>.

Definition bribe_eqb (a b : npcPrisonerBribeState) : bool :=
  (br_OfferItem a ≟ br_OfferItem b) && (br_OfferCost a ≟ br_OfferCost b) &&
  (br_Stock a ≟ br_Stock b) && (br_PayerID a ≟ br_PayerID b) && (br_PaidCards a ≟ br_PaidCards b).

(** One entity of the night's refresh, and whether it changed. *)
Definition refresh_offer (cycle : Z) (st : matchSession * gset EntityID) (index : nat) :
    matchSession * gset EntityID :=
  let '(session, changed) := st in
  let entity := default zero_EntityState (gs_Entities (ss_gameState session) !! index) in
  if es_Kind entity ≠? EntityKindNPCPrisoner then (session, changed)
  else match deterministicNPCPrisonerOffer (ss_matchID session) (es_RoomID entity) (es_ID entity) cycle with
  | None => (session, changed)
  | Some (offerItem, offerCost) =>
      let bribe := default zero_bribe (ss_npcPrisonerBribeState session !! es_ID entity) in
      let next := mkBribe offerItem offerCost 1 "" 0 in
      if bribe_eqb bribe next then (session, changed)
      else (set_tags index next (set_bribe (es_ID entity) next session), {[es_ID entity]} ∪ changed)
  end.

Definition collectChangedEntities (session : matchSession) (changed : gset EntityID) : list EntityState :=
  omap (λ entityID, find_first (λ e, es_ID e ≟ entityID) (gs_Entities (ss_gameState session)))
    (sort_by Z.le id (elements changed)).

Definition refreshNPCPrisonerOffersForNightLocked (session : matchSession) (cycle : Z) :
    matchSession * list EntityState :=
  let '(session, changed) :=
    foldl (refresh_offer cycle) (session, ∅) (seq 0 (length (gs_Entities (ss_gameState session)))) in
  (session, collectChangedEntities session changed).

(** The session, whether it applied, the message with its level, and the entity that
    changed. *)
Definition tryBribeNPCPrisonerWithMoneyCardLocked (session : matchSession) (i : nat)
    (entityID : EntityID) : matchSession * bool * string * ActionFeedbackLevel * option EntityID :=
  let deny message := (session, false, message, ActionFeedbackLevelWarning, None) in
  let player := session_player i session in
  let state := ss_gameState session in
  if entityID ≟ 0 then deny "Select a valid NPC prisoner."
  else if negb (ps_Alive player) || negb (IsPrisonerPlayer player) then
    deny "Only living prisoners can bribe NPC prisoners."
  else if ph_Current (gs_Phase state) ≠? PhaseNight then deny "NPC deals only happen at night."
  else match findEntityIndexByID (gs_Entities state) entityID with
  | None => deny "NPC prisoner not available."
  | Some index =>
      let entity := default zero_EntityState (gs_Entities state !! index) in
      if negb (es_Active entity) || (es_Kind entity ≠? EntityKindNPCPrisoner) then
        deny "NPC prisoner not available."
      else if (es_RoomID entity ≟ "") || (ps_CurrentRoomID player ≟ "") ||
              (es_RoomID entity ≠? ps_CurrentRoomID player) then
        deny "Move into the same room to bribe."
      else
        let known := ss_npcPrisonerBribeState session !! entityID in
        let bribe := default zero_bribe known in
        if negb (bool_decide (is_Some known)) || (br_OfferItem bribe ≟ "") || (br_OfferCost bribe ≟ 0) ||
           (br_Stock bribe ≟ 0) then
          if bool_decide (is_Some known) && (br_Stock bribe ≟ 0) then deny "NPC offer sold out."
          else deny "NPC offer unavailable."
        else
          let bribe :=
            if (br_PayerID bribe ≟ "") || (br_PayerID bribe ≠? ps_ID player) then
              bribe <| br_PayerID := ps_ID player |> <| br_PaidCards := 0 |>
            else bribe in
          if u8 (br_PaidCards bribe + 1) <? br_OfferCost bribe then
            let bribe := bribe <| br_PaidCards ::= λ n, u8 (n + 1) |> in
            (set_tags index bribe (set_bribe entityID bribe session), true,
             "Bribe progress " +:+ Itoa (br_PaidCards bribe) +:+ "/" +:+ Itoa (br_OfferCost bribe) +:+
               " for " +:+ br_OfferItem bribe +:+ ".", ActionFeedbackLevelInfo, Some entityID)
          else match AddItem player (br_OfferItem bribe) 1 with
          | None => deny "Inventory full; NPC deal cancelled."
          | Some player =>
              let item := br_OfferItem bribe in
              let bribe := bribe <| br_Stock ::= λ n, u8 (n - 1) |> <| br_PayerID := "" |>
                                 <| br_PaidCards := 0 |> in
              (set_tags index bribe (set_bribe entityID bribe (set_player i player session)), true,
               "NPC deal complete: received " +:+ item +:+ ".", ActionFeedbackLevelSuccess, Some entityID)
          end
  end.

(** ** What they change and report *)

Lemma changes_set_cell D k cell t :
  cs_ID cell = cs_ID (default zero_CellState (tk_cellStates t !! k)) →
  changes D 0 t (mark_cell (cs_ID cell) (t <| tk_session ::= set_cell k cell |>)).
Proof.
  intros Hid. pose proof (changes_refl D t) as [? ? ? ? ? ? ? ?].
  split; try done; [simpl; set_solver| |by apply entities_change_same].
  change (tk_cellStates _) with (<[k := cell]> (tk_cellStates t)) at 2.
  apply (Forall2_put _ _ _ (default zero_CellState (tk_cellStates t !! k))).
  - intros c. split; [done|by right].
  - by intros z ->.
  - split; [done|left]. rewrite <-Hid. simpl. set_solver.
Qed.

Lemma changes_stash k j cell stash p t :
  only_goods (player_at t j) p →
  cs_ID cell = cs_ID (default zero_CellState (tk_cellStates t !! k)) → cs_ID cell ≠ 0 →
  let p' := (ensureEquippedItemForPlayerLocked p).1 in
  let session := set_player j p' (set_cell k (cell <| cs_Stash := stash |>) (tk_session t)) in
  changes {[ps_ID (player_at t j)]} 0 t
    (mark_if (cs_ID cell ≠? 0) (mark_cell (cs_ID cell)) (t <| tk_session := session |>)).
Proof.
  intros Hp Hid Hnz. cbv zeta. rewrite bool_decide_eq_false_2 by done. cbn [negb mark_if].
  eapply changes_step; [by apply (changes_set_cell _ k (cell <| cs_Stash := stash |>))|].
  match goal with |- changes _ _ ?t1 ?t2 =>
    change t2 with (put_player j (ensureEquippedItemForPlayerLocked p).1 t1) end.
  apply changes_put_steady; [|set_solver]. apply only_goods_steady.
  eapply only_goods_trans; [exact Hp|apply ensure_equipped_goods].
Qed.

(** What a stash command does to the player and the cell, as far as the delta goes. *)
Definition stash_effect (t : tickState) (i : nat) (r : matchSession * bool * string * CellID) : Prop :=
  let '(session, applied, reason, cellID) := r in
  let t' := mark_if (cellID ≠? 0) (mark_cell cellID) (t <| tk_session := session |>) in
  changes {[ps_ID (player_at t i)]} 0 t t' ∧
  ps_LastActionFeedback (player_at t' i) = ps_LastActionFeedback (player_at t i) ∧
  (applied = false → session = tk_session t ∧ cellID = 0 ∨ reason = "Cell stash is full.").

Lemma stash_denied t i reason : stash_effect t i (tk_session t, false, reason, 0).
Proof. split_and!; [by apply changes_silent|done|by left]. Qed.

Lemma put_goods_feedback i j p t :
  only_goods (player_at t j) p →
  ps_LastActionFeedback (player_at (put_player j p t) i) = ps_LastActionFeedback (player_at t i).
Proof.
  intros Hp. change (player_at (put_player j p t) i)
    with (default zero_PlayerState (<[j := p]> (tk_playerStates t) !! i)).
  change (player_at t i) with (default zero_PlayerState (tk_playerStates t !! i)).
  destruct (decide (i = j)) as [->|Hne]; [|by rewrite list_lookup_insert_ne].
  destruct (tk_playerStates t !! j) as [q|] eqn:Hq.
  - rewrite list_lookup_insert_eq by (by eapply lookup_lt_Some). cbn [default from_option id].
    rewrite (only_goods_feedback _ _ Hp). apply session_player_lookup in Hq. by rewrite Hq.
  - rewrite list_insert_ge by (by apply lookup_ge_None). by rewrite Hq.
Qed.

Section stash.
Context (t : tickState) (i j k : nat) (cell : CellState) (item : ItemType) (amount : Z).
Hypothesis Hj : ps_ID (player_at t j) = ps_ID (player_at t i).
Hypothesis Hcell : cs_ID cell = cs_ID (default zero_CellState (tk_cellStates t !! k)).
Hypothesis Hnz : cs_ID cell ≠ 0.

Lemma deposit_effect : stash_effect t i (deposit (tk_session t) k j cell item amount).
Proof.
  unfold deposit. fold (player_at t j).
  destruct (RemoveItem (player_at t j) item amount) as [p|] eqn:Hr; [|apply stash_denied].
  apply RemoveItem_goods in Hr.
  destruct (AddItem (stash_carrier cell) item amount) as [carrier|].
  - destruct (ensureEquippedItemForPlayerLocked p) as [p' b] eqn:He.
    pose proof (ensure_equipped_goods p) as Hg. rewrite He in Hg.
    assert (only_goods (player_at t j) p') as Hp' by (by eapply only_goods_trans).
    split_and!; [| |done]; [rewrite <-Hj|rewrite bool_decide_eq_false_2 by done;
                                        by apply (put_goods_feedback i j p' t)].
    pose proof (changes_stash k j cell (ps_Inventory carrier) p t Hr Hcell Hnz) as H. by rewrite He in H.
  - assert (only_goods (player_at t j) (default p (AddItem p item amount))) as Hp.
    { eapply only_goods_trans; [exact Hr|].
      destruct (AddItem p item amount) eqn:Ha; [by eapply AddItem_goods|apply only_goods_refl]. }
    split_and!; [|by apply (put_goods_feedback i j _ t)|by right]. rewrite <-Hj.
    apply (changes_put_steady _ t j); [by apply only_goods_steady|set_solver].
Qed.

Lemma withdraw_effect : stash_effect t i (withdraw (tk_session t) k j cell item amount).
Proof.
  unfold withdraw. fold (player_at t j).
  destruct (RemoveItem (stash_carrier cell) item amount) as [carrier|]; [|apply stash_denied].
  destruct (AddItem (player_at t j) item amount) as [p|] eqn:Ha; [|apply stash_denied].
  apply AddItem_goods in Ha. destruct (ensureEquippedItemForPlayerLocked p) as [p' b] eqn:He.
  pose proof (ensure_equipped_goods p) as Hg. rewrite He in Hg.
  assert (only_goods (player_at t j) p') as Hp' by (by eapply only_goods_trans).
  split_and!; [| |done]; [rewrite <-Hj|rewrite bool_decide_eq_false_2 by done;
                                      by apply (put_goods_feedback i j p' t)].
  pose proof (changes_stash k j cell (ps_Inventory carrier) p t Ha Hcell Hnz) as H. by rewrite He in H.
Qed.
End stash.

(** A stash command that is refused leaves everything alone, except that a deposit into a full
    stash passes through the player's inventory. *)
Lemma stash_outcome t i payload :
  stash_effect t i (applyCellStashInteractLocked (tk_session t) (player_at t i) payload).
Proof.
  unfold applyCellStashInteractLocked. cbv zeta.
  do 2 (case_match; [apply stash_denied|]). case_match eqn:Hassigned; [apply stash_denied|].
  case_match; [apply stash_denied|].
  destruct (find_idx _ _) as [k|] eqn:Hk; [|apply stash_denied]. case_match; [apply stash_denied|].
  destruct (find_player _ _) as [j|] eqn:Hj; [|apply stash_denied].
  apply find_idx_Some in Hk as (c & Hc & Hid & _). apply find_idx_Some in Hj as (p & Hp & Hpid & _).
  bool_props.
  assert (ps_ID (player_at t j) = ps_ID (player_at t i)) as Hpj.
  { apply session_player_lookup in Hp. change (player_at t j) with (session_player j (tk_session t)).
    by rewrite <-Hp. }
  rewrite Hc. cbn [default from_option id].
  assert (cs_ID c = cs_ID (default zero_CellState (tk_cellStates t !! k))) as Hcell.
  { change (tk_cellStates t) with (ms_Cells (gs_Map (ss_gameState (tk_session t)))). by rewrite Hc. }
  assert (cs_ID c ≠ 0) as Hnz by congruence.
  case_match; [by apply deposit_effect|by apply withdraw_effect].
Qed.

Lemma reward_cards_tells {now} n p :
  steady now p (reward_cards n p).1 ∧ 0 <= (reward_cards n p).2 ∧
  ((reward_cards n p).2 = 0 → (reward_cards n p).1 = p).
Proof.
  revert p. induction n as [|n IH]; intros p; simpl; [split; [apply steady_refl|done]|].
  destruct (AddCard p CardMoney) as [q|] eqn:Hq; [|split; [apply steady_refl|done]].
  destruct (IH q) as (Hs & Hnn & _). destruct (reward_cards n q) as [r added]. cbn [fst snd] in *.
  split_and!; [|lia|lia]. eapply steady_trans; [by eapply AddCard_steady|done].
Qed.

Lemma owes_task t i entityID session changed message level :
  tryHandleNPCPrisonerTaskInteractLocked (tk_session t) i entityID = Some (session, changed, message, level) →
  owes (ps_ID (player_at t i)) t (t <| tk_session := session |>, changed).
Proof.
  unfold tryHandleNPCPrisonerTaskInteractLocked. cbv zeta. intros H.
  do 2 (case_match; [done|]). apply bind_Some in H as (k & _ & H).
  do 2 (case_match; [done|]).
  assert (changes ∅ 0 t (t <| tk_session := tk_session t |>)) as Hsame by by apply changes_silent.
  do 2 (case_match; [simplify_eq; by apply owes_none|]).
  case_match; [simplify_eq; apply owes_none; by apply changes_silent|].
  do 2 (case_match; [simplify_eq; by apply owes_none|]).
  destruct (reward_cards _ _) as [p added] eqn:Hr.
  match type of Hr with reward_cards ?n ?q = _ => pose proof (reward_cards_tells (now := tk_now t) n q) as Hp end.
  rewrite Hr in Hp. cbn [fst snd] in Hp. destruct Hp as (Hs & _ & Hz).
  assert (∀ b task, (b = false → added = 0) →
    owes (ps_ID (player_at t i)) t
      (t <| tk_session := set_task (ps_ID p) task (set_player i p (tk_session t)) |>, b)) as Hput.
  { intros b task Hb. eapply owes_trans; [apply (owes_put i p b t)| |done].
    - split; [exact Hs|]. cbn [fst snd]. intros Hfalse. by apply Hz, Hb.
    - by apply owes_none, changes_silent. }
  case_match; simplify_eq; apply Hput; by bool_props.
Qed.

Lemma changes_night_market t i roomID :
  changes ∅ 0 t (t <| tk_session := (trySetNightlyBlackMarketLocked (tk_session t) (player_at t i) roomID).1 |>).
Proof.
  unfold trySetNightlyBlackMarketLocked. cbv zeta. repeat case_match; by apply changes_silent.
Qed.

(** ** Paying *)

Lemma RemoveCard_present p target :
  IsKnownCard target = true → 0 < countPlayerCards p target → target ≠ "" →
  ∃ p', RemoveCard p target = Some p' ∧ p' = p <| ps_Cards := ps_Cards p' |> ∧
    countPlayerCards p' target = countPlayerCards p target - 1.
Proof.
  intros Hknown Hcount Hne. unfold countPlayerCards in *. rewrite bool_decide_eq_false_2 in * by done.
  unfold RemoveCard. rewrite Hknown. cbn [negb orb].
  destruct (find_idx (λ existing, existing ≟ target) (ps_Cards p)) as [k|] eqn:Hk.
  - apply find_idx_Some in Hk as (c & Hc & Heq & _). bool_props. subst c.
    destruct (Z.of_nat (length (ps_Cards p)) =? 0) eqn:Hlen.
    { bool_props. apply lookup_lt_Some in Hc. lia. }
    eexists. split; [reflexivity|]. split; [by destruct p|].
    pose proof (delete_Permutation (ps_Cards p) k target Hc) as Hperm.
    change (ps_Cards (p <| ps_Cards ::= delete k |>)) with (delete k (ps_Cards p)).
    assert (length (filter (λ card, card = target) (ps_Cards p)) =
            S (length (filter (λ card, card = target) (delete k (ps_Cards p))))) as Hl; [|lia].
    rewrite (Permutation_length (filter_Permutation _ _ _ Hperm)). by rewrite filter_cons_True.
  - rewrite find_idx_None in Hk. destruct (filter _ (ps_Cards p)) as [|c l] eqn:Hf; [simpl in *; lia|].
    assert (c ∈ filter (λ card, card = target) (ps_Cards p)) as Hc by (rewrite Hf; left).
    apply list_elem_of_filter in Hc as [-> Hc]. apply Hk in Hc. by bool_props.
Qed.

(** Who has the cards can pay. *)
Lemma consume_cards_paid {now} n target removed p :
  IsKnownCard target = true → target ≠ "" → Z.of_nat n <= countPlayerCards p target →
  ∃ p', consume_cards n target removed p = (p', true) ∧ p' = p <| ps_Cards := ps_Cards p' |> ∧
    countPlayerCards p' target = countPlayerCards p target - Z.of_nat n ∧ steady now p p'.
Proof.
  intros Hknown Hne. revert removed p. induction n as [|n IH]; intros removed p Hn.
  { exists p. split_and!; [done|by destruct p|lia|apply steady_refl]. }
  destruct (RemoveCard_present p target) as (q & Hq & Hpq & Hcount); [done|lia|done|].
  destruct (IH (S removed) q) as (p' & Hp' & Hqp & Hcount' & Hst); [lia|].
  exists p'. cbn [consume_cards]. rewrite Hq. split_and!; [done| |lia|].
  - rewrite Hqp, Hpq. done.
  - eapply steady_trans; [by eapply RemoveCard_steady|done].
Qed.

Lemma owes_purchase t i payload :
  let r := applyBlackMarketPurchaseLocked (tk_session t) i payload in
  owes (ps_ID (player_at t i)) t (t <| tk_session := r.1.1.1 |>, r.1.1.2).
Proof.
  cbv zeta. unfold applyBlackMarketPurchaseLocked. cbv zeta.
  assert (∀ id, owes id t (t <| tk_session := tk_session t |>, false)) as Hdeny.
  { intros id. by apply owes_none, changes_silent. }
  destruct (BlackMarketOfferForItem _) as [offer|]; [|done]. do 3 (case_match; [done|]).
  case_match; [by case_match|]. case_match; [done|]. case_match eqn:Hcount; [done|]. bool_props.
  fold (player_at t i) in *.
  destruct (AddItem (player_at t i) (of_Item offer) (of_Quantity offer)) as [p|] eqn:Ha; [|done].
  apply AddItem_goods in Ha as Hg.
  assert (countPlayerCards p CardMoney = countPlayerCards (player_at t i) CardMoney) as Hsame.
  { unfold countPlayerCards. destruct (only_goods_vitals _ _ Hg) as (_ & _ & _ & _ & -> & _). done. }
  assert (0 <= countPlayerCards (player_at t i) CardMoney) as Hnn by (unfold countPlayerCards; case_match; lia).
  destruct (consume_cards_paid (now := tk_now t) (Z.to_nat (of_MoneyCardCost offer)) CardMoney 0 p) as (q & Hq & _ & _ & Hst);
    [by vm_compute|done|lia|].
  change (consumePlayerCards p CardMoney (of_MoneyCardCost offer))
    with (consume_cards (Z.to_nat (of_MoneyCardCost offer)) CardMoney 0 p). rewrite Hq. cbn [negb].
  destruct (ensureEquippedItemForPlayerLocked q) as [q' b] eqn:He.
  apply owes_true. eapply changes_step.
  - apply (changes_put_steady _ t i q'); [|set_solver]. eapply steady_trans; [by apply only_goods_steady|].
    eapply steady_trans; [exact Hst|]. pose proof (ensure_equipped_goods q) as Hq'. rewrite He in Hq'.
    by apply only_goods_steady.
  - case_match; by apply changes_silent.
Qed.

(** ** Deals *)

Lemma changes_set_tags D k bribe e t :
  gs_Entities (tk_game t) !! k = Some e →
  changes D 0 t (mark_entity (es_ID e) (t <| tk_session ::= set_tags k bribe |>)).
Proof.
  intros He.
  pose proof (changes_with_entity D k (λ x, x <| es_Tags := npcPrisonerTags bribe |>) e t He) as H.
  exact (H eq_refl).
Qed.
Lemma changes_deal D k id bribe e t :
  gs_Entities (tk_game t) !! k = Some e →
  changes D 0 t (mark_entity (es_ID e)
    (t <| tk_session ::= λ s, set_tags k bribe (set_bribe id bribe s) |>)).
Proof.
  intros He. eapply (changes_step _ _ (t <| tk_session ::= set_bribe id bribe |>)).
  - by apply changes_silent.
  - change (t <| tk_session ::= λ s, set_tags k bribe (set_bribe id bribe s) |>)
      with (t <| tk_session ::= set_bribe id bribe |> <| tk_session ::= set_tags k bribe |>).
    by apply changes_set_tags.
Qed.

(** A deal that is refused leaves everything alone. *)
Definition bribe_effect (t : tickState) (i : nat)
    (r : matchSession * bool * string * ActionFeedbackLevel * option EntityID) : Prop :=
  let '(session, applied, _, _, changed) := r in
  let t' := t <| tk_session := session |> in
  owes (ps_ID (player_at t i)) t (match changed with Some id => mark_entity id t' | None => t' end, applied) ∧
  (applied = false → session = tk_session t ∧ changed = None).

Lemma bribe_outcome t i entityID :
  bribe_effect t i (tryBribeNPCPrisonerWithMoneyCardLocked (tk_session t) i entityID).
Proof.
  unfold tryBribeNPCPrisonerWithMoneyCardLocked. cbv zeta.
  assert (∀ message, bribe_effect t i (tk_session t, false, message, ActionFeedbackLevelWarning, None)) as Hdeny.
  { intros message. split; [by apply owes_none, changes_silent|done]. }
  do 3 (case_match; [apply Hdeny|]). destruct (findEntityIndexByID _ _) as [index|] eqn:Hi; [|apply Hdeny].
  do 2 (case_match; [apply Hdeny|]). case_match; [case_match; apply Hdeny|].
  apply find_idx_Some in Hi as (e & He & Hid & _). bool_props.
  change (gs_Entities (ss_gameState (tk_session t))) with (gs_Entities (tk_game t)) in He.
  match goal with |- context [u8 (br_PaidCards ?b + 1)] => generalize b end. intros paying.
  case_match.
  { split; [|done]. apply owes_none. rewrite <-Hid. exact (changes_deal ∅ index _ _ e t He). }
  fold (player_at t i).
  destruct (AddItem (player_at t i) (br_OfferItem paying) 1) as [p|] eqn:Ha; [|apply Hdeny].
  apply AddItem_goods in Ha. split; [|done]. apply owes_true. eapply changes_step.
  - apply (changes_put_steady _ t i p); [by apply only_goods_steady|set_solver].
  - rewrite <-Hid. exact (changes_deal _ index _ _ e (put_player i p t) He).
Qed.
