(* ===== verification/Doors.v ===== *)
(** * Rooms, doors and power

    [internal/server/game/manager.go]: moving to a room, toggling doors and the power, which
    doors an ability may aim at, and the doors that a card or an ability holds for a
    time.  Doors are updated in place: a pointer to a door is its index. *)

From S2P Require Import Prelude Float32 Model GoStrings Layout Access Items Physics Prison Session Spawn Actions Changes.

#[local] Open Scope Z_scope.

Definition door_at (t : tickState) (i : nat) : DoorState := default zero_DoorState (ms_Doors (tk_map t) !! i).
Definition put_door (i : nat) (door : DoorState) : tickState → tickState :=
  on_map (λ m, m <| ms_Doors ::= <[i := door]> |>).

Definition cellStateForDoorID (cells : list CellState) (doorID : DoorID) : option CellState :=
  if doorID ≟ 0 then None else find_first (λ cell, cs_DoorID cell ≟ doorID) cells.

Definition doorStateForIDLocked (doors : list DoorState) (doorID : DoorID) : option DoorState :=
  find_first (λ door, ds_ID door ≟ doorID) doors.

(** ** Entering rooms *)

Definition canPlayerEnterRoomLocked (session : matchSession) (player : PlayerState)
    (targetRoomID : RoomID) (mapState : MapState) : bool :=
  let decision := EvaluateRoomEntry player targetRoomID mapState in
  if re_Allowed decision then true
  else if negb (IsPrisonerPlayer player) then false
  else if negb (bool_decide (targetRoomID ∈ ss_prisonerUnlockedRooms session)) then false
  else (re_Verdict decision ≟ AccessDenyPowerRoomAuthorityOnly) ||
       (re_Verdict decision ≟ AccessDenyAmmoAuthorityOnly).

(** The player at the index, and whether it moved. *)
Definition tryMovePlayerToRoomLocked (session : matchSession) (i : nat) (targetRoomID : RoomID) :=
  let player := session_player i session in
  let fromRoomID := if ps_CurrentRoomID player ≟ "" then RoomCellBlockA else ps_CurrentRoomID player in
  match CheckRoomAccess defaultMatchLayout fromRoomID targetRoomID with
  | inl _ => (session, false)
  | inr access =>
      if negb (ac_Reachable access) then (session, false)
      else if negb (canPlayerEnterRoomLocked session player targetRoomID (gs_Map (ss_gameState session)))
      then (session, false)
      else if ps_CurrentRoomID player ≟ targetRoomID then (session, false)
      else (set_player i (player <| ps_CurrentRoomID := targetRoomID |>) session, true)
  end.

(** ** Doors *)

Definition tryToggleDoorForPlayerLocked (player : PlayerState) (doorID : DoorID) (t : tickState) :
    tickState * bool :=
  if existsb (λ cell, (cs_DoorID cell ≟ doorID) && negb (CanOperateCellDoor player cell))
       (ms_Cells (tk_map t)) then (t, false)
  else match find_door (ms_Doors (tk_map t)) doorID with
  | None => (t, false)
  | Some doorIndex =>
      let door := door_at t doorIndex in
      if (ds_BlockedUntilTick door ≠? 0) && (tk_now t <=? ds_BlockedUntilTick door) then (t, false)
      else if negb (ms_PowerOn (tk_map t)) then
        if negb (ds_Open door) then
          (mark_door (ds_ID door) (put_door doorIndex (door <| ds_Open := true |>) t), true)
        else (t, false)
      else (mark_door (ds_ID door) (put_door doorIndex (door <| ds_Open ::= negb |>) t), true)
  end.

Definition tryToggleCellDoorLocked (player : PlayerState) (cellID : CellID) (t : tickState) :
    tickState * bool :=
  match find_first (λ cell, cs_ID cell ≟ cellID) (ms_Cells (tk_map t)) with
  | None => (t, false)
  | Some cell =>
      if negb (CanOperateCellDoor player cell) then (t, false)
      else
        let '(t, doorChanged) := tryToggleDoorForPlayerLocked player (cs_DoorID cell) t in
        (mark_if doorChanged (mark_cell (cs_ID cell)) t, doorChanged)
  end.

(** Every door counts as changed when the power is. *)
Definition mark_all_doors (t : tickState) : tickState :=
  foldl (λ t door, mark_door (ds_ID door) t) t (ms_Doors (tk_map t)).

Definition tryTogglePowerIfEligibleLocked (i : nat) (t : tickState) : tickState * bool :=
  if ps_CurrentRoomID (player_at t i) ≠? RoomPowerRoom then (t, false)
  else
    let '(m, changed) := ApplyPowerState (tk_map t) (negb (ms_PowerOn (tk_map t))) in
    if negb changed then (t, false) else (mark_all_doors (on_map (λ _, m) t), true).

(** ** Aiming at a door *)

Definition adjacentTargetRoomForDoor (currentRoomID : RoomID) (door : DoorState) : option RoomID :=
  if currentRoomID ≟ ds_RoomA door then Some (ds_RoomB door)
  else if currentRoomID ≟ ds_RoomB door then Some (ds_RoomA door)
  else None.

Definition isPrisonerRestrictedRoom (roomID : RoomID) : bool :=
  (roomID ≟ RoomPowerRoom) || (roomID ≟ RoomAmmoRoom).

Definition canPlayerTargetDoorLocked (session : matchSession) (player : PlayerState) (door : DoorState)
    (mapState : MapState) (allowRestrictedPrisonerTarget : bool) : bool :=
  let reachable :=
    if ps_CurrentRoomID player ≟ "" then true
    else match adjacentTargetRoomForDoor (ps_CurrentRoomID player) door with
    | None => false
    | Some targetRoomID =>
        if (targetRoomID ≠? "") && negb (canPlayerEnterRoomLocked session player targetRoomID mapState) then
          allowRestrictedPrisonerTarget && isPrisonerRestrictedRoom targetRoomID && IsPrisonerPlayer player
        else true
    end in
  if negb reachable then false
  else match cellStateForDoorID (ms_Cells mapState) (ds_ID door) with
  | Some cell => CanOperateCellDoor player cell
  | None => true
  end.

Definition firstReachableDoorForPlayerLocked (session : matchSession) (player : PlayerState)
    (mapState : MapState) (allowRestrictedPrisonerTarget : bool) : DoorID :=
  foldl (λ bestDoorID door,
    if ds_ID door ≟ 0 then bestDoorID
    else if negb (canPlayerTargetDoorLocked session player door mapState allowRestrictedPrisonerTarget)
    then bestDoorID
    else if (bestDoorID ≟ 0) || (ds_ID door <? bestDoorID) then ds_ID door else bestDoorID)
    0 (ms_Doors mapState).

(** The room behind the door, and whether it was still closed to prisoners. *)
Definition unlockRoomForPrisonersFromDoorLocked (session : matchSession) (door : DoorState) :
    matchSession * RoomID * bool :=
  let unlock roomID :=
    if bool_decide (roomID ∈ ss_prisonerUnlockedRooms session) then (session, roomID, false)
    else (session <| ss_prisonerUnlockedRooms ::= λ rooms, {[roomID]} ∪ rooms |>, roomID, true) in
  if (ds_RoomA door ≟ RoomPowerRoom) || (ds_RoomB door ≟ RoomPowerRoom) then unlock RoomPowerRoom
  else if (ds_RoomA door ≟ RoomAmmoRoom) || (ds_RoomB door ≟ RoomAmmoRoom) then unlock RoomAmmoRoom
  else (session, "", false).

(** ** Doors held for a time (the first half of [expireTimedStatesLocked]) *)

Definition expire_block (t : tickState) (i : nat) : tickState :=
  let door := door_at t i in
  if (ds_BlockedUntilTick door ≟ 0) || (tk_now t <=? ds_BlockedUntilTick door) then t
  else mark_door (ds_ID door)
         (put_door i (door <| ds_BlockedUntilTick := 0 |> <| ds_LockedByPlayerID := "" |>) t).

Definition expire_blocks (t : tickState) : tickState :=
  foldl expire_block t (seq 0 (length (ms_Doors (tk_map t)))).

(** The door as it was; it opens and closes under power only. *)
Definition restored_door (powerOn : bool) (restore : lockSnapDoorRestoreState) (door : DoorState) :
    DoorState * bool :=
  let '(door, changed) :=
    if negb (eqb (ds_Locked door) (ls_Locked restore))
    then (door <| ds_Locked := ls_Locked restore |>, true) else (door, false) in
  if powerOn && negb (eqb (ds_Open door) (ls_Open restore))
  then (door <| ds_Open := ls_Open restore |>, true) else (door, changed).

Definition restore_door (t : tickState) (entry : DoorID * lockSnapDoorRestoreState) : tickState :=
  let '(doorID, restore) := entry in
  if (ls_RestoreTick restore ≟ 0) || (tk_now t <=? ls_RestoreTick restore) then t
  else
    let t :=
      match find_door (ms_Doors (tk_map t)) doorID with
      | None => t
      | Some doorIndex =>
          let '(door, changed) := restored_door (ms_PowerOn (tk_map t)) restore (door_at t doorIndex) in
          mark_if changed (mark_door (ds_ID door)) (put_door doorIndex door t)
      end in
    t <| tk_session ::= λ s, s <| ss_lockSnapDoorRestores ::= delete doorID |> |>.

(** Go ranges over a map: a restore touches only its own door, so the order does not
    matter; the model takes the order of the keys. *)
Definition restore_doors (t : tickState) : tickState :=
  foldl restore_door t (map_to_list (ss_lockSnapDoorRestores (tk_session t))).

(** ** What they change and report *)

Lemma door_at_lookup t i d : tk_doorStates t !! i = Some d → d = door_at t i.
Proof. unfold door_at. intros H. change (ms_Doors (tk_map t)) with (tk_doorStates t). by rewrite H. Qed.

Lemma changes_put_door D t i id door :
  id = ds_ID (door_at t i) → ds_ID door = id →
  changes D 0 t (mark_door id (put_door i door t)).
Proof.
  intros -> Hid. pose proof (changes_refl D t) as [? ? ? ? ? ? ? ?].
  split; try done; [simpl; set_solver| |by apply entities_change_same].
  change (tk_doorStates (mark_door (ds_ID (door_at t i)) (put_door i door t))) with (<[i := door]> (tk_doorStates t)).
  apply (Forall2_put _ _ _ (door_at t i)).
  - intros d. split; auto.
  - intros d. apply door_at_lookup.
  - split; [done|left]. simpl. set_solver.
Qed.

Lemma with_doors_same t : on_map (λ m, m <| ms_Doors := tk_doorStates t |>) t = t.
Proof. destruct t as [s ? ? ? ? ? ?]. destruct s as []. destruct ss_gameState as []. by destruct gs_Map. Qed.
Lemma put_door_same i t : put_door i (door_at t i) t = t.
Proof.
  assert (<[i := door_at t i]> (tk_doorStates t) = tk_doorStates t) as H.
  { change (door_at t i) with (default zero_DoorState (tk_doorStates t !! i)).
    destruct (tk_doorStates t !! i) as [d|] eqn:Hi; [by apply list_insert_id|].
    apply list_insert_ge. by apply lookup_ge_None. }
  rewrite <-(with_doors_same t) at 3. by rewrite <-H.
Qed.

Lemma changes_put_door_if D t i id door b :
  id = ds_ID (door_at t i) → ds_ID door = id → (b = false → door = door_at t i) →
  changes D 0 t (mark_if b (mark_door id) (put_door i door t)).
Proof.
  intros Hi Hid Hb. destruct b; [by apply changes_put_door|]. rewrite Hb, put_door_same by done.
  apply changes_refl.
Qed.

Lemma owes_move_room t i roomID :
  let r := tryMovePlayerToRoomLocked (tk_session t) i roomID in
  owes (ps_ID (player_at t i)) t (t <| tk_session := r.1 |>, r.2).
Proof.
  cbv zeta. unfold tryMovePlayerToRoomLocked. cbv zeta.
  destruct (CheckRoomAccess _ _ _); [by apply owes_none, changes_silent|].
  do 3 (case_match; [by apply owes_none, changes_silent|]).
  apply (owes_put i _ true t). by apply tells_vitals.
Qed.

Lemma changes_toggle_door t player doorID :
  changes ∅ 0 t (tryToggleDoorForPlayerLocked player doorID t).1.
Proof.
  unfold tryToggleDoorForPlayerLocked. cbv zeta. case_match; [apply changes_refl|].
  destruct (find_door _ _) as [k|]; [|apply changes_refl].
  repeat case_match; try apply changes_refl.
  - by apply changes_put_door.
  - by apply changes_put_door.
Qed.
Lemma changes_toggle_cell_door t player cellID :
  changes ∅ 0 t (tryToggleCellDoorLocked player cellID t).1.
Proof.
  unfold tryToggleCellDoorLocked. destruct (find_first _ _) as [cell|]; [|apply changes_refl].
  case_match; [apply changes_refl|].
  pose proof (changes_toggle_door t player (cs_DoorID cell)) as H1.
  destruct (tryToggleDoorForPlayerLocked player (cs_DoorID cell) t) as [t' b].
  eapply changes_step; [exact H1|]. apply changes_mark_if. intros. apply changes_mark_cell.
Qed.

(** The power changes any number of doors, and all are reported. *)
Lemma mark_all_doors_frame t :
  let t' := mark_all_doors t in
  tk_session t' = tk_session t ∧ tk_players t' = tk_players t ∧ tk_cells t' = tk_cells t ∧
  tk_entities t' = tk_entities t ∧ tk_removed t' = tk_removed t ∧
  tk_doors t' = list_to_set (map ds_ID (tk_doorStates t)) ∪ tk_doors t.
Proof.
  cbv zeta. unfold mark_all_doors. change (ms_Doors (tk_map t)) with (tk_doorStates t).
  generalize (tk_doorStates t) as l. intros l. revert t. induction l as [|d l IH]; intros t; simpl.
  { split_and!; try done. set_solver. }
  destruct (IH (mark_door (ds_ID d) t)) as (-> & -> & -> & -> & -> & ->). split_and!; try done.
  simpl. set_solver.
Qed.

Lemma changes_power D t powerOn :
  changes D 0 t (mark_all_doors (on_map (λ _, (ApplyPowerState (tk_map t) powerOn).1) t)).
Proof.
  destruct (ApplyPowerState_spec (tk_map t) powerOn) as (Hm & _ & _). rewrite Hm. clear Hm.
  set (m := tk_map t <| ms_PowerOn := powerOn |> <| ms_Doors := _ |>).
  destruct (mark_all_doors_frame (on_map (λ _, m) t)) as (Hs & Hp & Hc & He & Hr & Hd).
  pose proof (changes_refl D t) as [? ? ? ? ? ? ? ?].
  split; unfold tick_frame, tk_playerStates, tk_doorStates, tk_cellStates, tk_map, tk_game;
    rewrite ?Hs, ?Hp, ?Hc, ?Hd; try done.
  - simpl. set_solver.
  - simpl. apply Forall2_fmap_r, Forall_Forall2_diag, Forall_forall. intros d Hin.
    split; [done|left]. apply elem_of_union_l, elem_of_list_to_set.
    change (tk_doorStates (on_map (λ _, m) t)) with (powered powerOn <$> tk_doorStates t).
    rewrite <-list_fmap_compose. by apply (list_elem_of_fmap_2 (ds_ID ∘ powered powerOn)).
  - apply entities_change_same; unfold tk_game; rewrite ?Hs, ?He, ?Hr; done.
Qed.
Lemma changes_toggle_power t i : changes ∅ 0 t (tryTogglePowerIfEligibleLocked i t).1.
Proof.
  unfold tryTogglePowerIfEligibleLocked. case_match; [apply changes_refl|].
  pose proof (changes_power ∅ t (negb (ms_PowerOn (tk_map t)))) as Hc.
  destruct (ApplyPowerState _ _) as [m changed]. case_match; [apply changes_refl|exact Hc].
Qed.

(** ** Doors held for a time *)

Lemma changes_expire_blocks D t : changes D 0 t (expire_blocks t).
Proof.
  apply changes_fold. intros t1 i _. unfold expire_block. cbv zeta. case_match; [apply changes_refl|].
  by apply changes_put_door.
Qed.

Lemma restored_door_tells powerOn restore door :
  let r := restored_door powerOn restore door in
  ds_ID r.1 = ds_ID door ∧ (r.2 = false → r.1 = door).
Proof.
  cbv zeta. unfold restored_door.
  destruct (negb (eqb (ds_Locked door) (ls_Locked restore)));
    (destruct (powerOn && _); cbn [fst snd]; done).
Qed.
Lemma changes_restore_doors D t : changes D 0 t (restore_doors t).
Proof.
  apply changes_fold. intros t1 [doorID restore] _. unfold restore_door.
  case_match; [apply changes_refl|]. cbv zeta.
  destruct (find_door _ _) as [k|]; [|by apply changes_silent].
  pose proof (restored_door_tells (ms_PowerOn (tk_map t1)) restore (door_at t1 k)) as [Hid Hb].
  destruct (restored_door _ _ _) as [door b]. cbn [fst snd] in *.
  eapply changes_step; [by apply (changes_put_door_if D t1 k (ds_ID door) door b)|by apply changes_silent].
Qed.
