(* ===== verification/AbilityUse.v ===== *)
(** * Using an ability

    [internal/server/game/manager.go], [applyAbilityCommandLocked] and what it uses: who may
    use which ability now, which target it takes, what it does, and the record of its
    use.  The denials carry the reason to the player.  Inner maps that are created on
    demand are there from the first look-up on, which no look-up can tell. *)

From S2P Require Import Prelude Float32 Model GoStrings Hashing Layout Access Items Physics Prison Cards Abilities Session Spawn Actions Changes Doors.

#[local] Open Scope Z_scope.

(** ** Cooldowns and daily limits *)

Definition ability_cooldown (session : matchSession) (playerID : PlayerID) (ability : AbilityType) : Z :=
  default 0 (default ∅ (ss_abilityCooldownUntil session !! playerID) !! ability).
Definition ability_usage (session : matchSession) (playerID : PlayerID) (ability : AbilityType) :
    dailyAbilityUsage :=
  default (mkDailyUsage 0 0) (default ∅ (ss_abilityDailyUsage session !! playerID) !! ability).

(** [None] when the ability may be used, and the reason otherwise. *)
Definition canUseAbilityAtCurrentTick (session : matchSession) (player : PlayerState)
    (ability : AbilityType) : option string :=
  let cooldownUntil := ability_cooldown session (ps_ID player) ability in
  if (cooldownUntil ≠? 0) && (ss_tickID session <? cooldownUntil) then
    Some (ability +:+ " is on cooldown for " +:+ Itoa (cooldownUntil - ss_tickID session) +:+ "t")
  else
    let dailyLimit := DailyUseLimit ability in
    if dailyLimit ≟ 0 then None
    else
      let phase := gs_Phase (ss_gameState session) in
      if ph_Current phase ≠? PhaseDay then Some "this ability is only available during day phase"
      else if ph_StartedTick phase ≟ 0 then Some "day phase has not started yet"
      else
        let record := ability_usage session (ps_ID player) ability in
        if du_DayStartTick record ≠? ph_StartedTick phase then None
        else if dailyLimit <=? du_UseCount record then
          if dailyLimit ≟ 1 then Some "you already used this ability today"
          else Some ("you already used this ability " +:+ Itoa (du_UseCount record) +:+ "/" +:+
                       Itoa dailyLimit +:+ " times today")
        else None.

Definition registerAbilityUseLocked (session : matchSession) (player : PlayerState)
    (ability : AbilityType) : matchSession :=
  let cooldownTicks := CooldownTicks ability (ss_tickRateHz session) in
  let session :=
    if 0 <? cooldownTicks then
      session <| ss_abilityCooldownUntil ::= λ cooldowns,
        <[ps_ID player := <[ability := u64 (ss_tickID session + cooldownTicks)]>
          (default ∅ (cooldowns !! ps_ID player))]> cooldowns |>
    else session in
  let dailyLimit := DailyUseLimit ability in
  let phase := gs_Phase (ss_gameState session) in
  if (0 <? dailyLimit) && (ph_Current phase ≟ PhaseDay) then
    let record := ability_usage session (ps_ID player) ability in
    let record :=
      if du_DayStartTick record ≠? ph_StartedTick phase then mkDailyUsage (ph_StartedTick phase) 0
      else record in
    let record := record <| du_UseCount ::= λ n, u8 (n + 1) |> in
    session <| ss_abilityDailyUsage ::= λ usage,
      <[ps_ID player := <[ability := record]> (default ∅ (usage !! ps_ID player))]> usage |>
  else session.

(** ** Targets *)

Definition nearestPlayerTargetLocked (actor : PlayerState) (players : list PlayerState)
    (requireSameRoom : bool) : PlayerID :=
  (foldl (λ '(bestID, bestDistance) candidate,
    if (ps_ID candidate ≟ "") || (ps_ID candidate ≟ ps_ID actor) || negb (ps_Alive candidate) then
      (bestID, bestDistance)
    else if requireSameRoom &&
            ((ps_CurrentRoomID actor ≟ "") || (ps_CurrentRoomID candidate ≠? ps_CurrentRoomID actor)) then
      (bestID, bestDistance)
    else
      let dx := f32_sub (vX (ps_Position candidate)) (vX (ps_Position actor)) in
      let dy := f32_sub (vY (ps_Position candidate)) (vY (ps_Position actor)) in
      let distanceSquared := f32_add (f32_mul dx dx) (f32_mul dy dy) in
      if (bestID ≟ "") || f32_ltb distanceSquared bestDistance ||
         (f32_eqb distanceSquared bestDistance && String.ltb (ps_ID candidate) bestID) then
        (ps_ID candidate, distanceSquared)
      else (bestID, bestDistance)) ("", f32_zero) players).1.

Definition resolveAbilityTargetsForContextLocked (session : matchSession) (player : PlayerState)
    (payload : AbilityUsePayload) : AbilityUsePayload :=
  let ability := ap_Ability payload in
  let players := gs_Players (ss_gameState session) in
  if bool_decide (ability ∈ [AbilitySearch; AbilityDetainer; AbilityPickPocket]) then
    if ap_TargetPlayerID payload ≟ "" then
      payload <| ap_TargetPlayerID := nearestPlayerTargetLocked player players true |>
    else payload
  else if ability ≟ AbilityTracker then
    if ap_TargetPlayerID payload ≟ "" then
      payload <| ap_TargetPlayerID := nearestPlayerTargetLocked player players false |>
    else payload
  else if ability ≟ AbilityLocksmith then
    if ap_TargetDoorID payload ≟ 0 then
      payload <| ap_TargetDoorID := firstReachableDoorForPlayerLocked session player
                                      (gs_Map (ss_gameState session)) true |>
    else payload
  else payload.

(** ** What an ability does *)

(** The handler of one ability: refused with a reason, or done with a message; the kind of
    feedback is the system's and the level is info unless said otherwise. *)
Inductive ability_result :=
  | Denied (t : tickState) (reason : string)
  | Applied (t : tickState) (kind : ActionFeedbackKind) (level : ActionFeedbackLevel) (message : string).

Definition applied_info (t : tickState) (message : string) : ability_result :=
  Applied t ActionFeedbackKindSystem ActionFeedbackLevelInfo message.

Section abilities.
Variable playerIndex : gmap PlayerID nat.

Definition use_alarm (i : nat) (t : tickState) : ability_result :=
  let durationTicks := AlarmDurationTicks (ss_tickRateHz (tk_session t)) in
  if durationTicks ≟ 0 then Denied t "alarm duration is unavailable"
  else
    let alarm := mkAlarm true (u64 (tk_now t + durationTicks)) (ps_ID (player_at t i)) in
    Applied (on_map (λ m, m <| ms_Alarm := alarm |>) t) ActionFeedbackKindAlarm ActionFeedbackLevelSuccess
      ("Alarm triggered (" +:+ Itoa durationTicks +:+ "t).").

(** The checks on the target that search, detainer and pick-pocket share, with the action's
    words in the reasons; a target that passes, or the reason why it does not. *)
Definition find_target (i : nat) (t : tickState) (targetID : PlayerID) (verb self same_room : string) :
    string + nat :=
  match playerIndex !! targetID with
  | None => inl ("stand in the same room as a living target to " +:+ verb)
  | Some targetIndex =>
      if targetID ≟ "" then inl ("stand in the same room as a living target to " +:+ verb)
      else if targetID ≟ ps_ID (player_at t i) then inl ("you cannot " +:+ self +:+ " yourself")
      else
        let target := player_at t targetIndex in
        if negb (ps_Alive target) then inl "target is already down"
        else if (ps_CurrentRoomID target ≟ "") ||
                (ps_CurrentRoomID target ≠? ps_CurrentRoomID (player_at t i)) then
          inl (same_room +:+ " requires target in your current room")
        else inr targetIndex
  end.

(** Takes the stacks away, one after the other; what was taken, in words. *)
Fixpoint confiscate (stacks : list ItemStack) (target : PlayerState) : PlayerState * list string :=
  match stacks with
  | [] => (target, [])
  | stack :: stacks =>
      match RemoveItem target (stk_Item stack) (stk_Quantity stack) with
      | None => confiscate stacks target
      | Some target =>
          let '(target, taken) := confiscate stacks target in
          (target, (stk_Item stack +:+ " x" +:+ Itoa (stk_Quantity stack)) :: taken)
      end
  end.

Definition use_search (i : nat) (targetID : PlayerID) (t : tickState) : ability_result :=
  match find_target i t targetID "search" "search" "search" with
  | inl reason => Denied t reason
  | inr j =>
      let target := player_at t j in
      let inventorySummary := summarizeInventoryForFeedback (ps_Inventory target) in
      let '(target, confiscated) := confiscate (ContrabandStacks target) target in
      let t := put_player j target t in
      if confiscated ≠? [] then
        let t := ensure_equipped_marked j t in
        let t := mark_player (ps_ID target) t in
        let t := feedback_marked j ActionFeedbackKindSystem ActionFeedbackLevelWarning
          ("Searched by " +:+ ps_Name (player_at t i) +:+ "; contraband confiscated.") t in
        applied_info t ("Search report on " +:+ ps_Name target +:+ ": inv=" +:+ inventorySummary +:+
          " | confiscated=" +:+ Join confiscated ", " +:+ ".")
      else
        let t := feedback_marked j ActionFeedbackKindSystem ActionFeedbackLevelInfo
          ("Searched by " +:+ ps_Name (player_at t i) +:+ ".") t in
        applied_info t ("Search report on " +:+ ps_Name target +:+ ": inv=" +:+ inventorySummary +:+ ".")
  end.

(** An effect on the player itself, for the time the ability works. *)
Definition use_effect (i : nat) (ability : AbilityType) (effect : EffectType)
    (unavailable active : string) (message : Z → string) (t : tickState) : ability_result :=
  let duration := EffectDurationTicks ability (ss_tickRateHz (tk_session t)) in
  if duration ≟ 0 then Denied t unavailable
  else
    let '(player, changed) := upsertEffectLocked (player_at t i) effect (u64 (tk_now t + duration))
      (ps_ID (player_at t i)) 0 1 in
    let t := put_player i player t in
    if changed then applied_info t (message duration) else Denied t active.

Definition use_camera (i : nat) (t : tickState) : ability_result :=
  if ps_CurrentRoomID (player_at t i) ≠? RoomCameraRoom then Denied t "go to the camera room"
  else if negb (ms_PowerOn (tk_map t)) then Denied t "restore power before using cameras"
  else use_effect i AbilityCameraMan EffectCameraView "camera system cooldown is unavailable"
         "camera feed is already active" (λ duration, "Camera feed active for " +:+ Itoa duration +:+ "t.") t.

Definition use_detainer (i : nat) (targetID : PlayerID) (t : tickState) : ability_result :=
  match find_target i t targetID "detain" "detain" "detainer" with
  | inl reason => Denied t reason
  | inr j =>
      let duration := EffectDurationTicks AbilityDetainer (ss_tickRateHz (tk_session t)) in
      if duration ≟ 0 then Denied t "detainer duration is unavailable"
      else
        let untilTick := u64 (tk_now t + duration) in
        let target := player_at t j in
        let '(target, changed) :=
          if ps_SolitaryUntilTick target <? untilTick then (target <| ps_SolitaryUntilTick := untilTick |>, true)
          else (target, false) in
        let '(target, changed) :=
          if (ps_AssignedCell target ≠? 0) && (ps_LockedInCell target ≠? ps_AssignedCell target) then
            (target <| ps_LockedInCell := ps_AssignedCell target |>, true)
          else (target, changed) in
        let t := put_player j target t in
        if changed then
          let t := mark_player (ps_ID target) t in
          let t := feedback_marked j ActionFeedbackKindStun ActionFeedbackLevelWarning
            ("Detained by " +:+ ps_Name (player_at t i) +:+ " until tick " +:+ Itoa untilTick +:+ ".") t in
          Applied t ActionFeedbackKindStun ActionFeedbackLevelInfo
            ("Detainer applied to " +:+ ps_Name target +:+ ".")
        else Denied t "target is already fully detained"
  end.

(** Moves items between two players, brings their equipment up to date and marks the one who
    loses them. *)
Definition steal (from to : nat) (item : ItemType) (t : tickState) : option tickState :=
  '(source, receiver) ← TransferItem (player_at t from) (player_at t to) item 1;
  let t := put_player to receiver (put_player from source t) in
  let t := ensure_equipped_marked from t in
  let t := ensure_equipped_marked to t in
  Some (mark_player (ps_ID source) t).

Definition use_pick_pocket (i : nat) (targetID : PlayerID) (t : tickState) : ability_result :=
  match find_target i t targetID "pick-pocket" "pick-pocket" "pick-pocket" with
  | inl reason => Denied t reason
  | inr j =>
      let target := player_at t j in
      let player := player_at t i in
      let item := DeterministicGrabFromInventory (ps_ID player) (ps_ID target) (tk_now t)
        (ps_Inventory target) in
      if item ≟ "" then Denied t "target has no stealable items"
      else match steal j i item t with
      | None => Denied t "pick-pocket failed"
      | Some t =>
          let t := feedback_marked j ActionFeedbackKindSystem ActionFeedbackLevelWarning
            ("An item was stolen by " +:+ ps_Name player +:+ ".") t in
          applied_info t ("Pick-pocket stole " +:+ item +:+ " from " +:+ ps_Name target +:+ ".")
      end
  end.

Definition use_hacker (t : tickState) : ability_result :=
  if negb (ms_PowerOn (tk_map t)) then Denied t "power is already off"
  else
    let '(m, changed) := ApplyPowerState (tk_map t) false in
    if negb changed then Denied t "power controls are unavailable"
    else Applied (mark_all_doors (on_map (λ _, m) t)) ActionFeedbackKindDoor ActionFeedbackLevelInfo
           "Hacker cut power OFF.".

Definition use_locksmith (targetDoorID : DoorID) (t : tickState) : ability_result :=
  if negb (ms_PowerOn (tk_map t)) then Denied t "power must be on to use locksmith"
  else if targetDoorID ≟ 0 then Denied t "stand by an accessible door"
  else match find_door (ms_Doors (tk_map t)) targetDoorID with
  | None => Denied t "target door no longer exists"
  | Some doorIndex =>
      let door := door_at t doorIndex in
      let changed := ds_Locked door || negb (ds_Open door) in
      let door := door <| ds_Locked := false |> <| ds_Open := true |> in
      let t := put_door doorIndex door t in
      let '(session, unlockedRoomID, unlockedRoom) :=
        unlockRoomForPrisonersFromDoorLocked (tk_session t) door in
      let t := t <| tk_session := session |> in
      if changed || unlockedRoom then
        let t := mark_if changed (mark_door (ds_ID door)) t in
        let roomLabel :=
          if unlockedRoomID ≟ RoomPowerRoom then "Power Room"
          else if unlockedRoomID ≟ RoomAmmoRoom then "Ammunition Room" else "restricted room" in
        Applied t ActionFeedbackKindDoor ActionFeedbackLevelInfo
          (if unlockedRoom then "Locksmith unlocked " +:+ roomLabel +:+ " access for prisoners."
           else "Locksmith opened door " +:+ Itoa (ds_ID door) +:+ ".")
      else Denied t "target door is already unlocked and open"
  end.

Definition use_chameleon (i : nat) (t : tickState) : ability_result :=
  let player := player_at t i in
  if hasActiveEffect player EffectChameleon (tk_now t) then
    Denied t "you are already hidden; move to reveal"
  else
    let pending := default 0 (ss_chameleonPendingUntil (tk_session t) !! ps_ID player) in
    if (pending ≠? 0) && (tk_now t <? pending) then Denied t "chameleon is already primed"
    else
      let pendingTicks := u64 (ss_tickRateHz (tk_session t) * 5) in
      let pendingTicks := if pendingTicks ≟ 0 then 5 else pendingTicks in
      applied_info
        (t <| tk_session ::= λ s, s <| ss_chameleonPendingUntil ::=
          <[ps_ID player := u64 (tk_now t + pendingTicks)]> |> |>)
        "Stay still for 5s to trigger chameleon invisibility.".

Definition use_ability (i : nat) (payload : AbilityUsePayload) (t : tickState) : ability_result :=
  let ability := ap_Ability payload in
  if ability ≟ AbilityAlarm then use_alarm i t
  else if ability ≟ AbilitySearch then use_search i (ap_TargetPlayerID payload) t
  else if ability ≟ AbilityCameraMan then use_camera i t
  else if ability ≟ AbilityDetainer then use_detainer i (ap_TargetPlayerID payload) t
  else if ability ≟ AbilityTracker then
    use_effect i AbilityTracker EffectTrackerView "tracker duration is unavailable"
      "tracker view is already active" (λ duration, "Tracker view active for " +:+ Itoa duration +:+ "t.") t
  else if ability ≟ AbilityPickPocket then use_pick_pocket i (ap_TargetPlayerID payload) t
  else if ability ≟ AbilityHacker then use_hacker t
  else if ability ≟ AbilityDisguise then
    use_effect i AbilityDisguise EffectDisguised "disguise duration is unavailable"
      "disguise is already active" (λ duration, "Disguise active for " +:+ Itoa duration +:+ "t.") t
  else if ability ≟ AbilityLocksmith then use_locksmith (ap_TargetDoorID payload) t
  else if ability ≟ AbilityChameleon then use_chameleon i t
  else Denied t "ability is not implemented".

(** ** The command *)

Definition HasSuffix (s suffix : string) : bool := String.prefix (String.rev suffix) (String.rev s).

Definition denyAbilityUseLocked (i : nat) (reason : string) (t : tickState) : tickState * bool :=
  let trimmed := TrimSpace reason in
  let trimmed := if trimmed ≟ "" then "that action is unavailable right now" else trimmed in
  let message := "can't use that here: " +:+ trimmed in
  let message := if HasSuffix message "." then message else message +:+ "." in
  let '(t, changed) := feedback i ActionFeedbackKindSystem ActionFeedbackLevelWarning message t in
  (mark_if changed (mark_player (ps_ID (player_at t i))) t, changed).

Definition applyAbilityCommandLocked (i : nat) (payload : AbilityUsePayload) (t : tickState) :
    tickState * bool :=
  let player := player_at t i in
  let ability := ap_Ability payload in
  if negb (IsKnownAbility ability) then denyAbilityUseLocked i "unknown ability" t
  else if (ps_AssignedAbility player ≠? "") && (ability ≠? ps_AssignedAbility player) then
    denyAbilityUseLocked i ("you are assigned " +:+ ps_AssignedAbility player +:+ " this match") t
  else if negb (CanPlayerUse player ability) then
    denyAbilityUseLocked i "your role cannot use this ability" t
  else match canUseAbilityAtCurrentTick (tk_session t) player ability with
  | Some reason => denyAbilityUseLocked i reason t
  | None =>
      let payload := resolveAbilityTargetsForContextLocked (tk_session t) player payload in
      match use_ability i payload t with
      | Denied t reason => denyAbilityUseLocked i reason t
      | Applied t kind level message =>
          let t := t <| tk_session ::= λ s, registerAbilityUseLocked s (player_at t i) ability |> in
          (feedback_marked i kind level message t, true)
      end
  end.

End abilities.

(** ** What they change and report *)

(** A refusal changes nothing; the user of an ability is still to be reported. *)
Definition ability_effect (t : tickState) (i : nat) (r : ability_result) : Prop :=
  match r with
  | Denied t' _ => changes ∅ 0 t t'
  | Applied t' _ _ _ => changes {[ps_ID (player_at t i)]} 0 t t'
  end.

Lemma denied_same t i reason : ability_effect t i (Denied t reason).
Proof. apply changes_refl. Qed.
#[local] Hint Resolve denied_same : core.

Lemma confiscate_goods stacks p : only_goods p (confiscate stacks p).1.
Proof.
  revert p. induction stacks as [|stack stacks IH]; intros p; simpl; [apply only_goods_refl|].
  destruct (RemoveItem p _ _) as [q|] eqn:Hq; [|apply IH].
  pose proof (IH q) as Hr. destruct (confiscate stacks q) as [r taken].
  eapply only_goods_trans; [by eapply RemoveItem_goods|done].
Qed.
(** Nothing taken, nothing changed. *)
Lemma confiscate_nothing stacks p : (confiscate stacks p).2 = [] → (confiscate stacks p).1 = p.
Proof.
  revert p. induction stacks as [|stack stacks IH]; intros p; simpl; [done|].
  destruct (RemoveItem p _ _) as [q|] eqn:Hq; [|apply IH].
  by destruct (confiscate stacks q).
Qed.

Lemma changes_steal from to item t t' :
  steal from to item t = Some t' → changes {[ps_ID (player_at t to)]} 0 t t'.
Proof.
  unfold steal. intros H. apply bind_Some in H as ([source receiver] & Htr & H). simplify_eq.
  assert (ps_ID source = ps_ID (player_at t from)) as Hid.
  { apply TransferItem_vitals in Htr as [Hs _]. apply Hs. }
  rewrite Hid. apply changes_settle.
  eapply changes_step; [eapply changes_transfer; [exact Htr|set_solver..]|].
  eapply changes_step; apply changes_ensure_equipped_marked.
Qed.

Section effects.
Context (playerIndex : gmap PlayerID nat) (t : tickState) (i : nat).

Lemma use_alarm_effect : ability_effect t i (use_alarm i t).
Proof. unfold use_alarm. cbv zeta. case_match; [done|]. by apply changes_silent. Qed.

Lemma use_search_effect targetID : ability_effect t i (use_search playerIndex i targetID t).
Proof.
  unfold use_search. destruct (find_target _ _ _ _ _ _ _) as [reason|j]; [done|]. cbv zeta.
  pose proof (confiscate_goods (ContrabandStacks (player_at t j)) (player_at t j)) as Hg.
  pose proof (confiscate_nothing (ContrabandStacks (player_at t j)) (player_at t j)) as Hn.
  destruct (confiscate _ _) as [target taken]. cbn [fst snd] in *. case_match eqn:Htaken; bool_props.
  - assert (ps_ID target = ps_ID (player_at t j)) as -> by apply (only_goods_vitals _ _ Hg).
    eapply changes_step; [|apply changes_feedback_marked]. apply changes_none; [done|].
    apply changes_settle. eapply changes_step; [|apply changes_ensure_equipped_marked].
    apply changes_put_steady; [by apply only_goods_steady|set_solver].
  - subst taken. rewrite Hn, put_player_same by done. apply changes_feedback_marked.
Qed.

Lemma use_effect_effect ability effect unavailable active message :
  ability_effect t i (use_effect i ability effect unavailable active message t).
Proof.
  unfold use_effect. cbv zeta. case_match; [done|].
  match goal with |- context [upsertEffectLocked ?p ?e ?n ?s ?d ?k] =>
    pose proof (tells_upsert (now := tk_now t) p e n s d k) as [Hs Hb];
    destruct (upsertEffectLocked p e n s d k) as [player changed] end.
  cbn [fst snd] in *. destruct changed.
  - apply changes_put_steady; [done|set_solver].
  - rewrite Hb, put_player_same by done. done.
Qed.
Lemma use_camera_effect : ability_effect t i (use_camera i t).
Proof. unfold use_camera. do 2 (case_match; [done|]). apply use_effect_effect. Qed.

Lemma use_detainer_effect targetID : ability_effect t i (use_detainer playerIndex i targetID t).
Proof.
  unfold use_detainer. destruct (find_target _ _ _ _ _ _ _) as [reason|j]; [done|]. cbv zeta.
  case_match; [done|]. set (untilTick := u64 _). 
  set (r := if ps_SolitaryUntilTick (player_at t j) <? untilTick then _ else _).
  assert (tells (tk_now t) (player_at t j) r) as Hr.
  { unfold r. case_match; [by apply tells_vitals|apply tells_same]. }
  destruct r as [q b].
  set (r := if _ && _ then _ else (q, b)).
  assert (tells (tk_now t) (player_at t j) r) as Hr2.
  { unfold r. case_match; [|done]. apply tells_steady. eapply steady_trans; [apply Hr|].
    by apply same_vitals_steady. }
  destruct r as [target changed]. destruct Hr2 as [Hs Hb]. cbn [fst snd] in *. destruct changed.
  - assert (ps_ID target = ps_ID (player_at t j)) as -> by apply Hs.
    eapply changes_step; [by apply changes_put_marked|apply changes_feedback_marked].
  - rewrite Hb, put_player_same by done. done.
Qed.

Lemma use_pick_pocket_effect targetID : ability_effect t i (use_pick_pocket playerIndex i targetID t).
Proof.
  unfold use_pick_pocket. destruct (find_target _ _ _ _ _ _ _) as [reason|j]; [done|]. cbv zeta.
  case_match; [done|]. destruct (steal j i _ t) as [t'|] eqn:Hst; [|done].
  eapply changes_step; [by eapply changes_steal|apply changes_feedback_marked].
Qed.

Lemma use_hacker_effect : ability_effect t i (use_hacker t).
Proof.
  unfold use_hacker. case_match; [done|]. pose proof (changes_power {[ps_ID (player_at t i)]} t false) as Hc.
  destruct (ApplyPowerState _ _) as [m changed]. case_match; [done|exact Hc].
Qed.

Lemma unlock_room_silent session door :
  ∃ rooms, (unlockRoomForPrisonersFromDoorLocked session door).1.1 =
    session <| ss_prisonerUnlockedRooms := rooms |>.
Proof.
  unfold unlockRoomForPrisonersFromDoorLocked. cbv zeta.
  assert (∃ rooms, session = session <| ss_prisonerUnlockedRooms := rooms |>) as Hsame.
  { exists (ss_prisonerUnlockedRooms session). by destruct session. }
  repeat case_match; try done; cbn [fst]; by eexists.
Qed.

Lemma use_locksmith_effect doorID : ability_effect t i (use_locksmith doorID t).
Proof.
  unfold use_locksmith. do 2 (case_match; [done|]).
  destruct (find_door _ _) as [k|]; [|done]. cbv zeta.
  set (changed := ds_Locked (door_at t k) || negb (ds_Open (door_at t k))).
  set (door := door_at t k <| ds_Locked := false |> <| ds_Open := true |>).
  assert (ds_ID door = ds_ID (door_at t k)) as Hid by done.
  assert (changed = false → door = door_at t k) as Hsame.
  { unfold changed, door. intros [Hl Ho]%orb_false_iff. bool_props. destruct (door_at t k). cbn in *.
    by subst. }
  destruct (unlock_room_silent (tk_session (put_door k door t)) door) as [rooms Hrooms].
  destruct (unlockRoomForPrisonersFromDoorLocked _ _) as [[session room] unlocked]. cbn [fst] in Hrooms.
  subst session. case_match eqn:Hch.
  - cbn [ability_effect]. apply changes_none; [done|].
    eapply (changes_step _ _ (mark_if changed (mark_door (ds_ID door)) (put_door k door t)));
      [by apply changes_put_door_if|]. destruct changed; by apply changes_silent.
  - apply orb_false_iff in Hch as [Hch _]. cbn [ability_effect].
    rewrite Hsame, put_door_same by done. by apply changes_silent.
Qed.

Lemma use_chameleon_effect : ability_effect t i (use_chameleon i t).
Proof. unfold use_chameleon. cbv zeta. do 2 (case_match; [done|]). by apply changes_silent. Qed.

Lemma use_ability_effect payload : ability_effect t i (use_ability playerIndex i payload t).
Proof.
  unfold use_ability. cbv zeta. repeat case_match; auto using use_alarm_effect, use_search_effect,
    use_camera_effect, use_detainer_effect, use_effect_effect, use_pick_pocket_effect,
    use_hacker_effect, use_locksmith_effect, use_chameleon_effect.
Qed.
End effects.

Lemma owes_deny i reason t : owes (ps_ID (player_at t i)) t (denyAbilityUseLocked i reason t).
Proof.
  unfold denyAbilityUseLocked. cbv zeta.
  match goal with |- context [feedback i ?k ?l ?m t] =>
    pose proof (owes_marked i t _ (owes_feedback i k l m t)) as H; destruct (feedback i k l m t) as [t' b] end.
  by apply owes_none.
Qed.

Lemma registerAbilityUse_fields session player ability :
  ∃ cooldowns usage, registerAbilityUseLocked session player ability =
    session <| ss_abilityCooldownUntil := cooldowns |> <| ss_abilityDailyUsage := usage |>.
Proof.
  unfold registerAbilityUseLocked. cbv zeta.
  set (s1 := if 0 <? CooldownTicks ability (ss_tickRateHz session) then _ else session).
  assert (∃ cooldowns, s1 = session <| ss_abilityCooldownUntil := cooldowns |>) as [cooldowns ->].
  { unfold s1. case_match; [by eexists|]. exists (ss_abilityCooldownUntil session). by destruct session. }
  exists cooldowns. case_match; [by eexists|].
  exists (ss_abilityDailyUsage session). by destruct session.
Qed.
Lemma registerAbilityUse_silent D t player ability :
  changes D 0 t (t <| tk_session ::= λ s, registerAbilityUseLocked s player ability |>).
Proof.
  destruct (registerAbilityUse_fields (tk_session t) player ability) as (cooldowns & usage & H).
  change (t <| tk_session ::= λ s, registerAbilityUseLocked s player ability |>)
    with (t <| tk_session := registerAbilityUseLocked (tk_session t) player ability |>).
  rewrite H. by apply changes_silent.
Qed.

Lemma owes_ability playerIndex i payload t :
  owes (ps_ID (player_at t i)) t (applyAbilityCommandLocked playerIndex i payload t).
Proof.
  unfold applyAbilityCommandLocked. cbv zeta. do 3 (case_match; [apply owes_deny|]).
  destruct (canUseAbilityAtCurrentTick _ _ _); [apply owes_deny|].
  pose proof (use_ability_effect playerIndex t i
    (resolveAbilityTargetsForContextLocked (tk_session t) (player_at t i) payload)) as He.
  destruct (use_ability _ _ _ _) as [t' reason|t' kind level message]; cbn [ability_effect] in He.
  - eapply owes_trans; [by apply (owes_none _ t t' false)| |done].
    rewrite <-(changes_ID _ _ _ _ i He). apply owes_deny.
  - apply owes_true. eapply changes_step; [exact He|]. eapply changes_step; [|apply changes_feedback_marked].
    apply registerAbilityUse_silent.
Qed.
