(* ===== verification/CardUse.v ===== *)
(** * Playing a card

    [internal/server/game/manager.go], [applyCardCommandLocked]: the card leaves the hand
    first and comes back when it had no effect. *)

From S2P Require Import Prelude Float32 Model GoStrings Hashing Layout Access Items Physics Prison Cards Abilities Combat Session Spawn Actions Changes Economy Doors AbilityUse.

#[local] Open Scope Z_scope.

Definition firstInventoryItem (inventory : list ItemStack) : ItemType :=
  foldl (λ first stack,
    if stk_Quantity stack ≟ 0 then first
    else if (first ≟ "") || String.ltb (stk_Item stack) first then stk_Item stack else first) "" inventory.

(** What a card did: the state, whether it applied, and the message for the player. *)
Record card_result := mkCardResult {
  cr_state : tickState; cr_applied : bool;
  cr_kind : ActionFeedbackKind; cr_level : ActionFeedbackLevel; cr_message : string;
}.

Definition card_done (t : tickState) (applied : bool) : card_result :=
  mkCardResult t applied ActionFeedbackKindSystem ActionFeedbackLevelInfo "".

Section cards.
Variable playerIndex : gmap PlayerID nat.

Definition play_morphine (i : nat) (t : tickState) : card_result :=
  let player := player_at t i in
  let maxHearts := MaxHeartsHalfForRole (ps_Role player) in
  let maxHearts := if maxHearts ≟ 0 then 6 else maxHearts in
  let before := ps_HeartsHalf player in
  if before <? maxHearts then
    let space := maxHearts - before in
    let heal := if space <? 2 then space else 2 in
    card_done (put_player i (player <| ps_HeartsHalf ::= λ h, u8 (h + heal) |>) t) (0 <? heal)
  else card_done t false.

Definition play_bullet (i : nat) (t : tickState) : card_result :=
  let player := player_at t i in
  let maxBullets := if IsAuthorityPlayer player then authorityAmmoMax else 255 in
  if ps_Bullets player <? maxBullets then
    let player := player <| ps_Bullets ::= λ b, u8 (b + 1) |> in
    let '(player, synced) := syncAuthorityBulletStackLocked player in
    card_done (mark_if synced (mark_player (ps_ID player)) (put_player i player t)) true
  else card_done t false.

Definition play_money (i : nat) (targetEntityID : EntityID) (t : tickState) : card_result :=
  let '(session, applied, message, level, changed) :=
    tryBribeNPCPrisonerWithMoneyCardLocked (tk_session t) i targetEntityID in
  let t := t <| tk_session := session |> in
  let t := match changed with Some entityID => mark_entity entityID t | None => t end in
  mkCardResult t applied ActionFeedbackKindPurchase level message.

Definition play_speed (i : nat) (t : tickState) : card_result :=
  let duration := SpeedDurationTicks (ss_tickRateHz (tk_session t)) in
  if 0 <? duration then
    let '(player, changed) := upsertEffectLocked (player_at t i) EffectSpeedBoost
      (u64 (tk_now t + duration)) (ps_ID (player_at t i)) 0 1 in
    card_done (put_player i player t) changed
  else card_done t false.

Definition play_armor (i : nat) (t : tickState) : card_result :=
  let endTick := ph_EndsTick (gs_Phase (tk_game t)) in
  let endTick :=
    if (endTick ≟ 0) || (endTick <=? tk_now t) then u64 (tk_now t + ss_tickRateHz (tk_session t))
    else endTick in
  let player := player_at t i in
  let '(player, changed) :=
    if ps_TempHeartsHalf player <? 2 then (player <| ps_TempHeartsHalf := 2 |>, true) else (player, false) in
  let '(player, upserted) := upsertEffectLocked player EffectArmorPlate endTick (ps_ID player) 0 1 in
  card_done (put_player i player t) (changed || upserted).

Definition play_lock_snap (targetDoorID : DoorID) (t : tickState) : card_result :=
  if targetDoorID ≟ 0 then card_done t false
  else match find_door (ms_Doors (tk_map t)) targetDoorID with
  | None => card_done t false
  | Some doorIndex =>
      let door := door_at t doorIndex in
      if negb (ds_Locked door) then card_done t false
      else
        let restoreTick := ph_EndsTick (gs_Phase (tk_game t)) in
        let restoreTick :=
          if (restoreTick ≟ 0) || (restoreTick <=? tk_now t)
          then u64 (tk_now t + ss_tickRateHz (tk_session t)) else restoreTick in
        let restoreTick := if restoreTick <=? tk_now t then u64 (tk_now t + 1) else restoreTick in
        let restore := mkRestore restoreTick (ds_Locked door) (ds_Open door) in
        let t := t <| tk_session ::= λ s, s <| ss_lockSnapDoorRestores ::= <[ds_ID door := restore]> |> |> in
        let door := door <| ds_Locked := false |> <| ds_Open := true |> in
        card_done (mark_door (ds_ID door) (put_door doorIndex door t)) true
  end.

(** The target of a card that takes an item from another player. *)
Definition card_target (i : nat) (t : tickState) (targetID : PlayerID) : option nat :=
  targetIndex ← playerIndex !! targetID;
  if (targetID ≟ "") || (targetID ≟ ps_ID (player_at t i)) then None
  else
    let target := player_at t targetIndex in
    if negb (ps_Alive target) || (ps_CurrentRoomID target ≟ "") ||
       (ps_CurrentRoomID target ≠? ps_CurrentRoomID (player_at t i)) then None
    else Some targetIndex.

Definition play_steal (i : nat) (targetID : PlayerID) (targetItem : ItemType) (t : tickState) : card_result :=
  match card_target i t targetID with
  | None => card_done t false
  | Some j =>
      let item :=
        if targetItem ≠? "" then targetItem else firstInventoryItem (ps_Inventory (player_at t j)) in
      if item ≟ "" then card_done t false
      else match steal j i item t with
      | None => card_done t false
      | Some t => card_done t true
      end
  end.

Definition play_grab (i : nat) (targetID : PlayerID) (t : tickState) : card_result :=
  match card_target i t targetID with
  | None => card_done t false
  | Some j =>
      let item := DeterministicGrabFromInventory (ps_ID (player_at t i)) (ps_ID (player_at t j)) (tk_now t)
        (ps_Inventory (player_at t j)) in
      if item ≟ "" then card_done t false
      else match steal j i item t with
      | None => card_done t false
      | Some t => card_done t true
      end
  end.

Definition play_scrap (i : nat) (t : tickState) : card_result :=
  let player := player_at t i in
  let addedWood := AddItem player ItemWood 1 in
  let player := default player addedWood in
  let addedMetal := AddItem player ItemMetalSlab 1 in
  let player := default player addedMetal in
  let applied := bool_decide (is_Some addedWood) || bool_decide (is_Some addedMetal) in
  let t := put_player i player t in
  card_done (if applied then ensure_equipped_marked i t else t) applied.

Definition play_door_stop (i : nat) (targetDoorID : DoorID) (t : tickState) : card_result :=
  if (targetDoorID ≟ 0) || negb (ms_PowerOn (tk_map t)) then card_done t false
  else
    let duration := DoorStopDurationTicks (ss_tickRateHz (tk_session t)) in
    if duration ≟ 0 then card_done t false
    else match find_door (ms_Doors (tk_map t)) targetDoorID with
    | None => card_done t false
    | Some doorIndex =>
        let door := door_at t doorIndex in
        let blockUntil := u64 (tk_now t + duration) in
        let playerID := ps_ID (player_at t i) in
        let '(door, changed) :=
          if ds_Open door then (door <| ds_Open := false |>, true) else (door, false) in
        let '(door, changed) :=
          if ds_BlockedUntilTick door <? blockUntil
          then (door <| ds_BlockedUntilTick := blockUntil |>, true) else (door, changed) in
        let '(door, changed) :=
          if ds_LockedByPlayerID door ≠? playerID
          then (door <| ds_LockedByPlayerID := playerID |>, true) else (door, changed) in
        card_done (mark_if changed (mark_door (ds_ID door)) (put_door doorIndex door t)) changed
    end.

Definition play_jail_free (i : nat) (t : tickState) : card_result :=
  let player := player_at t i in
  if (ps_SolitaryUntilTick player ≠? 0) || (ps_LockedInCell player ≠? 0) then
    card_done (put_player i (player <| ps_SolitaryUntilTick := 0 |> <| ps_LockedInCell := 0 |>) t) true
  else card_done t false.

Definition play_card (i : nat) (payload : CardUsePayload) (t : tickState) : card_result :=
  let card := cp_Card payload in
  if card ≟ CardMorphine then play_morphine i t
  else if card ≟ CardBullet then play_bullet i t
  else if card ≟ CardMoney then play_money i (cp_TargetEntityID payload) t
  else if card ≟ CardSpeed then play_speed i t
  else if card ≟ CardArmorPlate then play_armor i t
  else if card ≟ CardLockSnap then play_lock_snap (cp_TargetDoorID payload) t
  else if card ≟ CardItemSteal then play_steal i (cp_TargetPlayerID payload) (cp_TargetItem payload) t
  else if card ≟ CardItemGrab then play_grab i (cp_TargetPlayerID payload) t
  else if card ≟ CardScrapBundle then play_scrap i t
  else if card ≟ CardDoorStop then play_door_stop i (cp_TargetDoorID payload) t
  else if card ≟ CardGetOutOfJailFree then play_jail_free i t
  else card_done t false.

Definition applyCardCommandLocked (i : nat) (payload : CardUsePayload) (t : tickState) : tickState * bool :=
  let player := player_at t i in
  if negb (IsKnownCard (cp_Card payload)) then (t, false)
  else match RemoveCard player (cp_Card payload) with
  | None => (t, false)
  | Some player =>
      let r := play_card i payload (put_player i player t) in
      let t := cr_state r in
      if negb (cr_applied r) then
        let t := put_player i (default (player_at t i) (AddCard (player_at t i) (cp_Card payload))) t in
        let '(t, changed) := feedback i (cr_kind r) (cr_level r) (cr_message r) t in
        (mark_if changed (mark_player (ps_ID (player_at t i))) t, changed)
      else (feedback_marked i (cr_kind r) (cr_level r) (cr_message r) t, true)
  end.

End cards.

(** ** What they change and report *)

(** A card without effect changes nothing. *)
Definition card_effect (t : tickState) (i : nat) (r : card_result) : Prop :=
  changes {[ps_ID (player_at t i)]} 0 t (cr_state r) ∧ (cr_applied r = false → cr_state r = t).

Section effects.
Context (playerIndex : gmap PlayerID nat) (t : tickState) (i : nat).

Lemma card_none : card_effect t i (card_done t false).
Proof. split; [apply changes_refl|done]. Qed.
Lemma card_put p applied :
  tells (tk_now t) (player_at t i) (p, applied) → card_effect t i (card_done (put_player i p t) applied).
Proof.
  intros [Hs Hb]. split; [apply changes_put_steady; [done|set_solver]|].
  cbn in *. intros Ha. rewrite Hb by done. apply put_player_same.
Qed.
#[local] Hint Resolve card_none : core.

Lemma play_morphine_effect : sound t → card_effect t i (play_morphine i t).
Proof.
  intros Hsound. unfold play_morphine. cbv zeta. case_match eqn:Hlt; [|done]. bool_props.
  apply card_put. split.
  - split_and!; [done| |by left]. intros [Hh ? Ha ? ?]. cbn [fst] in *.
    set (heal := if _ <? 2 then _ else 2).
    assert (is_u8 (ps_HeartsHalf (player_at t i) + heal) ∧ 0 <= heal) as [Hu Hheal].
    { unfold heal, is_u8 in *. pose proof (MaxHearts_range (ps_Role (player_at t i))) as [_ Hm].
      unfold is_u8 in *. repeat case_match; bool_props; lia. }
    split; cbn; rewrite ?u8_small by done; try done. intros Hal. specialize (Ha Hal). lia.
  - cbn [fst snd]. intros Hheal. exfalso. bool_props. repeat case_match; bool_props; lia.
Qed.

Lemma play_bullet_effect : card_effect t i (play_bullet i t).
Proof.
  unfold play_bullet. cbv zeta. case_match; [|done].
  pose proof (tells_sync (now := tk_now t) (player_at t i <| ps_Bullets ::= λ b, u8 (b + 1) |>)) as [Hs _].
  destruct (syncAuthorityBulletStackLocked _) as [player synced]. split; [|done].
  eapply changes_step; [|apply changes_mark_if; intros; apply changes_mark_player].
  apply changes_put_steady; [|set_solver]. eapply steady_trans; [|exact Hs]. by apply same_vitals_steady.
Qed.

Lemma play_money_effect entityID : card_effect t i (play_money i entityID t).
Proof.
  unfold play_money. pose proof (bribe_outcome t i entityID) as H.
  destruct (tryBribeNPCPrisonerWithMoneyCardLocked _ _ _) as [[[[session applied] message] level] changed].
  destruct H as [Ho Hn]. split; cbn [cr_state cr_applied].
  - eapply changes_weaken; [|done|exact Ho]. destruct applied; set_solver.
  - intros ->. destruct (Hn eq_refl) as [-> ->]. by destruct t.
Qed.

Lemma play_speed_effect : card_effect t i (play_speed i t).
Proof.
  unfold play_speed. cbv zeta. case_match; [|done].
  match goal with |- context [upsertEffectLocked ?p ?e ?n ?s ?d ?k] =>
    pose proof (tells_upsert (now := tk_now t) p e n s d k) as Hu; destruct (upsertEffectLocked p e n s d k) end.
  by apply card_put.
Qed.

Lemma play_armor_effect : card_effect t i (play_armor i t).
Proof.
  unfold play_armor. cbv zeta.
  set (r := if ps_TempHeartsHalf (player_at t i) <? 2 then _ else _).
  assert (tells (tk_now t) (player_at t i) r) as Hr.
  { unfold r. case_match; [|apply tells_same]. apply tells_steady. split_and!; [done| |by left]. intros []. by split. }
  destruct r as [q b].
  match goal with |- context [upsertEffectLocked ?p ?e ?n ?s ?d ?k] =>
    pose proof (tells_upsert (now := tk_now t) p e n s d k) as Hu; destruct (upsertEffectLocked p e n s d k) as [r c] end.
  apply card_put. exact (tells_or _ _ _ _ Hr Hu).
Qed.
Lemma play_lock_snap_effect doorID : card_effect t i (play_lock_snap doorID t).
Proof.
  unfold play_lock_snap. cbv zeta. case_match; [done|]. destruct (find_door _ _) as [k|]; [|done].
  case_match; [done|]. split; [|done]. cbn [cr_state card_done].
  eapply changes_step; [|by apply changes_put_door]. by apply changes_silent.
Qed.

Lemma card_steal j item :
  card_effect t i (match steal j i item t with
                   | None => card_done t false | Some t => card_done t true end).
Proof.
  destruct (steal j i item t) as [t'|] eqn:Hst; [|done]. split; [by eapply changes_steal|done].
Qed.
Lemma play_steal_effect targetID item : card_effect t i (play_steal playerIndex i targetID item t).
Proof.
  unfold play_steal. destruct (card_target _ _ _ _) as [j|]; [|done]. cbv zeta.
  do 2 case_match; try done; apply card_steal.
Qed.
Lemma play_grab_effect targetID : card_effect t i (play_grab playerIndex i targetID t).
Proof.
  unfold play_grab. destruct (card_target _ _ _ _) as [j|]; [|done]. cbv zeta.
  case_match; [done|]. apply card_steal.
Qed.

Lemma play_scrap_effect : card_effect t i (play_scrap i t).
Proof.
  unfold play_scrap. cbv zeta. set (p := player_at t i).
  destruct (AddItem p ItemWood 1) as [q|] eqn:Hq; cbn [default from_option id].
  - destruct (AddItem q ItemMetalSlab 1) as [r|] eqn:Hr; cbn [default from_option id orb].
    all: rewrite bool_decide_eq_true_2 by eauto; cbn [orb]; split; [|done]; cbn [cr_state card_done].
    all: eapply changes_step; [apply (changes_put_steady _ t i); [|set_solver]|apply changes_ensure_equipped_marked].
    + apply only_goods_steady. eapply only_goods_trans; [by eapply AddItem_goods|by eapply AddItem_goods].
    + by eapply only_goods_steady, AddItem_goods.
  - rewrite bool_decide_eq_false_2 by (intros [? [=]]). cbn [orb].
    destruct (AddItem p ItemMetalSlab 1) as [r|] eqn:Hr; cbn [default from_option id].
    + rewrite bool_decide_eq_true_2 by eauto. split; [|done]. cbn [cr_state card_done].
      eapply changes_step; [apply (changes_put_steady _ t i); [|set_solver]|apply changes_ensure_equipped_marked].
      by eapply only_goods_steady, AddItem_goods.
    + rewrite bool_decide_eq_false_2 by (intros [? [=]]). unfold p. rewrite put_player_same. done.
Qed.

Lemma play_door_stop_effect doorID : card_effect t i (play_door_stop i doorID t).
Proof.
  unfold play_door_stop. cbv zeta. do 2 (case_match; [done|]).
  destruct (find_door _ _) as [k|]; [|done]. set (until := u64 _). set (me := ps_ID _).
  assert (∀ r, ds_ID r.1 = ds_ID (door_at t k) → (r.2 = false → r.1 = door_at t k) →
    card_effect t i (card_done (mark_if r.2 (mark_door (ds_ID r.1)) (put_door k r.1 t)) r.2)) as Hdone.
  { intros [door b] Hid Hb. cbn [fst snd] in *. split; [by apply changes_put_door_if|].
    cbn. intros ->. cbn. rewrite Hb, put_door_same by done. done. }
  destruct (ds_Open (door_at t k)); cbv beta iota; destruct (_ <? until); cbv beta iota;
    destruct (ds_LockedByPlayerID _ ≠? me); cbv beta iota;
    match goal with |- card_effect _ _ (card_done (mark_if ?b _ (put_door _ ?d _)) _) =>
      apply (Hdone (d, b)) end; done.
Qed.

Lemma play_jail_free_effect : card_effect t i (play_jail_free i t).
Proof. unfold play_jail_free. cbv zeta. case_match; [|done]. apply card_put. by apply tells_vitals. Qed.

Lemma play_card_effect payload : sound t → card_effect t i (play_card playerIndex i payload t).
Proof.
  intros Hsound. unfold play_card. cbv zeta. repeat case_match; auto using play_morphine_effect,
    play_bullet_effect, play_money_effect, play_speed_effect, play_armor_effect, play_lock_snap_effect,
    play_steal_effect, play_grab_effect, play_scrap_effect, play_door_stop_effect, play_jail_free_effect.
Qed.
End effects.

(** The hand after a card without effect is the hand before it, and so is everything else. *)
Lemma card_returned i card p t :
  sound t → RemoveCard (player_at t i) card = Some p →
  let t1 := put_player i p t in
  put_player i (default (player_at t1 i) (AddCard (player_at t1 i) card)) t1 = t.
Proof.
  intros Hsound Hr. cbv zeta.
  assert (is_Some (tk_playerStates t !! i)) as Hi.
  { apply player_at_there. intros Hz. rewrite Hz in Hr. unfold RemoveCard in Hr.
    cbn in Hr. by rewrite orb_true_r in Hr. }
  rewrite player_at_put, (RemoveCard_AddCard (player_at t i)) by (done || by apply sound_at).
  cbn [default from_option id]. by rewrite put_player_put, put_player_same.
Qed.

Lemma owes_card playerIndex i payload t :
  sound t → owes (ps_ID (player_at t i)) t (applyCardCommandLocked playerIndex i payload t).
Proof.
  intros Hsound. unfold applyCardCommandLocked. cbv zeta.
  case_match; [by apply owes_none, changes_refl|].
  destruct (RemoveCard (player_at t i) (cp_Card payload)) as [p|] eqn:Hr; [|by apply owes_none, changes_refl].
  pose proof (RemoveCard_steady (now := tk_now t) _ _ _ Hr) as Hst. pose proof (card_returned i _ p t Hsound Hr) as Hback.
  assert (changes {[ps_ID (player_at t i)]} 0 t (put_player i p t)) as Hput
    by (apply changes_put_steady; [done|set_solver]).
  pose proof (play_card_effect playerIndex (put_player i p t) i payload (sound_changes _ _ _ _ Hput Hsound)) as [Hc Hn].
  rewrite (changes_ID _ _ _ _ i Hput) in Hc. destruct (play_card _ _ _ _) as [t' applied kind level message].
  cbn [cr_state cr_applied cr_kind cr_level cr_message] in *. destruct applied; cbn [negb].
  - apply owes_true. eapply changes_step; [exact Hput|]. eapply changes_step; [exact Hc|].
    apply changes_feedback_marked.
  - rewrite Hn by done. cbv zeta in Hback. rewrite Hback.
    pose proof (owes_marked i t _ (owes_feedback i kind level message t)) as Hf.
    destruct (feedback i kind level message t) as [t2 b]. by apply owes_none.
Qed.
