(* ===== verification/Shooting.v ===== *)
(** * Weapons, projectiles and alarm guards

    [internal/server/game/manager.go]: reloading, equipping, firing, the projectiles in
    flight and the guards that shoot at prisoners in restricted rooms while the alarm
    rings. *)

From S2P Require Import Prelude Float32 Model GoStrings Hashing Layout Access Items Physics Prison Cards Abilities Combat Session Spawn Actions Changes.

#[local] Open Scope Z_scope.

(** ** Ammunition *)

Definition isAmmoRestockInProgressLocked (session : matchSession) (playerID : PlayerID) : bool :=
  if playerID ≟ "" then false
  else
    let until := default 0 (ss_ammoRestockUntil session !! playerID) in
    if until ≟ 0 then false else ss_tickID session <? until.

Definition applyReloadCommandLocked (i : nat) (t : tickState) : tickState * bool :=
  let player := player_at t i in
  let session := tk_session t in
  let say level message := feedback i ActionFeedbackKindSystem level message t in
  if negb (ps_Alive player) then (t, false)
  else if negb (IsAuthorityPlayer player) then
    say ActionFeedbackLevelWarning "Only guards and the warden can restock ammo."
  else if ps_CurrentRoomID player ≠? RoomAmmoRoom then
    say ActionFeedbackLevelWarning "Go to the ammo room to restock."
  else if authorityAmmoMax <=? ps_Bullets player then say ActionFeedbackLevelInfo "Ammo already full."
  else if isAmmoRestockInProgressLocked session (ps_ID player) then
    let remaining := default 0 (ss_ammoRestockUntil session !! ps_ID player) - ss_tickID session in
    let rate := maxTickRate (ss_tickRateHz session) in
    let seconds := u64 (remaining + rate - 1) / rate in
    say ActionFeedbackLevelInfo ("Ammo restock in progress (" +:+ Itoa seconds +:+ "s left).")
  else
    let durationTicks := u64 (maxTickRate (ss_tickRateHz session) * authorityRestockSeconds) in
    let durationTicks := if durationTicks ≟ 0 then authorityRestockSeconds else durationTicks in
    let t := t <| tk_session ::= λ s, s <| ss_ammoRestockUntil ::=
      <[ps_ID player := u64 (ss_tickID s + durationTicks)]> |> |> in
    let t := put_player i (player <| ps_Velocity := zero_Vector2 |>) t in
    feedback i ActionFeedbackKindSystem ActionFeedbackLevelInfo
      ("Restocking ammo (10s). Hold position in " +:+ roomLabelForFeedback RoomAmmoRoom +:+ ".") t.

(** One entry of the loop over the restocks under way. *)
Definition resolve_restock (playerIndex : gmap PlayerID nat) (t : tickState) (entry : PlayerID * Z) :
    tickState :=
  let '(playerID, untilTick) := entry in
  if (untilTick ≟ 0) || (tk_now t <? untilTick) then t
  else
    let t := t <| tk_session ::= λ s, s <| ss_ammoRestockUntil ::= delete playerID |> |> in
    match playerIndex !! playerID with
    | None => t
    | Some i =>
        let player := player_at t i in
        if negb (ps_Alive player) || negb (IsAuthorityPlayer player) then t
        else
          let '(player, refilled) :=
            if ps_Bullets player ≠? authorityAmmoMax then (player <| ps_Bullets := authorityAmmoMax |>, true)
            else (player, false) in
          let '(player, synced) := syncAuthorityBulletStackLocked player in
          let t := mark_if (refilled || synced) (mark_player (ps_ID player)) (put_player i player t) in
          feedback_marked i ActionFeedbackKindSystem ActionFeedbackLevelSuccess "Ammo restocked to full." t
    end.

(** Go ranges over a map; a restock touches only its own player, so the order does not
    matter, and the model takes the order of the keys. *)
Definition resolveAmmoRestockCompletionsLocked (t : tickState) : tickState :=
  foldl (resolve_restock (player_index (gs_Players (tk_game t)))) t
    (map_to_list (ss_ammoRestockUntil (tk_session t))).

(** ** A new day's sidearms *)

(** The loops of [evictAuthorityOverflowItemForSidearmLocked]: the first stack that is no
    sidearm and can go, else the bullets. *)
Definition evictAuthorityOverflowItemForSidearmLocked (player : PlayerState) : PlayerState * bool :=
  let spare := filter (λ stack, stk_Item stack ∉ [ItemBaton; ItemPistol; ItemBullet]) (ps_Inventory player) in
  match find_first (λ stack, bool_decide (is_Some (RemoveItem player (stk_Item stack) (stk_Quantity stack))))
          spare with
  | Some stack => (default player (RemoveItem player (stk_Item stack) (stk_Quantity stack)), true)
  | None =>
      match find_first (λ stack, (stk_Item stack ≟ ItemBullet) && (0 <? stk_Quantity stack))
              (ps_Inventory player) with
      | Some stack =>
          match RemoveItem player (stk_Item stack) (stk_Quantity stack) with
          | Some player => (player, true)
          | None => (player, false)
          end
      | None => (player, false)
      end
  end.

Definition restore_sidearms (player : PlayerState) : PlayerState * bool :=
  if negb (IsAuthorityPlayer player) then (player, false)
  else
    let player := player <| ps_InventorySlots := playerInventorySlotCount |> in
    let player := normalizeInventoryToPlayerSlotsLocked player in
    let '(player, updated) :=
      if negb (HasItem player ItemBaton 1) then
        match AddItem player ItemBaton 1 with Some player => (player, true) | None => (player, false) end
      else (player, false) in
    let '(player, updated) :=
      if negb (HasItem player ItemPistol 1) then
        match AddItem player ItemPistol 1 with
        | Some player => (player, true)
        | None =>
            let '(player, evicted) := evictAuthorityOverflowItemForSidearmLocked player in
            if evicted then
              match AddItem player ItemPistol 1 with
              | Some player => (player, true)
              | None => (player, updated)
              end
            else (player, updated)
        end
      else (player, updated) in
    let '(player, synced) := syncAuthorityBulletStackLocked player in
    let '(player, equipped) := ensureEquippedItemForPlayerLocked player in
    (player, updated || synced || equipped).

(** ** Equipping *)

Definition applyEquipItemCommandLocked (i : nat) (payload : EquipItemPayload) (t : tickState) :
    tickState * bool :=
  let player := player_at t i in
  let item := eq_Item payload in
  if negb (IsSupportedWeapon item) then (t, false)
  else if negb (CanUseWeapon player item) then
    feedback i ActionFeedbackKindSystem ActionFeedbackLevelWarning
      ("Cannot equip " +:+ item +:+ "; not in inventory.") t
  else if ps_EquippedItem player ≟ item then (t, false)
  else
    let t := put_player i (player <| ps_EquippedItem := item |>) t in
    ((feedback i ActionFeedbackKindSystem ActionFeedbackLevelInfo ("Equipped " +:+ item +:+ ".") t).1, true).

(** ** Projectiles *)

Definition fly (entity : EntityState) : EntityState :=
  entity <| es_Position := mkVector2 (f32_add (vX (es_Position entity)) (vX (es_Velocity entity)))
                             (f32_add (vY (es_Position entity)) (vY (es_Velocity entity))) |>.

(** One entity of the loop: the entities kept so far, and the state. *)
Definition expire_projectile (st : list EntityState * tickState) (entity : EntityState) :
    list EntityState * tickState :=
  let '(keep, t) := st in
  let expireTick := default 0 (ss_projectileExpireTick (tk_session t) !! es_ID entity) in
  let projectile := es_Kind entity ≟ EntityKindProjectile in
  if projectile && (expireTick ≠? 0) && (expireTick <=? tk_now t) then
    (keep, mark_removed (es_ID entity)
             (t <| tk_session ::= λ s, s <| ss_projectileExpireTick ::= delete (es_ID entity) |> |>))
  else if projectile then (keep ++ [fly entity], mark_entity (es_ID entity) t)
  else (keep ++ [entity], t).

Definition expireProjectileEntitiesLocked (t : tickState) : tickState :=
  if bool_decide (ss_projectileExpireTick (tk_session t) = ∅) then t
  else
    let '(keep, t) := foldl expire_projectile ([], t) (gs_Entities (tk_game t)) in
    on_game (λ state, state <| gs_Entities := keep |>) t.

Definition length_squared (x y : f32) : f32 := f32_add (f32_mul x x) (f32_mul y y).

(** The direction of a shot: towards the target, else where the shooter faces, else east. *)
Definition shot_direction (shooter : PlayerState) (targetX targetY : f32) : f32 * f32 * f32 :=
  let aimX := f32_sub targetX (vX (ps_Position shooter)) in
  let aimY := f32_sub targetY (vY (ps_Position shooter)) in
  let length := length_squared aimX aimY in
  let '(aimX, aimY, length) :=
    if f32_leb length f32_zero then
      (vX (ps_Facing shooter), vY (ps_Facing shooter),
       length_squared (vX (ps_Facing shooter)) (vY (ps_Facing shooter)))
    else (aimX, aimY, length) in
  if f32_leb length f32_zero then (f32_of_Z 1, f32_zero, f32_of_Z 1) else (aimX, aimY, length).

Definition spawnProjectileEntityLocked (shooter : PlayerState) (targetX targetY : f32) (t : tickState) :
    tickState :=
  let '(aimX, aimY, length) := shot_direction shooter targetX targetY in
  let magnitude :=
    if f32_gtb length (f32_of_Z 1) then f32_div (f32_of_Z 1) (f32_sqrt length)
    else f32_of_Z 1 in
  let unitX := f32_mul aimX magnitude in
  let unitY := f32_mul aimY magnitude in
  let entityID := u32 (ss_nextEntityID (tk_session t) + 1) in
  let reach := f32_const 4 10 in
  let speed := f32_const 18 10 in
  let position := mkVector2 (f32_add (vX (ps_Position shooter)) (f32_mul unitX reach))
                    (f32_add (vY (ps_Position shooter)) (f32_mul unitY reach)) in
  let velocity := mkVector2 (f32_mul unitX speed) (f32_mul unitY speed) in
  let entity := mkEntity entityID EntityKindProjectile (ps_ID shooter) position velocity 0 true
                  (ps_CurrentRoomID shooter) [] in
  let lifetimeTicks := maxTickRate (ss_tickRateHz (tk_session t)) / 5 in
  let lifetimeTicks := if lifetimeTicks ≟ 0 then 1 else lifetimeTicks in
  let t := t <| tk_session ::= λ s, s <| ss_nextEntityID := entityID |>
                <| ss_projectileExpireTick ::= <[entityID := u64 (ss_tickID s + lifetimeTicks)]> |> |> in
  mark_entity entityID (on_game (λ state, state <| gs_Entities ::= λ es, es ++ [entity] |>) t).

(** ** Firing *)

(** The weapon of a shot: the one asked for, or the one in hand. *)
Definition shot_weapon (shooter : PlayerState) (asked : ItemType) : ItemType :=
  let weapon := if IsSupportedWeapon asked then asked else ps_EquippedItem shooter in
  if negb (CanUseWeapon shooter weapon) && (weapon ≠? ps_EquippedItem shooter) &&
     IsSupportedWeapon (ps_EquippedItem shooter) && CanUseWeapon shooter (ps_EquippedItem shooter)
  then ps_EquippedItem shooter else weapon.

Definition label (player : PlayerState) : string :=
  if ps_Name player ≟ "" then ps_ID player else ps_Name player.

(** Where a push leaves the target; the map of occupied tiles moves with it. *)
Definition push_target (i j : nat) (t : tickState) : tickState :=
  let '(next, _, occupied) :=
    ApplyKnockback (player_at t j) (BatonImpulse (player_at t i) (player_at t j)) defaultMatchLayout
      (tk_map t) (Some (tk_occupied t)) (tk_now t)
      (BatonStunDurationTicks (ss_tickRateHz (tk_session t))) in
  let next :=
    from_option (λ roomID, next <| ps_CurrentRoomID := roomID |>) next
      (RoomAt defaultMatchLayout (TileFromPosition (ps_Position next))) in
  put_player j next t <| tk_occupied := default ∅ occupied |>.

Definition hit_with_baton (i j : nat) (shooterLabel targetLabel : string) (t : tickState) : tickState :=
  let t := push_target i j t in
  let t := mark_player (ps_ID (player_at t j)) t in
  let t := feedback_marked i ActionFeedbackKindStun ActionFeedbackLevelSuccess
    ("Baton stunned " +:+ targetLabel +:+ ".") t in
  feedback_marked j ActionFeedbackKindStun ActionFeedbackLevelWarning
    ("Stunned by " +:+ shooterLabel +:+ ".") t.

(** [ApplyDamage] and the loss of a life: the state, the result and whether the target is out
    for good. *)
Definition damage_player (j : nat) (damageHalf : Z) (t : tickState) : tickState * DamageResult * bool :=
  let '(target, result) := ApplyDamage (player_at t j) damageHalf in
  let '(target, permanentlyEliminated) :=
    if dm_Eliminated result then
      let '(target, _, out) := consumeLifeAndRespawnIfAvailableLocked target in (target, out)
    else (target, false) in
  (put_player j target t, result, permanentlyEliminated).

Definition punish_unjust_shot (i : nat) (weapon : ItemType) (targetBefore : PlayerState) (t : tickState) :
    tickState :=
  if IsAuthorityPlayer (player_at t i) && IsFirearm weapon && IsUnjustAuthorityShot targetBefore (tk_map t)
  then
    let '(shooter, changed) := ApplyUnjustShotPenalty (player_at t i) (gs_Phase (tk_game t)) (tk_now t) in
    let t := put_player i shooter t in
    if changed then
      feedback_marked i ActionFeedbackKindCombat ActionFeedbackLevelError
        ("Unjust shot penalty applied until tick " +:+ Itoa (ps_SolitaryUntilTick shooter) +:+ ".")
        (mark_player (ps_ID shooter) t)
    else t
  else t.

Definition hit_with_damage (i j : nat) (weapon : ItemType) (damageHalf : Z)
    (shooterLabel targetLabel : string) (t : tickState) : tickState :=
  let targetBefore := player_at t j in
  let '(t, result, permanentlyEliminated) := damage_player j damageHalf t in
  if dm_AppliedHalf result ≟ 0 then
    let t := feedback_marked i ActionFeedbackKindCombat ActionFeedbackLevelInfo
      ("Shot on " +:+ targetLabel +:+ " was absorbed.") t in
    feedback_marked j ActionFeedbackKindCombat ActionFeedbackLevelInfo
      ("Absorbed shot from " +:+ shooterLabel +:+ ".") t
  else
    let t := mark_player (ps_ID (player_at t j)) t in
    let damageText := formatHalfHearts (dm_AppliedHalf result) in
    let t := feedback_marked i ActionFeedbackKindCombat ActionFeedbackLevelSuccess
      ("Hit " +:+ targetLabel +:+ " for " +:+ damageText +:+ " heart(s).") t in
    let '(level, message) :=
      if dm_Eliminated result then
        if permanentlyEliminated then
          (ActionFeedbackLevelError, "Eliminated by " +:+ shooterLabel +:+ ".")
        else (ActionFeedbackLevelWarning, "Life lost to " +:+ shooterLabel +:+ ". " +:+
                Itoa (ps_LivesRemaining (player_at t j)) +:+ " lives remaining.")
      else (ActionFeedbackLevelWarning,
            "Hit by " +:+ shooterLabel +:+ " for " +:+ damageText +:+ " heart(s).") in
    let t := feedback_marked j ActionFeedbackKindCombat level message t in
    punish_unjust_shot i weapon targetBefore t.

Section firing.
Variable playerIndex : gmap PlayerID nat.

(** The shot at a target: its price, its projectile and what it does. *)
Definition shoot_target (i j : nat) (weapon : ItemType) (payload : FireWeaponPayload) (t : tickState) :
    tickState * bool :=
  if negb (ps_Alive (player_at t j)) then (t, false)
  else
    let shooterLabel := label (player_at t i) in
    let targetLabel := label (player_at t j) in
    let '(shooter, damage) := ConsumeShotCostAndResolveDamage (player_at t i) weapon (fw_UseGoldenRound payload) in
    match damage with
    | None => (put_player i shooter t, false)
    | Some damageHalf =>
        let '(shooter, _) := syncAuthorityBulletStackLocked shooter in
        let t := mark_player (ps_ID shooter) (put_player i shooter t) in
        let t :=
          if IsFirearm weapon then
            spawnProjectileEntityLocked shooter (fw_TargetX payload) (fw_TargetY payload) t
          else t in
        if weapon ≟ WeaponBaton then (hit_with_baton i j shooterLabel targetLabel t, true)
        else if damageHalf ≟ 0 then (t, true)
        else (hit_with_damage i j weapon damageHalf shooterLabel targetLabel t, true)
    end.

Definition applyFireWeaponCommandLocked (shooterID : PlayerID) (payload : FireWeaponPayload)
    (t : tickState) : tickState * bool :=
  match playerIndex !! shooterID with
  | None => (t, false)
  | Some i =>
      let weapon := if IsSupportedWeapon (fw_Weapon payload) then fw_Weapon payload
                    else ps_EquippedItem (player_at t i) in
      if negb (IsSupportedWeapon weapon) then (t, false)
      else
        let weapon := shot_weapon (player_at t i) (fw_Weapon payload) in
        if negb (CanUseWeapon (player_at t i) weapon) then (ensure_equipped_marked i t, false)
        else
          let t :=
            if ps_EquippedItem (player_at t i) ≠? weapon then
              mark_player (ps_ID (player_at t i))
                (put_player i (player_at t i <| ps_EquippedItem := weapon |>) t)
            else t in
          match SelectTarget (gs_Players (tk_game t)) shooterID
                  (mkVector2 (fw_TargetX payload) (fw_TargetY payload)) (WeaponRangeTiles weapon)
                  AimAssistRadiusTiles with
          | None => (t, false)
          | Some targetID =>
              match playerIndex !! targetID with
              | None => (t, false)
              | Some j => shoot_target i j weapon payload t
              end
          end
  end.

End firing.

(** ** Alarm guards *)

Definition newAlarmGuardEntityLocked (session : matchSession) (roomID : RoomID) :
    matchSession * EntityState :=
  let entityID := u32 (ss_nextEntityID session + 1) in
  (session <| ss_nextEntityID := entityID |>,
   mkEntity entityID EntityKindNPCGuard "" (room_centre roomID) zero_Vector2 0 true roomID
     ["alarm_guard"; "restricted_zone"]).

Definition ensure_guard (t : tickState) (zone : ZoneState) : tickState :=
  if negb (zs_Restricted zone) || (zs_RoomID zone ≟ "") then t
  else
    let present :=
      match ss_guardEntityByRoom (tk_session t) !! zs_RoomID zone with
      | Some existingID => bool_decide (is_Some (findEntityIndexByID (gs_Entities (tk_game t)) existingID))
      | None => false
      end in
    if present then t
    else
      let '(session, guard) := newAlarmGuardEntityLocked (tk_session t) (zs_RoomID zone) in
      let session := session <| ss_guardEntityByRoom ::= <[zs_RoomID zone := es_ID guard]> |> in
      mark_entity (es_ID guard)
        (on_game (λ state, state <| gs_Entities ::= λ es, es ++ [guard] |>) (t <| tk_session := session |>)).

Definition ensureAlarmGuardEntitiesLocked (t : tickState) : tickState :=
  foldl ensure_guard t (ms_RestrictedZones (tk_map t)).

Definition clearAlarmGuardEntitiesLocked (t : tickState) : tickState :=
  let guards := filter (λ e, es_Kind e = EntityKindNPCGuard) (gs_Entities (tk_game t)) in
  let t := foldl (λ t e, mark_removed (es_ID e) t) t guards in
  let t := on_game (λ state, state <| gs_Entities ::= filter (λ e, es_Kind e ≠ EntityKindNPCGuard) |>) t in
  t <| tk_session ::= λ s, s <| ss_guardEntityByRoom := ∅ |> <| ss_guardLastShotTick := ∅ |> |>.

(** A guard's shot at one of the prisoners who are out of bounds. *)
Definition guard_shot (playerIndex : gmap PlayerID nat) (guardInterval : Z) (t : tickState)
    (targetID : PlayerID) : tickState :=
  match playerIndex !! targetID with
  | None => t
  | Some j =>
      let target := player_at t j in
      if negb (ps_Alive target) || negb (IsRestrictedRoom (ps_CurrentRoomID target) (tk_map t)) ||
         negb (IsPrisonerPlayer target) then t
      else
        let lastShotTick := default 0 (ss_guardLastShotTick (tk_session t) !! targetID) in
        if (lastShotTick ≠? 0) && (tk_now t <? u64 (lastShotTick + guardInterval)) then t
        else
          let '(t, result, permanentlyEliminated) := damage_player j GuardShotDamageHalf t in
          if dm_AppliedHalf result ≟ 0 then t
          else
            let t := t <| tk_session ::= λ s, s <| ss_guardLastShotTick ::= <[targetID := ss_tickID s]> |> |> in
            let t := mark_player targetID t in
            let message :=
              if dm_Eliminated result then
                if permanentlyEliminated then "Alarm guards eliminated you in a restricted zone."
                else "Alarm guards took a life. " +:+ Itoa (ps_LivesRemaining (player_at t j)) +:+
                       " lives remaining."
              else "Alarm guard hit you for " +:+ formatHalfHearts (dm_AppliedHalf result) +:+ " heart(s)." in
            let level :=
              if dm_Eliminated result && permanentlyEliminated then ActionFeedbackLevelError
              else ActionFeedbackLevelWarning in
            feedback_marked j ActionFeedbackKindAlarm level message t
  end.

Definition silence_alarm : tickState → tickState := on_map (λ m, m <| ms_Alarm := zero_AlarmState |>).

Definition applyAlarmAndGuardSystemLocked (playerIndex : gmap PlayerID nat) (t : tickState) : tickState :=
  let alarm := ms_Alarm (tk_map t) in
  if negb (al_Active alarm) then clearAlarmGuardEntitiesLocked t
  else if (al_EndsTick alarm ≠? 0) && (al_EndsTick alarm <=? tk_now t) then
    clearAlarmGuardEntitiesLocked (silence_alarm t)
  else
    let targetIDs := RestrictedPrisonerIDs (gs_Players (tk_game t)) (tk_map t) in
    if targetIDs ≟ [] then clearAlarmGuardEntitiesLocked (silence_alarm t)
    else
      let t := ensureAlarmGuardEntitiesLocked t in
      let guardInterval := GuardShotIntervalTicks (ss_tickRateHz (tk_session t)) in
      let guardInterval := if guardInterval ≟ 0 then 1 else guardInterval in
      foldl (guard_shot playerIndex guardInterval) t targetIDs.

(** ** What they change and report *)

Lemma owes_reload i t :
  told_at i t → owes (ps_ID (player_at t i)) t (applyReloadCommandLocked i t).
Proof.
  intros Ht. unfold applyReloadCommandLocked. cbv zeta.
  case_match; [by apply owes_none, changes_refl|]. do 4 (case_match; [apply owes_feedback|]).
  apply owes_told; [done|by vm_compute|done| |].
  - eapply changes_step; [|apply changes_put_steady; [by apply same_vitals_steady|set_solver]].
    by apply changes_silent.
  - match goal with |- context [put_player i ?p ?t1] => 
      destruct (tk_playerStates t1 !! i) as [q|] eqn:Hi end.
    + rewrite player_at_put by eauto. done.
    + rewrite put_player_id; [done|]. by rewrite list_insert_ge by (by apply lookup_ge_None).
Qed.

Lemma changes_resolve_restocks D t : changes D 0 t (resolveAmmoRestockCompletionsLocked t).
Proof.
  apply changes_fold. intros t1 [playerID untilTick] _. unfold resolve_restock.
  case_match; [apply changes_refl|]. cbv zeta. destruct (player_index _ !! playerID) as [i|];
    [|by apply changes_silent].
  case_match; [by apply changes_silent|].
  match goal with |- context [ps_Bullets (player_at ?T i) ≠? _] => set (t2 := T) end.
  assert (changes D 0 t1 t2) as H2 by by apply changes_silent.
  eapply changes_step; [exact H2|]. clear H2. clearbody t2.
  set (r := if ps_Bullets (player_at t2 i) ≠? authorityAmmoMax then _ else _).
  assert (tells (tk_now t2) (player_at t2 i) r) as Hr.
  { unfold r. case_match; [by apply tells_vitals|apply tells_same]. }
  destruct r as [q refilled]. pose proof (tells_sync (now := tk_now t2) q) as Hs.
  destruct (syncAuthorityBulletStackLocked q) as [p synced].
  eapply changes_step; [|apply changes_feedback_marked].
  pose proof (tells_or _ _ _ _ Hr Hs) as Hp. cbn [fst snd] in Hp.
  assert (ps_ID p = ps_ID (player_at t2 i)) as -> by apply Hp. by apply changes_put_mark_if.
Qed.

Lemma owes_equip i payload t : owes (ps_ID (player_at t i)) t (applyEquipItemCommandLocked i payload t).
Proof.
  unfold applyEquipItemCommandLocked. cbv zeta. case_match; [by apply owes_none, changes_refl|].
  case_match; [apply owes_feedback|]. case_match; [by apply owes_none, changes_refl|].
  apply owes_true.
  assert (changes {[ps_ID (player_at t i)]} 0 t
    (put_player i (player_at t i <| ps_EquippedItem := eq_Item payload |>) t)) as Hput.
  { apply changes_put_steady; [by apply same_vitals_steady|set_solver]. }
  eapply changes_step; [exact Hput|]. apply changes_feedback.
  rewrite (changes_ID _ _ _ _ i Hput). set_solver.
Qed.

(** *** Projectiles *)

Lemma kept_more reported G G' l l' :
  kept reported G l l' → G ⊆ G' → (∀ e, e ∈ l → es_ID e ∉ G → es_ID e ∉ G') → kept reported G' l l'.
Proof.
  intros H Hsub. induction H as [|e e' l l' He Hr HG _ IH|e l l' HG _ IH]; intros Hl; [constructor| |].
  - apply kept_here; [done|done|by apply Hl; [left|]|]. apply IH. intros x Hx. apply Hl. by right.
  - apply kept_gone; [set_solver|]. apply IH. intros x Hx. apply Hl. by right.
Qed.

(** What the loop over the entities did from one state to the other, with the entities [G] gone. *)
Record expired (G : gset EntityID) (t t' : tickState) : Prop := {
  ex_session : ∃ expire, tk_session t' = tk_session t <| ss_projectileExpireTick := expire |>;
  ex_told : (tk_players t', tk_doors t', tk_cells t') = (tk_players t, tk_doors t, tk_cells t);
  ex_removed : tk_removed t' = tk_removed t ∪ G;
  ex_entities : tk_entities t ⊆ tk_entities t' ∪ G;
}.

Lemma expire_projectiles_kept l keep t :
  let r := foldl expire_projectile (keep, t) l in
  ∃ G tail, r.1 = keep ++ tail ∧ expired G t r.2 ∧ (∀ k, k ∈ G → k ∈ map es_ID l) ∧
    (NoDup (map es_ID l) → kept (tk_entities r.2) G l tail).
Proof.
  cbv zeta. revert keep t. induction l as [|e l IH]; intros keep t.
  { exists ∅, []. split_and!; [by rewrite app_nil_r| |set_solver|constructor]. split; try done; [|set_solver..].
    exists (ss_projectileExpireTick (tk_session t)). cbn. by destruct (tk_session t). }
  cbn [foldl]. destruct (expire_projectile (keep, t) e) as [keep1 t1] eqn:Hstep.
  unfold expire_projectile in Hstep. case_match eqn:Hexp; [|case_match eqn:Hproj]; injection Hstep as <- <-.
  - destruct (IH keep (mark_removed (es_ID e)
      (t <| tk_session ::= λ s, s <| ss_projectileExpireTick ::= delete (es_ID e) |> |>))) as (G & tail & Hkeep & [[expire Hs] Htold Hrem Hent] & HG & Hkept).
    exists ({[es_ID e]} ∪ G), tail. split_and!; [done| |set_solver|].
    + split; [exists expire; by rewrite Hs|done|rewrite Hrem; simpl; set_solver|].
      simpl in Hent. intros k Hk. destruct (decide (k = es_ID e)); set_solver.
    + intros [Hnew Hnd]%NoDup_cons. apply kept_gone; [set_solver|].
      eapply kept_more; [by apply Hkept|set_solver|].
      intros x Hx Hout Hin. apply Hnew. apply elem_of_union in Hin as [Hin|?]; [|done].
      apply elem_of_singleton in Hin as <-. by apply (list_elem_of_fmap_2 es_ID).
  - destruct (IH (keep ++ [fly e]) (mark_entity (es_ID e) t))
      as (G & tail & Hkeep & [Hs Htold Hrem Hent] & HG & Hkept).
    exists G, (fly e :: tail). split_and!; [by rewrite Hkeep, <-app_assoc| |set_solver|].
    + split; [exact Hs|exact Htold|exact Hrem|]. simpl in Hent. set_solver.
    + intros [Hnew Hnd]%NoDup_cons. assert (es_ID e ∉ G) by (by intros Hin%HG).
      apply kept_here; [done| |done|by apply Hkept]. left. simpl in Hent. set_solver.
  - destruct (IH (keep ++ [e]) t) as (G & tail & Hkeep & Hex & HG & Hkept).
    exists G, (e :: tail). split_and!; [by rewrite Hkeep, <-app_assoc|done|set_solver|].
    intros [Hnew Hnd]%NoDup_cons. apply kept_here; [done|by right|by intros Hin%HG|by apply Hkept].
Qed.

Lemma changes_expire_projectiles D t : changes D 0 t (expireProjectileEntitiesLocked t).
Proof.
  unfold expireProjectileEntitiesLocked. case_match; [apply changes_refl|].
  destruct (expire_projectiles_kept (gs_Entities (tk_game t)) [] t)
    as (G & tail & Hkeep & [[expire Hs] Htold Hrem Hent] & HG & Hkept).
  destruct (foldl expire_projectile ([], t) (gs_Entities (tk_game t))) as [l t1].
  cbn [fst snd app] in *. subst l. injection Htold as Hp Hd Hc.
  set (t2 := on_game _ t1).
  assert (tk_session t2 = tk_session t <| ss_projectileExpireTick := expire |>
            <| ss_gameState ::= λ g, g <| gs_Entities := tail |> |>) as Hs2.
  { change (tk_session t2) with (tk_session t1 <| ss_gameState ::= λ g, g <| gs_Entities := tail |> |>).
    by rewrite Hs. }
  pose proof (changes_refl D t) as [? ? ? ? Hps Hds Hcs ?].
  split; unfold tick_frame, tk_playerStates, tk_doorStates, tk_cellStates, tk_map, tk_game; rewrite ?Hs2;
    change (tk_players t2) with (tk_players t1); change (tk_doors t2) with (tk_doors t1);
    change (tk_cells t2) with (tk_cells t1); rewrite ?Hp, ?Hd, ?Hc; try done.
  intros Hok Hroom. refine (entities_change_kept G _ _ _ _ _ _ _ Hok Hroom); unfold tk_game; rewrite ?Hs2.
  - apply Hkept, Hok.
  - done.
  - exact Hent.
  - exact Hrem.
  - exact HG.
Qed.

Lemma changes_spawn_projectile D shooter x y t :
  changes D 1 t (spawnProjectileEntityLocked shooter x y t).
Proof.
  unfold spawnProjectileEntityLocked. destruct (shot_direction shooter x y) as [[aimX aimY] length].
  cbv zeta. pose proof (changes_refl D t) as [? ? ? ? ? ? ? ?]. split; try done.
  eapply entities_change_new; cycle 2; [reflexivity..| |]; reflexivity.
Qed.

(** *** Damage and shots *)

Lemma damage_player_effect j damage t :
  sound t → is_u8 damage →
  let r := damage_player j damage t in
  changes {[ps_ID (player_at t j)]} 0 t r.1.1 ∧ (dm_AppliedHalf r.1.2 = 0 → r.1.1 = t).
Proof.
  intros Hsound Hd. cbv zeta. unfold damage_player.
  pose proof (ApplyDamage_steady (now := tk_now t) (player_at t j) damage Hd) as Hs.
  pose proof (ApplyDamage_none (player_at t j) damage (sound_at t j Hsound) Hd) as Hn.
  destruct (ApplyDamage (player_at t j) damage) as [target result]. cbn [fst snd] in *.
  set (r := if dm_Eliminated result then _ else _).
  assert (steady (tk_now t) (player_at t j) r.1) as Hr.
  { unfold r. case_match; [|done]. pose proof (consumeLife_steady (now := tk_now t) target) as Hc.
    destruct (consumeLifeAndRespawnIfAvailableLocked target) as [[p ?] ?]. by eapply steady_trans. }
  split.
  - destruct r as [p out]. apply changes_put_steady; [done|set_solver].
  - intros Hz. assert (r.1 = player_at t j) as Hsame.
    { unfold r. specialize (Hn ltac:(by destruct r)). by simplify_eq. }
    destruct r as [p out]. cbn in *. rewrite Hsame. apply put_player_same.
Qed.

Lemma changes_hit_with_baton i j shooterLabel targetLabel t :
  changes ∅ 0 t (hit_with_baton i j shooterLabel targetLabel t).
Proof.
  unfold hit_with_baton. cbv zeta.
  eapply changes_step; [|apply changes_feedback_marked].
  eapply changes_step; [|apply changes_feedback_marked].
  assert (changes {[ps_ID (player_at t j)]} 0 t (push_target i j t)) as Hpush.
  { unfold push_target. pose proof (ApplyKnockback_vitals (player_at t j)
      (BatonImpulse (player_at t i) (player_at t j)) defaultMatchLayout (tk_map t) (Some (tk_occupied t))
      (tk_now t) (BatonStunDurationTicks (ss_tickRateHz (tk_session t)))) as Hv.
    destruct (ApplyKnockback _ _ _ _ _ _ _) as [[next motion] occupied]. cbv zeta. cbn [fst] in Hv.
    set (next' := from_option _ next _).
    assert (same_vitals next next') as Hv2 by (unfold next'; by destruct (RoomAt _ _)).
    apply (changes_step _ _ (put_player j next' t)); [|by apply changes_silent].
    apply changes_put_steady; [|set_solver]. apply same_vitals_steady. by eapply same_vitals_trans. }
  rewrite (changes_ID _ _ _ _ j Hpush). apply changes_settle.
  eapply changes_weaken; [|done|exact Hpush]. set_solver.
Qed.

Lemma changes_punish i weapon before t : changes ∅ 0 t (punish_unjust_shot i weapon before t).
Proof.
  unfold punish_unjust_shot. case_match; [|apply changes_refl].
  pose proof (tells_penalty (now := tk_now t) (player_at t i) (gs_Phase (tk_game t)) (tk_now t)) as [Hs Hb].
  destruct (ApplyUnjustShotPenalty _ _ _) as [shooter changed]. cbn [fst snd] in *. cbv zeta. destruct changed.
  - assert (ps_ID shooter = ps_ID (player_at t i)) as -> by apply Hs.
    eapply changes_step; [by apply changes_put_marked|apply changes_feedback_marked].
  - rewrite Hb, put_player_same by done. apply changes_refl.
Qed.

Lemma changes_hit_with_damage i j weapon damage shooterLabel targetLabel t :
  sound t → is_u8 damage →
  changes ∅ 0 t (hit_with_damage i j weapon damage shooterLabel targetLabel t).
Proof.
  intros Hsound Hd. unfold hit_with_damage. cbv zeta.
  destruct (damage_player_effect j damage t Hsound Hd) as [Hc Hn].
  destruct (damage_player j damage t) as [[t1 result] out]. cbn [fst snd] in *. case_match.
  - rewrite Hn by (by bool_props). eapply changes_step; apply changes_feedback_marked.
  - assert (changes ∅ 0 t (mark_player (ps_ID (player_at t1 j)) t1)) as Hm.
    { rewrite (changes_ID _ _ _ _ j Hc). apply changes_settle.
      eapply changes_weaken; [|done|exact Hc]. set_solver. }
    eapply changes_step; [exact Hm|]. eapply changes_step; [apply changes_feedback_marked|].
    set (r := if dm_Eliminated result then _ else _). destruct r as [level message].
    eapply changes_step; [apply changes_feedback_marked|]. apply changes_punish.
Qed.

Lemma changes_shoot_target i j weapon payload t :
  sound t → changes ∅ 1 t (shoot_target i j weapon payload t).1.
Proof.
  intros Hsound. unfold shoot_target. cbv zeta. case_match; [by apply changes_none, changes_refl|].
  pose proof (ConsumeShotCost_tells (player_at t i) weapon (fw_UseGoldenRound payload)) as (Hv & Hn & Hd).
  destruct (ConsumeShotCostAndResolveDamage _ _ _) as [shooter [damage|]]; cbn [fst snd] in *.
  - pose proof (tells_sync (now := tk_now t) shooter) as [Hs _].
    destruct (syncAuthorityBulletStackLocked shooter) as [shooter' synced]. cbn [fst] in Hs.
    assert (steady (tk_now t) (player_at t i) shooter') as Hs'
      by (eapply steady_trans; [by apply same_vitals_steady|exact Hs]).
    set (t1 := mark_player (ps_ID shooter') (put_player i shooter' t)).
    assert (changes ∅ 0 t t1) as H1.
    { unfold t1. assert (ps_ID shooter' = ps_ID (player_at t i)) as -> by apply Hs'.
      by apply changes_put_marked. }
    set (t2 := if IsFirearm weapon then _ else t1).
    assert (changes ∅ 1 t t2) as H2.
    { apply (changes_trans ∅ 0 1 t t1 t2); [done..|]. unfold t2.
      case_match; [apply changes_spawn_projectile|by apply changes_none, changes_refl]. }
    clearbody t2. pose proof (sound_changes _ _ _ _ H2 Hsound) as Hsound2.
    repeat case_match; cbn [fst]; try exact H2;
      (apply (changes_trans ∅ 1 0 t t2); [done..|]); 
      [apply changes_hit_with_baton|by apply changes_hit_with_damage, Hd].
  - rewrite Hn, put_player_same by done. by apply changes_none, changes_refl.
Qed.

Lemma changes_fire playerIndex shooterID payload t :
  sound t → changes ∅ 1 t (applyFireWeaponCommandLocked playerIndex shooterID payload t).1.
Proof.
  intros Hsound. unfold applyFireWeaponCommandLocked.
  destruct (playerIndex !! shooterID) as [i|]; [|by apply changes_none, changes_refl]. cbv zeta.
  set (asked := if IsSupportedWeapon (fw_Weapon payload) then _ else _). clearbody asked.
  case_match; [by apply changes_none, changes_refl|].
  case_match; [by apply changes_none, changes_ensure_equipped_marked|].
  set (t1 := if ps_EquippedItem (player_at t i) ≠? _ then _ else t).
  assert (changes ∅ 0 t t1) as H1.
  { unfold t1. case_match; [|apply changes_refl]. apply changes_put_marked. by apply same_vitals_steady. }
  destruct (SelectTarget _ _ _ _ _) as [targetID|]; [|by apply changes_none].
  destruct (playerIndex !! targetID) as [j|]; [|by apply changes_none].
  apply (changes_trans ∅ 0 1 t t1); [done..|]. apply changes_shoot_target. by eapply sound_changes.
Qed.

(** *** Guards *)

Lemma changes_ensure_guard D t zone : changes D 1 t (ensure_guard t zone).
Proof.
  unfold ensure_guard. case_match; [by apply changes_none, changes_refl|]. cbv zeta.
  case_match; [by apply changes_none, changes_refl|].
  pose proof (changes_refl D t) as [? ? ? ? ? ? ? ?]. split; try done.
  eapply entities_change_new; cycle 2; [reflexivity..| |]; reflexivity.
Qed.
Lemma changes_ensure_guards D t :
  changes D (Z.of_nat (length (ms_RestrictedZones (tk_map t)))) t (ensureAlarmGuardEntitiesLocked t).
Proof. apply changes_fold_count. apply changes_ensure_guard. Qed.

Lemma mark_removed_all l t :
  let t' := foldl (λ t e, mark_removed (es_ID e) t) t l in
  let G := list_to_set (map es_ID l) in
  tk_session t' = tk_session t ∧
  (tk_players t', tk_doors t', tk_cells t') = (tk_players t, tk_doors t, tk_cells t) ∧
  tk_removed t' = tk_removed t ∪ G ∧ tk_entities t ⊆ tk_entities t' ∪ G.
Proof.
  cbv zeta. revert t. induction l as [|e l IH]; intros t; simpl; [split_and!; set_solver|].
  destruct (IH (mark_removed (es_ID e) t)) as (-> & -> & -> & Hent). split_and!; try done; simpl in *.
  - set_solver.
  - intros k Hk. destruct (decide (k = es_ID e)); set_solver.
Qed.
Lemma kept_filter reported (P : EntityState → Prop) `{∀ e, Decision (P e)} l :
  NoDup (map es_ID l) →
  kept reported (list_to_set (map es_ID (filter P l))) l (filter (λ e, ¬ P e) l).
Proof.
  induction l as [|e l IH]; [constructor|]. intros [Hnew Hnd]%NoDup_cons. rewrite !filter_cons.
  destruct (decide (P e)) as [HP|HP].
  - rewrite decide_False by tauto. apply kept_gone; [simpl; set_solver|].
    eapply kept_more; [by apply IH|simpl; set_solver|].
    intros x Hx Hout Hin. simpl in Hin. apply elem_of_union in Hin as [Hin|?]; [|done].
    apply elem_of_singleton in Hin. apply Hnew. rewrite <-Hin. by apply (list_elem_of_fmap_2 es_ID).
  - rewrite decide_True by done. apply kept_here; [done|by right| |by apply IH].
    intros Hin%elem_of_list_to_set. apply Hnew. apply list_elem_of_fmap in Hin as (x & -> & Hx).
    apply list_elem_of_filter in Hx as [_ Hx]. by apply (list_elem_of_fmap_2 es_ID).
Qed.

Lemma changes_clear_guards D t : changes D 0 t (clearAlarmGuardEntitiesLocked t).
Proof.
  unfold clearAlarmGuardEntitiesLocked. cbv zeta.
  destruct (mark_removed_all (filter (λ e, es_Kind e = EntityKindNPCGuard) (gs_Entities (tk_game t))) t)
    as (Hs & Htold & Hrem & Hent).
  destruct (foldl _ t _) as [s tp td tc te tr toc]. cbn in Hs, Htold, Hrem, Hent. subst s.
  injection Htold as -> -> ->. pose proof (changes_refl D t) as [? ? ? ? ? ? ? ?]. split; try done.
  intros Hok Hroom. refine (entities_change_kept _ _ _ _ _ _ _ _ Hok Hroom);
    [|done|exact Hent|exact Hrem|].
  - apply (kept_filter te (λ e, es_Kind e = EntityKindNPCGuard)), Hok.
  - intros k Hk%elem_of_list_to_set. apply list_elem_of_fmap in Hk as (e & -> & He).
    apply list_elem_of_filter in He as [_ He]. by apply (list_elem_of_fmap_2 es_ID).
Qed.

Lemma changes_guard_shot playerIndex interval t targetID :
  (∀ j, playerIndex !! targetID = Some j → ps_ID (player_at t j) = targetID) →
  sound t → changes ∅ 0 t (guard_shot playerIndex interval t targetID).
Proof.
  intros Hindex Hsound. unfold guard_shot. destruct (playerIndex !! targetID) as [j|] eqn:Hj; [|apply changes_refl].
  cbv zeta. do 2 (case_match; [apply changes_refl|]).
  destruct (damage_player_effect j GuardShotDamageHalf t Hsound) as [Hc Hn]; [by vm_compute|].
  destruct (damage_player j GuardShotDamageHalf t) as [[t1 result] out]. cbn [fst snd] in *.
  case_match; [rewrite Hn by (by bool_props); apply changes_refl|].
  eapply changes_step; [|apply changes_feedback_marked]. apply changes_settle. rewrite (Hindex j eq_refl) in Hc.
  eapply changes_step; [eapply changes_weaken; [|done|exact Hc]; set_solver|]. by apply changes_silent.
Qed.

Lemma changes_alarm playerIndex t :
  ready playerIndex t →
  changes ∅ (Z.of_nat (length (ms_RestrictedZones (tk_map t)))) t (applyAlarmAndGuardSystemLocked playerIndex t).
Proof.
  intros Hready. unfold applyAlarmAndGuardSystemLocked. cbv zeta.
  assert (changes ∅ 0 t (clearAlarmGuardEntitiesLocked (silence_alarm t))) as Hsilent.
  { eapply changes_step; [|apply changes_clear_guards]. by apply changes_silent. }
  case_match; [apply changes_none, changes_clear_guards; lia|].
  case_match; [apply changes_none, Hsilent; lia|]. case_match; [apply changes_none, Hsilent; lia|].
  pose proof (changes_ensure_guards ∅ t) as Hg.
  match goal with |- changes _ ?n _ _ => replace n with (n + 0) by lia end.
  eapply changes_trans; [lia|done|exact Hg|]. clear Hg.
  pose proof (changes_fold_ready (A := PlayerID) playerIndex 0) as Hfold. cbn [Z.mul] in Hfold. apply Hfold; [done| |].
  - intros t1 targetID [Hs Hi _]. apply changes_guard_shot; [|done]. intros j Hj. by apply Hi.
  - eapply ready_changes; [apply changes_ensure_guards|done].
Qed.
