(* ===== verification/Interact.v ===== *)
(** * Interacting, moving, and passing items

    [internal/server/game/manager.go]: the interact command, whose payload may ask for
    several things at once, escaping, moving, and items that change hands or lie on the
    floor. *)

From S2P Require Import Prelude Float32 Model GoStrings Hashing Layout Access Items Physics Prison Win Escape Cards Session Spawn Actions Changes NightCards Economy Doors Shooting.

#[local] Open Scope Z_scope.

(** ** Items between players and on the floor *)

Definition tryTransferItemBetweenPlayersLocked (playerIndex : gmap PlayerID nat)
    (fromPlayerID toPlayerID : PlayerID) (item : ItemType) (amount : Z) (t : tickState) :
    option (nat * nat * tickState) :=
  if (fromPlayerID ≟ "") || (toPlayerID ≟ "") || (fromPlayerID ≟ toPlayerID) || (amount ≟ 0) then None
  else
    i ← playerIndex !! fromPlayerID;
    j ← playerIndex !! toPlayerID;
    let source := player_at t i in
    let target := player_at t j in
    if negb (ps_Alive source) || negb (ps_Alive target) then None
    else if (ps_CurrentRoomID source ≟ "") || (ps_CurrentRoomID source ≠? ps_CurrentRoomID target) then None
    else
      '(source, target) ← TransferItem source target item amount;
      Some (i, j, put_player j target (put_player i source t)).

(** The use-item command: a gift to another player. *)
Definition use_item (playerIndex : gmap PlayerID nat) (playerID : PlayerID) (payload : ItemUsePayload)
    (t : tickState) : tickState :=
  if iu_TargetPlayerID payload ≟ "" then t
  else
    let amount := if iu_Amount payload ≟ 0 then 1 else iu_Amount payload in
    match tryTransferItemBetweenPlayersLocked playerIndex playerID (iu_TargetPlayerID payload)
            (iu_Item payload) amount t with
    | None => t
    | Some (i, j, t) =>
        let '(t, equippedSource) := ensure_equipped i t in
        let t := mark_if equippedSource (mark_player playerID) t in
        let '(t, equippedTarget) := ensure_equipped j t in
        let t := mark_if equippedTarget (mark_player (iu_TargetPlayerID payload)) t in
        mark_player (iu_TargetPlayerID payload) (mark_player playerID t)
    end.

Definition newDroppedItemEntityLocked (session : matchSession) (owner : PlayerState) (item : ItemType)
    (quantity : Z) : matchSession * EntityState :=
  let entityID := u32 (ss_nextEntityID session + 1) in
  (session <| ss_nextEntityID := entityID |>,
   mkEntity entityID EntityKindDroppedItem (ps_ID owner) (ps_Position owner) zero_Vector2 0 true
     (ps_CurrentRoomID owner) (BuildDroppedItemTags item quantity)).

Definition drop_item (i : nat) (playerID : PlayerID) (payload : DropItemPayload) (t : tickState) :
    tickState :=
  let amount := if dr_Amount payload ≟ 0 then 1 else dr_Amount payload in
  match RemoveItem (player_at t i) (dr_Item payload) amount with
  | None => t
  | Some player =>
      let t := put_player i player t in
      let '(session, dropped) := newDroppedItemEntityLocked (tk_session t) player (dr_Item payload) amount in
      let t := on_game (λ state, state <| gs_Entities ::= λ es, es ++ [dropped] |>) (t <| tk_session := session |>) in
      let '(t, equipped) := ensure_equipped i t in
      let t := mark_if equipped (mark_player playerID) t in
      mark_entity (es_ID dropped) (mark_player playerID t)
  end.

Definition craft_item (i : nat) (playerID : PlayerID) (payload : CraftItemPayload) (t : tickState) :
    tickState :=
  match Craft (player_at t i) (cr_Item payload) with
  | None => t
  | Some player => mark_player playerID (ensure_equipped i (put_player i player t)).1
  end.

Definition tryPickupDroppedEntityLocked (i : nat) (entityID : EntityID) (t : tickState) :
    tickState * bool :=
  if entityID ≟ 0 then (t, false)
  else match findEntityIndexByID (gs_Entities (tk_game t)) entityID with
  | None => (t, false)
  | Some entityIndex =>
      let entity := default zero_EntityState (gs_Entities (tk_game t) !! entityIndex) in
      let player := player_at t i in
      if negb (es_Active entity) || (es_RoomID entity ≟ "") || (ps_CurrentRoomID player ≟ "") ||
         (es_RoomID entity ≠? ps_CurrentRoomID player) then (t, false)
      else match ParseDroppedItem entity with
      | None => (t, false)
      | Some (item, quantity) =>
          if quantity ≟ 0 then (t, false)
          else match AddItem player item quantity with
          | None => (t, false)
          | Some player =>
              let t := put_player i player t in
              (mark_removed entityID (on_game (λ state, state <| gs_Entities ::= delete entityIndex |>) t), true)
          end
      end
  end.

(** ** Escaping *)

Definition tryEscapeRouteLocked (i : nat) (route : EscapeRouteType) (t : tickState) :
    tickState * bool * string :=
  let player := player_at t i in
  if route ≟ "" then (t, false, "Escape attempt failed.")
  else if ps_CurrentRoomID player ≟ Win.EscapedRoomID then (t, false, "Already escaped.")
  else
    let evaluation := EvaluateRoute route player (tk_map t) in
    if negb (rv_CanAttempt evaluation) then
      (t, false, if rv_FailureReason evaluation ≟ "" then "Escape requirements not met."
                 else rv_FailureReason evaluation)
    else
      (put_player i (player <| ps_CurrentRoomID := Win.EscapedRoomID |> <| ps_Velocity := zero_Vector2 |>) t,
       true, "Escape route successful.").

(** ** The interact command: its parts, in order *)

(** Feedback in a handler that collects whether the player changed. *)
Definition say (i : nat) (kind : ActionFeedbackKind) (level : ActionFeedbackLevel) (message : string)
    (st : tickState * bool) : tickState * bool :=
  let '(t, changed) := st in
  let '(t, told) := feedback i kind level message t in
  (t, changed || told).

Definition success_level (ok : bool) : ActionFeedbackLevel :=
  if ok then ActionFeedbackLevelSuccess else ActionFeedbackLevelWarning.

(** Nothing is targeted: the switch of the power room. *)
Definition interact_power (i : nat) (payload : InteractPayload) (st : tickState * bool) : tickState * bool :=
  let '(t, changed) := st in
  if (ip_TargetRoomID payload ≟ "") && (ip_TargetCellID payload ≟ 0) && (ip_TargetDoorID payload ≟ 0) &&
     (ip_TargetEntityID payload ≟ 0) && (ip_EscapeRoute payload ≟ "") && (ip_MarketRoomID payload ≟ "") &&
     (ip_NightCardChoice payload ≟ "") && (ip_StashAction payload ≟ "") && (ip_StashItem payload ≟ "")
  then
    let '(t, toggled) := tryTogglePowerIfEligibleLocked i t in
    if toggled then
      let powerState := if ms_PowerOn (tk_map t) then "ON" else "OFF" in
      say i ActionFeedbackKindDoor ActionFeedbackLevelInfo ("Power switched " +:+ powerState +:+ ".") (t, true)
    else (t, changed)
  else st.

Definition interact_night_card (i : nat) (payload : InteractPayload) (st : tickState * bool) :
    tickState * bool :=
  let '(t, changed) := st in
  if ip_NightCardChoice payload ≟ "" then st
  else
    let '(player, selected, reason) := trySelectNightCardLocked (player_at t i) (ip_NightCardChoice payload) in
    say i ActionFeedbackKindSystem (success_level selected) reason (put_player i player t, changed || selected).

Definition interact_stash (i : nat) (payload : InteractPayload) (st : tickState * bool) : tickState * bool :=
  let '(t, changed) := st in
  if (ip_StashAction payload ≟ "") || (ip_StashItem payload ≟ "") then st
  else
    let '(session, applied, reason, changedCellID) :=
      applyCellStashInteractLocked (tk_session t) (player_at t i) payload in
    let t := t <| tk_session := session |> in
    let t := mark_if (changedCellID ≠? 0) (mark_cell changedCellID) t in
    say i ActionFeedbackKindSystem (success_level applied) reason (t, changed || applied).

Definition interact_escape (i : nat) (payload : InteractPayload) (st : tickState * bool) : tickState * bool :=
  let '(t, changed) := st in
  let route := ip_EscapeRoute payload in
  if route ≟ "" then st
  else
    let '(t, escaped, reason) := tryEscapeRouteLocked i route t in
    let '(player, told) := applyEscapeFeedbackLocked (player_at t i) route escaped reason (tk_now t) in
    let t := put_player i player t in
    say i ActionFeedbackKindEscape (success_level escaped) (route +:+ ": " +:+ TrimSpace reason)
      (t, changed || told || escaped).

Definition interact_room (i : nat) (payload : InteractPayload) (st : tickState * bool) : tickState * bool :=
  let '(t, changed) := st in
  if ip_TargetRoomID payload ≟ "" then st
  else
    let r := tryMovePlayerToRoomLocked (tk_session t) i (ip_TargetRoomID payload) in
    (t <| tk_session := r.1 |>, changed || r.2).

Definition interact_cell (i : nat) (payload : InteractPayload) (st : tickState * bool) : tickState * bool :=
  let '(t, changed) := st in
  let cellID := ip_TargetCellID payload in
  if cellID ≟ 0 then st
  else
    let '(t, toggled) := tryToggleCellDoorLocked (player_at t i) cellID t in
    if toggled then
      let doorID := from_option cs_DoorID 0 (find_first (λ cell, cs_ID cell ≟ cellID) (ms_Cells (tk_map t))) in
      let message :=
        if doorID ≟ 0 then "Cell door toggled."
        else match doorStateForIDLocked (ms_Doors (tk_map t)) doorID with
        | Some door => "Cell door " +:+ Itoa doorID +:+ " " +:+ doorOpenLabel (ds_Open door) +:+ "."
        | None => "Cell door toggled."
        end in
      say i ActionFeedbackKindDoor ActionFeedbackLevelInfo message (t, true)
    else say i ActionFeedbackKindDoor ActionFeedbackLevelWarning "Cell door action denied." (t, changed).

Definition interact_door (i : nat) (payload : InteractPayload) (st : tickState * bool) : tickState * bool :=
  let '(t, changed) := st in
  let doorID := ip_TargetDoorID payload in
  if doorID ≟ 0 then st
  else
    let '(t, toggled) := tryToggleDoorForPlayerLocked (player_at t i) doorID t in
    if toggled then
      let message :=
        match doorStateForIDLocked (ms_Doors (tk_map t)) doorID with
        | Some door => "Door " +:+ Itoa doorID +:+ " " +:+ doorOpenLabel (ds_Open door) +:+ "."
        | None => "Door " +:+ Itoa doorID +:+ " toggled."
        end in
      say i ActionFeedbackKindDoor ActionFeedbackLevelInfo message (t, true)
    else
      say i ActionFeedbackKindDoor ActionFeedbackLevelWarning ("Door " +:+ Itoa doorID +:+ " action denied.")
        (t, changed).

Definition interact_entity (i : nat) (payload : InteractPayload) (st : tickState * bool) : tickState * bool :=
  let '(t, changed) := st in
  let entityID := ip_TargetEntityID payload in
  if entityID ≟ 0 then st
  else match tryHandleNPCPrisonerTaskInteractLocked (tk_session t) i entityID with
  | Some (session, taskChanged, message, level) =>
      say i ActionFeedbackKindSystem level message (t <| tk_session := session |>, changed || taskChanged)
  | None =>
      let '(t, picked) := tryPickupDroppedEntityLocked i entityID t in
      if picked then
        say i ActionFeedbackKindSystem ActionFeedbackLevelSuccess "Picked up dropped item."
          ((ensure_equipped i t).1, true)
      else (t, changed)
  end.

Definition interact_market (i : nat) (payload : InteractPayload) (st : tickState * bool) : tickState * bool :=
  let '(t, changed) := st in
  let roomID := ip_MarketRoomID payload in
  if roomID ≟ "" then st
  else
    let '(session, moved) := trySetNightlyBlackMarketLocked (tk_session t) (player_at t i) roomID in
    let t := t <| tk_session := session |> in
    if moved then
      say i ActionFeedbackKindPurchase ActionFeedbackLevelSuccess
        ("Nightly market moved to " +:+ roomID +:+ ".") (t, true)
    else say i ActionFeedbackKindPurchase ActionFeedbackLevelWarning "Market move denied." (t, changed).

Definition applyInteractCommandLocked (i : nat) (payload : InteractPayload) (t : tickState) :
    tickState * bool :=
  let st := interact_power i payload (t, false) in
  let st := interact_night_card i payload st in
  let st := interact_stash i payload st in
  let st := interact_escape i payload st in
  let st := interact_room i payload st in
  let st := interact_cell i payload st in
  let st := interact_door i payload st in
  let st := interact_entity i payload st in
  interact_market i payload st.

(** ** Moving *)

Definition vector_eqb (a b : Vector2) : bool := f32_eqb (vX a) (vX b) && f32_eqb (vY a) (vY b).

Definition break_chameleon (i : nat) (playerID : PlayerID) (t : tickState) : tickState :=
  let player := player_at t i in
  let t := t <| tk_session ::= λ s, s
    <| ss_lastMoveIntentTick ::= <[ps_ID player := ss_tickID s]> |>
    <| ss_chameleonPendingUntil ::= delete (ps_ID player) |> |> in
  let '(player, removed) := removeEffectLocked player EffectChameleon in
  let t := put_player i player t in
  if removed then
    mark_player playerID
      (feedback i ActionFeedbackKindSystem ActionFeedbackLevelInfo "Chameleon broken by movement." t).1
  else t.

Definition move_player (i : nat) (playerID : PlayerID) (payload : MovementInputPayload) (t : tickState) :
    tickState :=
  let player := player_at t i in
  if isAmmoRestockInProgressLocked (tk_session t) (ps_ID player) then
    if negb (vector_eqb (ps_Velocity player) zero_Vector2) then
      mark_player playerID (put_player i (player <| ps_Velocity := zero_Vector2 |>) t)
    else t
  else
    let t :=
      if negb (f32_eqb (mv_MoveX payload) f32_zero) || negb (f32_eqb (mv_MoveY payload) f32_zero)
      then break_chameleon i playerID t else t in
    let before := player_at t i in
    let '(motion, occupied) :=
      ResolveMoveIntent before payload defaultMatchLayout (tk_map t) (Some (tk_occupied t)) (tk_now t) in
    let player := before <| ps_Position := mo_Position motion |> <| ps_Velocity := mo_Velocity motion |> in
    let player :=
      from_option (λ roomID, player <| ps_CurrentRoomID := roomID |>) player
        (RoomAt defaultMatchLayout (TileFromPosition (ps_Position player))) in
    let t := put_player i player t <| tk_occupied := default ∅ occupied |> in
    mark_if (negb (vector_eqb (ps_Position player) (ps_Position before)) ||
             negb (vector_eqb (ps_Velocity player) (ps_Velocity before)) ||
             (ps_CurrentRoomID player ≠? ps_CurrentRoomID before)) (mark_player playerID) t.

Definition aim_player (i : nat) (playerID : PlayerID) (payload : AimInputPayload) (t : tickState) :
    tickState :=
  mark_player playerID
    (put_player i (player_at t i <| ps_Facing := mkVector2 (aim_AimX payload) (aim_AimY payload) |>) t).

Definition buy_item (i : nat) (playerID : PlayerID) (payload : BlackMarketPurchasePayload) (t : tickState) :
    tickState :=
  let '(session, purchased, message, level) := applyBlackMarketPurchaseLocked (tk_session t) i payload in
  let '(t, told) := feedback i ActionFeedbackKindPurchase level message (t <| tk_session := session |>) in
  mark_if (told || purchased) (mark_player playerID) t.

(** ** What they change and report *)

(** One step of a handler after the others. *)
Lemma owes_then id t0 t b t' b' :
  owes id t0 (t, b) → changes ∅ 0 t t' → (b = true → b' = true) → owes id t0 (t', b').
Proof. intros H Hc Hb. eapply owes_trans; [exact H|by apply owes_none|done]. Qed.
Lemma owes_also id t0 t b t' b' :
  owes id t0 (t, b) → owes id t (t', b') → owes id t0 (t', b || b').
Proof. intros H H'. apply (owes_or id t0 t b (t', b') H H'). Qed.

(** A dropped item that is picked up is gone, and reported as gone. *)
Lemma kept_delete reported (l : list EntityState) k e :
  NoDup (map es_ID l) → l !! k = Some e → kept reported {[es_ID e]} l (delete k l).
Proof.
  revert k. induction l as [|x l IH]; intros [|k] Hnd Hk; simplify_eq/=; apply NoDup_cons in Hnd as [Hx Hnd].
  - apply kept_gone; [set_solver|]. clear IH. induction l as [|y l IH]; [constructor|].
    apply kept_here; [done|by right|set_solver|]. apply NoDup_cons in Hnd as [_ Hnd]. apply IH; set_solver.
  - apply kept_here; [done|by right| |by apply IH].
    rewrite elem_of_singleton. intros He. apply Hx. rewrite He. apply (list_elem_of_fmap_2 es_ID); by eapply list_elem_of_lookup_2.
Qed.
Lemma changes_remove_entity D k e t :
  gs_Entities (tk_game t) !! k = Some e →
  changes D 0 t (mark_removed (es_ID e) (on_game (λ state, state <| gs_Entities ::= delete k |>) t)).
Proof.
  intros He. pose proof (changes_refl D t) as []. split; try done. intros Hok.
  apply (entities_change_kept {[es_ID e]}); [|done|cbn..| |done].
  - apply kept_delete; [apply Hok|done].
  - intros x Hx. destruct (decide (x = es_ID e)); set_solver.
  - set_solver.
  - intros x ->%elem_of_singleton. apply (list_elem_of_fmap_2 es_ID); by eapply list_elem_of_lookup_2.
Qed.

Lemma pickup_owes i entityID t :
  owes (ps_ID (player_at t i)) t (tryPickupDroppedEntityLocked i entityID t).
Proof.
  unfold tryPickupDroppedEntityLocked. cbv zeta. case_match; [by apply owes_none, changes_refl|].
  destruct (findEntityIndexByID _ _) as [k|] eqn:Hk; [|by apply owes_none, changes_refl].
  apply find_idx_Some in Hk as (e & He & Hid & _). bool_props. subst entityID.
  rewrite He. cbn [default from_option id]. case_match; [by apply owes_none, changes_refl|].
  destruct (ParseDroppedItem e) as [[item quantity]|]; [|by apply owes_none, changes_refl].
  case_match; [by apply owes_none, changes_refl|].
  destruct (AddItem _ _ _) as [p|] eqn:Ha; [|by apply owes_none, changes_refl].
  apply owes_true. eapply changes_step.
  - apply (changes_put_steady _ t i p); [by eapply same_vitals_steady, AddItem_vitals|set_solver].
  - by apply changes_remove_entity.
Qed.

Section interact_changes.
Context (i : nat) (t0 : tickState).
Local Abbreviation me := (ps_ID (player_at t0 i)).
Hypothesis Htold : told_at i t0.

Lemma owes_me t b : owes me t0 (t, b) → ps_ID (player_at t i) = me.
Proof. apply changes_ID. Qed.
Lemma owes_say kind level message st : owes me t0 st → owes me t0 (say i kind level message st).
Proof.
  destruct st as [t b]. intros H. unfold say. pose proof (owes_feedback i kind level message t) as Hf.
  rewrite (owes_me t b H) in Hf. destruct (feedback i kind level message t) as [t1 told].
  by eapply owes_also.
Qed.

Lemma interact_power_owes payload st : owes me t0 st → owes me t0 (interact_power i payload st).
Proof.
  destruct st as [t b]. intros H. unfold interact_power. case_match; [|done].
  pose proof (changes_toggle_power t i) as Hc. destruct (tryTogglePowerIfEligibleLocked i t) as [t1 toggled].
  destruct toggled; [apply owes_say|]; by eapply owes_then.
Qed.

Lemma interact_night_card_owes payload st : owes me t0 st → owes me t0 (interact_night_card i payload st).
Proof.
  destruct st as [t b]. intros H. unfold interact_night_card. case_match; [done|].
  pose proof (select_tells (now := tk_now t) (player_at t i) (ip_NightCardChoice payload)) as Hs.
  destruct (trySelectNightCardLocked _ _) as [[p selected] reason]. apply owes_say.
  eapply owes_also; [exact H|]. rewrite <-(owes_me t b H). by apply owes_put.
Qed.

(** A deposit that does not fit changes the player without saying so; but its message does,
    unless the player has this very message from earlier in the tick. *)
Lemma interact_stash_owes payload st : owes me t0 st → owes me t0 (interact_stash i payload st).
Proof.
  destruct st as [t b]. intros H. unfold interact_stash. case_match; [done|].
  pose proof (stash_outcome t i payload) as Ho. unfold stash_effect in Ho. 
  destruct (applyCellStashInteractLocked _ _ _) as [[[session applied] reason] cellID].
  cbv zeta in Ho. destruct Ho as (Hc & Hsame & Hno). rewrite (owes_me t b H) in Hc. cbv zeta.
  destruct (b || applied) eqn:Hb.
  { apply owes_say. eapply owes_trans; [exact H|by apply (owes_true me)|done]. }
  apply orb_false_iff in Hb as [-> ->]. destruct (Hno eq_refl) as [[-> ->] | ->].
  { apply owes_say. eapply owes_then; [exact H|by apply changes_silent|done]. }
  eapply owes_trans; [exact H| |done]. rewrite <-(owes_me t false H) in *. unfold say.
  match type of Hc with changes _ _ _ ?t1 => set (t2 := t1) in * end.
  assert (told_at i t) as Ht by (by eapply told_at_changes; [exact H|]).
  pose proof (owes_told i ActionFeedbackKindSystem (success_level false) "Cell stash is full." t t2
    ltac:(done) ltac:(by vm_compute) Ht Hc Hsame) as Hf.
  by destruct (feedback i ActionFeedbackKindSystem (success_level false) "Cell stash is full." t2).
Qed.

Lemma interact_escape_owes payload st : owes me t0 st → owes me t0 (interact_escape i payload st).
Proof.
  destruct st as [t b]. intros H. unfold interact_escape. cbv zeta. case_match; [done|].
  assert (owes me t (tryEscapeRouteLocked i (ip_EscapeRoute payload) t).1) as He.
  { unfold tryEscapeRouteLocked. cbv zeta. repeat (case_match; [by apply owes_none, changes_refl|]).
    rewrite <-(owes_me t b H). apply owes_put. by apply tells_vitals. }
  destruct (tryEscapeRouteLocked _ _ _) as [[t1 escaped] reason]. cbn [fst snd] in He.
  pose proof (tells_escape_feedback (now := tk_now t1) (player_at t1 i) (ip_EscapeRoute payload) escaped reason (tk_now t1)) as Hf.
  destruct (applyEscapeFeedbackLocked _ _ _ _ _) as [p told]. apply owes_put in Hf.
  pose proof (owes_also _ _ _ _ _ _ H He) as H1. rewrite (owes_me _ _ H1) in Hf. apply owes_say.
  replace (b || told || escaped) with (b || escaped || told) by (by destruct b, told, escaped).
  by eapply owes_also.
Qed.

Lemma interact_room_owes payload st : owes me t0 st → owes me t0 (interact_room i payload st).
Proof.
  destruct st as [t b]. intros H. unfold interact_room. cbv zeta. case_match; [done|].
  eapply owes_also; [exact H|]. rewrite <-(owes_me t b H). apply owes_move_room.
Qed.

Lemma interact_cell_owes payload st : owes me t0 st → owes me t0 (interact_cell i payload st).
Proof.
  destruct st as [t b]. intros H. unfold interact_cell. cbv zeta. case_match; [done|].
  pose proof (changes_toggle_cell_door t (player_at t i) (ip_TargetCellID payload)) as Hc.
  destruct (tryToggleCellDoorLocked _ _ _) as [t1 toggled].
  destruct toggled; apply owes_say; by eapply owes_then.
Qed.

Lemma interact_door_owes payload st : owes me t0 st → owes me t0 (interact_door i payload st).
Proof.
  destruct st as [t b]. intros H. unfold interact_door. cbv zeta. case_match; [done|].
  pose proof (changes_toggle_door t (player_at t i) (ip_TargetDoorID payload)) as Hc.
  destruct (tryToggleDoorForPlayerLocked _ _ _) as [t1 toggled].
  destruct toggled; apply owes_say; by eapply owes_then.
Qed.

Lemma interact_entity_owes payload st : owes me t0 st → owes me t0 (interact_entity i payload st).
Proof.
  destruct st as [t b]. intros H. unfold interact_entity. cbv zeta. case_match; [done|].
  destruct (tryHandleNPCPrisonerTaskInteractLocked _ _ _) as [[[[session changed] message] level]|] eqn:Ht.
  { apply owes_task in Ht. rewrite (owes_me t b H) in Ht. apply owes_say. by eapply owes_also. }
  pose proof (pickup_owes i (ip_TargetEntityID payload) t) as Hp. rewrite (owes_me t b H) in Hp.
  destruct (tryPickupDroppedEntityLocked _ _ _) as [t1 picked]. destruct picked; [|by eapply owes_then].
  apply owes_say. eapply owes_trans; [exact H| |done]. apply owes_true.
  change (changes {[me]} 0 t t1) in Hp. eapply changes_step; [exact Hp|]. apply changes_ensure_equipped.
  rewrite (changes_ID _ _ _ _ i Hp), (owes_me t b H). set_solver.
Qed.

Lemma interact_market_owes payload st : owes me t0 st → owes me t0 (interact_market i payload st).
Proof.
  destruct st as [t b]. intros H. unfold interact_market. cbv zeta. case_match; [done|].
  pose proof (changes_night_market t i (ip_MarketRoomID payload)) as Hc.
  destruct (trySetNightlyBlackMarketLocked _ _ _) as [session moved].
  destruct moved; apply owes_say; by eapply owes_then.
Qed.

Lemma owes_interact payload : owes me t0 (applyInteractCommandLocked i payload t0).
Proof.
  apply interact_market_owes, interact_entity_owes, interact_door_owes, interact_cell_owes,
    interact_room_owes, interact_escape_owes, interact_stash_owes, interact_night_card_owes,
    interact_power_owes, owes_none, changes_refl.
Qed.
End interact_changes.

(** *** Moving, aiming, buying *)

Lemma vector_eqb_view v w : vector_eqb v w = true → vector_view v = vector_view w.
Proof.
  unfold vector_eqb, vector_view. intros [Hx Hy]%andb_true_iff.
  f_equal; [destruct (f32_eqb_cases _ _ Hx) as [->|(? & ? & -> & ->)]
           |destruct (f32_eqb_cases _ _ Hy) as [->|(? & ? & -> & ->)]]; done.
Qed.

Lemma moved_view p v w room :
  vector_view v = vector_view (ps_Position p) → vector_view w = vector_view (ps_Velocity p) →
  room = ps_CurrentRoomID p →
  player_view (p <| ps_Position := v |> <| ps_Velocity := w |> <| ps_CurrentRoomID := room |>) = player_view p.
Proof.
  intros H1 H2 ->.
  transitivity (p <| ps_Position := vector_view v |> <| ps_Velocity := vector_view w |>); [by destruct p|].
  rewrite H1, H2. by destruct p.
Qed.

Section command_changes.
Context (i : nat) (playerID : PlayerID) (t : tickState).
Hypothesis Hid : ps_ID (player_at t i) = playerID.

Lemma changes_break_chameleon : changes ∅ 0 t (break_chameleon i playerID t).
Proof.
  unfold break_chameleon. cbv zeta.
  set (t1 := t <| tk_session ::= _ |>). assert (changes ∅ 0 t t1) as H1 by by apply changes_silent.
  assert (player_at t1 i = player_at t i) as Hp by done. clearbody t1.
  pose proof (tells_remove_effect (now := tk_now t1) (player_at t i) EffectChameleon) as Hr. rewrite <-Hp in Hr.
  eapply changes_step; [exact H1|]. rewrite <-Hid, <-Hp.
  destruct (removeEffectLocked _ _) as [p removed].
  destruct removed; [|exact (changes_put_mark_if ∅ i p false t1 Hr)].
  destruct Hr as [Hr _]. apply (changes_put_then i p t1); [done|]. apply changes_feedback.
  rewrite put_player_ID by done. set_solver.
Qed.

Lemma changes_move payload : changes ∅ 0 t (move_player i playerID payload t).
Proof.
  unfold move_player. cbv zeta. case_match.
  { case_match; [|apply changes_refl]. rewrite <-Hid. apply changes_put_marked. by apply same_vitals_steady. }
  set (t1 := if _ || _ then break_chameleon i playerID t else t).
  assert (changes ∅ 0 t t1) as H1.
  { unfold t1. case_match; [apply changes_break_chameleon|apply changes_refl]. }
  pose proof (changes_ID _ _ _ _ i H1) as Hid1. rewrite Hid in Hid1. clearbody t1.
  destruct (ResolveMoveIntent _ _ _ _ _ _) as [motion occupied].
  eapply changes_step; [exact H1|]. rewrite <-Hid1.
  set (p := from_option _ _ _).
  assert (p = player_at t1 i <| ps_Position := ps_Position p |> <| ps_Velocity := ps_Velocity p |>
      <| ps_CurrentRoomID := ps_CurrentRoomID p |>) as Hp.
  { unfold p. by destruct (RoomAt _ _), (player_at t1 i). }
  clearbody p. generalize (default ∅ occupied). intros o.
  assert (steady (tk_now t1) (player_at t1 i) p) as Hs by (rewrite Hp; by apply same_vitals_steady).
  assert (changes {[ps_ID (player_at t1 i)]} 0 (put_player i p t1) (put_player i p t1 <| tk_occupied := o |>))
    as Ho by by apply changes_silent.
  match goal with |- context [mark_if ?b] => destruct b eqn:Hb end; [by eapply changes_put_then|].
  apply (changes_step _ _ (put_player i p t1)); [|by apply changes_silent]. apply changes_put. split; [done|].
  right. apply orb_false_iff in Hb as [[Hpos Hvel]%orb_false_iff Hroom]. apply negb_false_iff in Hpos, Hvel.
  apply vector_eqb_view in Hpos, Hvel. apply negb_false_iff, bool_decide_eq_true in Hroom.
  rewrite Hp. by apply moved_view.
Qed.

Lemma changes_aim payload : changes ∅ 0 t (aim_player i playerID payload t).
Proof. unfold aim_player. rewrite <-Hid. apply changes_put_marked. by apply same_vitals_steady. Qed.

Lemma changes_buy payload : changes ∅ 0 t (buy_item i playerID payload t).
Proof.
  unfold buy_item. pose proof (owes_purchase t i payload) as H. cbv zeta in H.
  destruct (applyBlackMarketPurchaseLocked _ _ _) as [[[session purchased] message] level].
  cbn [fst snd] in H. pose proof (owes_feedback i ActionFeedbackKindPurchase level message (t <| tk_session := session |>)) as Hf.
  rewrite (owes_me i t _ _ H) in Hf. 
  destruct (feedback _ _ _ _ _) as [t1 told]. rewrite <-Hid. apply owes_mark. rewrite orb_comm.
  by eapply owes_also.
Qed.

(** *** Items that change hands *)

Lemma changes_craft payload : changes ∅ 0 t (craft_item i playerID payload t).
Proof.
  unfold craft_item. destruct (Craft _ _) as [p|] eqn:Hc; [|apply changes_refl].
  apply Craft_vitals, (same_vitals_steady (now := tk_now t)) in Hc. rewrite <-Hid. apply (changes_put_then i p t); [done|].
  apply changes_ensure_equipped. rewrite put_player_ID by done. set_solver.
Qed.

(** The new entity may as well be reported at once. *)
Lemma ensure_equipped_mark_entity j k t1 :
  ensure_equipped j (mark_entity k t1) =
    (mark_entity k (ensure_equipped j t1).1, (ensure_equipped j t1).2).
Proof.
  unfold ensure_equipped. change (player_at (mark_entity k t1) j) with (player_at t1 j).
  by destruct (ensureEquippedItemForPlayerLocked _).
Qed.
Lemma changes_drop payload : changes ∅ 1 t (drop_item i playerID payload t).
Proof.
  unfold drop_item. cbv zeta. set (amount := if _ ≟ 0 then 1 else _). clearbody amount.
  destruct (RemoveItem _ _ _) as [p|] eqn:Hr; [|by apply changes_none, changes_refl].
  apply RemoveItem_vitals, (same_vitals_steady (now := tk_now t)) in Hr.
  destruct (newDroppedItemEntityLocked _ _ _ _) as [session dropped] eqn:Hd.
  set (t1 := on_game _ _).
  assert (changes {[playerID]} 0 t (put_player i p t)) as H1
    by (apply changes_put_steady; [done|set_solver]).
  assert (changes {[playerID]} 1 (put_player i p t) (mark_entity (es_ID dropped) t1)) as H2.
  { unfold newDroppedItemEntityLocked in Hd. injection Hd as <- <-.
    pose proof (changes_refl {[playerID]} (put_player i p t)) as [? ? ? ? ? ? ? ?]. split; try done.
    eapply entities_change_new; cycle 2; [reflexivity..| |]; reflexivity. }
  pose proof (owes_ensure_equipped i (mark_entity (es_ID dropped) t1)) as H3.
  rewrite ensure_equipped_mark_entity, (changes_ID _ _ _ _ i H2), (changes_ID _ _ _ _ i H1), Hid in H3.
  destruct (ensure_equipped i t1) as [t2 equipped].
  change (changes ∅ 1 t (mark_player playerID (mark_entity (es_ID dropped)
    (mark_if equipped (mark_player playerID) t2)))).
  replace (mark_entity (es_ID dropped) (mark_if equipped (mark_player playerID) t2))
    with (mark_if equipped (mark_player playerID) (mark_entity (es_ID dropped) t2)) by (by destruct equipped).
  apply changes_settle. rewrite (left_id_L ∅ (∪)).
  apply (changes_trans _ 0 1 t _ _ ltac:(done) ltac:(done) H1).
  apply (changes_trans _ 1 0 _ _ _ ltac:(done) ltac:(done) H2).
  apply changes_none, owes_mark; done.
Qed.
End command_changes.

Lemma changes_use_item playerIndex playerID payload t :
  index_ok playerIndex t → changes ∅ 0 t (use_item playerIndex playerID payload t).
Proof.
  intros Hix. unfold use_item. case_match; [apply changes_refl|]. cbv zeta.
  set (amount := if _ ≟ 0 then 1 else _). clearbody amount. set (target := iu_TargetPlayerID payload).
  destruct (tryTransferItemBetweenPlayersLocked _ _ _ _ _ _) as [[[j k] t1]|] eqn:Ht; [|apply changes_refl].
  unfold tryTransferItemBetweenPlayersLocked in Ht. case_match; [done|].
  apply bind_Some in Ht as (j' & Hj & Ht). apply bind_Some in Ht as (k' & Hk & Ht). cbv zeta in Ht.
  do 2 (case_match; [done|]). apply bind_Some in Ht as ([source target'] & Htr & Ht). simplify_eq.
  destruct (Hix _ _ Hj) as [_ Hidj]. destruct (Hix _ _ Hk) as [_ Hidk].
  set (D := {[playerID; target]} : gset PlayerID).
  assert (changes D 0 t (put_player k target' (put_player j source t))) as Hm
    by (eapply changes_transfer; [exact Htr|set_solver..]).
  pose proof (changes_ID _ _ _ _ j Hm) as Hmj. pose proof (changes_ID _ _ _ _ k Hm) as Hmk.
  set (t1 := put_player k _ _) in *. clearbody t1.
  pose proof (owes_ensure_equipped j t1) as He. rewrite Hmj, Hidj in He.
  destruct (ensure_equipped j t1) as [t2 b2]. apply owes_mark in He. 
  pose proof (changes_ID _ _ _ _ k He) as Hek. set (t3 := mark_if b2 _ t2) in *. clearbody t3.
  pose proof (owes_ensure_equipped k t3) as Hf. rewrite Hek, Hmk, Hidk in Hf.
  destruct (ensure_equipped k t3) as [t4 b4]. apply owes_mark in Hf.
  apply changes_settle, changes_settle. apply (changes_weaken D _ 0 0); [set_solver|done|].
  eapply changes_step; [exact Hm|]. by eapply changes_step; apply changes_none.
Qed.
