(* ===== verification/Tick.v ===== *)
(** * A tick of a running match

    [internal/server/game/manager.go], [runMatchLoop] and [applyInputsToGameStateLocked]: the
    commands of the tick in order, the succession of the gang's leader, what times out, the
    alarm and its guards; then the clock with the manager's hooks, the offers of the
    night, the outcome, and the delta snapshot of everything that changed.  The ticker, the
    context and the mutex are Go's; the time of the tick is an argument. *)

From S2P Require Import Prelude Float32 Model GoStrings Hashing Layout Access Items Physics Phase Prison Win Cards Combat Roles Session InputQueue Spawn Lifecycle Actions Keyed Changes NightCards Economy Doors AbilityUse CardUse Shooting Interact.

#[local] Open Scope Z_scope.

(** ** What times out *)

(** One player of the loop over the pending chameleons. *)
Definition expire_chameleon (t : tickState) (i : nat) : tickState :=
  let player := player_at t i in
  let forget t := t <| tk_session ::= λ s, s <| ss_chameleonPendingUntil ::= delete (ps_ID player) |> |> in
  let pendingUntil := default 0 (ss_chameleonPendingUntil (tk_session t) !! ps_ID player) in
  if (pendingUntil ≟ 0) || (tk_now t <? pendingUntil) then t
  else
    let lastMoveTick := default 0 (ss_lastMoveIntentTick (tk_session t) !! ps_ID player) in
    if pendingUntil <=? lastMoveTick then forget t
    else if hasActiveEffect player EffectChameleon (tk_now t) then forget t
    else
      let '(player, changed) := upsertEffectLocked player EffectChameleon 0 (ps_ID player) 0 1 in
      let t := put_player i player t in
      forget (if changed then
                feedback_marked i ActionFeedbackKindSystem ActionFeedbackLevelSuccess
                  "Chameleon active: hidden until you move." (mark_player (ps_ID player) t)
              else t).

Definition expire_player_effects (t : tickState) (i : nat) : tickState :=
  let '(player, removedAny) := expire_effects (tk_now t) (player_at t i) in
  mark_if removedAny (mark_player (ps_ID player)) (put_player i player t).

Definition over_players (f : tickState → nat → tickState) (t : tickState) : tickState :=
  foldl f t (seq 0 (length (gs_Players (tk_game t)))).

Definition expireTimedStatesLocked (t : tickState) : tickState :=
  let t := expire_blocks t in
  let t := restore_doors t in
  let t := over_players expire_player_effects t in
  let t := over_players expire_chameleon t in
  over_players (λ t i, ensure_equipped_marked i t) t.

(** ** One command *)

Section commands.
Context `{Hdec : !PayloadDecoder}.
Variable playerIndex : gmap PlayerID nat.

(** A payload that does not decode is skipped. *)
Definition with_payload {T} (decoded : option T) (f : T → tickState → tickState) (t : tickState) :
    tickState :=
  match decoded with Some payload => f payload t | None => t end.

Definition marking (playerID : PlayerID) (r : tickState * bool) : tickState :=
  mark_if r.2 (mark_player playerID) r.1.

Definition dispatch_command (i : nat) (command : InputCommand) : tickState → tickState :=
  let playerID := ic_PlayerID command in
  let payload := ic_Payload command in
  let type := ic_Type command in
  if type ≟ CmdMoveIntent then with_payload (decode_movement payload) (move_player i playerID)
  else if type ≟ CmdAimIntent then with_payload (decode_aim payload) (aim_player i playerID)
  else if type ≟ CmdReload then λ t, marking playerID (applyReloadCommandLocked i t)
  else if type ≟ CmdEquipItem then
    with_payload (decode_equip payload) (λ p t, marking playerID (applyEquipItemCommandLocked i p t))
  else if type ≟ CmdFireWeapon then
    with_payload (decode_fire payload) (λ p t, (applyFireWeaponCommandLocked playerIndex playerID p t).1)
  else if type ≟ CmdInteract then
    with_payload (decode_interact payload) (λ p t, marking playerID (applyInteractCommandLocked i p t))
  else if type ≟ CmdUseAbility then
    with_payload (decode_ability payload)
      (λ p t, marking playerID (applyAbilityCommandLocked playerIndex i p t))
  else if type ≟ CmdUseCard then
    with_payload (decode_card payload) (λ p t, marking playerID (applyCardCommandLocked playerIndex i p t))
  else if type ≟ CmdUseItem then with_payload (decode_item payload) (use_item playerIndex playerID)
  else if type ≟ CmdBlackMarketBuy then with_payload (decode_market payload) (buy_item i playerID)
  else if type ≟ CmdDropItem then with_payload (decode_drop payload) (drop_item i playerID)
  else if type ≟ CmdCraftItem then with_payload (decode_craft payload) (craft_item i playerID)
  else id.

Definition acknowledge (command : InputCommand) (session : matchSession) : matchSession :=
  if default 0 (ss_lastProcessedClientSeq session !! ic_PlayerID command) <? ic_ClientSeq command then
    session <| ss_lastProcessedClientSeq ::= <[ic_PlayerID command := ic_ClientSeq command]> |>
  else session.

Definition apply_command (t : tickState) (command : InputCommand) : tickState :=
  match playerIndex !! ic_PlayerID command with
  | None => t
  | Some i =>
      let t := t <| tk_session ::= acknowledge command |> in
      if IsActionBlocked (player_at t i) (tk_now t) && (ic_Type command ≠? CmdAimIntent) &&
         (ic_Type command ≠? CmdUseCard) then t
      else dispatch_command i command t
  end.

End commands.

(** ** The commands of a tick *)

Record tickMutations := mkMutations {
  tm_players : list PlayerState;
  tm_doors : list DoorState;
  tm_cells : list CellState;
  tm_entities : list EntityState;
  tm_removedEntityIDs : list EntityID;
}.

Definition collectChangedPlayers (session : matchSession) (playerIndex : gmap PlayerID nat)
    (changed : gset PlayerID) : list PlayerState :=
  map (λ playerID, session_player (default O (playerIndex !! playerID)) session)
    (sort_strings (elements changed)).
Definition collectChangedDoors (session : matchSession) (changed : gset DoorID) : list DoorState :=
  omap (λ doorID, find_first (λ d, ds_ID d ≟ doorID) (ms_Doors (gs_Map (ss_gameState session))))
    (sort_by Z.le id (elements changed)).
Definition collectChangedCells (session : matchSession) (changed : gset CellID) : list CellState :=
  omap (λ cellID, find_first (λ c, cs_ID c ≟ cellID) (ms_Cells (gs_Map (ss_gameState session))))
    (sort_by Z.le id (elements changed)).
Definition collectRemovedEntityIDs (removed : gset EntityID) : list EntityID :=
  sort_by Z.le id (elements removed).

Section tick.
Context `{Hdec : !PayloadDecoder}.

(** Succession changes the players it names. *)
Definition succeed_leader (t : tickState) : tickState :=
  let '(state, changed) := ApplyGangLeaderSuccession (tk_game t) (ss_matchID (tk_session t)) (tk_now t) in
  foldl (λ t playerID, mark_player playerID t) (on_game (λ _, state) t) changed.

Definition run_commands (session : matchSession) (commands : list InputCommand) : tickState :=
  let playerIndex := player_index (gs_Players (ss_gameState session)) in
  let t := mkTick session ∅ ∅ ∅ ∅ ∅ ∅ in
  let t := resolveAmmoRestockCompletionsLocked t in
  let t := expireProjectileEntitiesLocked t in
  let t := t <| tk_occupied := BuildOccupiedTiles (gs_Players (tk_game t)) |> in
  let t := foldl (apply_command playerIndex) t commands in
  let t := succeed_leader t in
  let t := expireTimedStatesLocked t in
  applyAlarmAndGuardSystemLocked playerIndex t.

Definition applyInputsToGameStateLocked (session : matchSession) (commands : list InputCommand) :
    matchSession * tickMutations :=
  let t := run_commands session commands in
  let session' := tk_session t in
  (session', mkMutations
    (collectChangedPlayers session' (player_index (gs_Players (ss_gameState session))) (tk_players t))
    (collectChangedDoors session' (tk_doors t)) (collectChangedCells session' (tk_cells t))
    (collectChangedEntities session' (tk_entities t)) (collectRemovedEntityIDs (tk_removed t))).

(** ** The clock and the night *)

Definition managerPhaseHooks : Phase.HookFuncs :=
  Phase.mkHooks
    (Some (λ state _, state <| gs_Map ::= λ m, m <| ms_Alarm := zero_AlarmState |> |>))
    (Some (λ state transition, state <| gs_Map ::= λ m, m <| ms_BlackMarketRoomID :=
       DeterministicNightlyBlackMarketRoom (gs_MatchID state) (Phase.tr_Cycle transition)
         (Phase.tr_StartTick transition) |> |>)).

Definition restoreAuthoritySidearmsForNewDayLocked (session : matchSession) : matchSession * list PlayerID :=
  each_player restore_sidearms session.

(** By identifier, the second list's over the first's, in the order of the identifiers. *)
Definition mergeChangedEntityStates (first second : list EntityState) : list EntityState :=
  merge_by es_ID Z.le first second.

Definition mergeChangedPlayersByIDLocked (session : matchSession) (baseline : list PlayerState)
    (extraIDs : gset PlayerID) : list PlayerState :=
  if bool_decide (extraIDs = ∅) then baseline
  else
    let extra := filter (λ p, ps_ID p ∈ extraIDs) (gs_Players (ss_gameState session)) in
    merge_by ps_ID String.le baseline extra.

(** One transition of the clock: the session, the entities and the players it changed. *)
Definition follow_transition (st : matchSession * list EntityState * gset PlayerID)
    (transition : Phase.Transition) : matchSession * list EntityState * gset PlayerID :=
  let '(session, entities, players) := st in
  if Phase.tr_To transition ≠? PhaseNight then
    if Phase.tr_To transition ≟ PhaseDay then
      let '(session, cleared) := clearNightCardChoicesLocked session in
      let '(session, restored) := restoreAuthoritySidearmsForNewDayLocked session in
      (session, entities, list_to_set cleared ∪ list_to_set restored ∪ players)
    else st
  else
    let '(session, offers) := refreshNPCPrisonerOffersForNightLocked session (Phase.tr_Cycle transition) in
    let '(session, offered) := assignNightCardOffersForCycleLocked session (Phase.tr_Cycle transition) in
    (session, mergeChangedEntityStates entities offers, list_to_set offered ∪ players).

(** ** The delta *)

Definition changed_value {A} `{EqDecision A} (before after : A) : option A :=
  if after ≟ before then None else Some after.

Definition tick_delta (before after : GameState) (transitions : list Phase.Transition)
    (mutations : tickMutations) (players : list PlayerState) (entities : list EntityState) : GameDelta :=
  mkDelta players [] entities (tm_removedEntityIDs mutations) (tm_doors mutations) (tm_cells mutations) []
    (if transitions is [] then None else Some (gs_Phase after))
    (changed_value (gs_Status before) (gs_Status after))
    (changed_value (gs_CycleCount before) (gs_CycleCount after))
    (changed_value (ms_PowerOn (gs_Map before)) (ms_PowerOn (gs_Map after)))
    (changed_value (ms_Alarm (gs_Map before)) (ms_Alarm (gs_Map after)))
    (changed_value (ms_BlackMarketRoomID (gs_Map before)) (ms_BlackMarketRoomID (gs_Map after)))
    (if gs_GameOver before is Some _ then None else gs_GameOver after).

(** ** The tick *)

(** The tick of a session: the session after it, and the outcome if the match is over. *)
Definition tick_session (config : ServerConfig.Config) (session : matchSession) (timestamp : Z) :
    option (matchSession * option GameOverState) :=
  let '(commands, session) := begin_tick session in
  let before := ss_gameState session in
  let '(session, mutations) := applyInputsToGameStateLocked session commands in
  let previousStatus := gs_Status (ss_gameState session) in
  let hadGameOver := gs_GameOver (ss_gameState session) in
  '(state, transitions) ← Phase.Advance (ss_gameState session) (ss_tickID session)
     (ServerConfig.phaseConfig config) (Some managerPhaseHooks);
  let session := session <| ss_gameState := state |> in
  let '(session, nightEntities, phasePlayers) := foldl follow_transition (session, [], ∅) transitions in
  let outcome := Win.Evaluate (ss_gameState session) (Win.mkConfig (ServerConfig.MaxCycles config)) in
  let session := match outcome with Some o => finish_session session o timestamp | None => session end in
  let changedPlayers := mergeChangedPlayersByIDLocked session (tm_players mutations) phasePlayers in
  let changedEntities := mergeChangedEntityStates (tm_entities mutations) nightEntities in
  let compared := before <| gs_Status := previousStatus |> <| gs_GameOver := hadGameOver |> in
  let delta := tick_delta compared (ss_gameState session) transitions mutations changedPlayers changedEntities in
  let snapshot := mkSnapshot SnapshotKindDelta (ss_tickID session) (u64 (ss_tickID session - 1)) None
    (Some delta) (buildPlayerAcksLocked session) in
  Some (storeSnapshotLocked session snapshot, outcome).

(** One round of [runMatchLoop]: [None] when the loop returns instead. *)
Definition run_tick (m : Manager) (matchID : MatchID) (timestamp : Z) : option Manager :=
  session ← mg_matches m !! matchID;
  if ss_status session ≠? MatchStatusRunning then None
  else
    '(session, outcome) ← tick_session (mg_config m) session timestamp;
    let m := set_session m matchID session in
    let m :=
      match outcome with
      | Some _ =>
          appendEventLocked (forget_players m session)
            (mkEvent LifecycleEventMatchEnded matchID "" 0 timestamp (ss_endedReason session))
      | None => m
      end in
    Some (appendEventLocked m (mkEvent LifecycleEventTick matchID "" (ss_tickID session) timestamp "")).

End tick.

(** ** What a command changes and reports *)

Lemma changes_over_players (f : tickState → nat → tickState) t :
  (∀ t i, changes ∅ 0 t (f t i)) → changes ∅ 0 t (over_players f t).
Proof. intros H. apply changes_fold. auto. Qed.

Lemma changes_expire_chameleon t i : changes ∅ 0 t (expire_chameleon t i).
Proof.
  unfold expire_chameleon. cbv zeta. case_match; [apply changes_refl|].
  do 2 (case_match; [by apply changes_silent|]).
  pose proof (tells_upsert (now := tk_now t) (player_at t i) EffectChameleon 0 (ps_ID (player_at t i)) 0 1) as Hp.
  destruct (upsertEffectLocked _ _ _ _ _ _) as [p changed]. 
  assert (ps_ID p = ps_ID (player_at t i)) as Hid by apply Hp.
  rewrite Hid. match goal with |- changes _ _ _ (?t1 <| tk_session ::= _ |>) =>
    apply (changes_step _ _ t1); [|by apply changes_silent] end.
  destruct changed.
  - eapply changes_step; [|apply changes_feedback_marked]. apply changes_put_marked, Hp.
  - exact (changes_put_mark_if ∅ i p false t Hp).
Qed.

Lemma changes_expire_player_effects t i : changes ∅ 0 t (expire_player_effects t i).
Proof.
  unfold expire_player_effects. pose proof (tells_expire_effects (now := tk_now t) (tk_now t) (player_at t i)) as Hp.
  destruct (expire_effects _ _) as [p removed].
  assert (ps_ID p = ps_ID (player_at t i)) as -> by apply Hp. by apply changes_put_mark_if.
Qed.

Lemma changes_expire t : changes ∅ 0 t (expireTimedStatesLocked t).
Proof.
  unfold expireTimedStatesLocked. cbv zeta.
  eapply changes_step; [|apply changes_over_players; intros; apply changes_ensure_equipped_marked].
  eapply changes_step; [|apply changes_over_players, changes_expire_chameleon].
  eapply changes_step; [|apply changes_over_players, changes_expire_player_effects].
  eapply changes_step; [apply changes_expire_blocks|apply changes_restore_doors].
Qed.

(** Succession. *)
Lemma foldl_inv {A B} (P : A → Prop) (f : A → B → A) l x :
  P x → (∀ x y, P x → P (f x y)) → P (foldl f x l).
Proof. intros Hx Hf. revert x Hx. induction l; simpl; auto. Qed.
Lemma update_player_change {now} (f : PlayerState → PlayerState * gset PlayerID) players index s :
  (∀ p, same_vitals p (f p).1 ∧ (ps_ID p ∈ (f p).2 ∨ (f p).1 = p)) →
  Forall2 (player_change now s.2) players s.1 →
  Forall2 (player_change now (update_player index f s).2) players (update_player index f s).1.
Proof.
  intros Hf Hs. unfold update_player. destruct (s.1 !! index) as [p|] eqn:Hp; [|done].
  destruct (Hf p) as [Hv Hr]. destruct (f p) as [p' c]. cbn [fst snd] in *.
  eapply Forall2_compose; [intros x y z; apply (player_change_trans s.2 (s.2 ∪ c)); set_solver|exact Hs|].
  apply (Forall2_put _ _ _ p); [apply player_change_refl|intros z Hz; congruence|].
  split; [by apply same_vitals_steady|]. destruct Hr as [Hr| ->]; [left; set_solver|by right].
Qed.
Lemma demote_told p : same_vitals p (demote p).1 ∧ (ps_ID p ∈ (demote p).2 ∨ (demote p).1 = p).
Proof. unfold demote. case_match; (split; [done|]); [left; set_solver|by right]. Qed.
Lemma promote_told p : same_vitals p (promote p).1 ∧ (ps_ID p ∈ (promote p).2 ∨ (promote p).1 = p).
Proof.
  unfold promote. repeat case_match; simplify_eq; (split; [done|]); first [by right|left; simpl; set_solver].
Qed.

Lemma changes_succession t : changes ∅ 0 t (succeed_leader t).
Proof.
  unfold succeed_leader, ApplyGangLeaderSuccession. cbv zeta.
  assert (changes ∅ 0 t (on_game (λ _, tk_game t) t)) as Hno by by apply changes_silent.
  destruct (indexes_where is_eligible _) as [|e es]; [exact Hno|]. destruct (existsb is_alive_leader _); [exact Hno|].
  match goal with |- context [update_player _ promote ?s] => set (s1 := s) end.
  match goal with |- context [update_player ?k promote _] => set (index := k) end. clearbody index.
  assert (Forall2 (player_change (tk_now t) s1.2) (tk_playerStates t) s1.1) as H1.
  { unfold s1. apply (foldl_inv (λ s, Forall2 (player_change (tk_now t) s.2) (tk_playerStates t) s.1));
      [|intros s k Hs; by apply update_player_change; [apply demote_told|]].
    apply Forall_Forall2_diag, Forall_forall. intros p _. apply player_change_refl. }
  clearbody s1. pose proof (update_player_change promote _ index s1 promote_told H1) as H2.
  set (s2 := update_player index promote s1) in *. clearbody s2. apply changes_settle_all.
  apply (changes_put_all _ t s2.1). eapply Forall2_impl; [exact H2|].
  intros p p'. apply player_change_weaken. intros x Hx. rewrite (left_id_L ∅ (∪)), elem_of_list_to_set.
  by apply elem_of_sort_by, elem_of_elements.
Qed.

(** *** The commands *)

Section command_effects.
Context `{Hdec : !PayloadDecoder} (playerIndex : gmap PlayerID nat).

Lemma changes_payload {T} (decoded : option T) (f : T → tickState → tickState) n t :
  0 <= n → (∀ p, changes ∅ n t (f p t)) → changes ∅ n t (with_payload decoded f t).
Proof. intros Hn Hf. destruct decoded; [apply Hf|by apply changes_none, changes_refl]. Qed.
Lemma changes_marking i t r playerID :
  ps_ID (player_at t i) = playerID → owes (ps_ID (player_at t i)) t r → changes ∅ 1 t (marking playerID r).
Proof. intros <- H. destruct r as [t' b]. by apply changes_none, owes_mark. Qed.

Lemma changes_dispatch i command t :
  ready playerIndex t → playerIndex !! ic_PlayerID command = Some i →
  changes ∅ 1 t (dispatch_command playerIndex i command t).
Proof.
  intros Hready Hi. pose proof Hready as [Hsound Hix _]. destruct (Hix _ _ Hi) as [_ Hid].
  pose proof (ready_told_at _ _ _ _ Hready Hi) as Htold. unfold dispatch_command. cbv zeta.
  case_match; [apply changes_payload; [done|]; intros p; apply changes_none; [done|]; by apply changes_move|].
  case_match; [apply changes_payload; [done|]; intros p; apply changes_none; [done|]; by apply changes_aim|].
  case_match; [by apply (changes_marking i), owes_reload|].
  case_match; [apply changes_payload; [done|]; intros p; by apply (changes_marking i), owes_equip|].
  case_match; [apply changes_payload; [done|]; intros p; by apply changes_fire|].
  case_match; [apply changes_payload; [done|]; intros p; by apply (changes_marking i), owes_interact|].
  case_match; [apply changes_payload; [done|]; intros p; by apply (changes_marking i), owes_ability|].
  case_match; [apply changes_payload; [done|]; intros p; by apply (changes_marking i), owes_card|].
  case_match; [apply changes_payload; [done|]; intros p; apply changes_none; [done|]; by apply changes_use_item|].
  case_match; [apply changes_payload; [done|]; intros p; apply changes_none; [done|]; by apply changes_buy|].
  case_match; [apply changes_payload; [done|]; intros p; by apply changes_drop|].
  case_match; [apply changes_payload; [done|]; intros p; apply changes_none; [done|]; by apply changes_craft|].
  by apply changes_none, changes_refl.
Qed.

Lemma changes_command t command :
  ready playerIndex t → changes ∅ 1 t (apply_command playerIndex t command).
Proof.
  intros Hready. unfold apply_command. destruct (playerIndex !! ic_PlayerID command) as [i|] eqn:Hi;
    [|by apply changes_none, changes_refl]. cbv zeta.
  set (t1 := t <| tk_session ::= acknowledge command |>).
  assert (changes ∅ 0 t t1) as H1.
  { unfold t1. change (changes ∅ 0 t (t <| tk_session := acknowledge command (tk_session t) |>)).
    unfold acknowledge. case_match; by apply changes_silent. }
  case_match; [by apply changes_none|]. apply (changes_trans ∅ 0 1 t t1); [done..|].
  apply changes_dispatch; [|done]. by eapply ready_changes.
Qed.
End command_effects.

(** *** The whole tick *)

(** The state in which a tick starts. *)
Definition tick_start (session : matchSession) : tickState := mkTick session ∅ ∅ ∅ ∅ ∅ ∅.

(** What a tick needs of the session: players are sound and have no message of this tick. *)
Record tick_ready (session : matchSession) : Prop := {
  tr_sound : Forall sound_player (gs_Players (ss_gameState session));
  tr_quiet : ∀ p, p ∈ gs_Players (ss_gameState session) →
    afb_TickID (ps_LastActionFeedback p) ≠ ss_tickID session;
}.
Lemma tick_start_ready session :
  tick_ready session → ready (player_index (gs_Players (ss_gameState session))) (tick_start session).
Proof.
  intros [Hs Hq]. split; [exact Hs|exact (player_index_ok (tick_start session))|].
  intros p Hp Htick. by destruct (Hq p Hp).
Qed.

(** At most one entity per command and one guard per restricted room. *)
Definition new_entities (session : matchSession) (commands : list InputCommand) : Z :=
  Z.of_nat (length commands) + Z.of_nat (length (ms_RestrictedZones (gs_Map (ss_gameState session)))).

Lemma changes_run_commands `{Hdec : !PayloadDecoder} session commands :
  tick_ready session →
  changes ∅ (new_entities session commands) (tick_start session) (run_commands session commands).
Proof.
  intros Hr%tick_start_ready. unfold run_commands. fold (tick_start session). cbv zeta.
  set (playerIndex := player_index _) in *. clearbody playerIndex.
  set (t1 := resolveAmmoRestockCompletionsLocked _). assert (changes ∅ 0 (tick_start session) t1) as H1
    by apply changes_resolve_restocks. clearbody t1.
  set (t2 := expireProjectileEntitiesLocked t1). assert (changes ∅ 0 t1 t2) as H2
    by apply changes_expire_projectiles. clearbody t2.
  set (t3 := t2 <| tk_occupied := _ |>). assert (changes ∅ 0 t2 t3) as H3 by by apply changes_silent.
  clearbody t3. pose proof (changes_step _ _ _ _ H1 (changes_step _ _ _ _ H2 H3)) as H4. clear H1 H2 H3 t1 t2.
  pose proof (ready_changes _ _ _ _ H4 Hr) as Hr4.
  set (t4 := foldl _ t3 commands). assert (changes ∅ (Z.of_nat (length commands)) t3 t4) as H5.
  { pose proof (changes_fold_ready playerIndex 1 (apply_command playerIndex) commands t3 ltac:(done)
      (λ t c, changes_command playerIndex t c) Hr4) as H. by rewrite Z.mul_1_l in H. }
  clearbody t4. pose proof (ready_changes _ _ _ _ H5 Hr4) as Hr5.
  pose proof (changes_step _ _ _ _ (changes_succession t4) (changes_expire (succeed_leader t4))) as H6.
  set (t6 := expireTimedStatesLocked _) in *. clearbody t6. pose proof (ready_changes _ _ _ _ H6 Hr5) as Hr6.
  pose proof (changes_alarm playerIndex t6 Hr6) as H7.
  assert (ms_RestrictedZones (tk_map t6) = ms_RestrictedZones (gs_Map (ss_gameState session))) as Hz.
  { transitivity (ms_RestrictedZones (tk_map (tick_start session))); [|done].
    pose proof (ch_frame _ _ _ _ H4) as F4. pose proof (ch_frame _ _ _ _ H5) as F5.
    pose proof (ch_frame _ _ _ _ H6) as F6. rewrite F5, F4 in F6. by injection F6. }
  rewrite Hz in H7. unfold new_entities.
  apply (changes_trans ∅ _ _ _ t6); [lia|lia| |exact H7].
  replace (Z.of_nat (length commands)) with (0 + Z.of_nat (length commands) + 0) by lia.
  eapply changes_trans; [lia|lia| |exact H6]. by eapply changes_trans; [lia|lia|exact H4|].
Qed.
