(* ===== verification/SnapshotStore.v ===== *)
(** * The client's copy of the match

    [internal/client/netclient/snapshot_store.go]: a client keeps the last state it was told,
    a full snapshot replaces it and a delta is merged into it.  Clones are values here, the
    lock is Go's.  [Mirror] shows that the copy follows the server's state. *)

From S2P Require Import Prelude Float32 Model Keyed.

#[local] Open Scope Z_scope.

Module SnapshotStore.

Record SnapshotMeta := mkMeta {
  mt_TickID : Z;
  mt_PlayerAcks : list PlayerAck;
}.
Record t := mkStore {
  state : option GameState;
  meta : option SnapshotMeta;
}.
#[export] Instance t_eta : RecordEta t := λ r, mkStore (state r) (meta r).

Definition NewSnapshotStore : t := mkStore None None.

(** ** Merging a delta *)

Section upsert.
Context {K A : Type} `{Countable K} (key : A → K) (le : relation K) `{!RelDecision le}.

Definition upsert (existing changed : list A) : list A :=
  match changed with [] => existing | _ => merge_by key le existing changed end.
Definition remove (existing : list A) (removed : list K) : list A :=
  if (length removed =? 0)%nat || (length existing =? 0)%nat then existing
  else
    let removedSet := list_to_set (C := gset K) removed in
    filter (λ x, key x ∉ removedSet) existing.
End upsert.

Definition upsertPlayers := upsert ps_ID String.le.
Definition removePlayers := remove (K := PlayerID) ps_ID.
Definition upsertEntities := upsert es_ID Z.le.
Definition removeEntities := remove (K := EntityID) es_ID.
Definition upsertDoors := upsert ds_ID Z.le.
Definition upsertCells := upsert cs_ID Z.le.
Definition upsertZones := upsert zs_ID Z.le.

(** The assignments of the code touch different fields, so they are one record here. *)
Definition applyDeltaLocked (state : GameState) (delta : GameDelta) : GameState :=
  let m := gs_Map state in
  let players := upsertPlayers (gs_Players state) (gd_ChangedPlayers delta) in
  let entities := upsertEntities (gs_Entities state) (gd_ChangedEntities delta) in
  mkGame (gs_MatchID state) (gs_TickID state)
    (default (gs_Status state) (gd_Status delta))
    (default (gs_CycleCount state) (gd_CycleCount delta))
    (default (gs_Phase state) (gd_Phase delta))
    (mkMap (default (ms_PowerOn m) (gd_PowerOn delta)) (default (ms_Alarm m) (gd_Alarm delta))
       (default (ms_BlackMarketRoomID m) (gd_BlackMarketRoomID delta))
       (upsertDoors (ms_Doors m) (gd_ChangedDoors delta))
       (upsertCells (ms_Cells m) (gd_ChangedCells delta))
       (upsertZones (ms_RestrictedZones m) (gd_ChangedZones delta)))
    (removePlayers players (gd_RemovedPlayerIDs delta))
    (removeEntities entities (gd_RemovedEntityIDs delta))
    (match gd_GameOver delta with Some gameOver => Some gameOver | None => gs_GameOver state end).

(** ** Snapshots in, state out *)

Definition ApplySnapshot (s : t) (snapshot : Snapshot) : t * bool :=
  let meta := mkMeta (sn_TickID snapshot) (sn_PlayerAcks snapshot) in
  if sn_Kind snapshot ≟ SnapshotKindFull then
    match sn_State snapshot with
    | None => (s, false)
    | Some next => (mkStore (Some next) (Some meta), true)
    end
  else if sn_Kind snapshot ≟ SnapshotKindDelta then
    match sn_Delta snapshot, state s with
    | Some delta, Some current =>
        if sn_TickID snapshot <=? gs_TickID current then (s, false)
        else
          let current := applyDeltaLocked current delta <| gs_TickID := sn_TickID snapshot |> in
          (mkStore (Some current) (Some meta), true)
    | _, _ => (s, false)
    end
  else (s, false).

Definition CurrentState (s : t) : GameState * bool :=
  match state s with None => (zero_GameState, false) | Some current => (current, true) end.

Definition LatestSnapshotMeta (s : t) : SnapshotMeta * bool :=
  match meta s with None => (mkMeta 0 [], false) | Some m => (m, true) end.

(** ** What a merge holds *)

Section upsert_lemmas.
Context {K A : Type} `{Countable K} (key : A → K) (le : relation K)
  `{!RelDecision le, !PartialOrder le, !Total le}.

Lemma by_key_upsert existing changed :
  by_key key (upsert key le existing changed) = by_key key changed ∪ by_key key existing.
Proof.
  destruct changed as [|x changed]; [by rewrite by_key_nil, (left_id_L ∅ (∪))|].
  apply (by_key_merge key le).
Qed.
Lemma by_key_remove existing removed :
  by_key key (remove key existing removed) = filter (λ kx, kx.1 ∉ removed) (by_key key existing).
Proof.
  unfold remove. destruct removed as [|k removed]; cbn [length Nat.eqb orb].
  { symmetry. apply map_filter_id. intros i x _. apply not_elem_of_nil. }
  destruct existing as [|x existing]; cbn [length Nat.eqb orb]; [by rewrite by_key_nil, map_filter_empty|].
  cbv zeta. set (gone := list_to_set _).
  pose proof (by_key_filter key (λ j, j ∉ gone) (x :: existing)) as E. etransitivity; [exact E|].
  apply map_filter_ext. intros i y _. unfold gone. by rewrite elem_of_list_to_set.
Qed.
Lemma upsert_NoDup existing changed :
  NoDup (map key existing) → NoDup (map key (upsert key le existing changed)).
Proof. destruct changed; [done|]. intros _. apply (merge_by_NoDup key le). Qed.
Lemma remove_NoDup existing removed :
  NoDup (map key existing) → NoDup (map key (remove key existing removed)).
Proof.
  unfold remove. case_match; [done|]. intros Hnd. eapply sublist_NoDup; [exact Hnd|].
  apply (fmap_sublist key), sublist_filter.
Qed.
End upsert_lemmas.

(** A delta, by identifiers: the changed over the present, less the removed. *)
Record merged (state : GameState) (delta : GameDelta) (state' : GameState) : Prop := {
  me_players : by_key ps_ID (gs_Players state') = filter (λ kx, kx.1 ∉ gd_RemovedPlayerIDs delta)
    (by_key ps_ID (gd_ChangedPlayers delta) ∪ by_key ps_ID (gs_Players state));
  me_entities : by_key es_ID (gs_Entities state') = filter (λ kx, kx.1 ∉ gd_RemovedEntityIDs delta)
    (by_key es_ID (gd_ChangedEntities delta) ∪ by_key es_ID (gs_Entities state));
  me_doors : by_key ds_ID (ms_Doors (gs_Map state')) =
    by_key ds_ID (gd_ChangedDoors delta) ∪ by_key ds_ID (ms_Doors (gs_Map state));
  me_cells : by_key cs_ID (ms_Cells (gs_Map state')) =
    by_key cs_ID (gd_ChangedCells delta) ∪ by_key cs_ID (ms_Cells (gs_Map state));
  me_zones : by_key zs_ID (ms_RestrictedZones (gs_Map state')) =
    by_key zs_ID (gd_ChangedZones delta) ∪ by_key zs_ID (ms_RestrictedZones (gs_Map state));
}.

Lemma applyDelta_merged state delta tick :
  merged state delta (applyDeltaLocked state delta <| gs_TickID := tick |>).
Proof.
  split; cbn -[by_key filter]; unfold removePlayers, upsertPlayers, removeEntities, upsertEntities,
    upsertDoors, upsertCells, upsertZones; rewrite ?by_key_remove; rewrite by_key_upsert; [done..].
Qed.

(** C36: What the store takes: a full snapshot that carries a state, whatever the store held,
    and a delta newer than the state it holds; everything else, repeated and late deltas
    included, leaves it as it was.  A full snapshot replaces the state; a delta is merged
    into it by identifiers, what it removes is gone, and taken a second time it is
    refused.  The last snapshot's tick and acknowledgements are those of the last one taken. *)
Theorem ApplySnapshot_spec s snapshot :
  let '(s', taken) := ApplySnapshot s snapshot in
  (taken = true ↔
     sn_Kind snapshot = SnapshotKindFull ∧ is_Some (sn_State snapshot) ∨
     sn_Kind snapshot = SnapshotKindDelta ∧ is_Some (sn_Delta snapshot) ∧
       ∃ current, CurrentState s = (current, true) ∧ gs_TickID current < sn_TickID snapshot) ∧
  (taken = false → s' = s) ∧
  (taken = true →
     LatestSnapshotMeta s' = (mkMeta (sn_TickID snapshot) (sn_PlayerAcks snapshot), true) ∧
     ∃ next, CurrentState s' = (next, true) ∧
       (sn_Kind snapshot = SnapshotKindFull → sn_State snapshot = Some next) ∧
       (sn_Kind snapshot = SnapshotKindDelta → gs_TickID next = sn_TickID snapshot ∧
          ApplySnapshot s' snapshot = (s', false) ∧
          ∃ delta, sn_Delta snapshot = Some delta ∧ merged (CurrentState s).1 delta next)).
Proof.
  unfold ApplySnapshot at 1. cbv zeta. destruct (bool_decide_reflect (sn_Kind snapshot = SnapshotKindFull)) as [Hk|Hk].
  { destruct (sn_State snapshot) as [next|] eqn:Hst; rewrite Hk.
    - split; [naive_solver|]. split; [done|]. intros _. split; [done|]. by exists next.
    - split; [|done]. split; [done|]. by intros [[_ [? ?]]|[? _]]. }
  destruct (bool_decide_reflect (sn_Kind snapshot = SnapshotKindDelta)) as [Hd|Hd]; [|naive_solver].
  unfold CurrentState. destruct (sn_Delta snapshot) as [delta|] eqn:Hdelta;
    [|split; [|done]; split; [done|]; by intros [[? _]|(_ & [? ?] & _)]].
  destruct (state s) as [current|] eqn:Hs; [|split; [|done]; split; [done|]; intros [[? _]|(_ & _ & ? & [=] & _)]; done].
  destruct (sn_TickID snapshot <=? gs_TickID current) eqn:Hlt; bool_props.
  - split; [|done]. split; [done|]. intros [[? _]|(_ & _ & ? & [= <-] & ?)]; [done|lia].
  - split; [split; [|done]; intros _; right; naive_solver|]. split; [done|]. intros _. split; [done|].
    eexists. split; [reflexivity|]. split; [done|]. intros _. split; [done|]. split.
    + unfold ApplySnapshot. rewrite Hd, Hdelta. cbn [state]. rewrite bool_decide_eq_false_2, bool_decide_eq_true_2 by done.
      cbn [gs_TickID]. by rewrite (proj2 (Z.leb_le _ _)) by reflexivity.
    + exists delta. split; [done|]. apply applyDelta_merged.
Qed.

End SnapshotStore.
