(* ===== verification/Prediction.v ===== *)
(** * What the client draws

    [internal/client/prediction/engine.go]: the client keeps the last states it was told with
    the time each arrived, draws the match a little in the past, between two of them, and
    moves the local player by the inputs the server has not acknowledged yet.

    A [time.Time] is its nanoseconds since the zero time, a [time.Duration] is an [int64] of
    nanoseconds.  The mutex is Go's, clones are values.  The wall clock that
    [insertFrameLocked] reads for a zero time is an argument, and frames that arrive at the same nanosecond
    keep their order (Go's sort need not: with distinct times the order is the only one). *)

From S2P Require Import Prelude Float32 Model Layout Access Physics InputQueue Replay.
From Stdlib Require Import SpecFloat.

#[local] Open Scope Z_scope.

Module Prediction.

(** ** Durations *)

Definition time_Second : Z := 10 ^ 9.
Definition time_Millisecond : Z := 10 ^ 6.

(** [t.Sub(u)] saturates. *)
Definition time_Sub (t u : Z) : Z := Z.max (- 2 ^ 63) (Z.min (2 ^ 63 - 1) (t - u)).

(** [Duration.Seconds]. *)
Definition Seconds (d : Z) : f64 :=
  f64_add (f64_of_Z (Z.quot d time_Second)) (f64_div (f64_of_Z (Z.rem d time_Second)) (f64_of_Z (10 ^ 9))).

(** ** Configuration *)

Record Config := mkConfig {
  InterpolationBuffer : Z;
  CorrectionBlend : Z;
  SnapThresholdTiles : f32;
  HistoryLimit : Z;
  PendingLimit : Z;
}.
#[export] Instance Config_eta : RecordEta Config := λ r,
  mkConfig (InterpolationBuffer r) (CorrectionBlend r) (SnapThresholdTiles r) (HistoryLimit r) (PendingLimit r).

Definition PositionSnapThresholdTiles : f32 := f32_const 20 100.

Definition DefaultConfig : Config :=
  mkConfig (100 * time_Millisecond) (100 * time_Millisecond) PositionSnapThresholdTiles 64 256.

Definition normalized (c : Config) : Config :=
  let c := if InterpolationBuffer c <? 0 then c <| InterpolationBuffer := 0 |> else c in
  let c := if CorrectionBlend c <? 0 then c <| CorrectionBlend := 0 |> else c in
  let c := if f32_leb (SnapThresholdTiles c) f32_zero
           then c <| SnapThresholdTiles := PositionSnapThresholdTiles |> else c in
  let c := if HistoryLimit c <=? 1 then c <| HistoryLimit := 64 |> else c in
  if PendingLimit c <=? 0 then c <| PendingLimit := 256 |> else c.

(** ** The engine *)

Record timedState := mkTimed {
  receivedAt : Z;
  state : GameState;
}.

Record Engine := mkEngine {
  localPlayerID : PlayerID;
  config : Config;
  history : list timedState;
  pending : list InputCommand;
  hasSmoothedLocal : bool;
  smoothedLocal : Vector2;
  lastRenderAt : Z;
}.
#[export] Instance Engine_eta : RecordEta Engine := λ r,
  mkEngine (localPlayerID r) (config r) (history r) (pending r) (hasSmoothedLocal r)
    (smoothedLocal r) (lastRenderAt r).

Definition NewEngine (localPlayerID : PlayerID) (config : Config) : Engine :=
  mkEngine localPlayerID (normalized config) [] [] false zero_Vector2 0.

(** The newest elements of a list that has grown past its limit. *)
Definition keep_last {A} (limit : Z) (l : list A) : list A :=
  drop (Z.to_nat (Z.of_nat (length l) - limit)) l.

Definition insertFrameLocked (e : Engine) (state : GameState) (received wallClock : Z) : Engine :=
  let received := if received ≟ 0 then wallClock else received in
  let frames := sort_by Z.le receivedAt (history e ++ [mkTimed received state]) in
  e <| history := if HistoryLimit (config e) <? Z.of_nat (length frames)
                  then keep_last (HistoryLimit (config e)) frames else frames |>.

Definition trimPendingLocked (e : Engine) : Engine :=
  if (PendingLimit (config e) <=? 0) || (Z.of_nat (length (pending e)) <=? PendingLimit (config e)) then e
  else e <| pending := keep_last (PendingLimit (config e)) (pending e) |>.

Definition ackedClientSeq (acks : list PlayerAck) (playerID : PlayerID) : Z :=
  from_option ack_LastProcessedClientSeq 0 (find_first (λ ack, ack_PlayerID ack ≟ playerID) acks).

Definition hasPendingClientSeq (pending : list InputCommand) (clientSeq : Z) : bool :=
  existsb (λ command, ic_ClientSeq command ≟ clientSeq) pending.

Definition SeedAuthoritativeState (e : Engine) (state : GameState) (received wallClock : Z) : Engine :=
  insertFrameLocked e state received wallClock.

Definition AcceptAuthoritativeSnapshot (e : Engine) (snapshot : Snapshot) (state : GameState)
    (received wallClock : Z) : Engine :=
  let e := insertFrameLocked e state received wallClock in
  let ackSeq := ackedClientSeq (sn_PlayerAcks snapshot) (localPlayerID e) in
  let e := if ackSeq ≠? 0 then e <| pending ::= λ p, DropAckedInputs p ackSeq |> else e in
  trimPendingLocked e.

(** One round of the loop of [RecordLocalCommands]. *)
Definition record_command (e : Engine) (command : InputCommand) : Engine :=
  if (ic_PlayerID command ≠? localPlayerID e) || (ic_ClientSeq command ≟ 0) then e
  else if (ic_Type command ≠? CmdMoveIntent) && (ic_Type command ≠? CmdAimIntent) then e
  else if hasPendingClientSeq (pending e) (ic_ClientSeq command) then e
  else e <| pending ::= λ p, p ++ [command] |>.

Definition RecordLocalCommands (e : Engine) (commands : list InputCommand) : Engine :=
  if commands is [] then e else trimPendingLocked (foldl record_command e commands).

Definition PendingCommands (e : Engine) : list InputCommand := pending e.

(** ** Vectors *)

Definition clampMove (moveX moveY maxStep : f32) : Vector2 :=
  if f32_leb maxStep f32_zero then zero_Vector2
  else
    let squared := f32_add (f32_mul moveX moveX) (f32_mul moveY moveY) in
    if f32_eqb squared f32_zero then zero_Vector2
    else
      let magnitude := f32_sqrt squared in
      if f32_leb magnitude maxStep then mkVector2 moveX moveY
      else
        let scale := f32_div maxStep magnitude in
        mkVector2 (f32_mul moveX scale) (f32_mul moveY scale).

Definition lerp (from to alpha : f32) : f32 := f32_add from (f32_mul (f32_sub to from) alpha).
Definition lerpVector (from to : Vector2) (alpha : f32) : Vector2 :=
  mkVector2 (lerp (vX from) (vX to) alpha) (lerp (vY from) (vY to) alpha).

Definition vectorDistance (from to : Vector2) : f32 :=
  let dx := f32_sub (vX to) (vX from) in
  let dy := f32_sub (vY to) (vY from) in
  f32_sqrt (f32_add (f32_mul dx dx) (f32_mul dy dy)).

(** ** The inputs the server has not seen *)

Section replay.
Context `{!PayloadDecoder}.

Definition replayed (authoritativeTick : Z) (command : InputCommand) : bool :=
  (ic_Type command ≟ CmdMoveIntent) &&
  negb ((ic_TargetTick command ≠? 0) && (ic_TargetTick command <=? authoritativeTick)).

Definition predicted_step (payload : MovementInputPayload) : Vector2 :=
  let step := BaseMoveStepPerTick in
  let step := if mv_Sprint payload && f32_gtb SprintMoveStepPerTick step then SprintMoveStepPerTick else step in
  clampMove (mv_MoveX payload) (mv_MoveY payload) step.

(** One round of the loop: a payload that does not decode is passed over. *)
Definition predict_move (position : Vector2) (command : InputCommand) : Vector2 :=
  match decode_movement (ic_Payload command) with
  | None => position
  | Some payload =>
      let move := predicted_step payload in
      mkVector2 (f32_add (vX position) (vX move)) (f32_add (vY position) (vY move))
  end.

Definition replayPendingMovement (base : PlayerState) (authoritativeTick : Z) (pending : list InputCommand) :
    Vector2 :=
  let candidate := sort_by Z.le ic_ClientSeq (filter (λ c, replayed authoritativeTick c = true) pending) in
  foldl predict_move (ps_Position base) candidate.

(** ** Between two states *)

Definition interpolate_player (previous : gmap PlayerID PlayerState) (alpha : f32) (p : PlayerState) : PlayerState :=
  match previous !! ps_ID p with
  | None => p
  | Some q => p <| ps_Position := lerpVector (ps_Position q) (ps_Position p) alpha |>
                <| ps_Velocity := lerpVector (ps_Velocity q) (ps_Velocity p) alpha |>
  end.
Definition interpolate_entity (previous : gmap EntityID EntityState) (alpha : f32) (e : EntityState) : EntityState :=
  match previous !! es_ID e with
  | None => e
  | Some q => e <| es_Position := lerpVector (es_Position q) (es_Position e) alpha |>
                <| es_Velocity := lerpVector (es_Velocity q) (es_Velocity e) alpha |>
  end.

(** The maps are filled in the order of the lists: the last of an identifier wins. *)
Definition interpolateState (from to : GameState) (alpha : f32) : GameState :=
  let playersByID := foldl (λ m p, <[ps_ID p := p]> m) ∅ (gs_Players from) in
  let entitiesByID := foldl (λ m e, <[es_ID e := e]> m) ∅ (gs_Entities from) in
  to <| gs_Players ::= map (interpolate_player playersByID alpha) |>
     <| gs_Entities ::= map (interpolate_entity entitiesByID alpha) |>.

Definition f32_one : f32 := f32_of_Z 1.
Definition unit_clamp (x : f32) : f32 :=
  let x := if f32_ltb x f32_zero then f32_zero else x in
  if f32_gtb x f32_one then f32_one else x.

(** The loop over neighbouring frames; the last frame when it finds none. *)
Fixpoint interpolate_between (target : Z) (prev : timedState) (frames : list timedState) : GameState :=
  match frames with
  | [] => state prev
  | next :: rest =>
      if (target <? receivedAt prev) || (receivedAt next <? target) then interpolate_between target next rest
      else
        let window := time_Sub (receivedAt next) (receivedAt prev) in
        if window <=? 0 then state next
        else
          let alpha := f32_of_f64 (f64_div (Seconds (time_Sub target (receivedAt prev))) (Seconds window)) in
          interpolateState (state prev) (state next) (unit_clamp alpha)
  end.

Definition interpolateLocked (e : Engine) (now : Z) : option GameState :=
  match history e with
  | [] => None
  | [only] => Some (state only)
  | first :: rest =>
      let target := now - InterpolationBuffer (config e) in
      let last := default first (last rest) in
      if target <=? receivedAt first then Some (state first)
      else if receivedAt last <=? target then Some (state last)
      else Some (interpolate_between target first rest)
  end.

(** ** Drawing *)

Definition findPlayerIndex (players : list PlayerState) (playerID : PlayerID) : option nat :=
  find_idx (λ p, ps_ID p ≟ playerID) players.

Definition draw_at (base : GameState) (index : nat) (position : Vector2) : GameState :=
  base <| gs_Players ::= alter (λ p, p <| ps_Position := position |>) index |>.

Definition blend_factor (e : Engine) (now : Z) : f32 :=
  if (0 <? CorrectionBlend (config e)) && (lastRenderAt e ≠? 0) && (lastRenderAt e <? now) then
    let dt := time_Sub now (lastRenderAt e) in
    let blendFactor := f32_of_f64 (f64_div (Seconds dt) (Seconds (CorrectionBlend (config e)))) in
    let blendFactor := if f32_gtb blendFactor f32_one then f32_one else blendFactor in
    if f32_ltb blendFactor f32_zero then f32_zero else blendFactor
  else f32_one.

Definition RenderState (e : Engine) (now : Z) : Engine * option GameState :=
  match interpolateLocked e now with
  | None => (e, None)
  | Some base =>
      match findPlayerIndex (gs_Players base) (localPlayerID e) with
      | None => (e <| hasSmoothedLocal := false |> <| lastRenderAt := now |>, Some base)
      | Some localIndex =>
          let local := default zero_PlayerState (gs_Players base !! localIndex) in
          let desired := replayPendingMovement local (gs_TickID base) (pending e) in
          if negb (hasSmoothedLocal e) then
            (e <| smoothedLocal := desired |> <| hasSmoothedLocal := true |> <| lastRenderAt := now |>,
             Some (draw_at base localIndex desired))
          else if f32_gtb (vectorDistance (smoothedLocal e) desired) (SnapThresholdTiles (config e)) then
            (e <| smoothedLocal := desired |> <| lastRenderAt := now |>, Some (draw_at base localIndex desired))
          else
            let smoothed := lerpVector (smoothedLocal e) desired (blend_factor e now) in
            (e <| smoothedLocal := smoothed |> <| lastRenderAt := now |>, Some (draw_at base localIndex smoothed))
      end
  end.
End replay.

(** ** What the engine keeps *)

(** The operations of the engine, in any order. *)
Inductive engine_step `{!PayloadDecoder} : Engine → Engine → Prop :=
  | step_seed e state received wallClock : engine_step e (SeedAuthoritativeState e state received wallClock)
  | step_accept e snapshot state received wallClock :
      engine_step e (AcceptAuthoritativeSnapshot e snapshot state received wallClock)
  | step_record e commands : engine_step e (RecordLocalCommands e commands)
  | step_render e now : engine_step e (RenderState e now).1.

Definition predictable (local : PlayerID) (c : InputCommand) : Prop :=
  ic_PlayerID c = local ∧ ic_ClientSeq c ≠ 0 ∧ (ic_Type c = CmdMoveIntent ∨ ic_Type c = CmdAimIntent).

Record engine_inv (local : PlayerID) (c : Config) (e : Engine) : Prop := {
  ei_local : localPlayerID e = local;
  ei_config : config e = c;
  ei_history : Z.of_nat (length (history e)) <= HistoryLimit c;
  ei_ordered : StronglySorted (on_key Z.le receivedAt) (history e);
  ei_pending : Z.of_nat (length (pending e)) <= PendingLimit c;
  ei_inputs : Forall (predictable local) (pending e);
  ei_once : NoDup (map ic_ClientSeq (pending e));
}.

Lemma length_keep_last {A} limit (l : list A) :
  0 <= limit → Z.of_nat (length (keep_last limit l)) <= limit.
Proof. intros H. unfold keep_last. rewrite length_drop. lia. Qed.

Lemma sorted_keep_last {A} (R : relation A) limit l : StronglySorted R l → StronglySorted R (keep_last limit l).
Proof.
  unfold keep_last. generalize (Z.to_nat (Z.of_nat (length l) - limit)). intros n Hs. revert n.
  induction Hs as [|x l Hs IH Hx]; intros [|n]; simpl; try by constructor. by apply IH.
Qed.
Lemma keep_last_sublist {A} limit (l : list A) : keep_last limit l `sublist_of` l.
Proof. apply sublist_drop. Qed.

(** Recording adds inputs of the local player that are not there yet. *)
Lemma record_command_inv e c :
  Forall (predictable (localPlayerID e)) (pending e) → NoDup (map ic_ClientSeq (pending e)) →
  let e' := record_command e c in
  e' = e <| pending := pending e' |> ∧ Forall (predictable (localPlayerID e)) (pending e') ∧
  NoDup (map ic_ClientSeq (pending e')) ∧ ∃ more, pending e' = pending e ++ more.
Proof.
  intros Hf Hn. cbv zeta. assert (e = e <| pending := pending e |>) as He by by destruct e.
  assert (∃ more, pending e = pending e ++ more) as Hmore by (exists []; by rewrite app_nil_r).
  unfold record_command. destruct (ic_PlayerID c ≟ localPlayerID e) eqn:Hid; cbn [negb orb]; [|done].
  destruct (ic_ClientSeq c ≟ 0) eqn:Hseq; [done|].
  destruct (negb _ && negb _) eqn:Ht; [done|].
  assert (ic_Type c = CmdMoveIntent ∨ ic_Type c = CmdAimIntent) as Htype.
  { apply andb_false_iff in Ht as [Ht|Ht]; apply negb_false_iff, bool_decide_eq_true in Ht; auto. }
  clear Ht. destruct (hasPendingClientSeq _ _) eqn:Hp; [done|]. bool_props.
  split; [by destruct e|]. cbn [pending]. split_and!; [| |by eexists].
  - apply Forall_app_2; [done|]. apply Forall_singleton. split_and!; [done|done|].
    apply Htype.
  - cbn. rewrite map_app. apply NoDup_app. split_and!; [done| |apply NoDup_singleton].
    intros k Hk ->%list_elem_of_singleton. unfold hasPendingClientSeq in Hp.
    apply list_elem_of_fmap in Hk as (d & Hd & Hin). apply not_true_iff_false in Hp. apply Hp.
    apply existsb_elem. exists d. split; [done|]. by apply bool_decide_eq_true.
Qed.

Lemma record_commands_inv cs e :
  Forall (predictable (localPlayerID e)) (pending e) → NoDup (map ic_ClientSeq (pending e)) →
  let e' := foldl record_command e cs in
  e' = e <| pending := pending e' |> ∧ Forall (predictable (localPlayerID e)) (pending e') ∧
  NoDup (map ic_ClientSeq (pending e')).
Proof.
  revert e. induction cs as [|c cs IH]; intros e Hf Hn; cbn [foldl].
  { split_and!; [by destruct e|done|done]. }
  destruct (record_command_inv e c Hf Hn) as (He & Hf' & Hn' & _).
  assert (localPlayerID (record_command e c) = localPlayerID e) as Hl by by rewrite He.
  rewrite <-Hl in Hf'. destruct (IH _ Hf' Hn') as (He2 & Hf2 & Hn2). rewrite Hl in Hf2. cbv zeta in *.
  split_and!; [|done|done]. rewrite He2 at 1. rewrite He. by destruct e.
Qed.

Lemma trim_pending e :
  trimPendingLocked e = e <| pending := pending (trimPendingLocked e) |> ∧
  pending (trimPendingLocked e) `sublist_of` pending e ∧
  (0 < PendingLimit (config e) → Z.of_nat (length (pending (trimPendingLocked e))) <= PendingLimit (config e)).
Proof.
  unfold trimPendingLocked. destruct (PendingLimit (config e) <=? 0) eqn:H0; cbn [orb]; bool_props.
  { split_and!; [by destruct e|done|lia]. }
  destruct (Z.of_nat (length (pending e)) <=? _) eqn:Hle; bool_props.
  { split_and!; [by destruct e|done|lia]. }
  split_and!; [by destruct e|apply keep_last_sublist|]. intros _. apply length_keep_last. lia.
Qed.

Lemma insert_frame e st received wall :
  0 < HistoryLimit (config e) →
  let e' := insertFrameLocked e st received wall in
  e' = e <| history := history e' |> ∧ StronglySorted (on_key Z.le receivedAt) (history e') ∧
  Z.of_nat (length (history e')) <= HistoryLimit (config e).
Proof.
  intros Hl. cbv zeta. unfold insertFrameLocked. cbv zeta. split; [done|]. cbn [history].
  set (frames := sort_by _ _ _).
  assert (StronglySorted (on_key Z.le receivedAt) frames) as Hs by apply (sort_by_sorted Z.le receivedAt).
  clearbody frames. cbn. destruct (_ <? _) eqn:Hlt; bool_props; [|done].
  split; [by apply sorted_keep_last|]. apply length_keep_last. lia.
Qed.

Lemma normalized_limits c : 1 < HistoryLimit (normalized c) ∧ 0 < PendingLimit (normalized c).
Proof.
  unfold normalized. cbv zeta. repeat match goal with |- context [if ?b then _ else _] => destruct b eqn:? end;
    bool_props; cbn in *; lia.
Qed.

Lemma inv_insert local c e st received wall :
  1 < HistoryLimit c → engine_inv local c e → engine_inv local c (insertFrameLocked e st received wall).
Proof.
  intros Hl [<- <- H1 H2 H3 H4 H5]. destruct (insert_frame e st received wall) as (He & Hs & Hn); [lia|].
  rewrite He. by split.
Qed.
Lemma inv_trim local c e :
  0 < PendingLimit c → engine_inv local c (e <| pending := [] |>) →
  Forall (predictable local) (pending e) → NoDup (map ic_ClientSeq (pending e)) →
  engine_inv local c (trimPendingLocked e).
Proof.
  intros Hl [Hid Hc H1 H2 _ _ _] Hf Hn. cbn in Hid, Hc, H1, H2.
  destruct (trim_pending e) as (He & Hsub & Hlen). rewrite Hc in Hlen. specialize (Hlen Hl). rewrite He.
  split; cbn; try done.
  - rewrite Forall_forall in *. intros x Hx. apply Hf. by eapply elem_of_sublist.
  - eapply sublist_NoDup; [exact Hn|]. by apply (fmap_sublist ic_ClientSeq).
Qed.

Lemma engine_step_inv `{!PayloadDecoder} local c e e' :
  1 < HistoryLimit c → 0 < PendingLimit c → engine_step e e' → engine_inv local c e → engine_inv local c e'.
Proof.
  intros Hh Hp Hstep He. destruct Hstep as [e st received wall|e snap st received wall|e cmds|e now].
  - by apply inv_insert.
  - apply (inv_insert local c e st received wall Hh) in He. unfold AcceptAuthoritativeSnapshot. cbv zeta.
    set (e1 := insertFrameLocked _ _ _ _) in *. clearbody e1. clear e. destruct He as [H0 Hc H1 H2 H3 H4 H5].
    set (e2 := if (_ : bool) then (_ : Engine) else e1).
    assert (e2 = e1 <| pending := pending e2 |> ∧ pending e2 `sublist_of` pending e1) as [He Hsub].
    { unfold e2. destruct (_ ≠? _); [|by destruct e1]. split; [done|]. apply sublist_filter. }
    clearbody e2. apply inv_trim; [done| | |].
    + rewrite He. split; cbn; [done|done|done|done|lia|constructor|constructor].
    + rewrite Forall_forall in *. intros x Hx. apply H4. by eapply elem_of_sublist.
    + eapply sublist_NoDup; [exact H5|]. by apply (fmap_sublist ic_ClientSeq).
  - unfold RecordLocalCommands. destruct cmds as [|cmd cmds]; [done|]. generalize (cmd :: cmds). clear cmd cmds. intros cmds.
    destruct He as [<- H0 H1 H2 H3 H4 H5]. destruct (record_commands_inv cmds e H4 H5) as (He & Hf & Hn).
    apply inv_trim; [done| |done|done]. rewrite He. split; cbn; [done|done|done|done|lia|constructor|constructor].
  - unfold RenderState. destruct (interpolateLocked e now) as [base|]; [|done].
    destruct (findPlayerIndex _ _); cbv zeta; [|by destruct He; split].
    destruct (hasSmoothedLocal e); cbn [negb]; [|by destruct He; split].
    by destruct (f32_gtb _ _); destruct He; split.
Qed.

Lemma trim_small e : Z.of_nat (length (pending e)) <= PendingLimit (config e) → trimPendingLocked e = e.
Proof. intros H. unfold trimPendingLocked. rewrite (proj2 (Z.leb_le _ _) H). by rewrite orb_true_r. Qed.

(** C37: Whatever the client is told, types and draws, in any order: the inputs it predicts
    with are its own moves and aims, each of them once and never more than the limit; its
    frames are in the order of their times and never more than the limit; and a snapshot
    takes out of the inputs exactly those it acknowledges. *)
Theorem engine_sound `{!PayloadDecoder} local config e
    (Hreach : rtc engine_step (NewEngine local config) e) :
  engine_inv local (normalized config) e ∧
  ∀ snapshot st received wallClock,
    let ackSeq := ackedClientSeq (sn_PlayerAcks snapshot) local in
    pending (AcceptAuthoritativeSnapshot e snapshot st received wallClock) =
      if ackSeq ≟ 0 then pending e else filter (λ c, ackSeq < ic_ClientSeq c) (pending e).
Proof.
  destruct (normalized_limits config) as [Hh Hp].
  assert (engine_inv local (normalized config) e) as Hinv.
  { assert (engine_inv local (normalized config) (NewEngine local config)) as H0.
    { split; cbn; [done|done|lia|constructor|lia|constructor|constructor]. }
    induction Hreach as [|e1 e2 e3 Hs _ IH]; [done|]. by apply IH, (engine_step_inv local _ e1). }
  split; [exact Hinv|]. destruct Hinv as [Hl Hc H1 H2 H3 H4 H5]. intros snapshot st received wallClock. cbv zeta.
  unfold AcceptAuthoritativeSnapshot. cbv zeta.
  set (e1 := insertFrameLocked e st received wallClock).
  assert (localPlayerID e1 = local ∧ pending e1 = pending e ∧ Prediction.config e1 = normalized config) as (E1 & E2 & E3) by done.
  clearbody e1. rewrite E1. destruct (_ ≟ 0); cbn [negb].
  - rewrite trim_small; [done|]. by rewrite E2, E3.
  - rewrite trim_small; cbn; unfold DropAckedInputs; rewrite E2; [done|]. rewrite E3.
    etransitivity; [|exact H3]. apply inj_le, length_filter.
Qed.

(** ** Which frame is drawn *)

(** Everything but the motion of players and entities. *)
Definition still_player (p : PlayerState) : PlayerState :=
  p <| ps_Position := zero_Vector2 |> <| ps_Velocity := zero_Vector2 |>.
Definition still_entity (e : EntityState) : EntityState :=
  e <| es_Position := zero_Vector2 |> <| es_Velocity := zero_Vector2 |>.
Definition still (g : GameState) : GameState :=
  g <| gs_Players := map still_player (gs_Players g) |> <| gs_Entities := map still_entity (gs_Entities g) |>.

(** The oldest frame for a target not after it, the newest for a target not before it, and
    between them the first frame that is not older than the target. *)
Definition drawn_frame (target : Z) (frames : list timedState) : option timedState :=
  match frames, last frames with
  | oldest :: _, Some newest =>
      if target <=? receivedAt oldest then Some oldest
      else if receivedAt newest <=? target then Some newest
      else find_first (λ f, target <=? receivedAt f) frames
  | _, _ => None
  end.

Lemma still_ext g players entities :
  map still_player players = map still_player (gs_Players g) →
  map still_entity entities = map still_entity (gs_Entities g) →
  still (g <| gs_Players := players |> <| gs_Entities := entities |>) = still g.
Proof.
  intros Hp He. transitivity (g <| gs_Players := map still_player players |> <| gs_Entities := map still_entity entities |>).
  { reflexivity. }
  unfold still. by rewrite Hp, He.
Qed.

Lemma interpolate_still from to alpha : still (interpolateState from to alpha) = still to.
Proof.
  apply still_ext; rewrite map_map; apply map_ext; intros x.
  - unfold interpolate_player. destruct (_ !! _); by destruct x.
  - unfold interpolate_entity. destruct (_ !! _); by destruct x.
Qed.
Lemma draw_at_still base i position : still (draw_at base i position) = still base.
Proof.
  pose proof (still_ext base (alter (λ p, p <| ps_Position := position |>) i (gs_Players base)) (gs_Entities base)) as H.
  etransitivity; [|apply H; [|done]]; [by destruct base|]. clear H. generalize (gs_Players base). intros players. revert i.
  induction players as [|p l IH]; intros [|i]; try done.
  apply (f_equal2 cons); [done|apply IH].
Qed.

Lemma between_frame target prev frames newest :
  receivedAt prev < target → StronglySorted (on_key Z.le receivedAt) (prev :: frames) →
  last (prev :: frames) = Some newest → target < receivedAt newest →
  ∃ f, find_first (λ f, target <=? receivedAt f) (prev :: frames) = Some f ∧
    still (interpolate_between target prev frames) = still (state f).
Proof.
  revert prev. induction frames as [|next frames IH]; intros prev Hlt Hs Hlast Hnew; cbn [interpolate_between].
  { injection Hlast as <-. lia. }
  apply StronglySorted_inv in Hs as [Hs Hp]. rewrite find_first_cons, (proj2 (Z.leb_gt _ _) Hlt).
  rewrite (proj2 (Z.ltb_ge target (receivedAt prev))) by lia. cbn [orb].
  destruct (receivedAt next <? target) eqn:Hn; bool_props.
  - exact (IH next Hn Hs Hlast Hnew).
  - rewrite find_first_cons, (proj2 (Z.leb_le _ _) Hn). exists next. split; [done|].
    destruct (_ <=? 0); [done|]. apply interpolate_still.
Qed.

Lemma interpolate_frame e now :
  StronglySorted (on_key Z.le receivedAt) (history e) →
  match interpolateLocked e now with
  | None => history e = []
  | Some g => ∃ f, drawn_frame (now - InterpolationBuffer (config e)) (history e) = Some f ∧ still g = still (state f)
  end.
Proof.
  intros Hs. unfold interpolateLocked. cbv zeta. destruct (history e) as [|first rest]; [done|].
  set (target := now - _). clearbody target. unfold drawn_frame. destruct rest as [|second rest].
  { exists first. split; [|done]. cbn [last]. destruct (target <=? _) eqn:H1; [done|]. bool_props.
    by rewrite (proj2 (Z.leb_le _ _)) by lia. }
  set (frames := second :: rest) in *.
  assert (last (first :: frames) = Some (default first (last frames))) as Hlast.
  { rewrite last_cons. by destruct (last frames). }
  rewrite Hlast. set (newest := default first (last frames)) in *. clearbody newest. clearbody frames.
  destruct (target <=? receivedAt first) eqn:H1; bool_props; [by exists first|].
  destruct (receivedAt newest <=? target) eqn:H2; bool_props; [by exists newest|].
  by apply (between_frame target first frames newest).
Qed.

Lemma render_draws `{!PayloadDecoder} e now
    (Hs : StronglySorted (on_key Z.le receivedAt) (history e)) :
  let '(e', drawn) := RenderState e now in
  history e' = history e ∧ pending e' = pending e ∧ config e' = config e ∧
  match drawn with
  | None => history e = []
  | Some g => ∃ f, drawn_frame (now - InterpolationBuffer (config e)) (history e) = Some f ∧
      still g = still (state f)
  end.
Proof.
  pose proof (interpolate_frame e now Hs) as Hf. unfold RenderState.
  destruct (interpolateLocked e now) as [base|]; [|done]. destruct Hf as (f & Hf & Hg).
  destruct (findPlayerIndex _ _) as [i|]; cbv zeta; [|by split_and!; eauto].
  destruct (hasSmoothedLocal e); cbn [negb]; [destruct (f32_gtb _ _)|];
    (split_and!; [done|done|done|]; exists f; split; [done|]; by rewrite draw_at_still).
Qed.

(** What is drawn is one of the frames: the one that was current at the interpolation
    buffer before now, with nothing but positions and velocities moved towards where they
    were, and the local player towards where the pending inputs take them.  There is nothing
    to draw only before the first frame, and drawing changes neither frames nor inputs. *)
Theorem RenderState_frame `{!PayloadDecoder} e now
    (Hs : StronglySorted (on_key Z.le receivedAt) (history e)) :
  let '(e', drawn) := RenderState e now in
  history e' = history e ∧ pending e' = pending e ∧ config e' = config e ∧
  match drawn with
  | None => history e = []
  | Some g => ∃ f, drawn_frame (now - InterpolationBuffer (config e)) (history e) = Some f ∧
      still g = still (state f)
  end.
Proof. by apply render_draws. Qed.

Lemma drawn_frame_elem target frames f : drawn_frame target frames = Some f → f ∈ frames.
Proof.
  unfold drawn_frame. destruct frames as [|x frames]; [done|]. destruct (last (x :: frames)) as [y|] eqn:Hl; [|done].
  destruct (_ <=? _); [intros [= <-]; by left|]. destruct (_ <=? _).
  - intros [= <-]. by apply last_Some_elem_of.
  - by intros [? _]%find_first_Some.
Qed.
Lemma sorted_last {A} (key : A → Z) l x y :
  StronglySorted (on_key Z.le key) l → last l = Some x → y ∈ l → key y <= key x.
Proof.
  intros Hs. induction Hs as [|z l Hs IH Hz]; [done|]. rewrite last_cons.
  destruct (last l) as [w|] eqn:Hw; intros [= <-] [->|Hy]%elem_of_cons; auto with lia.
  - rewrite Forall_forall in Hz. by apply Hz, last_Some_elem_of.
  - apply last_None in Hw. subst. by apply not_elem_of_nil in Hy.
Qed.
Lemma find_first_later (l : list timedState) t t' f f' :
  t <= t' → StronglySorted (on_key Z.le (λ f, gs_TickID (state f))) l →
  find_first (λ f, t <=? receivedAt f) l = Some f → find_first (λ f, t' <=? receivedAt f) l = Some f' →
  gs_TickID (state f) <= gs_TickID (state f').
Proof.
  intros Ht Hs. induction Hs as [|x l Hs IH Hx]; [done|]. rewrite !find_first_cons.
  destruct (t <=? receivedAt x) eqn:H1; bool_props.
  - intros [= <-]. destruct (t' <=? receivedAt x); [by intros [= <-]|].
    intros [Hf _]%find_first_Some. rewrite Forall_forall in Hx. exact (Hx _ Hf).
  - rewrite (proj2 (Z.leb_gt _ _)) by lia. exact IH.
Qed.

Lemma drawn_frame_later frames t t' f f' :
  t <= t' → StronglySorted (on_key Z.le (λ f, gs_TickID (state f))) frames →
  drawn_frame t frames = Some f → drawn_frame t' frames = Some f' →
  gs_TickID (state f) <= gs_TickID (state f').
Proof.
  intros Ht Hs Hf Hf'. pose proof (drawn_frame_elem _ _ _ Hf) as Hin. pose proof (drawn_frame_elem _ _ _ Hf') as Hin'.
  unfold drawn_frame in Hf, Hf'. destruct frames as [|x frames]; [done|].
  assert (∀ y, y ∈ x :: frames → gs_TickID (state x) <= gs_TickID (state y)) as Hfirst.
  { intros y [->|Hy]%elem_of_cons; [done|]. apply StronglySorted_inv in Hs as [_ Hx].
    rewrite Forall_forall in Hx. exact (Hx _ Hy). }
  destruct (last (x :: frames)) as [newest|] eqn:Hl; [|done].
  assert (∀ y, y ∈ x :: frames → gs_TickID (state y) <= gs_TickID (state newest)) as Hnewest.
  { intros y Hy. by apply (sorted_last (λ f, gs_TickID (state f)) (x :: frames)). }
  destruct (t <=? receivedAt x) eqn:H1; [simplify_eq; by apply Hfirst|].
  rewrite (proj2 (Z.leb_gt t' _)) in Hf' by (bool_props; lia).
  destruct (receivedAt newest <=? t') eqn:H2; [simplify_eq; by apply Hnewest|].
  destruct (receivedAt newest <=? t) eqn:H3; [bool_props; lia|].
  by apply (find_first_later (x :: frames) t t').
Qed.

(** While no frame comes in, time does not run backwards on the screen: drawn later, the
    match is drawn at the same tick or a later one, when later frames carry later ticks. *)
Theorem RenderState_forward `{!PayloadDecoder} e now later
    (Hs : StronglySorted (on_key Z.le receivedAt) (history e))
    (Hticks : StronglySorted (on_key Z.le (λ f, gs_TickID (state f))) (history e)) (Hlater : now <= later) :
  ∀ g g', (RenderState e now).2 = Some g → (RenderState (RenderState e now).1 later).2 = Some g' →
    gs_TickID g <= gs_TickID g'.
Proof.
  intros g g' Hg Hg'. pose proof (render_draws e now Hs) as H1.
  destruct (RenderState e now) as [e' drawn]. cbn [fst snd] in *. subst drawn.
  destruct H1 as (Hh & _ & Hc & f & Hf & Hst). rewrite <-Hh in Hs. pose proof (render_draws e' later Hs) as H2.
  destruct (RenderState e' later) as [e2 drawn]. cbn [snd] in Hg'. subst drawn.
  destruct H2 as (_ & _ & _ & f' & Hf' & Hst'). rewrite Hh, Hc in Hf'.
  apply (f_equal gs_TickID) in Hst as E1, Hst' as E2.
  change (gs_TickID g = gs_TickID (state f)) in E1. change (gs_TickID g' = gs_TickID (state f')) in E2.
  rewrite E1, E2. by apply (drawn_frame_later (history e) (now - InterpolationBuffer (config e))
    (later - InterpolationBuffer (config e)) f f'); [lia| | |].
Qed.

(** ** The client predicts what the server does *)

Definition is_zero (x : f32) : Prop := f32_eqb x f32_zero = true.
(** The same number: zeros may differ in their sign. *)
Definition same_f32 (x y : f32) : Prop := x = y ∨ is_zero x ∧ is_zero y.
Definition same_vector (v w : Vector2) : Prop := same_f32 (vX v) (vX w) ∧ same_f32 (vY v) (vY w).

Lemma is_zero_cases x : is_zero x ↔ ∃ s, x = S754_zero s.
Proof.
  unfold is_zero, f32_eqb, SFeqb, SFcompare, f32_zero. split; [|by intros [s ->]].
  destruct x as [s|[]| |[] m e]; try done. by exists s.
Qed.
Lemma add_same x y d d' : same_f32 x y → same_f32 d d' → same_f32 (f32_add x d) (f32_add y d').
Proof.
  unfold same_f32. rewrite !is_zero_cases.
  assert (∀ s t d, f32_add (S754_zero s) d = f32_add (S754_zero t) d ∨
    (∃ u, f32_add (S754_zero s) d = S754_zero u) ∧ (∃ u, f32_add (S754_zero t) d = S754_zero u)) as Hz.
  { intros s t [u|[]| |[] m e]; try (left; reflexivity). right. by destruct s, t, u; split; eexists. }
  assert (∀ x s t, f32_add x (S754_zero s) = f32_add x (S754_zero t) ∨
    (∃ u, f32_add x (S754_zero s) = S754_zero u) ∧ (∃ u, f32_add x (S754_zero t) = S754_zero u)) as Hz'.
  { intros [u|[]| |[] m e] s t; try (left; reflexivity). right. by destruct s, t, u; split; eexists. }
  intros [->|[[s ->] [t ->]]] [->|[[u ->] [v ->]]]; [by left|apply Hz'|apply Hz|].
  right. by destruct s, t, u, v; split; eexists.
Qed.
Lemma add_zero x z : is_zero z → same_f32 (f32_add x z) x.
Proof.
  unfold same_f32. rewrite !is_zero_cases. intros [s ->]. destruct x as [u|[]| |[] m e]; try (left; reflexivity).
  right. by destruct s, u; split; eexists.
Qed.
Lemma same_refl x : same_f32 x x.
Proof. by left. Qed.
Lemma same_trans x y z : same_f32 x y → same_f32 y z → same_f32 x z.
Proof. intros [->|[H1 H2]] [->|[H3 H4]]; [by left|by right|by right|by right]. Qed.

(** Something stood in the way. *)
Definition hindered (r : MotionResult) : Prop :=
  mo_BlockedByMap r = true ∨ mo_BlockedByDoorID r ≠ 0 ∨ mo_BlockedByPlayerID r ≠ "".

Section way.
Variables (player : PlayerState) (layout : Layout) (m : MapState) (occupied : Occupied).
Hypothesis Hlinks : ∀ p link, DoorLinkAt layout p = Some link → dl_ID link ≠ 0.

Lemma canOccupy_hindered from room to result :
  let '(ok, result') := canOccupyPosition player from room to layout m occupied result in
  (ok = false → hindered result') ∧ (hindered result → hindered result').
Proof.
  assert (∀ fromPoint toPoint a b d, doorwayBetweenRooms layout fromPoint toPoint a b = Some d → d ≠ 0) as Hdoorway.
  { intros fp tp a b d. unfold doorwayBetweenRooms. cbv zeta.
    destruct (DoorLinkAt layout fp) as [l1|] eqn:H1; [destruct (connectsRooms l1 a b); [intros [= <-]; by eapply Hlinks|]|];
      (destruct (DoorLinkAt layout tp) as [l2|] eqn:H2; [|done]);
      (destruct (connectsRooms l2 a b); [intros [= <-]; by eapply Hlinks|done]). }
  assert (hindered (result <| mo_BlockedByMap := true |>)) as Hmap by by left.
  assert (∀ b, b ≠ 0 → hindered (result <| mo_BlockedByDoorID := b |>)) as Hdoor by (intros b Hb; by right; left).
  assert (∀ b, b ≠ "" → hindered (result <| mo_BlockedByPlayerID := b |>)) as Hplayer by (intros b Hb; by right; right).
  unfold canOccupyPosition. cbv zeta. destruct (InBounds _ _); cbn [negb]; [|done].
  destruct (TileAt _ _) as [tile|]; [|done]. destruct (Walkable tile); cbn [negb]; [|done].
  match goal with |- context [match ?b with Some _ => (false, _) | None => _ end] =>
    assert (∀ r, b = Some r → hindered r) as Hroom end.
  { intros r. destruct (_ && _); [|done]. destruct (doorwayBetweenRooms _ _ _ _ _) as [d|] eqn:Hd.
    - destruct (isDoorOpen _ _); cbn [negb]; [|intros [= <-]; apply Hdoor; by eapply Hdoorway].
      destruct (CanEnterRoom _ _ _); cbn [negb]; [done|by intros [= <-]].
    - destruct (CanEnterRoom _ _ _); cbn [negb]; [done|by intros [= <-]]. }
  match goal with |- context [match ?b with Some _ => (false, _) | None => _ end] =>
    destruct b as [r|]; [by specialize (Hroom r eq_refl)|clear Hroom] end.
  match goal with |- context [match ?b with Some _ => (false, _) | None => _ end] =>
    assert (∀ r, b = Some r → hindered r) as Hlink end.
  { intros r. destruct (DoorLinkAt _ _) as [link|] eqn:Hl; [|done]. destruct (isDoorOpen _ _); cbn [negb]; [done|].
    intros [= <-]. apply Hdoor. by eapply Hlinks. }
  match goal with |- context [match ?b with Some _ => (false, _) | None => _ end] =>
    destruct b as [r|]; [by specialize (Hlink r eq_refl)|clear Hlink] end.
  destruct occupied as [occ|]; [|done]. destruct (occ !! _) as [o|]; [|done].
  destruct ((o ≠? "") && (o ≠? ps_ID player)) eqn:Ho; [|done].
  apply andb_true_iff in Ho as [Ho%negb_true_iff%bool_decide_eq_false _]. split; intros; by apply Hplayer.
Qed.

(** An axis that nothing hindered moves by the whole of its part. *)
Lemma try_axis_free delta move record s :
  ¬ hindered (ax_result (try_axis player delta move record layout m occupied s)) →
  ¬ hindered (ax_result s) ∧
  let s' := try_axis player delta move record layout m occupied s in
  ax_current s' = if f32_eqb delta f32_zero then ax_current s else move (ax_current s).
Proof.
  unfold try_axis. destruct (f32_eqb delta f32_zero); [done|]. cbv zeta.
  pose proof (canOccupy_hindered (ax_current s) (ax_room s) (move (ax_current s)) (ax_result s)) as H.
  destruct (canOccupyPosition _ _ _ _ _ _ _ _) as [ok r]. destruct H as [H1 H2].
  destruct ok; cbn [ax_result ax_current]; [|intros Hn; destruct Hn; by apply H1]. intros Hn. split; [|done]. auto.
Qed.
End way.

Lemma moved_by x d : same_f32 (if f32_eqb d f32_zero then x else f32_add x d) (f32_add x d).
Proof.
  destruct (f32_eqb d f32_zero) eqn:Hd; [|apply same_refl].
  destruct (add_zero x d Hd) as [->|[]]; [apply same_refl|by right].
Qed.

Lemma resolve_free player desired layout m occupied :
  (∀ p link, DoorLinkAt layout p = Some link → dl_ID link ≠ 0) →
  let r := (resolveVectorMotion player desired layout m occupied).1 in
  ¬ hindered r →
  same_vector (mo_Position r)
    (mkVector2 (f32_add (vX (ps_Position player)) (vX desired)) (f32_add (vY (ps_Position player)) (vY desired))).
Proof.
  intros Hlinks. cbv zeta. unfold resolveVectorMotion. cbv zeta.
  destruct (f32_eqb (vX desired) f32_zero && f32_eqb (vY desired) f32_zero) eqn:Hz; cbn [fst].
  { intros _. apply andb_true_iff in Hz as [Hx Hy].
    pose proof (moved_by (vX (ps_Position player)) (vX desired)) as H1. rewrite Hx in H1.
    pose proof (moved_by (vY (ps_Position player)) (vY desired)) as H2. rewrite Hy in H2. by split. }
  clear Hz. match goal with |- context [try_axis player (vY desired) ?mv ?rc layout m ?occ ?s] =>
    set (s1 := s); pose proof (try_axis_free player layout m occ Hlinks (vY desired) mv rc s1) as Hy;
    set (s2 := try_axis player (vY desired) mv rc layout m occ s1) in * end.
  intros Hn. change (¬ hindered (ax_result s2)) in Hn. destruct (Hy Hn) as [Hn1 Hcy]. clear Hy. cbv zeta in Hcy.
  unfold s1 in Hn1. destruct (try_axis_free _ _ _ _ Hlinks _ _ _ _ Hn1) as [_ Hcx]. fold s1 in Hcx. cbn [ax_current] in Hcx.
  change (same_vector (ax_current s2) (mkVector2 (f32_add (vX (ps_Position player)) (vX desired))
    (f32_add (vY (ps_Position player)) (vY desired)))).
  rewrite Hcy, Hcx. pose proof (moved_by (vX (ps_Position player)) (vX desired)) as M1.
  pose proof (moved_by (vY (ps_Position player)) (vY desired)) as M2.
  split; destruct (f32_eqb (vX desired) f32_zero), (f32_eqb (vY desired) f32_zero); assumption.
Qed.

(** The square of the input's length does not vanish unless the input does. *)
Definition not_tiny (input : MovementInputPayload) : Prop :=
  is_zero (f32_add (f32_mul (mv_MoveX input) (mv_MoveX input)) (f32_mul (mv_MoveY input) (mv_MoveY input))) →
  is_zero (mv_MoveX input) ∧ is_zero (mv_MoveY input).

Lemma clamp_agrees input step :
  not_tiny input →
  same_vector (clampVectorMagnitude (mkVector2 (mv_MoveX input) (mv_MoveY input)) step)
    (clampMove (mv_MoveX input) (mv_MoveY input) step).
Proof.
  unfold not_tiny, clampVectorMagnitude, clampMove, is_zero. cbn [vX vY]. cbv zeta. intros Ht.
  destruct (f32_leb step f32_zero); [by split; left|].
  destruct (f32_eqb (f32_add _ _) f32_zero) eqn:Hz.
  - destruct (Ht eq_refl) as [Hx Hy]. by split; right.
  - by destruct (f32_leb _ step); split; left.
Qed.

(** A move that the server carries out in full: the player is neither stunned nor sped up and
    nothing is in the way. *)
Record free_move (player : PlayerState) (input : MovementInputPayload) (r : MotionResult) : Prop := {
  fm_way : ∃ layout m occupied tick,
    r = (ResolveMoveIntent player input layout m occupied tick).1 ∧
    (∀ p link, DoorLinkAt layout p = Some link → dl_ID link ≠ 0) ∧
    hasActiveEffect player EffectSpeedBoost tick = false;
  fm_awake : mo_BlockedByStun r = false;
  fm_free : ¬ hindered r;
  fm_tiny : not_tiny input;
}.

(** The server takes a player from a position to another by the moves, one after the other.
    Between two of them the player may change in everything but the position. *)
Inductive server_walk : Vector2 → list MovementInputPayload → Vector2 → Prop :=
  | walk_done position : server_walk position [] position
  | walk_move player input inputs r destination :
      free_move player input r → server_walk (mo_Position r) inputs destination →
      server_walk (ps_Position player) (input :: inputs) destination.

Lemma free_move_position player input r :
  free_move player input r →
  same_vector (mo_Position r)
    (mkVector2 (f32_add (vX (ps_Position player)) (vX (predicted_step input)))
               (f32_add (vY (ps_Position player)) (vY (predicted_step input)))).
Proof.
  intros [(layout & m & occupied & tick & -> & Hlinks & Hboost) Hawake Hfree Htiny].
  revert Hawake Hfree. unfold ResolveMoveIntent. cbv zeta.
  destruct (stun_holds (ps_SolitaryUntilTick player) tick); [done|].
  destruct (stun_holds (ps_StunnedUntilTick player) tick); [done|]. rewrite Hboost. intros _ Hfree.
  pose proof (resolve_free _ _ _ _ _ Hlinks Hfree) as [Hx Hy].
  assert (∀ step, same_vector (clampVectorMagnitude (mkVector2 (mv_MoveX input) (mv_MoveY input)) step)
    (clampMove (mv_MoveX input) (mv_MoveY input) step)) as Hc by (intros step; by apply clamp_agrees).
  unfold predicted_step. cbv zeta. set (step := if mv_Sprint input then _ else _) in *.
  assert ((if mv_Sprint input && f32_gtb SprintMoveStepPerTick BaseMoveStepPerTick
    then SprintMoveStepPerTick else BaseMoveStepPerTick) = step) as -> by (unfold step; by destruct (mv_Sprint input)).
  destruct (Hc step) as [Cx Cy]. split; cbn [vX vY].
  - eapply same_trans; [exact Hx|]. apply add_same; [apply same_refl|exact Cx].
  - eapply same_trans; [exact Hy|]. apply add_same; [apply same_refl|exact Cy].
Qed.

Section agree.
Context `{!PayloadDecoder}.

Lemma predict_walk commands inputs from from' destination :
  Forall2 (λ c input, decode_movement (ic_Payload c) = Some input) commands inputs →
  server_walk from inputs destination → same_vector from' from →
  same_vector (foldl predict_move from' commands) destination.
Proof.
  intros Hc. revert from from'. induction Hc as [|c input commands inputs Hd _ IH]; intros from from' Hw Hs.
  { by inversion Hw; subst. }
  inversion Hw as [|player input' inputs' r destination' Hfree Hrest]; subst. cbn [foldl].
  apply (IH (mo_Position r) _ Hrest). unfold predict_move. rewrite Hd. cbv zeta.
  destruct (free_move_position _ _ _ Hfree) as [Hx Hy]. cbn [vX vY] in Hx, Hy. destruct Hs as [Sx Sy].
  assert (∀ x y, same_f32 x y → same_f32 y x) as Hsym by (intros x y [->|[? ?]]; [by left|by right]).
  split; cbn [vX vY]; eapply same_trans; [|apply Hsym, Hx| |apply Hsym, Hy]; apply add_same;
    (assumption || apply same_refl).
Qed.

(** C17: The client predicts what the server will do.  Take the state that the engine interpolates
    for the moment, and the moves that it replays on it: those not acknowledged, and not meant for
    the tick of that state or an earlier one, in the order of their sequence numbers.  If the server carries out
    each of them in full from the player's position in that state (nothing in the way, in a layout
    whose doors have identifiers; no stun, no speed boost; no input but zero so small that the
    square of its length is zero), then the position that the drawing tends to is the position they
    lead to, but for the sign of zeros: it is drawn at once if none was drawn before or the last one
    is further off than the snap threshold, and else the last one is moved towards it by the blend
    factor. *)
Theorem prediction_agrees e now base index local inputs destination
    (Hbase : interpolateLocked e now = Some base)
    (Hindex : findPlayerIndex (gs_Players base) (localPlayerID e) = Some index)
    (Hlocal : gs_Players base !! index = Some local)
    (Hpayloads : Forall2 (λ c input, decode_movement (ic_Payload c) = Some input)
       (sort_by Z.le ic_ClientSeq (filter (λ c, replayed (gs_TickID base) c = true) (pending e))) inputs)
    (Hwalk : server_walk (ps_Position local) inputs destination) :
  ∃ predicted, same_vector predicted destination ∧
    (RenderState e now).2 = Some (draw_at base index (smoothedLocal (RenderState e now).1)) ∧
    smoothedLocal (RenderState e now).1 =
      if negb (hasSmoothedLocal e) || f32_gtb (vectorDistance (smoothedLocal e) predicted) (SnapThresholdTiles (config e))
      then predicted else lerpVector (smoothedLocal e) predicted (blend_factor e now).
Proof.
  exists (replayPendingMovement local (gs_TickID base) (pending e)).
  split; [by eapply predict_walk; [exact Hpayloads|exact Hwalk|split; left]|].
  unfold RenderState. rewrite Hbase, Hindex, Hlocal. cbn [default]. cbv zeta.
  destruct (hasSmoothedLocal e); cbn [negb orb]; [|by split]. by destruct (f32_gtb _ _).
Qed.
End agree.

(** ** Witnesses: a step to the right in the small layout *)

Definition step_payload : MovementInputPayload := mkMovePayload (f32_of_Z 1) (f32_of_Z 0) false.
Definition demo_decoder : PayloadDecoder :=
  {| decode_movement := λ payload, if payload ≟ "right" then Some step_payload else None;
     decode_aim := λ _, None; decode_interact := λ _, None;
     decode_ability := λ _, None; decode_card := λ _, None; decode_item := λ _, None;
     decode_market := λ _, None; decode_fire := λ _, None; decode_equip := λ _, None;
     decode_drop := λ _, None; decode_craft := λ _, None |}.
Definition go_right (clientSeq : Z) : InputCommand := mkCommand "a" clientSeq 0 0 CmdMoveIntent "right".

Definition demo_engine : Engine := RecordLocalCommands (NewEngine "a" DefaultConfig) [go_right 2; go_right 1; go_right 2].

Lemma engine_sound_witness : length (pending demo_engine) = 2%nat ∧
  engine_inv "a" (normalized DefaultConfig) demo_engine.
Proof.
  split; [by vm_compute|].
  apply (engine_sound (H := demo_decoder) "a" DefaultConfig demo_engine), rtc_once, step_record.
Defined.

Definition demo_frame (tick : Z) : timedState := mkTimed (tick * 50 * time_Millisecond) (zero_GameState <| gs_TickID := tick |>).
Definition watching : Engine := demo_engine <| history := [demo_frame 1; demo_frame 2; demo_frame 3] |>.

Lemma watching_ordered :
  StronglySorted (on_key Z.le receivedAt) (history watching) ∧
  StronglySorted (on_key Z.le (λ f, gs_TickID (state f))) (history watching).
Proof. split; (repeat constructor; done). Qed.

Lemma RenderState_frame_witness :
  ∃ f, drawn_frame (180 * time_Millisecond - 100 * time_Millisecond) (history watching) = Some f ∧
    gs_TickID (state f) = 2.
Proof.
  pose proof (RenderState_frame (H := demo_decoder) watching (180 * time_Millisecond) (proj1 watching_ordered)) as H.
  destruct (RenderState (H := demo_decoder) watching (180 * time_Millisecond)) as [e' [g|]] eqn:Hr.
  - destruct H as (_ & _ & _ & f & Hf & _). exists f. split; [exact Hf|]. vm_compute in Hf. by injection Hf as <-.
  - destruct H as (_ & _ & _ & H). vm_compute in H. discriminate.
Defined.

Lemma RenderState_forward_witness :
  ∃ g g', (RenderState (H := demo_decoder) watching (180 * time_Millisecond)).2 = Some g ∧
    gs_TickID g <= gs_TickID g'.
Proof.
  destruct (RenderState (H := demo_decoder) watching (180 * time_Millisecond)).2 as [g|] eqn:Hg;
    [|vm_compute in Hg; discriminate].
  destruct (RenderState (H := demo_decoder) (RenderState (H := demo_decoder) watching (180 * time_Millisecond)).1
    (190 * time_Millisecond)).2 as [g'|] eqn:Hg'; [|vm_compute in Hg'; discriminate].
  exists g, g'. split; [done|].
  exact (RenderState_forward (H := demo_decoder) watching (180 * time_Millisecond) (190 * time_Millisecond)
    (proj1 watching_ordered) (proj2 watching_ordered) ltac:(by vm_compute) g g' Hg Hg').
Defined.

Definition right_once : MotionResult :=
  (ResolveMoveIntent (at_tile "a" 0 0) step_payload two_rooms (ToMapState two_rooms) None 1).1.

Lemma right_once_free : free_move (at_tile "a" 0 0) step_payload right_once.
Proof.
  split.
  - exists two_rooms, (ToMapState two_rooms), None, 1. split; [done|]. split; [|by vm_compute].
    assert (map_Forall (λ _ link, dl_ID link ≠ 0) (ly_doorByPoint two_rooms)) as Hall
      by (apply (bool_decide_unpack _); by vm_compute).
    intros p link Hl. exact (Hall p link Hl).
  - by vm_compute.
  - intros [H|[H|H]]; vm_compute in H; by try discriminate.
  - intros H. vm_compute in H. discriminate.
Qed.

(** An engine that has one frame and drew nothing yet. *)
Definition demo_base : GameState := zero_GameState <| gs_Players := [at_tile "a" 0 0] |>.
Definition waiting : Engine :=
  RecordLocalCommands (NewEngine "a" DefaultConfig <| history := [mkTimed 0 demo_base] |>) [go_right 1].

Lemma prediction_agrees_witness : ∃ destination, server_walk (ps_Position (at_tile "a" 0 0)) [step_payload] destination ∧
  same_vector (smoothedLocal (RenderState (H := demo_decoder) waiting 50).1) destination.
Proof.
  exists (mo_Position right_once).
  assert (server_walk (ps_Position (at_tile "a" 0 0)) [step_payload] (mo_Position right_once)) as Hw.
  { apply (walk_move (at_tile "a" 0 0) _ _ right_once); [exact right_once_free|apply walk_done]. }
  split; [exact Hw|].
  destruct (prediction_agrees (H := demo_decoder) waiting 50 demo_base 0 (at_tile "a" 0 0) [step_payload] (mo_Position right_once))
    as (predicted & Hsame & _ & ->).
  - reflexivity.
  - reflexivity.
  - reflexivity.
  - by vm_compute; repeat constructor.
  - exact Hw.
  - exact Hsame.
Defined.
End Prediction.
