(* ===== verification/Mirror.v ===== *)
(** * The client follows the server

    The server tells its clients each tick's delta ([Tick]); a client merges it into its copy
    of the match ([SnapshotStore]).  This file puts the two together: what the handlers report
    ([Changes]) is everything they change, so a client that holds the state before a tick and
    takes the tick's delta holds the state after it.  The one exception is in the code: at
    daybreak the inventories of the authority are put in order without being reported. *)

From S2P Require Import Prelude Float32 Model GoStrings Hashing Layout Access Items Physics Phase Prison Win Cards Combat Roles Session InputQueue Spawn Lifecycle Actions Keyed Changes NightCards Economy Doors AbilityUse CardUse Shooting Interact Tick SnapshotStore.

#[local] Open Scope Z_scope.

(** ** By identifier *)

Definition players_by_id (state : GameState) : gmap PlayerID PlayerState := by_key ps_ID (gs_Players state).
Definition entities_by_id (state : GameState) : gmap EntityID EntityState := by_key es_ID (gs_Entities state).
Definition doors_by_id (state : GameState) : gmap DoorID DoorState := by_key ds_ID (ms_Doors (gs_Map state)).
Definition cells_by_id (state : GameState) : gmap CellID CellState := by_key cs_ID (ms_Cells (gs_Map state)).

(** What was not reported did not change. *)
Lemma unreported_player D n t t' id :
  changes D n t t' → id ∉ tk_players t' → id ∉ D →
  player_view <$> players_by_id (tk_game t') !! id = player_view <$> players_by_id (tk_game t) !! id.
Proof.
  intros H Ht HD. unfold players_by_id.
  assert (option_Forall2 (player_change (tk_now t) (tk_players t' ∪ D)) (by_key ps_ID (tk_playerStates t) !! id)
    (by_key ps_ID (tk_playerStates t') !! id)) as Hk.
  { apply by_key_Forall2. eapply Forall2_impl; [exact (ch_players _ _ _ _ H)|].
    intros p p' Hp. split; [apply Hp|exact Hp]. }
  change (gs_Players (tk_game t)) with (tk_playerStates t).
  change (gs_Players (tk_game t')) with (tk_playerStates t').
  destruct (by_key ps_ID (tk_playerStates t) !! id) as [p|] eqn:Hp; inversion Hk as [? p' [_ Hc]|]; [|done].
  apply by_key_Some in Hp as [_ Hp]. destruct Hc as [Hc|Hv]; [set_solver|]. simpl. by rewrite Hv.
Qed.
Lemma unreported_door D n t t' id :
  changes D n t t' → id ∉ tk_doors t' → doors_by_id (tk_game t') !! id = doors_by_id (tk_game t) !! id.
Proof.
  intros H Ht. unfold doors_by_id.
  assert (option_Forall2 (λ d d', ds_ID d ∈ tk_doors t' ∨ d' = d) (by_key ds_ID (tk_doorStates t) !! id)
    (by_key ds_ID (tk_doorStates t') !! id)) as Hk by exact (by_key_Forall2 _ _ _ _ _ (ch_doors _ _ _ _ H)).
  change (ms_Doors (gs_Map (tk_game t))) with (tk_doorStates t).
  change (ms_Doors (gs_Map (tk_game t'))) with (tk_doorStates t').
  destruct (by_key ds_ID (tk_doorStates t) !! id) as [d|] eqn:Hd; inversion Hk as [? d' Hc|]; [|done].
  apply by_key_Some in Hd as [_ Hd]. destruct Hc as [Hc|Hv]; [set_solver|]. by rewrite Hv.
Qed.
Lemma unreported_cell D n t t' id :
  changes D n t t' → id ∉ tk_cells t' → cells_by_id (tk_game t') !! id = cells_by_id (tk_game t) !! id.
Proof.
  intros H Ht. unfold cells_by_id.
  assert (option_Forall2 (λ d d', cs_ID d ∈ tk_cells t' ∨ d' = d) (by_key cs_ID (tk_cellStates t) !! id)
    (by_key cs_ID (tk_cellStates t') !! id)) as Hk by exact (by_key_Forall2 _ _ _ _ _ (ch_cells _ _ _ _ H)).
  change (ms_Cells (gs_Map (tk_game t))) with (tk_cellStates t).
  change (ms_Cells (gs_Map (tk_game t'))) with (tk_cellStates t').
  destruct (by_key cs_ID (tk_cellStates t) !! id) as [d|] eqn:Hd; inversion Hk as [? d' Hc|]; [|done].
  apply by_key_Some in Hd as [_ Hd]. destruct Hc as [Hc|Hv]; [set_solver|]. by rewrite Hv.
Qed.

(** ** What is collected *)

Lemma by_key_collect {K A} `{Countable K} (key : A → K) (le : relation K)
    `{!RelDecision le, !PartialOrder le, !Total le} (l : list A) (told : gset K) k :
  NoDup (map key l) →
  by_key key (omap (λ k, find_first (λ x, key x ≟ k) l) (sort_by le id (elements told))) !! k =
    if decide (k ∈ told) then by_key key l !! k else None.
Proof.
  intros Hnd. rewrite by_key_omap.
  - rewrite (by_key_find key l k Hnd). apply decide_ext.
    by rewrite (elem_of_sort_by le id), elem_of_elements.
  - intros j x Hx. apply find_first_Some in Hx as [_ Hx]. by bool_props.
Qed.

(** The index of the players finds who is known by the identifier. *)
Lemma player_index_by_key l id :
  player_index l !! id = None ∧ by_key ps_ID l !! id = None ∨
  ∃ i, player_index l !! id = Some i ∧ is_Some (l !! i) ∧ l !! i = by_key ps_ID l !! id.
Proof.
  unfold player_index. induction l as [|p l IH] using rev_ind; [by left|].
  rewrite imap_app, reverse_app, by_key_snoc. cbn [imap]. rewrite Nat.add_0_r.
  change (reverse [(ps_ID p, length l)]) with [(ps_ID p, length l)].
  rewrite list_to_map_app. cbn [list_to_map foldr uncurry].
  destruct (decide (ps_ID p = id)) as [<-|Hne].
  - right. exists (length l). rewrite lookup_union. simpl. rewrite !lookup_insert_eq, list_lookup_middle by done.
    split_and!; [by destruct (_ !! _)|eauto|done].
  - rewrite lookup_union. simpl. rewrite !lookup_insert_ne, lookup_empty by done.
    rewrite (left_id_L None (∪)). destruct IH as [[H1 H2]|(i & H1 & [q Hq] & H2)]; [by left|right].
    exists i. rewrite lookup_app_l by (by eapply lookup_lt_Some). rewrite <-H2, Hq. eauto.
Qed.

(** ** The clock and the night *)

(** The session moves on and more players and entities are reported. *)
Definition and_report (session : matchSession) (players : gset PlayerID) (entities : gset EntityID)
    (t : tickState) : tickState :=
  t <| tk_session := session |> <| tk_players ::= λ told, players ∪ told |>
    <| tk_entities ::= λ told, entities ∪ told |>.

(** What happens to a session outside the commands, for whatever was reported before. *)
Definition night_step (D : gset PlayerID) (s s' : matchSession) (players : gset PlayerID)
    (entities : gset EntityID) : Prop :=
  ∀ t, tk_session t = s → changes D 0 t (and_report s' players entities t).

Lemma night_step_refl D s : night_step D s s ∅ ∅.
Proof.
  intros t <-. apply changes_silent; try done. cbn. by rewrite !(left_id_L ∅ (∪)).
Qed.
Lemma night_step_trans D s1 s2 s3 P P' E E' :
  night_step D s1 s2 P E → night_step D s2 s3 P' E' → night_step D s1 s3 (P' ∪ P) (E' ∪ E).
Proof.
  intros H1 H2 t Ht. eapply changes_step; [by apply H1|].
  pose proof (H2 (and_report s2 P E t) eq_refl) as H.
  assert (and_report s3 P' E' (and_report s2 P E t) = and_report s3 (P' ∪ P) (E' ∪ E) t) as Heq; [|by rewrite <-Heq].
  unfold and_report. destruct t. unfold field_update. cbn. f_equal; set_solver.
Qed.

(** All the players get an update, and those who need it are reported. *)
Lemma each_player_changes D f s :
  (∀ p, steady (ss_tickID s) p (f p).1) → (∀ p, p ∈ gs_Players (ss_gameState s) → (f p).2 = false → ps_ID p ∉ D → (f p).1 = p) →
  night_step D s (each_player f s).1 (list_to_set (each_player f s).2) ∅.
Proof.
  intros Hf Hsame t <-. set (told := list_to_set _).
  assert (changes (D ∪ told) 0 t (on_game (λ g, g <| gs_Players := map (λ p, (f p).1) (tk_playerStates t) |>) t)) as H.
  { apply changes_put_all. apply Forall2_fmap_r, Forall_Forall2_diag, Forall_forall. intros p Hp.
    split; [apply Hf|]. destruct (decide (ps_ID p ∈ D)) as [Hd|Hd]; [left; set_solver|].
    destruct (f p).2 eqn:Hb; [left|by right; rewrite Hsame].
    apply elem_of_union_r. unfold told. rewrite elem_of_list_to_set. cbn [each_player snd].
    apply list_elem_of_omap. exists p. by rewrite Hb. }
  destruct H as [? ? ? ? Hp ? ? He]. split; try done; [cbn; set_solver| |].
  - eapply Forall2_impl; [exact Hp|]. intros p p'. apply player_change_weaken. cbn. set_solver.
  - intros Hok Hroom. destruct (He Hok Hroom) as ([] & Hb & Hs & Hr).
    split; [by split|split; [exact Hb|split; [exact Hs|]]].
    intros k. destruct (Hr k) as [[? ?]|[[? ?]|[? ?]]]; [left|right; left|right; right]; cbn; set_solver.
Qed.

Lemma refresh_offer_changes D cycle s told k :
  ∃ E, (refresh_offer cycle (s, told) k).2 = E ∪ told ∧ night_step D s (refresh_offer cycle (s, told) k).1 ∅ E.
Proof.
  assert (∃ E, told = E ∪ told ∧ night_step D s s ∅ E) as Hsame.
  { exists ∅. split; [by rewrite (left_id_L ∅ (∪))|apply night_step_refl]. }
  unfold refresh_offer. case_match eqn:Hkind; [done|]. case_match; [|done]. case_match.
  cbv zeta. case_match; [done|]. cbn [fst snd]. eexists. split; [done|]. intros t <-.
  destruct (gs_Entities (ss_gameState (tk_session t)) !! k) as [e|] eqn:He; [|done].
  cbn [default from_option id] in *.
  match goal with |- context [set_bribe ?j ?b] => pose proof (changes_deal D k j b e t He) as H' end.
  match type of H' with changes _ _ _ ?a => match goal with |- changes _ _ _ ?b => assert (b = a) as -> end end;
    [|exact H'].
  destruct t. unfold and_report, mark_entity, field_update. cbn. f_equal. set_solver.
Qed.

Lemma refresh_offers_changes D s cycle :
  let '(s', changed) := foldl (refresh_offer cycle) (s, ∅) (seq 0 (length (gs_Entities (ss_gameState s)))) in
  night_step D s s' ∅ changed.
Proof.
  generalize (seq 0 (length (gs_Entities (ss_gameState s)))). intros ks.
  assert (∀ told, ∃ E, (foldl (refresh_offer cycle) (s, told) ks).2 = E ∪ told ∧
    night_step D s (foldl (refresh_offer cycle) (s, told) ks).1 ∅ E) as Hfold.
  { revert s. induction ks as [|k ks IH]; intros s told; cbn [foldl].
    { exists ∅. split; [by rewrite (left_id_L ∅ (∪))|apply night_step_refl]. }
    destruct (refresh_offer_changes D cycle s told k) as (E1 & Ht & H1).
    destruct (refresh_offer cycle (s, told) k) as [s1 told1]. cbn [fst snd] in *. subst told1.
    destruct (IH s1 (E1 ∪ told)) as (E2 & Ht2 & H2). exists (E2 ∪ E1). split; [rewrite <-(assoc_L (∪)); exact Ht2|].
    pose proof (night_step_trans _ _ _ _ _ _ _ _ H1 H2) as H. by rewrite (left_id_L ∅ (∪)) in H. }
  destruct (Hfold ∅) as (E & Ht & H). destruct (foldl _ _ _) as [s' changed]. cbn [fst snd] in *.
  by rewrite Ht, (right_id_L ∅ (∪)).
Qed.

(** The authority of a match: whom the daybreak may touch unseen. *)
Definition authority_ids (state : GameState) : gset PlayerID :=
  list_to_set (map ps_ID (filter (λ p, IsAuthorityPlayer p = true) (gs_Players state))).
Lemma authority_ids_map f l :
  (∀ p, ps_ID (f p) = ps_ID p ∧ IsAuthorityPlayer (f p) = IsAuthorityPlayer p) →
  map ps_ID (filter (λ p, IsAuthorityPlayer p = true) (map f l)) =
  map ps_ID (filter (λ p, IsAuthorityPlayer p = true) l).
Proof.
  intros Hf. induction l as [|p l IH]; [done|]. cbn [map]. rewrite !filter_cons.
  destruct (Hf p) as [Hid Ha]. rewrite Ha. case_decide; cbn [map]; by rewrite ?Hid, IH.
Qed.

(** Daybreak touches the belongings of the authority, nothing else about it, and nothing about
    anybody else. *)
Definition only_supplies (p p' : PlayerState) : Prop :=
  p' = p <| ps_Inventory := ps_Inventory p' |> <| ps_EquippedItem := ps_EquippedItem p' |>
         <| ps_Bullets := ps_Bullets p' |> <| ps_InventorySlots := ps_InventorySlots p' |>.

Lemma only_supplies_refl p : only_supplies p p.
Proof. by destruct p. Qed.
Lemma only_supplies_trans p q r : only_supplies p q → only_supplies q r → only_supplies p r.
Proof. unfold only_supplies. intros H1 H2. rewrite H2, H1. done. Qed.
Lemma only_goods_supplies p p' : only_goods p p' → only_supplies p p'.
Proof. unfold only_goods, only_supplies. intros ->. by destruct p. Qed.
Lemma only_supplies_facts p p' :
  only_supplies p p' → same_vitals p p' ∧ ps_Faction p' = ps_Faction p ∧ ps_Role p' = ps_Role p.
Proof. unfold only_supplies. by intros ->. Qed.

Lemma sync_supplies p : only_supplies p (syncAuthorityBulletStackLocked p).1.
Proof.
  unfold syncAuthorityBulletStackLocked. case_match; [apply only_supplies_refl|].
  assert (∀ q b, (if authorityAmmoMax <? ps_Bullets p then (p <| ps_Bullets := authorityAmmoMax |>, true)
    else (p, false)) = (q, b) → only_supplies p q) as H1.
  { intros q b Hq. case_match; simplify_eq; [by destruct p|apply only_supplies_refl]. }
  destruct (if authorityAmmoMax <? ps_Bullets p then _ else _) as [q b]. specialize (H1 q b eq_refl).
  set (current := inventoryItemQuantity _ _). clearbody current.
  assert (∀ r c, (if 0 <? current then
     match RemoveItem q ItemBullet current with Some r => (r, true) | None => (q, b) end else (q, b)) = (r, c) →
     only_supplies p r) as H2.
  { intros r c Hr. repeat case_match; simplify_eq; try done.
    eapply only_supplies_trans; [exact H1|]. by eapply only_goods_supplies, RemoveItem_goods. }
  destruct (if 0 <? current then _ else _) as [r c]. specialize (H2 r c eq_refl).
  repeat case_match; try done. 
  eapply only_supplies_trans; [exact H2|]. by eapply only_goods_supplies, AddItem_goods.
Qed.
Lemma evict_supplies p : only_supplies p (evictAuthorityOverflowItemForSidearmLocked p).1.
Proof.
  unfold evictAuthorityOverflowItemForSidearmLocked. cbv zeta.
  destruct (find_first _ (filter _ _)) as [stack|]; cbn [fst].
  - destruct (RemoveItem p (stk_Item stack) (stk_Quantity stack)) eqn:Hr; [|apply only_supplies_refl].
    by eapply only_goods_supplies, RemoveItem_goods.
  - repeat case_match; try apply only_supplies_refl. by eapply only_goods_supplies, RemoveItem_goods.
Qed.
Lemma AddItem_supplies p item amount p' : AddItem p item amount = Some p' → only_supplies p p'.
Proof. intros H. by eapply only_goods_supplies, AddItem_goods. Qed.

Lemma restore_sidearms_supplies p : only_supplies p (restore_sidearms p).1.
Proof.
  unfold restore_sidearms. case_match; [apply only_supplies_refl|]. cbv zeta.
  set (p1 := normalizeInventoryToPlayerSlotsLocked _).
  assert (only_supplies p p1) as H1 by by destruct p. clearbody p1.
  match goal with |- context [let '(player, updated) := ?a in _] => set (r1 := a) end.
  assert (only_supplies p r1.1) as H2.
  { unfold r1. repeat case_match; simplify_eq/=; try done.
    eapply only_supplies_trans; [exact H1|]. by eapply AddItem_supplies. }
  destruct r1 as [p2 b2]. cbn [fst] in H2. clear H1 p1.
  match goal with |- context [let '(player, updated) := ?a in _] => set (r2 := a) end.
  assert (only_supplies p r2.1) as H3.
  { unfold r2. case_match; [|done]. destruct (AddItem p2 ItemPistol 1) as [p3|] eqn:Ha.
    { eapply only_supplies_trans; [exact H2|]. by eapply AddItem_supplies. }
    pose proof (evict_supplies p2) as He. destruct (evictAuthorityOverflowItemForSidearmLocked p2) as [p3 evicted].
    cbn [fst] in He. assert (only_supplies p p3) as H3 by (by eapply only_supplies_trans).
    destruct evicted; [|done]. destruct (AddItem p3 ItemPistol 1) as [p4|] eqn:Ha'; [|done].
    eapply only_supplies_trans; [exact H3|]. by eapply AddItem_supplies. }
  destruct r2 as [p3 b3]. cbn [fst] in H3.
  pose proof (sync_supplies p3) as Hs. destruct (syncAuthorityBulletStackLocked p3) as [p4 b4].
  pose proof (ensure_equipped_goods p4) as He. destruct (ensureEquippedItemForPlayerLocked p4) as [p5 b5].
  cbn [fst] in *. eapply only_supplies_trans; [exact H3|]. eapply only_supplies_trans; [exact Hs|].
  by apply only_goods_supplies.
Qed.
Lemma restore_sidearms_others p : IsAuthorityPlayer p = false → (restore_sidearms p).1 = p.
Proof. intros Ha. unfold restore_sidearms. by rewrite Ha. Qed.

(** *** One transition *)

Lemma each_player_authority f s :
  (∀ p, ps_ID (f p).1 = ps_ID p ∧ ps_Faction (f p).1 = ps_Faction p ∧ ps_Role (f p).1 = ps_Role p) →
  authority_ids (ss_gameState (each_player f s).1) = authority_ids (ss_gameState s).
Proof.
  intros Hf. unfold authority_ids. f_equal. apply authority_ids_map. intros p.
  destruct (Hf p) as (Hid & Hfac & Hrole). split; [done|]. unfold IsAuthorityPlayer. by rewrite Hfac, Hrole.
Qed.
Lemma refresh_offers_players cycle ks st :
  gs_Players (ss_gameState (foldl (refresh_offer cycle) st ks).1) = gs_Players (ss_gameState st.1).
Proof.
  revert st. induction ks as [|k ks IH]; intros [s told]; cbn [foldl]; [done|]. rewrite IH.
  unfold refresh_offer. repeat case_match; done.
Qed.

Lemma collect_none s : collectChangedEntities s ∅ = [].
Proof. unfold collectChangedEntities. by rewrite elements_empty. Qed.

Lemma follow_transition_changes D s es ps tr :
  let '(s', es', ps') := follow_transition (s, es, ps) tr in
  (Phase.tr_To tr = PhaseDay → authority_ids (ss_gameState s) ⊆ D) →
  ∃ P E, ps' = P ∪ ps ∧ night_step D s s' P E ∧
    authority_ids (ss_gameState s') = authority_ids (ss_gameState s) ∧
    by_key es_ID es' = by_key es_ID (collectChangedEntities s' E) ∪ by_key es_ID es.
Proof.
  assert (∃ P E, ps = P ∪ ps ∧ night_step D s s P E ∧ authority_ids (ss_gameState s) = authority_ids (ss_gameState s) ∧
    by_key es_ID es = by_key es_ID (collectChangedEntities s E) ∪ by_key es_ID es) as Hno.
  { exists ∅, ∅. rewrite collect_none, by_key_nil, !(left_id_L ∅ (∪)). split_and!; try done. apply night_step_refl. }
  unfold follow_transition. destruct (Phase.tr_To tr ≠? PhaseNight).
  - destruct (Phase.tr_To tr ≟ PhaseDay) eqn:Hday; [|by intros _]. bool_props.
    assert (night_step D s (each_player clear_night_cards s).1 (list_to_set (each_player clear_night_cards s).2) ∅) as H1.
    { apply each_player_changes; [intros p; apply clear_tells|]. intros p _ Hb _. by apply (clear_tells (now := 0)). }
    pose proof (each_player_authority clear_night_cards s) as Ha1.
    unfold clearNightCardChoicesLocked, restoreAuthoritySidearmsForNewDayLocked.
    destruct (each_player clear_night_cards s) as [s1 cleared]. cbn [fst snd] in *.
    destruct (each_player restore_sidearms s1) as [s2 restored] eqn:Hr. intros Hauth.
    assert (authority_ids (ss_gameState s1) = authority_ids (ss_gameState s)) as Ha1'.
    { apply Ha1. intros p. unfold clear_night_cards. by case_match. }
    assert (night_step D s1 s2 (list_to_set restored) ∅) as H2.
    { pose proof (each_player_changes D restore_sidearms s1) as H. rewrite Hr in H. apply H.
      - intros p. apply same_vitals_steady, only_supplies_facts, restore_sidearms_supplies.
      - intros p Hp _ Hd. apply restore_sidearms_others. destruct (IsAuthorityPlayer p) eqn:Ha; [|done].
        destruct Hd. apply (Hauth ltac:(done)). rewrite <-Ha1'. apply elem_of_list_to_set.
        apply (list_elem_of_fmap_2 ps_ID). by apply list_elem_of_filter. }
    exists (list_to_set restored ∪ list_to_set cleared), ∅. split_and!.
    + set_solver.
    + pose proof (night_step_trans _ _ _ _ _ _ _ _ H1 H2) as H. by rewrite (left_id_L ∅ (∪)) in H.
    + rewrite <-Ha1'. pose proof (each_player_authority restore_sidearms s1) as H. rewrite Hr in H. apply H.
      intros p. destruct (only_supplies_facts _ _ (restore_sidearms_supplies p)) as ((? & _) & ? & ?). done.
    + by rewrite collect_none, by_key_nil, (left_id_L ∅ (∪)).
  - pose proof (refresh_offers_changes D s (Phase.tr_Cycle tr)) as H1.
    unfold refreshNPCPrisonerOffersForNightLocked, assignNightCardOffersForCycleLocked.
    pose proof (refresh_offers_players (Phase.tr_Cycle tr) (seq 0 (length (gs_Entities (ss_gameState s)))) (s, ∅)) as Hp1.
    destruct (foldl (refresh_offer _) _ _) as [s1 E]. cbn [fst snd] in *.
    set (offer := offer_night_cards _ _).
    destruct (each_player offer s1) as [s2 offered] eqn:Ho. intros _.
    assert (night_step D s1 s2 (list_to_set offered) ∅) as H2.
    { pose proof (each_player_changes D offer s1) as H. rewrite Ho in H. apply H.
      - intros p. apply offer_tells.
      - intros p _ Hb _. by apply (offer_tells (now := 0)). }
    exists (list_to_set offered), E. split_and!; [done| | |].
    + pose proof (night_step_trans _ _ _ _ _ _ _ _ H1 H2) as H.
      by rewrite (left_id_L ∅ (∪)), (right_id_L ∅ (∪)) in H.
    + transitivity (authority_ids (ss_gameState s1)); [|unfold authority_ids; by rewrite Hp1].
      pose proof (each_player_authority offer s1) as H. rewrite Ho in H. apply H.
      intros p. unfold offer, offer_night_cards. cbv zeta. by repeat case_match.
    + unfold mergeChangedEntityStates. rewrite (by_key_merge es_ID Z.le). f_equal. f_equal.
      unfold each_player in Ho. by injection Ho as <- _.
Qed.

(** *** All the transitions of a tick *)

Lemma entity_of_by_key t k : entities_ok t → entity_of t k = entities_by_id (tk_game t) !! k.
Proof. intros [Hnd _ _ _]. unfold entities_by_id. by rewrite by_key_find. Qed.

(** An identifier is free for the next entity. *)
Definition entities_sound (s : matchSession) : Prop :=
  entities_ok (tick_start s) ∧ ss_nextEntityID s < 2 ^ 32.

Lemma night_step_entities D s s' P E :
  night_step D s s' P E → entities_sound s →
  entities_sound s' ∧ ss_nextEntityID s' = ss_nextEntityID s ∧
  ∀ k, (entities_by_id (ss_gameState s') !! k = None → entities_by_id (ss_gameState s) !! k = None) ∧
    (k ∉ E → entities_by_id (ss_gameState s') !! k = entities_by_id (ss_gameState s) !! k).
Proof.
  intros H [Hok Hroom]. destruct (ch_entities _ _ _ _ (H (tick_start s) eq_refl) Hok) as (Hok' & Hnext & _ & Hrep).
  { simpl. lia. }
  assert (entities_ok (tick_start s')) as Hs' by (destruct Hok'; by split).
  change (ss_nextEntityID s <= ss_nextEntityID s' <= ss_nextEntityID s + 0) in Hnext.
  assert (ss_nextEntityID s' = ss_nextEntityID s) as Hsame by lia.
  split; [split; [exact Hs'|lia]|split; [exact Hsame|]]. intros k.
  pose proof (entity_of_by_key _ k Hok') as Hb'. pose proof (entity_of_by_key _ k Hok) as Hb.
  change (entities_by_id (tk_game (and_report s' P E (tick_start s)))) with (entities_by_id (ss_gameState s')) in Hb'.
  change (entities_by_id (tk_game (tick_start s))) with (entities_by_id (ss_gameState s)) in Hb.
  rewrite <-Hb, <-Hb'. destruct (Hrep k) as [[Hk _]|[[[e Hk] Hin]|[_ Hin]]].
  - by rewrite Hk.
  - rewrite Hk. split; [done|]. intros Hn. destruct Hn. cbn in Hin. set_solver.
  - by apply elem_of_empty in Hin.
Qed.

Lemma by_key_collect_entities s E k :
  entities_sound s →
  by_key es_ID (collectChangedEntities s E) !! k =
    if decide (k ∈ E) then entities_by_id (ss_gameState s) !! k else None.
Proof. intros [[Hnd _ _ _] _]. by apply (by_key_collect es_ID Z.le). Qed.

(** The entities collected so far are as they are now. *)
Definition collected (s : matchSession) (E : gset EntityID) (es : list EntityState) : Prop :=
  ∀ k, by_key es_ID es !! k = if decide (k ∈ E) then entities_by_id (ss_gameState s) !! k else None.

Lemma collected_step D s1 s2 P E E1 es1 es2 :
  night_step D s1 s2 P E → entities_sound s1 → collected s1 E1 es1 →
  by_key es_ID es2 = by_key es_ID (collectChangedEntities s2 E) ∪ by_key es_ID es1 →
  collected s2 (E ∪ E1) es2.
Proof.
  intros H Hs Hc He k. destruct (night_step_entities _ _ _ _ _ H Hs) as (Hs2 & _ & Hk).
  destruct (Hk k) as [Hnone Hsame].
  rewrite He, lookup_union, by_key_collect_entities, (Hc k) by done. destruct (decide (k ∈ E)) as [Hin|Hin].
  - rewrite (decide_True (P := k ∈ E ∪ E1)) by set_solver.
    destruct (entities_by_id (ss_gameState s2) !! k) as [e|] eqn:Hk2; [match goal with |- Some _ ∪ ?o = _ => by destruct o end|].
    rewrite Hnone by done. by destruct (decide _).
  - rewrite (left_id_L None (∪)). rewrite (decide_ext _ (k ∈ E ∪ E1)) by set_solver.
    case_decide; [|done]. symmetry. by apply Hsame.
Qed.

Lemma follow_transitions_changes D trs s es ps E :
  entities_sound s → collected s E es →
  (∀ tr, tr ∈ trs → Phase.tr_To tr = PhaseDay → authority_ids (ss_gameState s) ⊆ D) →
  let '(s', es', ps') := foldl follow_transition (s, es, ps) trs in
  ∃ P E', ps' = P ∪ ps ∧ night_step D s s' P E' ∧
    authority_ids (ss_gameState s') = authority_ids (ss_gameState s) ∧ collected s' (E' ∪ E) es'.
Proof.
  revert s es ps E. induction trs as [|tr trs IH]; intros s es ps E Hs Hc Hd; cbn [foldl].
  { exists ∅, ∅. rewrite !(left_id_L ∅ (∪)). split_and!; try done. apply night_step_refl. }
  pose proof (follow_transition_changes D s es ps tr) as H1.
  destruct (follow_transition (s, es, ps) tr) as [[s1 es1] ps1].
  destruct H1 as (P1 & E1 & -> & H1 & Ha1 & He1); [apply Hd; set_solver|].
  destruct (night_step_entities _ _ _ _ _ H1 Hs) as (Hs1 & _ & _).
  pose proof (collected_step _ _ _ _ _ _ _ _ H1 Hs Hc He1) as Hc1.
  specialize (IH s1 es1 (P1 ∪ ps) (E1 ∪ E) Hs1 Hc1).
  destruct (foldl follow_transition (s1, es1, P1 ∪ ps) trs) as [[s2 es2] ps2].
  destruct IH as (P2 & E2 & -> & H2 & Ha2 & Hc2).
  { intros tr' Htr Hday. rewrite Ha1. apply (Hd tr'); [by right|done]. }
  exists (P2 ∪ P1), (E2 ∪ E1). rewrite <-!(assoc_L (∪)). split_and!; [done| |congruence|done].
  by eapply night_step_trans.
Qed.

(** *** The clock *)

(** What a change of phase leaves alone, with the hooks of the manager. *)
Definition clock_only (state state' : GameState) : Prop :=
  state' = state <| gs_Phase := gs_Phase state' |> <| gs_CycleCount := gs_CycleCount state' |>
    <| gs_Map := gs_Map state <| ms_Alarm := ms_Alarm (gs_Map state') |>
         <| ms_BlackMarketRoomID := ms_BlackMarketRoomID (gs_Map state') |> |>.

Lemma clock_only_refl state : clock_only state state.
Proof. by destruct state as [? ? ? ? ? [] ? ? ?]. Qed.
Lemma clock_only_trans s1 s2 s3 : clock_only s1 s2 → clock_only s2 s3 → clock_only s1 s3.
Proof. unfold clock_only. intros H1 H2. rewrite H2, H1. by destruct s1 as [? ? ? ? ? [] ? ? ?]. Qed.

Lemma advance_once_only c state :
  clock_only state (Phase.advance_once c (Some managerPhaseHooks) state).1.
Proof.
  unfold Phase.advance_once. cbn zeta. cbn [fst]. 
  set (s1 := if (_ : bool) then (_ : GameState) else state). assert (clock_only state s1) as H1.
  { unfold s1. case_match; [|apply clock_only_refl]. by destruct state as [? ? ? ? ? [] ? ? ?]. }
  clearbody s1. eapply clock_only_trans; [exact H1|]. destruct s1 as [? ? ? ? ? [] ? ? ?]. by case_match.
Qed.
Lemma Advance_only state tick config state' ts :
  Phase.Advance state tick config (Some managerPhaseHooks) = Some (state', ts) →
  clock_only state state' ∧ (ts = [] → state' = state).
Proof.
  unfold Phase.Advance. generalize (Z.to_nat (tick + 1 - ph_EndsTick (gs_Phase state))). intros fuel.
  revert state ts. induction fuel as [|fuel IH]; intros state ts H; cbn [Phase.advance_loop] in H.
  - case_match; simplify_eq. split; [apply clock_only_refl|done].
  - case_match; simplify_eq; [split; [apply clock_only_refl|done]|].
    pose proof (advance_once_only (Phase.normalized config) state) as H1.
    destruct (Phase.advance_once _ _ _) as [s1 tr].
    apply bind_Some in H as ([s2 trs] & H2 & H3). simplify_eq. split; [|done].
    eapply clock_only_trans; [exact H1|]. by apply (IH s1 trs).
Qed.

Lemma night_step_gone D s s' P E t k :
  night_step D s s' P E → tk_session t = s → entities_ok t → ss_nextEntityID s < 2 ^ 32 →
  k ∈ tk_removed t → entities_by_id (ss_gameState s') !! k = None.
Proof.
  intros H Ht Hok Hroom Hk. subst s. destruct (ch_entities _ _ _ _ (H t eq_refl) Hok) as (Hok' & _); [lia|].
  change (ss_gameState s') with (tk_game (and_report s' P E t)).
  rewrite <-entity_of_by_key by done. by apply (eo_removed _ Hok').
Qed.

(** ** Holding the same match *)

(** The client's copy and the server's state, but for the players of [D]. *)
Record mirrors (D : gset PlayerID) (copy state : GameState) : Prop := {
  mi_match : gs_MatchID copy = gs_MatchID state;
  mi_tick : gs_TickID copy = gs_TickID state;
  mi_status : gs_Status copy = gs_Status state;
  mi_cycle : gs_CycleCount copy = gs_CycleCount state;
  mi_phase : gs_Phase copy = gs_Phase state;
  mi_over : gs_GameOver copy = gs_GameOver state;
  mi_power : ms_PowerOn (gs_Map copy) = ms_PowerOn (gs_Map state);
  mi_alarm : ms_Alarm (gs_Map copy) = ms_Alarm (gs_Map state);
  mi_market : ms_BlackMarketRoomID (gs_Map copy) = ms_BlackMarketRoomID (gs_Map state);
  mi_zones : ms_RestrictedZones (gs_Map copy) = ms_RestrictedZones (gs_Map state);
  mi_doors : doors_by_id copy = doors_by_id state;
  mi_cells : cells_by_id copy = cells_by_id state;
  mi_entities : entities_by_id copy = entities_by_id state;
  mi_players : ∀ id, id ∉ D →
    player_view <$> players_by_id copy !! id = player_view <$> players_by_id state !! id;
}.

Lemma mirrors_full D state : mirrors D state state.
Proof. by split. Qed.

(** What a running match keeps: everybody is sound and was told nothing in the future,
    identifiers are distinct, and the tick is the state's. *)
Record match_sound (s : matchSession) : Prop := {
  so_tick : gs_TickID (ss_gameState s) = ss_tickID s;
  so_players : Forall sound_player (gs_Players (ss_gameState s));
  so_told : Forall (λ p, afb_TickID (ps_LastActionFeedback p) <= ss_tickID s) (gs_Players (ss_gameState s));
  so_someone : gs_Players (ss_gameState s) ≠ [];
  so_player_ids : NoDup (map ps_ID (gs_Players (ss_gameState s)));
  so_door_ids : NoDup (map ds_ID (ms_Doors (gs_Map (ss_gameState s))));
  so_cell_ids : NoDup (map cs_ID (ms_Cells (gs_Map (ss_gameState s))));
  so_entities : entities_ok (tick_start s);
  so_open : ss_status s = MatchStatusRunning → gs_GameOver (ss_gameState s) = None;
}.

(** The counters of ticks and entities are not exhausted in the next tick. *)
Definition tick_room (s : matchSession) : Prop :=
  0 <= ss_tickID s ∧ ss_tickID s + 1 < 2 ^ 64 ∧
  ss_nextEntityID s + new_entities s (begin_tick s).1 < 2 ^ 32.

(** *** The parts of a delta *)

Lemma changes_door_ids D n t t' :
  changes D n t t' → map ds_ID (tk_doorStates t') = map ds_ID (tk_doorStates t).
Proof.
  intros H. pose proof (ch_doors _ _ _ _ H) as Hp.
  induction Hp as [|p p' l l' [Hid _] _ IH]; [done|]. cbn [map]. by rewrite Hid, IH.
Qed.
Lemma changes_cell_ids D n t t' :
  changes D n t t' → map cs_ID (tk_cellStates t') = map cs_ID (tk_cellStates t).
Proof.
  intros H. pose proof (ch_cells _ _ _ _ H) as Hp.
  induction Hp as [|p p' l l' [Hid _] _ IH]; [done|]. cbn [map]. by rewrite Hid, IH.
Qed.
Lemma collected_doors D n t t' k :
  changes D n t t' → NoDup (map ds_ID (tk_doorStates t)) →
  by_key ds_ID (collectChangedDoors (tk_session t') (tk_doors t')) !! k =
    if decide (k ∈ tk_doors t') then doors_by_id (tk_game t') !! k else None.
Proof. intros H Hnd. apply (by_key_collect ds_ID Z.le). by rewrite <-(changes_door_ids _ _ _ _ H) in Hnd. Qed.
Lemma collected_cells D n t t' k :
  changes D n t t' → NoDup (map cs_ID (tk_cellStates t)) →
  by_key cs_ID (collectChangedCells (tk_session t') (tk_cells t')) !! k =
    if decide (k ∈ tk_cells t') then cells_by_id (tk_game t') !! k else None.
Proof. intros H Hnd. apply (by_key_collect cs_ID Z.le). by rewrite <-(changes_cell_ids _ _ _ _ H) in Hnd. Qed.
Lemma changes_player_ids D n t t' :
  changes D n t t' → map ps_ID (tk_playerStates t') = map ps_ID (tk_playerStates t).
Proof.
  intros H. pose proof (ch_players _ _ _ _ H) as Hp.
  induction Hp as [|p p' l l' [[Hid _] _] _ IH]; [done|]. cbn [map]. by rewrite Hid, IH.
Qed.

(** The players reported by the commands, as they are after them. *)
Lemma player_index_ids l l' id : map ps_ID l = map ps_ID l' → player_index l !! id = player_index l' !! id.
Proof.
  intros H. unfold player_index. do 2 f_equal. revert l' H.
  assert (∀ (f : nat → nat) l l', map ps_ID l = map ps_ID l' →
    imap (λ i p, (ps_ID p, f i)) l = imap (λ i p, (ps_ID p, f i)) l') as Hgen.
  { intros f k. revert f. induction k as [|p k IH]; intros f [|p' k']; simpl; try done.
    intros [= Hp Hk]. rewrite Hp. f_equal. by apply (IH (f ∘ S)). }
  intros l' Hl. by rewrite (Hgen (λ i, i) l l' Hl).
Qed.
Lemma collected_players s s0 told id :
  map ps_ID (gs_Players (ss_gameState s0)) = map ps_ID (gs_Players (ss_gameState s)) →
  gs_Players (ss_gameState s) ≠ [] → NoDup (map ps_ID (gs_Players (ss_gameState s))) →
  let collected := by_key ps_ID (collectChangedPlayers s (player_index (gs_Players (ss_gameState s0))) told) in
  (∀ p, collected !! id = Some p → players_by_id (ss_gameState s) !! id = Some p) ∧
  (id ∈ told → is_Some (players_by_id (ss_gameState s) !! id) → is_Some (collected !! id)).
Proof.
  intros Hids Hsome Hnd. cbv zeta. unfold collectChangedPlayers, players_by_id.
  set (players := gs_Players (ss_gameState s)) in *. split.
  - intros p Hp. apply by_key_Some in Hp as [Hin <-]. apply list_elem_of_fmap in Hin as (j & -> & _).
    unfold session_player. fold players. set (i := default O _).
    assert (∀ q, q ∈ players → by_key ps_ID players !! ps_ID q = Some q) as Hself.
    { intros q Hq. destruct (by_key ps_ID players !! ps_ID q) as [r|] eqn:Hr.
      - apply by_key_Some in Hr as [Hr Hid]. f_equal. by apply (NoDup_key_inj ps_ID players).
      - apply by_key_None in Hr. destruct Hr. by apply (list_elem_of_fmap_2 ps_ID). }
    destruct (players !! i) as [q|] eqn:Hq; cbn [default from_option Datatypes.id].
    { apply Hself. by apply list_elem_of_lookup_2 in Hq. }
    exfalso. unfold i in Hq. rewrite (player_index_ids _ players) in Hq by done.
    destruct (player_index_by_key players j) as [[Hi _]|(i' & Hi & [q Hq'] & _)]; rewrite Hi in Hq; cbn in Hq.
    + by destruct players.
    + by rewrite Hq' in Hq.
  - intros Htold [p Hp]. apply by_key_is_Some. apply list_elem_of_fmap.
    destruct (player_index_by_key players id) as [[_ Hn]|(i & Hi & _ & Hq)]; [congruence|].
    exists p. split; [by apply by_key_Some in Hp as [_ ->]|]. apply list_elem_of_fmap. exists id.
    rewrite (player_index_ids _ players), Hi by done. cbn. split; [|by apply (elem_of_sort_by String.le (λ x, x)), elem_of_elements].
    unfold session_player. fold players. by rewrite Hq, Hp.
Qed.

(** What was reported over what there was, where it is the same or was reported. *)
Lemma report_union {A} (old new : option A) (P : Prop) `{!Decision P} :
  new = old ∨ is_Some new ∧ P → (if decide P then new else None) ∪ old = new.
Proof.
  intros [->|[[x ->] HP]]; [|rewrite decide_True by done; by destruct old].
  case_decide; by destruct old.
Qed.

(** ** The parts of a tick *)

Lemma store_snapshot_newest history snapshot :
  store_snapshot history snapshot !! sn_TickID snapshot = Some snapshot.
Proof.
  unfold store_snapshot. cbv zeta. case_match; [by rewrite lookup_insert_eq|].
  apply map_lookup_filter_Some. split; [by rewrite lookup_insert_eq|]. unfold historyLimit. lia.
Qed.

Section tick.
Context `{Hdec : !PayloadDecoder}.

(** The session after the commands, after the clock, after the night, and at the end. *)
Definition tick_transitions (config : ServerConfig.Config) (session : matchSession) : list Phase.Transition :=
  let t1 := run_commands (begin_tick session).2 (begin_tick session).1 in
  match Phase.Advance (tk_game t1) (tk_now t1) (ServerConfig.phaseConfig config) (Some managerPhaseHooks) with
  | Some (_, transitions) => transitions
  | None => []
  end.

Record tick_course (config : ServerConfig.Config) (session : matchSession) (timestamp : Z)
    (t1 : tickState) (transitions : list Phase.Transition) (s2 s3 s4 : matchSession)
    (nightEntities : list EntityState) (phasePlayers : gset PlayerID) (outcome : option GameOverState) : Prop := {
  tc_transitions : transitions = tick_transitions config session;
  tc_commands : t1 = run_commands (begin_tick session).2 (begin_tick session).1;
  tc_advance : Phase.Advance (tk_game t1) (tk_now t1) (ServerConfig.phaseConfig config) (Some managerPhaseHooks) =
    Some (ss_gameState s2, transitions);
  tc_clock : clock_only (tk_game t1) (ss_gameState s2) ∧ s2 = tk_session t1 <| ss_gameState := ss_gameState s2 |> ∧
    (transitions = [] → ss_gameState s2 = tk_game t1);
  tc_night : foldl follow_transition (s2, [], ∅) transitions = (s3, nightEntities, phasePlayers);
  tc_end : s4 = match outcome with Some o => finish_session s3 o timestamp | None => s3 end;
}.

Definition tick_message (session s4 : matchSession) (t1 : tickState) (transitions : list Phase.Transition)
    (nightEntities : list EntityState) (phasePlayers : gset PlayerID) : GameDelta :=
  let s0 := (begin_tick session).2 in
  let s1 := tk_session t1 in
  let playerIndex := player_index (gs_Players (ss_gameState s0)) in
  tick_delta
    (ss_gameState s0 <| gs_Status := gs_Status (ss_gameState s1) |> <| gs_GameOver := gs_GameOver (ss_gameState s1) |>)
    (ss_gameState s4) transitions
    (mkMutations [] (collectChangedDoors s1 (tk_doors t1)) (collectChangedCells s1 (tk_cells t1)) []
       (collectRemovedEntityIDs (tk_removed t1)))
    (mergeChangedPlayersByIDLocked s4 (collectChangedPlayers s1 playerIndex (tk_players t1)) phasePlayers)
    (mergeChangedEntityStates (collectChangedEntities s1 (tk_entities t1)) nightEntities).

Lemma tick_session_course config session timestamp session' outcome :
  tick_session config session timestamp = Some (session', outcome) →
  ∃ t1 transitions s2 s3 s4 es ps,
    tick_course config session timestamp t1 transitions s2 s3 s4 es ps outcome ∧
    session' = storeSnapshotLocked s4 (mkSnapshot SnapshotKindDelta (ss_tickID s4) (u64 (ss_tickID s4 - 1)) None
      (Some (tick_message session s4 t1 transitions es ps)) (buildPlayerAcksLocked s4)).
Proof.
  unfold tick_session, tick_message. destruct (begin_tick session) as [commands s0] eqn:Hb.
  unfold applyInputsToGameStateLocked. cbv zeta. set (t1 := run_commands s0 commands).
  intros ([g2 trs] & Ha & H)%bind_Some. apply Advance_only in Ha as Hg. destruct Hg as [Hclock Hnone].
  destruct (foldl follow_transition _ trs) as [[s3 es] ps] eqn:Hf. simplify_eq.
  eexists t1, trs, (tk_session t1 <| ss_gameState := g2 |>), s3, _, es, ps.
  split; [split; [|by rewrite Hb|exact Ha|done|done|done]|reflexivity].
  unfold tick_transitions. rewrite Hb. cbn [fst snd]. fold t1. change (tk_now t1) with (ss_tickID (tk_session t1)).
  unfold tk_game. by rewrite Ha.
Qed.
End tick.

(** ** The copy after the delta *)

Section start.
Context `{Hdec : !PayloadDecoder} (session : matchSession).
Hypothesis Hroom : tick_room session.

Lemma begin_tick_state :
  ss_gameState (begin_tick session).2 = ss_gameState session <| gs_TickID := ss_tickID session + 1 |>.
Proof.
  destruct Hroom as (? & ? & _). unfold begin_tick, take_scheduled. cbn. by rewrite u64_small by (unfold is_u64; lia).
Qed.
Lemma begin_tick_tick : ss_tickID (begin_tick session).2 = ss_tickID session + 1.
Proof. destruct Hroom as (? & ? & _). unfold begin_tick, take_scheduled. cbn. by rewrite u64_small by (unfold is_u64; lia). Qed.

Lemma begin_changes :
  match_sound session →
  changes ∅ (new_entities session (begin_tick session).1) (tick_start (begin_tick session).2)
    (run_commands (begin_tick session).2 (begin_tick session).1).
Proof.
  intros Hsound.
  assert (new_entities session (begin_tick session).1 = new_entities (begin_tick session).2 (begin_tick session).1) as ->.
  { unfold new_entities. by rewrite begin_tick_state. }
  apply changes_run_commands. destruct Hsound. split; rewrite begin_tick_state; [done|].
  intros p Hp. rewrite begin_tick_tick. rewrite Forall_forall in so_told0. specialize (so_told0 p Hp). lia.
Qed.
End start.

Section copy.
Context `{Hdec : !PayloadDecoder}.
Context (config : ServerConfig.Config) (session : matchSession) (timestamp : Z).
Context (t1 : tickState) (transitions : list Phase.Transition) (s2 s3 s4 : matchSession).
Context (es : list EntityState) (ps : gset PlayerID) (outcome : option GameOverState).
Hypothesis Hcourse : tick_course config session timestamp t1 transitions s2 s3 s4 es ps outcome.
Hypothesis Hsound : match_sound session.
Hypothesis Hroom : tick_room session.
Hypothesis Hrunning : ss_status session = MatchStatusRunning.

Local Abbreviation s0 := (begin_tick session).2.
Local Abbreviation before := (ss_gameState (begin_tick session).2).
Local Abbreviation after := (ss_gameState s4).
Local Abbreviation budget := (new_entities session (begin_tick session).1).

(** Whom the daybreaks of this tick may touch unseen. *)
Definition unseen_of (trs : list Phase.Transition) (state : GameState) : gset PlayerID :=
  if existsb (λ tr, Phase.tr_To tr ≟ PhaseDay) trs then authority_ids state else ∅.
Local Abbreviation D := (unseen_of transitions (ss_gameState s2)).

Lemma tick_commands : changes ∅ budget (tick_start s0) t1.
Proof. rewrite (tc_commands _ _ _ _ _ _ _ _ _ _ _ Hcourse). by apply begin_changes. Qed.
Lemma tick_start_entities : entities_ok (tick_start s0).
Proof. destruct Hsound as [_ _ _ _ _ _ _ [] _]. by split. Qed.
Lemma tick_entities :
  entities_ok t1 ∧ ss_nextEntityID (tk_session t1) < 2 ^ 32 ∧ ∀ k, entity_report (tick_start s0) t1 k.
Proof.
  destruct Hroom as (_ & _ & Hr). pose proof (ch_entities _ _ _ _ tick_commands tick_start_entities) as H.
  destruct H as (Hok & Hnext & _ & Hrep); [exact Hr|]. split_and!; [done| |done].
  change (ss_nextEntityID (tk_session (tick_start s0))) with (ss_nextEntityID session) in Hnext. lia.
Qed.

Lemma tick_state2 :
  gs_Players (ss_gameState s2) = tk_playerStates t1 ∧ ms_Doors (gs_Map (ss_gameState s2)) = tk_doorStates t1 ∧
  ms_Cells (gs_Map (ss_gameState s2)) = tk_cellStates t1 ∧ gs_Entities (ss_gameState s2) = gs_Entities (tk_game t1) ∧
  ss_nextEntityID s2 = ss_nextEntityID (tk_session t1).
Proof.
  destruct (tc_clock _ _ _ _ _ _ _ _ _ _ _ Hcourse) as (H1 & H2 & _). rewrite H2, H1. done.
Qed.

Lemma tick_state2_entities : entities_sound s2.
Proof.
  destruct tick_state2 as (_ & _ & _ & He & Hn). destruct tick_entities as ([? ? ? ?] & ? & _).
  split; [|lia]. split; change (tk_game (tick_start s2)) with (ss_gameState s2);
    change (ss_nextEntityID (tk_session (tick_start s2))) with (ss_nextEntityID s2); rewrite ?He, ?Hn; try done.
Qed.

Lemma tick_night :
  ∃ E, night_step D s2 s3 ps E ∧ authority_ids (ss_gameState s3) = authority_ids (ss_gameState s2) ∧ collected s3 E es.
Proof.
  pose proof (follow_transitions_changes D transitions s2 [] ∅ ∅ tick_state2_entities) as H.
  rewrite (tc_night _ _ _ _ _ _ _ _ _ _ _ Hcourse) in H. destruct H as (P & E & -> & H1 & H2 & H3).
  - intros k. by rewrite decide_False by apply not_elem_of_empty.
  - intros tr Htr Hday. unfold unseen_of.
    assert (existsb (λ tr, Phase.tr_To tr ≟ PhaseDay) transitions = true) as ->; [|done].
    apply existsb_elem. exists tr. split; [done|]. by apply bool_decide_eq_true.
  - exists E. rewrite (right_id_L ∅ (∪)). by rewrite (right_id_L ∅ (∪)) in H3.
Qed.

Lemma tick_end_state :
  gs_Players after = gs_Players (ss_gameState s3) ∧ gs_Entities after = gs_Entities (ss_gameState s3) ∧
  gs_Map after = gs_Map (ss_gameState s3) ∧ gs_Phase after = gs_Phase (ss_gameState s3) ∧
  gs_CycleCount after = gs_CycleCount (ss_gameState s3) ∧ gs_MatchID after = gs_MatchID (ss_gameState s3) ∧
  gs_TickID after = gs_TickID (ss_gameState s3) ∧ ss_tickID s4 = ss_tickID s3.
Proof. rewrite (tc_end _ _ _ _ _ _ _ _ _ _ _ Hcourse). by destruct outcome. Qed.

(** Nothing outside the commands touches doors and cells. *)
Lemma tick_map_doors : doors_by_id after = doors_by_id (tk_game t1) ∧ cells_by_id after = cells_by_id (tk_game t1).
Proof.
  destruct tick_night as (E & Hn & _). pose proof (Hn (tick_start s2) eq_refl) as Hc.
  destruct tick_end_state as (_ & _ & Hm & _). destruct tick_state2 as (_ & Hd & Hcs & _).
  split; apply map_eq; intros k.
  - pose proof (unreported_door _ _ _ _ k Hc (not_elem_of_empty k)) as H.
    unfold doors_by_id in *. rewrite Hm. etransitivity; [exact H|].
    change (gs_Map (tk_game (tick_start s2))) with (gs_Map (ss_gameState s2)). by rewrite Hd.
  - pose proof (unreported_cell _ _ _ _ k Hc (not_elem_of_empty k)) as H.
    unfold cells_by_id in *. rewrite Hm. etransitivity; [exact H|].
    change (gs_Map (tk_game (tick_start s2))) with (gs_Map (ss_gameState s2)). by rewrite Hcs.
Qed.

Lemma copy_doors copy :
  by_key ds_ID copy = doors_by_id before →
  by_key ds_ID (SnapshotStore.upsertDoors copy (collectChangedDoors (tk_session t1) (tk_doors t1))) = doors_by_id after.
Proof.
  intros Hcopy. unfold SnapshotStore.upsertDoors. rewrite (SnapshotStore.by_key_upsert ds_ID Z.le).
  rewrite (proj1 tick_map_doors), Hcopy. apply map_eq. intros k. rewrite lookup_union.
  rewrite (collected_doors _ _ _ _ k tick_commands) by exact (so_door_ids _ Hsound).
  pose proof (unreported_door _ _ _ _ k tick_commands) as Hsame.
  change (tk_game (tick_start s0)) with before in Hsame.
  case_decide as Hk; [|by rewrite (left_id_L None (∪)), <-Hsame].
  destruct (doors_by_id (tk_game t1) !! k) as [d|] eqn:Hd; [by destruct (doors_by_id before !! k)|].
  rewrite (left_id_L None (∪)). apply by_key_None. apply by_key_None in Hd.
  change (ms_Doors (gs_Map before)) with (tk_doorStates (tick_start s0)).
  by rewrite <-(changes_door_ids _ _ _ _ tick_commands).
Qed.

Lemma copy_cells copy :
  by_key cs_ID copy = cells_by_id before →
  by_key cs_ID (SnapshotStore.upsertCells copy (collectChangedCells (tk_session t1) (tk_cells t1))) = cells_by_id after.
Proof.
  intros Hcopy. unfold SnapshotStore.upsertCells. rewrite (SnapshotStore.by_key_upsert cs_ID Z.le).
  rewrite (proj2 tick_map_doors), Hcopy. apply map_eq. intros k. rewrite lookup_union.
  rewrite (collected_cells _ _ _ _ k tick_commands) by exact (so_cell_ids _ Hsound).
  pose proof (unreported_cell _ _ _ _ k tick_commands) as Hsame.
  change (tk_game (tick_start s0)) with before in Hsame.
  case_decide as Hk; [|by rewrite (left_id_L None (∪)), <-Hsame].
  destruct (cells_by_id (tk_game t1) !! k) as [d|] eqn:Hd; [by destruct (cells_by_id before !! k)|].
  rewrite (left_id_L None (∪)). apply by_key_None. apply by_key_None in Hd.
  change (ms_Cells (gs_Map before)) with (tk_cellStates (tick_start s0)).
  by rewrite <-(changes_cell_ids _ _ _ _ tick_commands).
Qed.

(** Entities: reported or not, at the commands or at night, removed or not. *)
Lemma copy_entities copy :
  by_key es_ID copy = entities_by_id before →
  by_key es_ID (SnapshotStore.removeEntities
    (SnapshotStore.upsertEntities copy
       (mergeChangedEntityStates (collectChangedEntities (tk_session t1) (tk_entities t1)) es))
    (collectRemovedEntityIDs (tk_removed t1))) = entities_by_id after.
Proof.
  intros Hcopy. unfold SnapshotStore.removeEntities, SnapshotStore.upsertEntities, mergeChangedEntityStates.
  rewrite SnapshotStore.by_key_remove, (SnapshotStore.by_key_upsert es_ID Z.le), (by_key_merge es_ID Z.le), Hcopy.
  assert (entities_by_id after = entities_by_id (ss_gameState s3)) as ->.
  { unfold entities_by_id. by rewrite (proj1 (proj2 tick_end_state)). }
  destruct tick_night as (E & Hn & _ & Hes). destruct tick_entities as (Hok & Hnext & Hrep).
  assert (entities_by_id (ss_gameState s2) = entities_by_id (tk_game t1)) as Hs2.
  { unfold entities_by_id. by rewrite (proj1 (proj2 (proj2 (proj2 tick_state2)))). }
  apply map_eq. intros k. destruct (night_step_entities _ _ _ _ _ Hn tick_state2_entities) as (_ & _ & Hk).
  destruct (Hk k) as [Hnone Hsame]. rewrite Hs2 in Hnone, Hsame.
  pose proof (Hrep k) as Hrepk. unfold entity_report in Hrepk.
  rewrite !entity_of_by_key in Hrepk by (done || exact tick_start_entities).
  change (tk_game (tick_start s0)) with before in Hrepk.
  destruct (decide (k ∈ tk_removed t1)) as [Hgone|Hthere].
  { rewrite map_lookup_filter_None_2; [symmetry|right].
    - set (t2 := t1 <| tk_session := s2 |>).
      apply (night_step_gone D s2 s3 ps E t2 k Hn eq_refl); [|by apply tick_state2_entities|done].
      destruct tick_state2 as (_ & _ & _ & He & Hid), Hok. 
      split; change (tk_game t2) with (ss_gameState s2); change (ss_nextEntityID (tk_session t2)) with (ss_nextEntityID s2);
        rewrite ?He, ?Hid; try done.
      intros j Hj. unfold entity_of in *. change (tk_game t2) with (ss_gameState s2). rewrite He. by apply eo_removed.
    - intros x _ Hx. apply Hx. unfold collectRemovedEntityIDs. by apply (elem_of_sort_by Z.le id), elem_of_elements. }
  rewrite lookup_filter_key by (unfold collectRemovedEntityIDs; by rewrite (elem_of_sort_by Z.le id), elem_of_elements).
  rewrite <-(assoc_L (∪) (by_key es_ID es)), !lookup_union, (Hes k).
  unfold collectChangedEntities. rewrite (by_key_collect es_ID Z.le) by apply Hok.
  change (by_key es_ID (gs_Entities (ss_gameState (tk_session t1)))) with (entities_by_id (tk_game t1)).
  rewrite (report_union _ _ (k ∈ tk_entities t1)) by naive_solver.
  destruct (decide (k ∈ E)) as [Hin|Hin]; [|by rewrite (left_id_L None (∪)), Hsame].
  destruct (entities_by_id (ss_gameState s3) !! k) as [e|]; [by destruct (_ !! k)|by rewrite Hnone].
Qed.

(** The players: nobody joins or leaves in a tick. *)
Lemma tick_roster :
  map ps_ID (gs_Players after) = map ps_ID (tk_playerStates t1) ∧
  map ps_ID (tk_playerStates t1) = map ps_ID (gs_Players before).
Proof.
  split; [|exact (changes_player_ids _ _ _ _ tick_commands)].
  destruct tick_night as (E & Hn & _). rewrite (proj1 tick_end_state), <-(proj1 tick_state2).
  exact (changes_player_ids _ _ _ _ (Hn (tick_start s2) eq_refl)).
Qed.
Lemma tick_player_there id :
  (is_Some (players_by_id after !! id) ↔ is_Some (players_by_id (tk_game t1) !! id)) ∧
  (is_Some (players_by_id (tk_game t1) !! id) ↔ is_Some (players_by_id before !! id)).
Proof.
  destruct tick_roster as [H1 H2]. unfold players_by_id. rewrite !by_key_is_Some.
  change (gs_Players (tk_game t1)) with (tk_playerStates t1). by rewrite H1, H2.
Qed.

Lemma changed_players base id :
  by_key ps_ID (mergeChangedPlayersByIDLocked s4 base ps) !! id =
    (if decide (id ∈ ps) then players_by_id after !! id else None) ∪ by_key ps_ID base !! id.
Proof.
  unfold mergeChangedPlayersByIDLocked. case_bool_decide as Hps.
  { rewrite decide_False by (rewrite Hps; apply not_elem_of_empty). by rewrite (left_id_L None (∪)). }
  rewrite (by_key_merge ps_ID String.le), lookup_union. f_equal.
  pose proof (by_key_filter ps_ID (λ id, id ∈ ps) (gs_Players after)) as H. rewrite H. clear H.
  case_decide as Hid.
  - destruct (players_by_id after !! id) as [p|] eqn:Hp; [by apply map_lookup_filter_Some|].
    apply map_lookup_filter_None. by left.
  - apply map_lookup_filter_None. by right.
Qed.

Lemma copy_players copy D0 :
  (∀ id, id ∉ D0 → player_view <$> by_key ps_ID copy !! id = player_view <$> players_by_id before !! id) →
  let changed := mergeChangedPlayersByIDLocked s4
    (collectChangedPlayers (tk_session t1) (player_index (gs_Players before)) (tk_players t1)) ps in
  ∀ id, id ∉ D0 ∪ D →
  player_view <$> by_key ps_ID (SnapshotStore.removePlayers (SnapshotStore.upsertPlayers copy changed) []) !! id =
  player_view <$> players_by_id after !! id.
Proof.
  intros Hcopy changed id HD. unfold SnapshotStore.removePlayers, SnapshotStore.upsertPlayers.
  rewrite SnapshotStore.by_key_remove, lookup_filter_key by apply not_elem_of_nil.
  rewrite (SnapshotStore.by_key_upsert ps_ID String.le), lookup_union. unfold changed. rewrite changed_players.
  set (base := by_key ps_ID (collectChangedPlayers _ _ _) !! id).
  destruct tick_roster as [Hids1 Hids0]. destruct (tick_player_there id) as [Hthere Hthere0].
  assert ((∀ p, base = Some p → players_by_id (tk_game t1) !! id = Some p) ∧
    (id ∈ tk_players t1 → is_Some (players_by_id (tk_game t1) !! id) → is_Some base)) as [Hbase Htold].
  { assert (map ps_ID (gs_Players (ss_gameState (tk_session t1))) = map ps_ID (gs_Players (ss_gameState session))) as Hids.
    { transitivity (map ps_ID (gs_Players before)); [exact Hids0|by rewrite (begin_tick_state session Hroom)]. }
    apply collected_players; [symmetry; exact Hids0| |rewrite Hids; apply Hsound].
    intros Hnil. rewrite Hnil in Hids. destruct (gs_Players (ss_gameState session)) eqn:Hp; [|done].
    by destruct (so_someone _ Hsound). }
  specialize (Hcopy id ltac:(set_solver)).
  destruct (players_by_id after !! id) as [q|] eqn:Hq.
  2:{ assert (players_by_id (tk_game t1) !! id = None) as H1 by (apply eq_None_not_Some; by rewrite <-Hthere, <-eq_None_not_Some).
      assert (players_by_id before !! id = None) as H0 by (apply eq_None_not_Some; by rewrite <-Hthere0, <-eq_None_not_Some).
      destruct base as [p|]; [by rewrite (Hbase p eq_refl) in H1|]. rewrite H0 in Hcopy.
      case_decide; by rewrite ?(left_id_L None (∪)). }
  destruct (decide (id ∈ ps)) as [Hps|Hps].
  { destruct base; by destruct (_ !! id). }
  rewrite (left_id_L None (∪)). destruct tick_night as (E & Hn & _).
  pose proof (unreported_player _ _ _ _ id (Hn (tick_start s2) eq_refl)) as Hnight.
  change (tk_game (tick_start s2)) with (ss_gameState s2) in Hnight.
  change (tk_game (and_report s3 ps E (tick_start s2))) with (ss_gameState s3) in Hnight.
  unfold players_by_id in *. rewrite (proj1 tick_end_state) in Hq. rewrite Hq, (proj1 tick_state2) in Hnight.
  change (tk_playerStates t1) with (gs_Players (tk_game t1)) in Hnight.
  assert (id ∉ ps ∪ ∅) as Hps' by set_solver. rewrite Hnight by set_solver. clear Hnight.
  destruct base as [p|] eqn:Hb; [rewrite (Hbase p eq_refl); by destruct (_ !! id)|].
  rewrite (left_id_L None (∪)), Hcopy. symmetry.
  apply (unreported_player _ _ _ _ id tick_commands); [|set_solver].
  intros Hin. destruct (Htold Hin) as [p Hp]; [|done]. apply Hthere. eauto.
Qed.

(** Single values: what differs is in the delta. *)
Lemma changed_value_default {A} `{EqDecision A} (old new : A) : default old (changed_value old new) = new.
Proof. unfold changed_value. by case_bool_decide. Qed.

Lemma tick_values :
  gs_MatchID after = gs_MatchID before ∧ gs_TickID after = gs_TickID before ∧
  gs_Status (ss_gameState (tk_session t1)) = gs_Status before ∧
  gs_GameOver (ss_gameState (tk_session t1)) = None ∧
  (transitions = [] → gs_Phase after = gs_Phase before) ∧
  ms_RestrictedZones (gs_Map after) = ms_RestrictedZones (gs_Map before) ∧
  ss_tickID s4 = ss_tickID session + 1.
Proof.
  destruct tick_night as (E & Hn & _).
  destruct (changes_frame_facts _ _ _ _ (Hn (tick_start s2) eq_refl)) as (M2 & T2 & _ & P2 & _ & Z2 & N2).
  destruct (changes_frame_facts _ _ _ _ tick_commands) as (M1 & T1 & S1 & P1 & O1 & Z1 & N1).
  destruct (tc_clock _ _ _ _ _ _ _ _ _ _ _ Hcourse) as (Hc & Hs2 & Hnone).
  destruct tick_end_state as (_ & _ & Hm & Hph & _ & Hid & Htk & Hts).
  unfold tk_map in *. change (tk_game (tick_start s2)) with (ss_gameState s2) in *. change (tk_now (tick_start s2)) with (ss_tickID s2) in *.
  change (tk_game (tick_start s0)) with before in *. change (tk_now (tick_start s0)) with (ss_tickID s0) in *.
  change (tk_game (and_report s3 ps E (tick_start s2))) with (ss_gameState s3) in *.
  change (tk_now (and_report s3 ps E (tick_start s2))) with (ss_tickID s3) in *.
  change (ss_gameState (tk_session t1)) with (tk_game t1).
  assert (gs_MatchID (ss_gameState s2) = gs_MatchID (tk_game t1)) as HM by by rewrite Hc.
  assert (gs_TickID (ss_gameState s2) = gs_TickID (tk_game t1)) as HT by by rewrite Hc.
  assert (ms_RestrictedZones (gs_Map (ss_gameState s2)) = ms_RestrictedZones (gs_Map (tk_game t1))) as HZ by by rewrite Hc.
  assert (ss_tickID s2 = tk_now t1) as HN by by rewrite Hs2.
  split_and!; [congruence|congruence|done| | |congruence|rewrite <-(begin_tick_tick session Hroom); congruence].
  - rewrite O1, (begin_tick_state session Hroom). by apply (so_open _ Hsound).
  - intros Ht. rewrite Hph, P2, Hnone by done. done.
Qed.

(** The copy after the delta, in all its parts. *)
Lemma copy_mirrors D0 copy :
  mirrors D0 copy (ss_gameState session) →
  mirrors (D0 ∪ D) (SnapshotStore.applyDeltaLocked copy (tick_message session s4 t1 transitions es ps)
    <| gs_TickID := ss_tickID s4 |>) after.
Proof.
  intros [Mm Mt Ms Mc Mph Mo Mp Ma Mk Mz Md Mcl Me Mpl].
  destruct tick_values as (Vm & Vt & Vs & Vo & Vph & Vz & Vn). pose proof (begin_tick_state session Hroom) as Hb.
  assert (gs_MatchID before = gs_MatchID (ss_gameState session) ∧ gs_Status before = gs_Status (ss_gameState session) ∧
    gs_CycleCount before = gs_CycleCount (ss_gameState session) ∧ gs_Phase before = gs_Phase (ss_gameState session) ∧
    gs_Map before = gs_Map (ss_gameState session) ∧ gs_Players before = gs_Players (ss_gameState session) ∧
    gs_Entities before = gs_Entities (ss_gameState session) ∧ gs_TickID before = ss_tickID session + 1)
    as (Bm & Bs & Bc & Bph & Bmap & Bp & Be & Bt) by by rewrite Hb.
  rewrite <-Bm, <-?Bs, <-?Bc, <-?Bph, <-?Bmap in *.
  set (delta := tick_message session s4 t1 transitions es ps).
  set (copy' := SnapshotStore.applyDeltaLocked copy delta).
  split; unfold doors_by_id, cells_by_id, entities_by_id, players_by_id;
    change (gs_Map (copy' <| gs_TickID := ss_tickID s4 |>)) with (gs_Map copy').
  - change (gs_MatchID copy = gs_MatchID after). congruence.
  - change (ss_tickID s4 = gs_TickID after). congruence.
  - change (default (gs_Status copy) (changed_value (gs_Status (ss_gameState (tk_session t1))) (gs_Status after))
      = gs_Status after). rewrite Ms, Vs. apply changed_value_default.
  - change (default (gs_CycleCount copy) (changed_value (gs_CycleCount before) (gs_CycleCount after))
      = gs_CycleCount after). rewrite Mc. apply changed_value_default.
  - change (default (gs_Phase copy) (if transitions is [] then None else Some (gs_Phase after)) = gs_Phase after).
    rewrite Mph. destruct transitions; [symmetry; by apply Vph|done].
  - change (match (if gs_GameOver (ss_gameState (tk_session t1)) is Some _ then None else gs_GameOver after)
      with Some g => Some g | None => gs_GameOver copy end = gs_GameOver after).
    rewrite Vo, Mo, (so_open _ Hsound Hrunning). by destruct (gs_GameOver after).
  - change (default (ms_PowerOn (gs_Map copy)) (changed_value (ms_PowerOn (gs_Map before)) (ms_PowerOn (gs_Map after)))
      = ms_PowerOn (gs_Map after)). rewrite Mp. apply changed_value_default.
  - change (default (ms_Alarm (gs_Map copy)) (changed_value (ms_Alarm (gs_Map before)) (ms_Alarm (gs_Map after)))
      = ms_Alarm (gs_Map after)). rewrite Ma. apply changed_value_default.
  - change (default (ms_BlackMarketRoomID (gs_Map copy))
      (changed_value (ms_BlackMarketRoomID (gs_Map before)) (ms_BlackMarketRoomID (gs_Map after)))
      = ms_BlackMarketRoomID (gs_Map after)). rewrite Mk. apply changed_value_default.
  - change (ms_RestrictedZones (gs_Map copy) = ms_RestrictedZones (gs_Map after)). congruence.
  - by apply copy_doors.
  - by apply copy_cells.
  - apply copy_entities. unfold entities_by_id in *. by rewrite Be.
  - apply (copy_players (gs_Players copy) D0). unfold players_by_id in *. by rewrite Bp.
Qed.

(** What the match keeps. *)
Lemma tick_players_kept : Forall sound_player (gs_Players after) ∧
  Forall (λ p, afb_TickID (ps_LastActionFeedback p) <= ss_tickID session + 1) (gs_Players after).
Proof.
  assert (∀ n D t t', changes D n t t' → tk_now t = ss_tickID session + 1 →
    Forall sound_player (tk_playerStates t) →
    Forall (λ p, afb_TickID (ps_LastActionFeedback p) <= ss_tickID session + 1) (tk_playerStates t) →
    Forall sound_player (tk_playerStates t') ∧
    Forall (λ p, afb_TickID (ps_LastActionFeedback p) <= ss_tickID session + 1) (tk_playerStates t')) as Hstep.
  { intros n D0 t t' [_ _ _ _ Hp _ _ _] Hnow. rewrite Hnow in Hp. clear Hnow.
    induction Hp as [|p p' l l' [(_ & Hs & Hf) _] _ IH]; [done|].
    intros [Ps Pl]%Forall_cons [Qs Ql]%Forall_cons. destruct (IH Pl Ql) as [H1 H2].
    split; constructor; auto. destruct Hf as [-> | ->]; [done|lia]. }
  destruct Hsound as [_ Hs Ht _ _ _ _ _ _].
  destruct (Hstep _ _ _ _ tick_commands (begin_tick_tick session Hroom)) as [H1 H2].
  { change (tk_playerStates (tick_start s0)) with (gs_Players before). by rewrite (begin_tick_state session Hroom). }
  { change (tk_playerStates (tick_start s0)) with (gs_Players before). rewrite (begin_tick_state session Hroom).
    eapply Forall_impl; [exact Ht|]. simpl. lia. }
  destruct tick_night as (E & Hn & _). destruct tick_values as (_ & _ & _ & _ & _ & _ & Hts).
  pose proof (changes_now _ _ _ _ (Hn (tick_start s2) eq_refl)) as Hnow.
  change (ss_tickID s3 = ss_tickID s2) in Hnow.
  destruct tick_end_state as (-> & _ & _ & _ & _ & _ & _ & Hts3). rewrite <-(proj1 tick_state2) in H1, H2.
  apply (Hstep _ _ _ _ (Hn (tick_start s2) eq_refl)); [|done|done].
  change (ss_tickID s2 = ss_tickID session + 1). congruence.
Qed.

Lemma tick_keeps : match_sound s4.
Proof.
  destruct tick_values as (_ & Vt & _ & Vo & _ & _ & Vn). destruct tick_players_kept as [Hs Ht].
  destruct tick_end_state as (Ep & Ee & Em & _). destruct tick_roster as [R1 R0]. destruct Hsound.
  destruct tick_night as (E & Hn & _). pose proof (Hn (tick_start s2) eq_refl) as Hc.
  destruct tick_state2 as (_ & Hd & Hcl & _). rewrite (begin_tick_state session Hroom) in R0.
  change (map ps_ID (tk_playerStates t1) = map ps_ID (gs_Players (ss_gameState session))) in R0.
  split.
  - rewrite Vt, Vn. by rewrite (begin_tick_state session Hroom).
  - done.
  - by rewrite Vn.
  - intros Hnil. rewrite Hnil, R0 in R1. by destruct (gs_Players (ss_gameState session)).
  - by rewrite R1, R0.
  - rewrite Em. change (NoDup (map ds_ID (tk_doorStates (and_report s3 ps E (tick_start s2))))).
    rewrite (changes_door_ids _ _ _ _ Hc). change (NoDup (map ds_ID (ms_Doors (gs_Map (ss_gameState s2))))).
    rewrite Hd, (changes_door_ids _ _ _ _ tick_commands). exact so_door_ids0.
  - rewrite Em. change (NoDup (map cs_ID (tk_cellStates (and_report s3 ps E (tick_start s2))))).
    rewrite (changes_cell_ids _ _ _ _ Hc). change (NoDup (map cs_ID (ms_Cells (gs_Map (ss_gameState s2))))).
    rewrite Hcl, (changes_cell_ids _ _ _ _ tick_commands). exact so_cell_ids0.
  - destruct (night_step_entities _ _ _ _ _ Hn tick_state2_entities) as ([[H1 H2 H3 H4] _] & _).
    assert (ss_nextEntityID s4 = ss_nextEntityID s3) as Hnext.
    { rewrite (tc_end _ _ _ _ _ _ _ _ _ _ _ Hcourse). by destruct outcome. }
    split; change (tk_game (tick_start s4)) with after; change (ss_nextEntityID (tk_session (tick_start s4)))
      with (ss_nextEntityID s4); rewrite ?Ee, ?Hnext; try done.
  - rewrite (tc_end _ _ _ _ _ _ _ _ _ _ _ Hcourse). destruct outcome; [done|]. intros _.
    destruct (changes_frame_facts _ _ _ _ Hc) as (_ & _ & _ & _ & O2 & _).
    change (gs_GameOver (ss_gameState s3) = gs_GameOver (ss_gameState s2)) in O2. rewrite O2.
    destruct (tc_clock _ _ _ _ _ _ _ _ _ _ _ Hcourse) as (Hk & _). rewrite Hk. exact Vo.
Qed.

Lemma unseen_after : D = unseen_of transitions after.
Proof.
  unfold unseen_of. destruct (existsb _ _); [|done]. destruct tick_night as (E & _ & Ha & _).
  rewrite <-Ha. unfold authority_ids. by rewrite (proj1 tick_end_state).
Qed.
End copy.

(** ** One tick *)

Section follow.
Context `{Hdec : !PayloadDecoder} (config : ServerConfig.Config).

(** Whom a tick may touch without telling the clients. *)
Definition unseen (session session' : matchSession) : gset PlayerID :=
  unseen_of (tick_transitions config session) (ss_gameState session').

(** The delta a tick leaves in the history. *)
Definition latest_snapshot (session : matchSession) : option Snapshot :=
  ss_snapshotHistory session !! ss_tickID session.

Lemma tick_step session timestamp session' outcome D copy meta :
  match_sound session → tick_room session → ss_status session = MatchStatusRunning →
  tick_session config session timestamp = Some (session', outcome) →
  mirrors D copy (ss_gameState session) →
  match_sound session' ∧ ss_tickID session' = ss_tickID session + 1 ∧
  ∃ snapshot, latest_snapshot session' = Some snapshot ∧
    ∃ copy' meta', SnapshotStore.ApplySnapshot (SnapshotStore.mkStore (Some copy) meta) snapshot =
      (SnapshotStore.mkStore (Some copy') meta', true) ∧
    mirrors (D ∪ unseen session session') copy' (ss_gameState session').
Proof.
  intros Hs Hr Hrun Ht Hm. apply tick_session_course in Ht as (t1 & trs & s2 & s3 & s4 & es & ps & Hc & ->).
  pose proof (copy_mirrors config session timestamp _ _ _ _ _ _ _ _ Hc Hs Hr Hrun D copy Hm) as Hcopy.
  rewrite (unseen_after config session timestamp _ _ _ _ _ _ _ _ Hc Hs Hr) in Hcopy.
  pose proof (tick_keeps config session timestamp _ _ _ _ _ _ _ _ Hc Hs Hr Hrun) as Hkeep.
  destruct (tick_values config session timestamp _ _ _ _ _ _ _ _ Hc Hs Hr Hrun) as (_ & _ & _ & _ & _ & _ & Htick).
  split; [by destruct Hkeep as [? ? ? ? ? ? ? []]; split|]. split; [done|].
  eexists. split; [apply store_snapshot_newest|].
  unfold SnapshotStore.ApplySnapshot. cbn [sn_Kind sn_TickID sn_Delta sn_PlayerAcks SnapshotStore.state].
  rewrite (bool_decide_eq_false_2 (SnapshotKindDelta = _)), (bool_decide_eq_true_2 (SnapshotKindDelta = _)) by done.
  assert ((ss_tickID s4 <=? gs_TickID copy) = false) as ->.
  { apply Z.leb_gt. rewrite (mi_tick _ _ _ Hm), (so_tick _ Hs). lia. }
  do 2 eexists. split; [done|]. unfold unseen. by rewrite <-(tc_transitions _ _ _ _ _ _ _ _ _ _ _ Hc).
Qed.
End follow.
