(* ===== verification/Progress.v ===== *)
(** * A running match goes on

    What one round of the match loop ([Tick.run_tick]) keeps of the match and of the manager:
    the roster, the clock, the steps of [Matches] it is made of; and that it always returns. *)

From S2P Require Import Prelude Float32 Model GoStrings Layout Access Items Phase Prison Win Cards Combat Roles Physics Session InputQueue Spawn Lifecycle Matches Actions Keyed Changes NightCards Economy Doors AbilityUse CardUse Shooting Interact Tick SnapshotStore Mirror.

#[local] Open Scope Z_scope.

Lemma frame_facts s s' :
  tick_frame (tick_start s') = tick_frame (tick_start s) →
  ss_matchID s' = ss_matchID s ∧ ss_status s' = ss_status s ∧ ss_players s' = ss_players s ∧
  ss_nextIngressSeq s' = ss_nextIngressSeq s ∧ gs_Phase (ss_gameState s') = gs_Phase (ss_gameState s) ∧
  gs_CycleCount (ss_gameState s') = gs_CycleCount (ss_gameState s).
Proof. intros H. unfold tick_frame in H. cbn [tick_start tk_session] in H. by injection H. Qed.

Section course.
Context `{Hdec : !PayloadDecoder}.
Context (config : ServerConfig.Config) (session : matchSession) (timestamp : Z).
Context (t1 : tickState) (transitions : list Phase.Transition) (s2 s3 s4 : matchSession).
Context (es : list EntityState) (ps : gset PlayerID) (outcome : option GameOverState).
Hypothesis Hcourse : tick_course config session timestamp t1 transitions s2 s3 s4 es ps outcome.
Hypothesis Hsound : match_sound session.
Hypothesis Hroom : tick_room session.

(** The night hooks leave the frame alone. *)
Lemma night_frame : tick_frame (tick_start s3) = tick_frame (tick_start s2).
Proof.
  destruct (tick_night config session timestamp _ _ _ _ _ _ _ _ Hcourse Hsound Hroom) as (E & Hn & _).
  exact (ch_frame _ _ _ _ (Hn (tick_start s2) eq_refl)).
Qed.
Lemma commands_frame : tick_frame t1 = tick_frame (tick_start (begin_tick session).2).
Proof. exact (ch_frame _ _ _ _ (tick_commands config session timestamp _ _ _ _ _ _ _ _ Hcourse Hsound Hroom)). Qed.

(** Commands, clock and night keep who plays. *)
Lemma tick_keeps_roster : same_roster session s3.
Proof.
  destruct (frame_facts _ _ night_frame) as (N1 & N2 & N3 & N4 & _).
  pose proof (frame_facts (begin_tick session).2 (tk_session t1) commands_frame) as (C1 & C2 & C3 & C4 & _).
  destruct (tc_clock _ _ _ _ _ _ _ _ _ _ _ Hcourse) as (_ & H2 & _).
  pose proof (tick_roster config session timestamp _ _ _ _ _ _ _ _ Hcourse Hsound Hroom) as [R1 R0].
  destruct (tick_end_state config session timestamp _ _ _ _ _ _ _ _ Hcourse) as (Ep & _).
  rewrite Ep in R1. rewrite H2 in N1, N2, N3, N4.
  split.
  - etransitivity; [exact N1|exact C1].
  - etransitivity; [exact N2|exact C2].
  - f_equal. etransitivity; [exact N3|exact C3].
  - intros _. etransitivity; [exact N4|exact C4].
  - etransitivity; [exact R1|exact R0].
Qed.
End course.

(** ** A tick returns *)

(** The phase ends at a tick, and cycles are counted from zero. *)
Definition clock_sound (s : matchSession) : Prop :=
  0 <= ph_EndsTick (gs_Phase (ss_gameState s)) ∧ 0 <= gs_CycleCount (ss_gameState s).

(** The counter of ticks is a phase away from its end. *)
Definition clock_room (config : ServerConfig.Config) (s : matchSession) : Prop :=
  Phase.config_wf (ServerConfig.phaseConfig config) ∧
  Phase.tick_headroom (ServerConfig.phaseConfig config) (ss_tickID s + 1).

Section total.
Context `{Hdec : !PayloadDecoder} (config : ServerConfig.Config).

Lemma commands_clock session :
  match_sound session → tick_room session →
  let t1 := run_commands (begin_tick session).2 (begin_tick session).1 in
  tk_now t1 = ss_tickID session + 1 ∧ gs_Phase (tk_game t1) = gs_Phase (ss_gameState session) ∧
  gs_CycleCount (tk_game t1) = gs_CycleCount (ss_gameState session).
Proof.
  intros Hs Hr. cbv zeta. pose proof (begin_changes session Hr Hs) as Hc. revert Hc.
  generalize (run_commands (begin_tick session).2 (begin_tick session).1). intros t1 Hc.
  destruct (frame_facts (begin_tick session).2 (tk_session t1) (ch_frame _ _ _ _ Hc)) as (_ & _ & _ & _ & Hp & Hn).
  destruct (changes_frame_facts _ _ _ _ Hc) as (_ & _ & _ & _ & _ & _ & Hnow).
  split; [|split].
  - etransitivity; [exact Hnow|exact (begin_tick_tick session Hr)].
  - etransitivity; [exact Hp|]. by rewrite begin_tick_state.
  - etransitivity; [exact Hn|]. by rewrite begin_tick_state.
Qed.

Lemma clock_returns state tick :
  0 <= ph_EndsTick (gs_Phase state) → 0 <= gs_CycleCount state →
  Phase.config_wf (ServerConfig.phaseConfig config) →
  Phase.tick_headroom (ServerConfig.phaseConfig config) tick →
  ∃ state' ts, Phase.Advance state tick (ServerConfig.phaseConfig config) (Some managerPhaseHooks) = Some (state', ts) ∧
    0 <= ph_EndsTick (gs_Phase state') ∧ 0 <= gs_CycleCount state'.
Proof.
  intros He Hn Hwf Hroom. destruct (Phase.normalized_pos _ Hwf). unfold Phase.Advance.
  destruct (Phase.advance_loop_spec (Phase.normalized (ServerConfig.phaseConfig config)) (Some managerPhaseHooks) tick
    (Phase.normalized_wf _ Hwf) ltac:(done) ltac:(done) ltac:(by intros s t) Hroom
    (Z.to_nat (tick + 1 - ph_EndsTick (gs_Phase state))) state He Hn) as (s' & ts & H1 & _ & H2 & _ & _ & H3); [lia|].
  exists s', ts. split; [exact H1|lia].
Qed.

Lemma tick_total session timestamp :
  match_sound session → tick_room session → clock_sound session → clock_room config session →
  ∃ session' outcome, tick_session config session timestamp = Some (session', outcome).
Proof.
  intros Hs Hr [He Hn] [Hwf Hhead]. destruct (commands_clock session Hs Hr) as (Hnow & Hp & Hcyc).
  revert Hnow Hp Hcyc. unfold tick_session. destruct (begin_tick session) as [commands s0] eqn:Hb. cbn [fst snd].
  unfold applyInputsToGameStateLocked. cbv zeta. set (t1 := run_commands s0 commands). clearbody t1.
  intros Hnow Hp Hcyc. rewrite <-Hp in He. rewrite <-Hcyc in Hn. rewrite <-Hnow in Hhead.
  destruct (clock_returns _ _ He Hn Hwf Hhead) as (g & ts & Ha & _).
  change (tk_now t1) with (ss_tickID (tk_session t1)) in Ha. unfold tk_game in Ha. rewrite Ha. cbn [mbind option_bind].
  destruct (foldl follow_transition _ ts) as [[s3 es] ps]. do 2 eexists. reflexivity.
Qed.

(** The clock stays sound, even where a counter wraps. *)
Lemma advance_once_nonneg c state :
  0 <= gs_CycleCount state →
  let state' := (Phase.advance_once c (Some managerPhaseHooks) state).1 in
  0 <= ph_EndsTick (gs_Phase state') ∧ 0 <= gs_CycleCount state'.
Proof.
  intros Hn. assert (∀ n, 0 <= u64 n) as H64 by (intros n; apply Z.mod_pos_bound; lia).
  assert (∀ n, 0 <= u8 n) as H8 by (intros n; apply Z.mod_pos_bound; lia).
  unfold Phase.advance_once. cbv zeta. cbn [fst].
  set (s1 := if (_ : bool) then (_ : GameState) else state). assert (0 <= gs_CycleCount s1) as H1.
  { unfold s1. destruct (_ && _); [exact (H8 _)|exact Hn]. }
  clearbody s1. destruct (ph_Current (gs_Phase state) ≟ PhaseNight); (split; [exact (H64 _)|exact H1]).
Qed.
Lemma Advance_nonneg state tick c state' ts :
  Phase.Advance state tick c (Some managerPhaseHooks) = Some (state', ts) →
  0 <= ph_EndsTick (gs_Phase state) → 0 <= gs_CycleCount state →
  0 <= ph_EndsTick (gs_Phase state') ∧ 0 <= gs_CycleCount state'.
Proof.
  unfold Phase.Advance. generalize (Z.to_nat (tick + 1 - ph_EndsTick (gs_Phase state))). intros fuel.
  revert state ts. induction fuel as [|fuel IH]; intros state ts H He Hn; cbn [Phase.advance_loop] in H;
    destruct (tick <? _); simplify_eq; [done|done|].
  destruct (advance_once_nonneg (Phase.normalized c) state Hn) as [H1 H2].
  destruct (Phase.advance_once _ _ state) as [s1 tr]. apply bind_Some in H as ([s2 trs] & H & H').
  simplify_eq. by apply (IH s1 trs).
Qed.

Lemma tick_clock session timestamp session' outcome :
  match_sound session → tick_room session → clock_sound session →
  tick_session config session timestamp = Some (session', outcome) → clock_sound session'.
Proof.
  intros Hs Hr [He Hn] Ht. destruct (commands_clock session Hs Hr) as (_ & Hp & Hcyc).
  apply tick_session_course in Ht as (t1 & trs & s2 & s3 & s4 & es & ps & Hc & ->).
  pose proof (tc_advance _ _ _ _ _ _ _ _ _ _ _ Hc) as Ha.
  rewrite <-(tc_commands _ _ _ _ _ _ _ _ _ _ _ Hc) in Hp, Hcyc. rewrite <-Hp in He. rewrite <-Hcyc in Hn.
  destruct (Advance_nonneg _ _ _ _ _ Ha He Hn) as [He' Hn'].
  destruct (frame_facts _ _ (night_frame config session timestamp _ _ _ _ _ _ _ _ Hc Hs Hr)) as (_ & _ & _ & _ & N1 & N2).
  destruct (tick_end_state config session timestamp _ _ _ _ _ _ _ _ Hc) as (_ & _ & _ & E1 & E2 & _).
  change (0 <= ph_EndsTick (gs_Phase (ss_gameState s4)) ∧ 0 <= gs_CycleCount (ss_gameState s4)).
  by rewrite E1, E2, N1, N2.
Qed.
End total.

(** ** One round of the loop, on the manager *)

Lemma finish_stored s snapshot outcome timestamp :
  finish_session (storeSnapshotLocked s snapshot) outcome timestamp =
  storeSnapshotLocked (finish_session s outcome timestamp) snapshot.
Proof. reflexivity. Qed.

Lemma stored_roster s s' snapshot : same_roster s s' → same_roster s (storeSnapshotLocked s' snapshot).
Proof. intros []. by split. Qed.

Lemma run_tick_rounds `{Hdec : !PayloadDecoder} m id timestamp m' :
  (∀ s, mg_matches m !! id = Some s → match_sound s ∧ tick_room s) →
  run_tick m id timestamp = Some m' → rtc manager_step m m'.
Proof.
  intros Hm H. unfold run_tick in H. apply bind_Some in H as (s & Hs & H). destruct (Hm s Hs) as [Hsound Hroom].
  destruct (ss_status s ≟ MatchStatusRunning) eqn:Hrun; [|done]. bool_props. cbn [negb] in H.
  apply bind_Some in H as ([s' outcome] & Ht & [= <-]).
  apply tick_session_course in Ht as (t1 & trs & s2 & s3 & s4 & es & ps & Hc & ->).
  pose proof (tick_keeps_roster (mg_config m) s timestamp _ _ _ _ _ _ _ _ Hc Hsound Hroom) as Hr.
  rewrite (tc_end _ _ _ _ _ _ _ _ _ _ _ Hc). clear Hc. set (snapshot := mkSnapshot _ _ _ _ _ _). clearbody snapshot.
  eapply rtc_l; [|apply rtc_once, step_log]. destruct outcome as [outcome|].
  - rewrite <-finish_stored. apply (step_finish m id s); [done|done|]. by apply stored_roster.
  - apply (step_run m id s); [done|done|]. by apply stored_roster.
Qed.

