(* ===== verification/Follow.v ===== *)
(** * A client that follows a match

    From the lobby to the end of a match: players join, the match starts, commands come in,
    ticks pass, connections come and go; a client takes a full snapshot and then the delta of
    every tick.  [followers_mirror] says what its copy holds at every moment. *)

From S2P Require Import Prelude Float32 Model GoStrings Hashing Layout Access Items Physics Phase Prison Win Cards Combat Roles Session InputQueue Spawn Lifecycle Matches Actions Keyed Changes NightCards Economy Doors AbilityUse CardUse Shooting Interact Tick SnapshotStore Mirror Progress.

#[local] Open Scope Z_scope.

(** ** The lobby *)

(** Nobody has been given a card or a message. *)
Definition fresh (p : PlayerState) : Prop :=
  ps_Cards p = [] ∧ ps_LastActionFeedback p = zero_ActionFeedback.

Definition default_doors : list DoorID := map ds_ID (ms_Doors (ToMapState defaultMatchLayout)).
Definition default_cells : list CellID := map cs_ID (ms_Cells (ToMapState defaultMatchLayout)).
#[local] Opaque ToMapState.

(** What holds of the state of a match until it starts. *)
Record set_up (g : GameState) : Prop := {
  su_fresh : Forall fresh (gs_Players g);
  su_doors : map ds_ID (ms_Doors (gs_Map g)) = default_doors;
  su_cells : map cs_ID (ms_Cells (gs_Map g)) = default_cells;
  su_over : gs_GameOver g = None;
}.

Lemma set_up_players g f :
  (∀ p, fresh p → fresh (f p)) → set_up g → set_up (g <| gs_Players ::= map f |>).
Proof.
  intros Hf [H1 H2 H3 Ho]. split; cbn; [|exact H2|exact H3|exact Ho]. apply Forall_fmap. by eapply Forall_impl.
Qed.

Lemma existing_players_fresh l id p :
  Forall fresh l → existing_players l !! id = Some p → fresh p.
Proof.
  unfold existing_players. intros Hl.
  assert (∀ (m : gmap PlayerID PlayerState), (∀ id p, m !! id = Some p → fresh p) →
    ∀ id p, foldl (λ m player, <[ps_ID player := player]> m) m l !! id = Some p → fresh p) as Hgen.
  { induction Hl as [|q l Hq _ IH]; intros m Hm; simpl; [done|]. apply IH.
    intros id' p' [[<- <-]|[_ H]]%lookup_insert_Some; eauto. }
  apply Hgen. intros id' p' H. by rewrite lookup_empty in H.
Qed.
Lemma set_up_sync s : set_up (ss_gameState s) → set_up (ss_gameState (syncGameStatePlayersLocked s)).
Proof.
  change (ss_gameState (syncGameStatePlayersLocked s)) with (ss_gameState s <| gs_Players :=
    map (synced_player (existing_players (gs_Players (ss_gameState s))) (ss_players s)) (session_ids s) |>).
  generalize (session_ids s) (ss_gameState s). intros ids. intros g [H1 H2 H3 Ho]. split; [|exact H2|exact H3|exact Ho]. cbn.
  apply Forall_fmap, Forall_forall. intros id _. clear H2 H3 Ho.
  cbn. unfold synced_player. destruct (existing_players _ !! id) as [p|] eqn:Hp; [|by split].
  destruct (existing_players_fresh _ _ _ H1 Hp). by split.
Qed.
Lemma set_up_touch s id : ss_gameState (touch_last_processed s id) = ss_gameState s.
Proof. unfold touch_last_processed. by case_match. Qed.
Lemma set_up_connected s id b s' :
  setPlayerConnectedLocked s id b = Some s' → set_up (ss_gameState s) → set_up (ss_gameState s').
Proof.
  unfold setPlayerConnectedLocked. case_bool_decide; [done|].
  intros (i & _ & [= <-])%bind_Some [H1 H2 H3 Ho]. split; [|exact H2|exact H3|exact Ho]. clear H2 H3 Ho. cbn.
  apply Forall_alter; [done|]. intros p _ [? ?]. destruct b; by split.
Qed.

(** Sessions that have not started. *)
Inductive lobby (config : ServerConfig.Config) : matchSession → Prop :=
  | lobby_new matchID now : lobby config (new_session config matchID now)
  | lobby_join s playerID name now : lobby config s → lobby config (join_session s playerID name now)
  | lobby_resume s playerID name :
      is_Some (ss_players s !! playerID) → lobby config s → lobby config (resume_session s playerID name)
  | lobby_connect s playerID connected : lobby config s → lobby config (connect_session s playerID connected).1.

Lemma lobby_set_up config s : lobby config s → set_up (ss_gameState s).
Proof.
  assert (∀ s id b, set_up (ss_gameState s) → set_up (ss_gameState (default s (setPlayerConnectedLocked s id b))))
    as Hconn.
  { intros s1 id b H. destruct (setPlayerConnectedLocked s1 id b) eqn:Hs; [by eapply set_up_connected|done]. }
  induction 1 as [matchID now|s p name now _ IH|s p name _ _ IH|s p b _ IH].
  - unfold new_session. cbn [ss_gameState]. split; [exact (Forall_nil_2 _)| | |reflexivity];
      unfold default_doors, default_cells, newInitialGameState;
      generalize (ToMapState defaultMatchLayout); intros m; reflexivity.
  - unfold join_session. cbv zeta. apply set_up_sync. by rewrite set_up_touch.
  - unfold resume_session. cbv zeta. apply Hconn, set_up_sync. rewrite set_up_touch. by case_match.
  - unfold connect_session. cbv zeta. set (s1 := touch_last_processed s p).
    assert (set_up (ss_gameState s1)) as H1 by (unfold s1; by rewrite set_up_touch).
    clearbody s1. destruct (setPlayerConnectedLocked s1 p b) as [s2|] eqn:H2; [by eapply set_up_connected|].
    apply set_up_sync in H1. set (s3 := syncGameStatePlayersLocked s1) in *. clearbody s3.
    destruct (setPlayerConnectedLocked s3 p b) as [s4|] eqn:H4; [by eapply set_up_connected|done].
Qed.

Lemma lobby_ids config s : lobby config s → game_ids s = session_ids s.
Proof.
  induction 1 as [matchID now|s p name now _ IH|s p name Hp _ IH|s p b _ IH].
  - done.
  - unfold join_session. cbv zeta. exact (sync_ids _).
  - destruct (resume_roster s p name IH) as [_ _ Hp' _ ->]. by rewrite IH; unfold session_ids; rewrite Hp'.
  - destruct (connect_roster s p b IH) as [_ _ Hp' _ ->]. by rewrite IH; unfold session_ids; rewrite Hp'.
Qed.

(** ** The start *)

Lemma try_add_supplies p item amount : only_supplies p (try_add p item amount).
Proof.
  unfold try_add. destruct (AddItem p item amount) eqn:H; [by eapply AddItem_supplies|apply only_supplies_refl].
Qed.
Lemma loadout_player_supplies p : only_supplies p (loadout_player p).
Proof.
  unfold loadout_player. cbv zeta.
  assert (∀ q n, only_supplies p q → only_supplies p (q <| ps_Bullets := n |>)) as Hb.
  { intros q n Hq. eapply only_supplies_trans; [exact Hq|by destruct q]. }
  set (p1 := p <| ps_InventorySlots := _ |>). assert (only_supplies p p1) as H1 by by destruct p.
  case_match.
  - set (p2 := p1 <| ps_Inventory := [] |>). assert (only_supplies p p2) as H2 by by destruct p.
    set (p3 := try_add (try_add p2 _ _) _ _). assert (only_supplies p p3) as H3.
    { eapply only_supplies_trans; [exact H2|]. eapply only_supplies_trans; apply try_add_supplies. }
    clearbody p3. set (p4 := if ps_Bullets p3 ≟ 0 then _ else p3).
    assert (only_supplies p p4) as H4 by (unfold p4; case_match; auto). clearbody p4.
    set (p5 := if authorityAmmoMax <? ps_Bullets p4 then _ else p4).
    assert (only_supplies p p5) as H5 by (unfold p5; case_match; auto). clearbody p5.
    eapply only_supplies_trans; [exact H5|]. eapply only_supplies_trans; [apply sync_supplies|].
    by destruct (syncAuthorityBulletStackLocked p5) as [[] b].
  - eapply only_supplies_trans; [exact H1|]. clearbody p1.
    eapply only_supplies_trans; [|apply only_goods_supplies, ensure_equipped_goods]. by destruct p1.
Qed.

Lemma assign_cell_set_up st idx at_ :
  Forall fresh (ca_players st) →
  Forall fresh (ca_players (assign_cell st idx at_)) ∧
  map cs_ID (ca_cells (assign_cell st idx at_)) = map cs_ID (ca_cells st).
Proof.
  intros Hf. unfold assign_cell. destruct (ca_players st !! at_) as [p|] eqn:Hp; [|done]. cbv zeta.
  assert (∀ q a b, fresh q → fresh (spawn_player q a b).1.1) as Hsp.
  { intros q a b. unfold spawn_player. repeat case_match; done. }
  pose proof (Forall_lookup_1 _ _ _ _ Hf Hp) as Hfp.
  match goal with |- context [let '(_, _) := ?m in _] =>
    assert (fresh m.1 ∧ map cs_ID m.2 = map cs_ID (ca_cells st)) as [Hq Hcells]; [|destruct m as [q1 cells1]] end.
  { destruct (ca_cells st !! idx) as [cell|] eqn:Hc; [|done]. split; [done|]. cbn [snd].
    change (map ?f ?l) with (f <$> l). rewrite list_fmap_insert.
    apply list_insert_id. rewrite list_lookup_fmap, Hc. done. }
  cbn [fst snd] in Hq, Hcells. specialize (Hsp q1 (ca_prisoners st) (ca_deputies st) Hq).
  destruct (spawn_player q1 _ _) as [[q' a] b]. cbn [ca_players ca_cells fst] in *.
  split; [by apply Forall_insert|done].
Qed.
Lemma assign_cells_set_up order st idx :
  Forall fresh (ca_players st) →
  Forall fresh (ca_players (assign_cells st idx order)) ∧
  map cs_ID (ca_cells (assign_cells st idx order)) = map cs_ID (ca_cells st).
Proof.
  revert st idx. induction order as [|a order IH]; intros st idx Hf; simpl; [done|].
  destruct (assign_cell_set_up st idx a Hf) as [H1 H2].
  destruct (IH (assign_cell st idx a) (S idx) H1) as [H3 H4]. split; [done|congruence].
Qed.
Lemma set_up_assign_cells s : set_up (ss_gameState s) → set_up (ss_gameState (assignCellsLocked s)).
Proof.
  intros Hs. unfold assignCellsLocked. cbv zeta. destruct (_ || _); [exact Hs|]. destruct Hs as [H1 H2 H3 Ho].
  match goal with |- context [assign_cells ?st ?i ?o] => destruct (assign_cells_set_up o st i H1) as [H4 H5];
    revert H4 H5; generalize (assign_cells st i o) end.
  cbn [ca_cells]. intros st H4 H5. split.
  { change (Forall fresh (ca_players st)). exact H4. }
  { change (map ds_ID (ms_Doors (gs_Map (ss_gameState s))) = default_doors). exact H2. }
  2:{ exact Ho. }
  change (map cs_ID (ca_cells st) = default_cells). etransitivity; [exact H5|]. etransitivity; [|exact H3].
  rewrite map_map. apply map_ext. reflexivity.
Qed.

(** Hearts, messages and the hand of a player of a match that starts. *)
Definition started_player (p : PlayerState) : Prop :=
  sound_player p ∧ ps_LastActionFeedback p = zero_ActionFeedback.

Lemma apply_loadout_started p : fresh p → started_player (loadout_player (apply_loadout p)).
Proof.
  intros [Hc Hf]. destruct (only_supplies_facts _ _ (loadout_player_supplies (apply_loadout p))) as (Hv & _ & _).
  assert (sound_player (apply_loadout p)) as Hs.
  { pose proof (MaxHearts_range (ps_Role p)) as [Hpos Hu]. unfold MaxHeartsHalfForRole in *.
    split; cbn; rewrite ?Hc; try done. constructor. }
  split; [by apply (same_vitals_steady (now := 0) _ _ Hv)|].
  destruct Hv as (_ & _ & _ & _ & _ & ->). done.
Qed.

(** *** The prisoners who take bribes *)

Lemma spawn_npc_entities s roomID :
  entities_ok (tick_start s) → ss_nextEntityID s + 1 < 2 ^ 32 →
  let s' := spawn_npc_prisoner s roomID in
  entities_ok (tick_start s') ∧ ss_nextEntityID s' = ss_nextEntityID s + 1 ∧
  gs_Players (ss_gameState s') = gs_Players (ss_gameState s) ∧ gs_Map (ss_gameState s') = gs_Map (ss_gameState s).
Proof.
  intros Hok Hroom. unfold spawn_npc_prisoner. cbv zeta.
  pose proof (eo_counter _ Hok) as Hnn. change (0 <= ss_nextEntityID s) in Hnn.
  rewrite u32_small by (unfold is_u32; lia).
  case_match; [case_match|]; (split; [|done]).
  - match goal with |- entities_ok (tick_start ?s') => 
      assert (entities_change 1 (tick_start s) (mark_entity (ss_nextEntityID s + 1) (tick_start s'))) as Hc end.
    { eapply entities_change_new; cycle 2; [reflexivity|reflexivity|reflexivity| |];
        unfold next_entity_id; cbn; by rewrite u32_small by (unfold is_u32; lia). }
    destruct (Hc Hok Hroom) as ([? ? ? ?] & _). by split.
  - destruct Hok as [? Hg ? ?]. split; try done; cbn in *; [|lia].
    eapply Forall_impl; [exact Hg|]. cbn. intros. lia.
Qed.
Lemma spawn_npcs_entities rooms s :
  entities_ok (tick_start s) → ss_nextEntityID s + Z.of_nat (length rooms) < 2 ^ 32 →
  let s' := foldl spawn_npc_prisoner s rooms in
  entities_ok (tick_start s') ∧ ss_nextEntityID s' = ss_nextEntityID s + Z.of_nat (length rooms) ∧
  gs_Players (ss_gameState s') = gs_Players (ss_gameState s) ∧ gs_Map (ss_gameState s') = gs_Map (ss_gameState s).
Proof.
  cbv zeta. revert s. induction rooms as [|r rooms IH]; intros s Hok Hroom; cbn [foldl length] in *.
  { split_and!; try done. lia. }
  destruct (spawn_npc_entities s r Hok) as (H1 & H2 & H3 & H4); [lia|].
  destruct (IH _ H1) as (H5 & H6 & H7 & H8); [lia|]. split_and!; [done|lia|congruence|congruence].
Qed.

(** *** A started match *)

(** The parts of a state that setting up the players does not touch. *)
Definition same_course (s s' : matchSession) : Prop :=
  gs_TickID (ss_gameState s') = gs_TickID (ss_gameState s) ∧
  gs_GameOver (ss_gameState s') = gs_GameOver (ss_gameState s) ∧
  (gs_Phase (ss_gameState s'), gs_CycleCount (ss_gameState s')) =
    (gs_Phase (ss_gameState s), gs_CycleCount (ss_gameState s)) ∧
  gs_Entities (ss_gameState s') = gs_Entities (ss_gameState s) ∧
  ss_nextEntityID s' = ss_nextEntityID s.

Lemma same_course_trans s1 s2 s3 : same_course s1 s2 → same_course s2 s3 → same_course s1 s3.
Proof. intros (H1 & H2 & H3 & H4 & H5) (H6 & H7 & H8 & H9 & H10). split_and!; congruence. Qed.

Lemma assign_roles_set_up matchID g : set_up g → set_up (assign_roles matchID g).
Proof.
  intros Hg. unfold assign_roles, ApplyAssignments. destruct (gs_Players g) as [|q l]; [exact Hg|].
  destruct (Assign _ _) as [|l']; [exact Hg|]. apply set_up_players; [|exact Hg].
  intros p Hp. unfold assign_player. by destruct (_ !! _).
Qed.
Lemma assign_roles_course s matchID : same_course s (s <| ss_gameState ::= assign_roles matchID |>).
Proof.
  assert (∀ g, gs_TickID (assign_roles matchID g) = gs_TickID g ∧ gs_GameOver (assign_roles matchID g) = gs_GameOver g ∧
    (gs_Phase (assign_roles matchID g), gs_CycleCount (assign_roles matchID g)) = (gs_Phase g, gs_CycleCount g) ∧
    gs_Entities (assign_roles matchID g) = gs_Entities g) as Hg.
  { intros g. unfold assign_roles, ApplyAssignments. destruct (gs_Players g); [done|]. by destruct (Assign _ _). }
  unfold same_course. cbn. by destruct (Hg (ss_gameState s)) as (? & ? & ? & ?).
Qed.
Lemma assign_cells_course s : same_course s (assignCellsLocked s).
Proof. unfold assignCellsLocked. cbv zeta. by destruct (_ || _). Qed.

Lemma map_started g : set_up g →
  Forall started_player (map loadout_player (map apply_loadout (gs_Players g))).
Proof.
  intros [H1 _ _ _]. rewrite map_map. apply Forall_fmap. eapply Forall_impl; [exact H1|].
  intros p Hp. by apply apply_loadout_started.
Qed.

Record populated (s s' : matchSession) : Prop := {
  po_players : Forall started_player (gs_Players (ss_gameState s'));
  po_doors : map ds_ID (ms_Doors (gs_Map (ss_gameState s'))) = default_doors;
  po_cells : map cs_ID (ms_Cells (gs_Map (ss_gameState s'))) = default_cells;
  po_entities : entities_ok (tick_start s');
  po_tick : gs_TickID (ss_gameState s') = gs_TickID (ss_gameState s);
  po_over : gs_GameOver (ss_gameState s') = gs_GameOver (ss_gameState s);
  po_clock : (gs_Phase (ss_gameState s'), gs_CycleCount (ss_gameState s')) =
    (gs_Phase (ss_gameState s), gs_CycleCount (ss_gameState s));
}.

Lemma foldl_course rooms s :
  let s' := foldl spawn_npc_prisoner s rooms in
  gs_TickID (ss_gameState s') = gs_TickID (ss_gameState s) ∧ gs_GameOver (ss_gameState s') = gs_GameOver (ss_gameState s) ∧
  (gs_Phase (ss_gameState s'), gs_CycleCount (ss_gameState s')) =
    (gs_Phase (ss_gameState s), gs_CycleCount (ss_gameState s)).
Proof.
  cbv zeta. revert s. induction rooms as [|r rooms IH]; intros s; cbn [foldl]; [done|].
  destruct (IH (spawn_npc_prisoner s r)) as (-> & -> & ->). unfold spawn_npc_prisoner. cbv zeta.
  by destruct (deterministicNPCPrisonerOffer _ _ _ _) as [[]|].
Qed.
Lemma spawn_rooms_few mapState : (length (npcPrisonerSpawnRoomCandidates mapState) <= 11)%nat.
Proof.
  unfold npcPrisonerSpawnRoomCandidates. rewrite length_sort_by, length_map.
  etransitivity; [apply length_filter|].
  rewrite <-(length_map rm_ID), default_layout_rooms. unfold default_room_ids. cbn [length]. lia.
Qed.

Lemma or_default_few (l d : list RoomID) n :
  (length l <= n)%nat → (length d <= n)%nat → (length (if l ≟ [] then d else l) <= n)%nat.
Proof. by destruct (l ≟ []). Qed.

Lemma no_entities_ok s :
  gs_Entities (ss_gameState s) = [] → ss_nextEntityID s = 0 → entities_ok (tick_start s).
Proof.
  intros He Hn. split; unfold tick_start, tk_game; cbn [tk_session tk_removed]; rewrite ?He, ?Hn.
  - constructor.
  - constructor.
  - done.
  - intros k Hk. set_solver.
Qed.
Lemma spawn_populated s0 s :
  same_course s0 s → gs_Entities (ss_gameState s0) = [] → ss_nextEntityID s0 = 0 →
  Forall started_player (gs_Players (ss_gameState s)) →
  map ds_ID (ms_Doors (gs_Map (ss_gameState s))) = default_doors →
  map cs_ID (ms_Cells (gs_Map (ss_gameState s))) = default_cells →
  populated s0 (spawnNPCPrisonersLocked s).
Proof.
  intros (Ht & Ho & Hph & He & Hn) He0 Hn0 Hp Hd Hc. unfold spawnNPCPrisonersLocked. cbv zeta.
  match goal with |- populated _ (foldl _ _ ?l) => set (rooms := l); assert (length rooms <= 11)%nat as Hrooms end.
  { unfold rooms. apply or_default_few; [apply or_default_few|cbn [length]; lia]; [|apply spawn_rooms_few].
    unfold deterministicNPCPrisonerSpawnRooms. rewrite length_take, length_sort_by.
    pose proof (spawn_rooms_few (gs_Map (ss_gameState s))). lia. }
  clearbody rooms.
  assert (entities_ok (tick_start s)) as Hok by (apply no_entities_ok; congruence).
  destruct (spawn_npcs_entities rooms s Hok) as (H1 & _ & H3 & H4); [lia|].
  destruct (foldl_course rooms s) as (H5 & H6 & H7).
  split; rewrite ?H3, ?H4; [exact Hp|exact Hd|exact Hc|exact H1|congruence|congruence|congruence].
Qed.

Lemma populate_populated s :
  set_up (ss_gameState s) → gs_Entities (ss_gameState s) = [] → ss_nextEntityID s = 0 →
  populated s (populate_session s).
Proof.
  intros Hs He Hn. unfold populate_session. cbv zeta.
  set (s1 := syncGameStatePlayersLocked s).
  assert (same_course s s1 ∧ set_up (ss_gameState s1)) as [C1 H1] by (split; [by split_and!|by apply set_up_sync]).
  clearbody s1. clear Hs. set (s2 := s1 <| ss_gameState ::= _ |>).
  assert (same_course s s2 ∧ set_up (ss_gameState s2)) as [C2 H2].
  { split; [eapply same_course_trans; [exact C1|apply assign_roles_course]|by apply assign_roles_set_up]. }
  clearbody s2. clear s1 C1 H1. set (s3 := assignRandomAbilitiesLocked s2).
  assert (same_course s s3 ∧ set_up (ss_gameState s3)) as [C3 H3].
  { split; [eapply same_course_trans; [exact C2|by split_and!]|by apply set_up_players]. }
  clearbody s3. clear s2 C2 H2. set (s4 := assignCellsLocked s3).
  assert (same_course s s4 ∧ set_up (ss_gameState s4)) as [C4 H4].
  { split; [eapply same_course_trans; [exact C3|apply assign_cells_course]|by apply set_up_assign_cells]. }
  clearbody s4. clear s3 C3 H3. apply spawn_populated.
  - eapply same_course_trans; [exact C4|by split_and!].
  - exact He.
  - exact Hn.
  - exact (map_started _ H4).
  - exact (su_doors _ H4).
  - exact (su_cells _ H4).
Qed.

Lemma match_sound_same s s' :
  ss_gameState s' = ss_gameState s → ss_tickID s' = ss_tickID s → ss_nextEntityID s' = ss_nextEntityID s →
  ss_status s' = ss_status s → match_sound s → match_sound s'.
Proof.
  intros Hg Ht Hn Hst [H1 H2 H3 H4 H5 H6 H7 [E1 E2 E3 E4] H8].
  unfold tick_start, entity_of, tk_game in *. cbn [tk_session tk_removed] in *.
  split; rewrite ?Hg, ?Ht, ?Hst; try done.
  split; unfold tick_start, entity_of, tk_game; cbn [tk_session tk_removed]; rewrite ?Hg, ?Hn; done.
Qed.

Lemma started_player_told p now : started_player p → 0 <= now → afb_TickID (ps_LastActionFeedback p) <= now.
Proof. by intros [_ ->]. Qed.

Lemma map_ids_nonempty (l : list PlayerState) (ids : list PlayerID) id :
  map ps_ID l = ids → id ∈ ids → l ≠ [].
Proof. intros <- Hin ->. by apply not_elem_of_nil in Hin. Qed.

Lemma set_up_reset config g : set_up g → set_up (reset_game config g).
Proof. intros [S1 S2 S3 S4]. split; [exact S1|exact S2|exact S3|exact S4]. Qed.

(** A match that starts is in order. *)
Lemma start_sound config s now :
  lobby config s → ss_players s ≠ ∅ →
  match_sound (start_session config s now) ∧ clock_sound (start_session config s now).
Proof.
  intros Hl Hne. pose proof (lobby_set_up _ _ Hl) as Hs. pose proof (lobby_ids _ _ Hl) as Hids.
  destruct (start_session_started config s now Hids) as [_ Est Epl _ Egame _ _ _ _ _].
  revert Est Epl Egame. unfold start_session. cbv zeta.
  set (s1 := reset_session config s now).
  assert (set_up (ss_gameState s1)) as H1 by exact (set_up_reset config _ Hs).
  pose proof (populate_populated s1 H1 eq_refl eq_refl) as Hpop.
  pose proof (populate_only_game s1) as (game & next & bribes & Honly).
  assert (ss_tickID (populate_session s1) = 0) as Ht by (rewrite Honly; reflexivity).
  assert (gs_TickID (ss_gameState s1) = 0 ∧ gs_GameOver (ss_gameState s1) = None) as [Hg0 Hover]
    by (split; [reflexivity|exact (su_over _ H1)]).
  clear Honly. revert Hpop Ht. generalize (populate_session s1). intros s2 [P1 P2 P3 P4 P5 P6 P7] Ht Est Epl Egame.
  match goal with |- match_sound ?s' ∧ _ => set (s3 := s') in * end.
  assert (game_ids s2 = session_ids s) as Hg2.
  { transitivity (session_ids s3); [exact Egame|]. exact (f_equal (λ m, sort_strings (elements (dom m))) Epl). }
  destruct (session_ids_spec s) as (Hnd & _ & Hin). unfold game_ids in Hg2.
  split; cycle 1.
  { injection P7 as P7 P8. unfold clock_sound.
    change (0 <= ph_EndsTick (gs_Phase (ss_gameState s2)) ∧ 0 <= gs_CycleCount (ss_gameState s2)).
    rewrite P7, P8. split; [apply Z.mod_pos_bound; lia|exact (Z.le_refl 0)]. }
  apply (match_sound_same s2); try reflexivity. rewrite Hg0 in P5. rewrite Hover in P6.
  destruct default_map_ids as [Hdoors Hcells]. split.
  - by rewrite Ht.
  - eapply Forall_impl; [exact P1|]. by intros p [? _].
  - eapply Forall_impl; [exact P1|]. intros p Hp. apply started_player_told; [done|lia].
  - apply map_choose in Hne as (id & e & Hid). apply (map_ids_nonempty _ _ id Hg2), Hin. exact (ex_intro _ e Hid).
  - rewrite Hg2. exact Hnd.
  - rewrite P2. exact Hdoors.
  - rewrite P3. exact Hcells.
  - exact P4.
  - intros _. exact P6.
Qed.

(** ** Connections and commands *)

(** A player who comes or goes, and the others. *)
Definition reconnected (id : PlayerID) (p p' : PlayerState) : Prop :=
  p' = p ∨ ps_ID p = id ∧ ∃ connected velocity, p' = p <| ps_Connected := connected |> <| ps_Velocity := velocity |>.

Lemma reconnected_ID id p p' : reconnected id p p' → ps_ID p' = ps_ID p.
Proof. by intros [->|(_ & c & v & ->)]. Qed.
Lemma reconnected_steady id p p' : reconnected id p p' → steady 0 p p'.
Proof.
  intros [->|(_ & c & v & ->)]; apply same_vitals_steady; [by split_and!|]. by destruct p.
Qed.
Lemma reconnected_alter id l i f :
  (∀ p, reconnected (ps_ID p) p (f p)) → (∀ p, l !! i = Some p → ps_ID p = id) →
  Forall2 (reconnected id) l (alter f i l).
Proof.
  intros Hf Hi. apply Forall2_same_length_lookup. split; [by rewrite length_alter|].
  intros j p p' Hp Hp'. destruct (decide (j = i)) as [->|Hj].
  - rewrite list_lookup_alter_eq, Hp in Hp'. injection Hp' as <-. rewrite <-(Hi _ Hp). apply Hf.
  - rewrite list_lookup_alter_ne in Hp' by done. left. congruence.
Qed.

Lemma connected_players s id b s' :
  setPlayerConnectedLocked s id b = Some s' →
  ∃ l, s' = s <| ss_gameState ::= λ g, g <| gs_Players := l |> |> ∧
    Forall2 (reconnected id) (gs_Players (ss_gameState s)) l.
Proof.
  unfold setPlayerConnectedLocked. case_bool_decide; [done|].
  intros (i & Hi & [= <-])%bind_Some. eexists. split; [reflexivity|]. apply reconnected_alter.
  - intros p. right. split; [done|]. destruct b; [exists true, (ps_Velocity p)|exists false, zero_Vector2]; by destruct p.
  - intros p Hp. apply find_idx_Some in Hi as (q & Hq & Hid & _). bool_props. congruence.
Qed.
Lemma connected_succeeds s id b :
  id ≠ "" → id ∈ game_ids s → is_Some (setPlayerConnectedLocked s id b).
Proof.
  intros Hne (p & -> & Hin)%list_elem_of_fmap. unfold setPlayerConnectedLocked.
  rewrite bool_decide_eq_false_2 by done. destruct (find_idx _ _) as [i|] eqn:Hi; [by eexists|].
  rewrite find_idx_None in Hi. specialize (Hi _ Hin). cbv beta in Hi. bool_props. done.
Qed.

Lemma connect_session_players s id b :
  id ≠ "" → id ∈ game_ids s →
  ∃ l, (connect_session s id b).1 = touch_last_processed s id <| ss_gameState ::= λ g, g <| gs_Players := l |> |> ∧
    Forall2 (reconnected id) (gs_Players (ss_gameState s)) l.
Proof.
  intros Hne Hin. unfold connect_session. cbv zeta.
  assert (gs_Players (ss_gameState (touch_last_processed s id)) = gs_Players (ss_gameState s)) as Hp
    by (by rewrite set_up_touch).
  assert (id ∈ game_ids (touch_last_processed s id)) as Hin' by (unfold game_ids; by rewrite Hp).
  destruct (connected_succeeds _ id b Hne Hin') as [s' Hs]. rewrite Hs. cbn [fst].
  apply connected_players in Hs as (l & -> & Hl). exists l. split; [done|]. by rewrite <-Hp.
Qed.

Lemma reconnected_sound s id l :
  Forall2 (reconnected id) (gs_Players (ss_gameState s)) l → match_sound s →
  match_sound (s <| ss_gameState ::= λ g, g <| gs_Players := l |> |>).
Proof.
  intros Hl [H1 H2 H3 H4 H5 H6 H7 [E1 E2 E3 E4] H8].
  assert (map ps_ID l = map ps_ID (gs_Players (ss_gameState s))) as Hids.
  { clear -Hl. induction Hl as [|p q l1 l2 Hpq _ IH]; [done|]. cbn [map]. by rewrite IH, (reconnected_ID _ _ _ Hpq). }
  split; cbn; try (assumption || done).
  - clear -Hl H2. induction Hl as [|p q l1 l2 Hpq _ IH]; [constructor|]. apply Forall_cons in H2 as [Hp H2].
    constructor; [|by apply IH]. by apply (reconnected_steady _ _ _ Hpq).
  - clear -Hl H3. induction Hl as [|p q l1 l2 Hpq _ IH]; [constructor|]. apply Forall_cons in H3 as [Hp H3].
    constructor; [|by apply IH]. by destruct Hpq as [->|(_ & c & v & ->)].
  - intros ->. apply Forall2_nil_inv_r in Hl. done.
  - rewrite Hids. exact H5.
Qed.
Lemma reconnected_mirrors D copy g id l :
  Forall2 (reconnected id) (gs_Players g) l → mirrors D copy g →
  mirrors (D ∪ {[id]}) copy (g <| gs_Players := l |>).
Proof.
  intros Hl []. split; try assumption. intros k Hk. rewrite mi_players by set_solver. f_equal.
  assert (Forall2 (λ p q, ps_ID q = ps_ID p ∧ (ps_ID p ≠ id → q = p)) (gs_Players g) l) as Hl'.
  { eapply Forall2_impl; [exact Hl|]. intros p q Hpq. split; [by eapply reconnected_ID|].
    intros Hne. by destruct Hpq as [|[]]. }
  pose proof (by_key_Forall2 ps_ID (λ p q, ps_ID p ≠ id → q = p) _ _ k Hl') as Hk2.
  unfold players_by_id. destruct (by_key ps_ID (gs_Players g) !! k) as [p|] eqn:Hp.
  - apply by_key_Some in Hp as [_ Hp]. change (Some p = by_key ps_ID l !! k).
    destruct (by_key ps_ID l !! k) as [q|]; inversion Hk2 as [? ? Hpq|]. f_equal. symmetry. apply Hpq. set_solver.
  - change (None = by_key ps_ID l !! k). by inversion Hk2.
Qed.

Lemma submit_keeps matchID s now id command :
  let s' := (submit_to_session matchID s now id command).1 in
  ss_gameState s' = ss_gameState s ∧ ss_tickID s' = ss_tickID s ∧
  ss_nextEntityID s' = ss_nextEntityID s ∧ ss_status s' = ss_status s.
Proof.
  unfold submit_to_session. cbv zeta. destruct (_ ≟ MatchStatusRunning); cbn [negb]; [|done].
  destruct (bool_decide (is_Some _)); cbn [negb]; [|done]. destruct (bool_decide (_ ∈ _)); [done|].
  destruct (_ <=? _); [done|]. by destruct (computeScheduledTick _ _ _).
Qed.

Lemma touch_sound s id : match_sound s → match_sound (touch_last_processed s id).
Proof. unfold touch_last_processed. destruct (_ !! id); [done|]. by apply match_sound_same. Qed.

Lemma full_state store s :
  SnapshotStore.state (SnapshotStore.ApplySnapshot store (makeFullSnapshotLocked s)).1 = Some (ss_gameState s).
Proof. reflexivity. Qed.

(** ** Following a match *)

Section playing.
Context `{Hdec : !PayloadDecoder} (config : ServerConfig.Config).

(** A running match, the store of a client that follows it, and the players the client may
    not be up to date about.  The client takes a full snapshot when it likes and the delta of
    every tick; a delta that comes again, or late, changes nothing. *)
Inductive playing : matchSession → SnapshotStore.t → gset PlayerID → Prop :=
  | playing_start session now :
      lobby config session → ss_players session ≠ ∅ →
      let session := start_session config session now in
      playing session
        (SnapshotStore.ApplySnapshot SnapshotStore.NewSnapshotStore (makeFullSnapshotLocked session)).1 ∅
  | playing_resync session store D :
      playing session store D →
      playing session (SnapshotStore.ApplySnapshot store (makeFullSnapshotLocked session)).1 ∅
  | playing_again session store D snapshot :
      playing session store D →
      sn_Kind snapshot = SnapshotKindDelta → sn_TickID snapshot <= ss_tickID session →
      playing session (SnapshotStore.ApplySnapshot store snapshot).1 D
  | playing_submit session store D matchID now playerID command :
      playing session store D →
      playing (submit_to_session matchID session now playerID command).1 store D
  | playing_connect session store D playerID connected :
      playing session store D →
      playerID ≠ "" → playerID ∈ game_ids session →
      playing (connect_session session playerID connected).1 store (D ∪ {[playerID]})
  | playing_tick session store D timestamp session' outcome snapshot :
      playing session store D →
      ss_status session = MatchStatusRunning → tick_room session →
      tick_session config session timestamp = Some (session', outcome) →
      latest_snapshot session' = Some snapshot →
      playing session' (SnapshotStore.ApplySnapshot store snapshot).1 (D ∪ unseen config session session').

Record followed (session : matchSession) (store : SnapshotStore.t) (D : gset PlayerID) : Prop := {
  fo_sound : match_sound session;
  fo_clock : clock_sound session;
  fo_copy : ∃ copy, SnapshotStore.state store = Some copy ∧ mirrors D copy (ss_gameState session);
}.

Lemma followed_same session session' store D :
  ss_gameState session' = ss_gameState session → ss_tickID session' = ss_tickID session →
  ss_nextEntityID session' = ss_nextEntityID session → ss_status session' = ss_status session →
  followed session store D → followed session' store D.
Proof.
  intros Hg Ht Hn Hst [H1 H2 (copy & H3 & H4)]. unfold clock_sound in H2.
  split; [by apply (match_sound_same session)|by unfold clock_sound; rewrite Hg|].
  exists copy. by rewrite Hg.
Qed.
Lemma followed_tick session store D timestamp session' outcome :
  followed session store D → ss_status session = MatchStatusRunning → tick_room session →
  tick_session config session timestamp = Some (session', outcome) →
  ss_tickID session' = ss_tickID session + 1 ∧
  ∃ snapshot, latest_snapshot session' = Some snapshot ∧
    (SnapshotStore.ApplySnapshot store snapshot).2 = true ∧
    followed session' (SnapshotStore.ApplySnapshot store snapshot).1 (D ∪ unseen config session session').
Proof.
  intros [Hs Hcl (copy & Hc & Hm)] Hrun Hroom Htick.
  destruct store as [st meta]. cbn [SnapshotStore.state] in Hc. subst st.
  destruct (tick_step config session timestamp session' outcome D copy meta Hs Hroom Hrun Htick Hm)
    as (Hs' & Ht & snapshot & Hsnap & copy' & meta' & Ha & Hm').
  split; [done|]. exists snapshot. rewrite Ha. split; [done|]. split; [done|].
  split; [done|exact (tick_clock config session timestamp session' outcome Hs Hroom Hcl Htick)|by exists copy'].
Qed.

Lemma playing_followed session store D : playing session store D → followed session store D.
Proof.
  induction 1 as [s now Hl Hne|s c D _ [Hs Hcl _]|s c D snap _ [Hs Hcl (copy & Hc & Hm)] Hk Ht
    |s c D id now p cmd _ Hf|s c D p b _ [Hs Hcl (copy & Hc & Hm)] Hne Hin|s c D ts s' out snap _ Hf Hrun Hroom Htick Hsnap].
  - destruct (start_sound config s now Hl Hne) as [Hs Hcl]. split; [exact Hs|exact Hcl|].
    eexists. split; [apply full_state|apply mirrors_full].
  - split; [done|done|]. eexists. split; [apply full_state|apply mirrors_full].
  - split; [done|done|]. exists copy. split; [|done]. unfold SnapshotStore.ApplySnapshot. rewrite Hk. cbn.
    destruct (sn_Delta snap); [|done]. rewrite Hc.
    assert ((sn_TickID snap <=? gs_TickID copy) = true) as ->; [|done].
    apply Z.leb_le. by rewrite (mi_tick _ _ _ Hm), (so_tick _ Hs).
  - destruct (submit_keeps id s now p cmd) as (Hg & Ht & Hn & Hst). by apply (followed_same s).
  - destruct (connect_session_players s p b Hne Hin) as (l & -> & Hl).
    rewrite <-(set_up_touch s p) in Hl. split; [by apply (reconnected_sound _ p), touch_sound| |].
    + destruct Hcl as [H1 H2]. rewrite <-(set_up_touch s p) in H1, H2. split; [exact H1|exact H2].
    + exists copy. split; [done|]. apply reconnected_mirrors; [done|]. by rewrite set_up_touch.
  - destruct (followed_tick s c D ts s' out Hf Hrun Hroom Htick) as (_ & snap' & Hsnap' & _ & Hf').
    by assert (snap' = snap) as <- by congruence.
Qed.

(** C2: A client that takes a full snapshot of a running match and then the delta of every
    tick holds the state of the match: the tick, the phase, the map, every door, every cell and
    every entity as the server has them, and every player except those who came or went
    since the full snapshot and, when a day began since, the warden and the deputies.
    Repeated and late deltas and commands in between make no difference. *)
Theorem followers_mirror session store D :
  playing session store D →
  ∃ copy, SnapshotStore.CurrentState store = (copy, true) ∧ mirrors D copy (ss_gameState session).
Proof.
  intros [_ _ (copy & Hc & Hm)]%playing_followed. exists copy. split; [|done].
  unfold SnapshotStore.CurrentState. by rewrite Hc.
Qed.

Lemma playing_next session store D timestamp :
  playing session store D → ss_status session = MatchStatusRunning →
  tick_room session → clock_room config session →
  ∃ session' outcome snapshot, tick_session config session timestamp = Some (session', outcome) ∧
    ss_tickID session' = ss_tickID session + 1 ∧ latest_snapshot session' = Some snapshot ∧
    (SnapshotStore.ApplySnapshot store snapshot).2 = true ∧
    playing session' (SnapshotStore.ApplySnapshot store snapshot).1 (D ∪ unseen config session session').
Proof.
  intros Hp Hrun Hroom Hclock. destruct (playing_followed _ _ _ Hp) as [Hs Hcl _].
  destruct (tick_total config session timestamp Hs Hroom Hcl Hclock) as (session' & outcome & Ht).
  destruct (followed_tick session store D timestamp session' outcome) as (Htick & snapshot & Hsnap & Ha & _);
    [by apply playing_followed|done..|].
  exists session', outcome, snapshot. split; [done|]. split; [done|]. split; [done|]. split; [done|].
  by eapply playing_tick.
Qed.

(** C13: A running match goes on: as long as its counters have room, the next round of the
    loop returns, the tick counts up by one, the round leaves a delta of the new tick in the
    history, and every client that follows takes it. *)
Theorem playing_goes_on session store D timestamp
    (Hp : playing session store D) (Hrun : ss_status session = MatchStatusRunning)
    (Hroom : tick_room session) (Hclock : clock_room config session) :
  ∃ session' outcome snapshot, tick_session config session timestamp = Some (session', outcome) ∧
    ss_tickID session' = ss_tickID session + 1 ∧ latest_snapshot session' = Some snapshot ∧
    (SnapshotStore.ApplySnapshot store snapshot).2 = true ∧
    playing session' (SnapshotStore.ApplySnapshot store snapshot).1 (D ∪ unseen config session session').
Proof. by apply playing_next. Qed.
End playing.

(** ** One round of the match loop *)

Lemma run_tick_matches `{Hdec : !PayloadDecoder} m id timestamp s s' outcome :
  mg_matches m !! id = Some s → ss_status s = MatchStatusRunning →
  tick_session (mg_config m) s timestamp = Some (s', outcome) →
  ∃ m', run_tick m id timestamp = Some m' ∧ mg_matches m' = <[id := s']> (mg_matches m).
Proof.
  intros Hs Hrun Ht. unfold run_tick. rewrite Hs. cbn [mbind option_bind].
  rewrite (bool_decide_eq_true_2 _ Hrun). cbn [negb]. rewrite Ht. cbn [mbind option_bind].
  eexists. split; [reflexivity|]. by destruct outcome.
Qed.

(** C3: One round of the match loop on a running match whose state is in order and whose
    counters have room: the round returns; what it does to the manager is a sequence of the
    steps of which [reachable_matches] and [matches_move_on] speak, so both hold of every
    history with real ticks; the match's tick counts up by one; its state is in order again;
    and no other match changes. *)
Theorem run_tick_steps `{Hdec : !PayloadDecoder} m id timestamp s
    (Hs : mg_matches m !! id = Some s) (Hrun : ss_status s = MatchStatusRunning)
    (Hsound : match_sound s) (Hclock : clock_sound s)
    (Hroom : tick_room s) (Hticks : clock_room (mg_config m) s) :
  ∃ m', run_tick m id timestamp = Some m' ∧ rtc manager_step m m' ∧
    (∃ s', mg_matches m' !! id = Some s' ∧ ss_tickID s' = ss_tickID s + 1 ∧
       match_sound s' ∧ clock_sound s') ∧
    (∀ id', id' ≠ id → mg_matches m' !! id' = mg_matches m !! id').
Proof.
  destruct (tick_total (mg_config m) s timestamp Hsound Hroom Hclock Hticks) as (s' & outcome & Ht).
  destruct (run_tick_matches m id timestamp s s' outcome Hs Hrun Ht) as (m' & Hm' & Hall).
  exists m'. split; [exact Hm'|]. split.
  { apply (run_tick_rounds m id timestamp m'); [|exact Hm']. intros s0 Hs0. by assert (s0 = s) as -> by congruence. }
  rewrite Hall. split; [|intros id' Hid; by apply lookup_insert_ne].
  exists s'. rewrite lookup_insert_eq.
  destruct (tick_step (mg_config m) s timestamp s' outcome ∅ (ss_gameState s) None Hsound Hroom Hrun Ht
    (mirrors_full _ _)) as (Hsound' & Htick & _).
  split; [done|]. split; [done|]. split; [done|].
  exact (tick_clock (mg_config m) s timestamp s' outcome Hsound Hroom Hclock Ht).
Qed.

(** ** A match of two, and its first tick *)

Definition demo_server : ServerConfig.Config := mg_config demo_lobby.
Definition demo_waiting : matchSession :=
  join_session (join_session (new_session demo_server demo_id 100) "ann" "Ann" 110) "bob" "Bob" 120.
Definition demo_started : matchSession := start_session demo_server demo_waiting 130.
Definition demo_store : SnapshotStore.t :=
  (SnapshotStore.ApplySnapshot SnapshotStore.NewSnapshotStore (makeFullSnapshotLocked demo_started)).1.

Lemma demo_playing : playing (Hdec := no_payloads) demo_server demo_started demo_store ∅.
Proof.
  apply (playing_start (Hdec := no_payloads) demo_server demo_waiting 130).
  - apply lobby_join, lobby_join, lobby_new.
  - intros H. apply (f_equal size) in H. vm_compute in H. discriminate.
Qed.
Lemma demo_running : ss_status demo_started = MatchStatusRunning.
Proof. by vm_compute. Qed.
Lemma demo_room : tick_room demo_started.
Proof. split; [by vm_compute|split; by vm_compute]. Qed.
Lemma demo_clock : clock_room demo_server demo_started.
Proof. split; [|split; by vm_compute]. unfold Phase.config_wf, is_u64, is_u8. vm_compute. by split_and!. Qed.

Lemma playing_goes_on_witness : ∃ session' outcome,
  tick_session (Hdec := no_payloads) demo_server demo_started 140 = Some (session', outcome) ∧
  ss_tickID session' = ss_tickID demo_started + 1.
Proof.
  destruct (playing_goes_on (Hdec := no_payloads) demo_server demo_started demo_store ∅ 140
    demo_playing demo_running demo_room demo_clock) as (session' & outcome & _ & H1 & H2 & _).
  exact (ex_intro _ session' (ex_intro _ outcome (conj H1 H2))).
Defined.

Lemma followers_mirror_witness : ∃ session store D copy,
  ss_tickID session = ss_tickID demo_started + 1 ∧
  SnapshotStore.CurrentState store = (copy, true) ∧ mirrors D copy (ss_gameState session).
Proof.
  destruct (playing_next (Hdec := no_payloads) demo_server demo_started demo_store ∅ 140
    demo_playing demo_running demo_room demo_clock) as (session' & outcome & snapshot & _ & Ht & _ & _ & Hp).
  destruct (followers_mirror (Hdec := no_payloads) demo_server _ _ _ Hp) as (copy & H1 & H2).
  exact (ex_intro _ _ (ex_intro _ _ (ex_intro _ _ (ex_intro _ copy (conj Ht (conj H1 H2)))))).
Defined.

(** The manager of the demonstration, once its match has started. *)
Lemma demo_match :
  mg_matches (StartMatch demo_lobby 130 demo_id).1 !! demo_id = Some demo_started ∧
  mg_config (StartMatch demo_lobby 130 demo_id).1 = demo_server.
Proof. split; by vm_compute. Qed.

Lemma run_tick_steps_witness : ∃ m',
  run_tick (Hdec := no_payloads) (StartMatch demo_lobby 130 demo_id).1 demo_id 140 = Some m' ∧
  rtc (manager_step (Hdec := no_payloads)) (StartMatch demo_lobby 130 demo_id).1 m'.
Proof.
  destruct demo_match as [Hs Hc].
  destruct (playing_followed (Hdec := no_payloads) _ _ _ _ demo_playing) as [Hsound Hclock _].
  pose proof demo_clock as Hticks. rewrite <-Hc in Hticks.
  destruct (run_tick_steps (Hdec := no_payloads) _ demo_id 140 _ Hs demo_running Hsound Hclock demo_room Hticks)
    as (m' & H1 & H2 & _).
  exact (ex_intro _ m' (conj H1 H2)).
Defined.
