(* ===== verification/Auth.v ===== *)
(** * Session tokens

    [internal/server/auth/token.go]: the server signs the claims of a session with HMAC-SHA256
    and checks the tokens that clients present.  A token is
    [v1.<payload>.<signature>], the last two in unpadded URL base64.

    Base64 and [strings.Split] are modelled; HMAC-SHA256 and the JSON of the claims are the
    class [TokenPrimitives].  The clock of the service is an argument, in seconds. *)

From S2P Require Import Prelude GoStrings.
From Stdlib Require Import Ascii.

#[local] Open Scope Z_scope.

(** ** Unpadded URL base64 *)

Module Base64.

Definition alphabet : list ascii :=
  String.list_ascii_of_string "ABCDEFGHIJKLMNOPQRSTUVWXYZabcdefghijklmnopqrstuvwxyz0123456789-_".

Definition char_of (n : Z) : ascii := default "A"%char (alphabet !! Z.to_nat n).

Definition value_of (c : ascii) : option Z := Z.of_nat <$> find_idx (λ d, bool_decide (d = c)) alphabet.

(** Three bytes become four digits; one byte two, and two bytes three. *)
Fixpoint digits_of (bytes : list Z) : list Z :=
  match bytes with
  | a :: b :: c :: bytes =>
      a / 4 :: (a mod 4 * 16 + b / 16) :: (b mod 16 * 4 + c / 64) :: c mod 64 :: digits_of bytes
  | [a; b] => [a / 4; a mod 4 * 16 + b / 16; b mod 16 * 4]
  | [a] => [a / 4; a mod 4 * 16]
  | [] => []
  end.

(** What is left over in the last digit is not looked at; one digit alone is an error. *)
Fixpoint bytes_of (digits : list Z) : option (list Z) :=
  match digits with
  | p :: q :: r :: s :: digits =>
      bytes ← bytes_of digits;
      Some (p * 4 + q / 16 :: q mod 16 * 16 + r / 4 :: r mod 4 * 64 + s :: bytes)
  | [p; q; r] => Some [p * 4 + q / 16; q mod 16 * 16 + r / 4]
  | [p; q] => Some [p * 4 + q / 16]
  | [_] => None
  | [] => Some []
  end.

Definition byte_values (s : string) : list Z := (λ c, Z.of_N (N_of_ascii c)) <$> String.list_ascii_of_string s.
Definition string_of_bytes (bytes : list Z) : string :=
  String.string_of_list_ascii ((λ b, ascii_of_N (Z.to_N b)) <$> bytes).

(** [base64.RawURLEncoding.EncodeToString] *)
Definition EncodeToString (s : string) : string :=
  String.string_of_list_ascii (char_of <$> digits_of (byte_values s)).

Definition line_break (c : ascii) : bool := bool_decide (c = ascii_of_nat 10 ∨ c = ascii_of_nat 13).

(** [base64.RawURLEncoding.DecodeString]: line breaks are skipped. *)
Definition DecodeString (s : string) : option string :=
  digits ← mapM value_of (filter (λ c, negb (line_break c) = true) (String.list_ascii_of_string s));
  string_of_bytes <$> bytes_of digits.

(** *** Decoding undoes encoding *)

Lemma digits_range bytes : Forall is_u8 bytes → Forall (λ d, 0 <= d < 64) (digits_of bytes).
Proof.
  revert bytes. fix IH 1. intros [|a [|b [|c bytes]]]; intros H; unfold is_u8 in *;
    rewrite ?Forall_cons in H; cbn [digits_of]; rewrite ?Forall_cons, ?Forall_nil; [done|..];
    destruct_and?; split_and?; try done; try (Z.to_euclidean_division_equations; lia).
  by apply IH.
Qed.

Lemma bytes_of_digits_of bytes : Forall is_u8 bytes → bytes_of (digits_of bytes) = Some bytes.
Proof.
  revert bytes. fix IH 1. intros [|a [|b [|c bytes]]]; intros H; unfold is_u8 in *;
    rewrite ?Forall_cons in H; cbn [digits_of bytes_of]; [done|..]; destruct_and?.
  - do 2 f_equal. Z.to_euclidean_division_equations; lia.
  - do 2 f_equal; [|f_equal]; Z.to_euclidean_division_equations; lia.
  - rewrite IH by done. cbn. do 2 f_equal; [|f_equal; [|f_equal]]; Z.to_euclidean_division_equations; lia.
Qed.

Lemma value_of_char n : 0 <= n < 64 → value_of (char_of n) = Some n ∧ line_break (char_of n) = false.
Proof.
  intros Hn. assert (Forall (λ n, value_of (char_of n) = Some n ∧ line_break (char_of n) = false)
    (Z.of_nat <$> seq 0 64)) as H by (apply (bool_decide_unpack _); by vm_compute).
  rewrite Forall_forall in H. apply H, list_elem_of_fmap. exists (Z.to_nat n).
  split; [lia|apply elem_of_seq; lia].
Qed.

Lemma byte_values_range s : Forall is_u8 (byte_values s).
Proof.
  apply Forall_fmap, Forall_forall. intros c _. unfold is_u8. cbn.
  pose proof (N_ascii_bounded c). lia.
Qed.

Lemma string_of_byte_values s : string_of_bytes (byte_values s) = s.
Proof.
  unfold string_of_bytes, byte_values. rewrite <-list_fmap_compose.
  rewrite <-(String.string_of_list_ascii_of_string s) at 2. f_equal.
  rewrite <-(list_fmap_id (String.list_ascii_of_string s)) at 2. apply list_fmap_ext. intros i c _. cbn.
  by rewrite N2Z.id, ascii_N_embedding.
Qed.

Lemma filter_all {A} (P : A → Prop) `{!∀ x, Decision (P x)} (l : list A) : Forall P l → filter P l = l.
Proof. induction 1; [done|]. rewrite filter_cons_True by done. by f_equal. Qed.

Lemma DecodeString_EncodeToString s : DecodeString (EncodeToString s) = Some s.
Proof.
  unfold DecodeString, EncodeToString. rewrite String.list_ascii_of_string_of_list_ascii.
  pose proof (digits_range _ (byte_values_range s)) as Hd.
  assert (filter (λ c, negb (line_break c) = true) (char_of <$> digits_of (byte_values s)) =
    char_of <$> digits_of (byte_values s)) as ->.
  { apply filter_all, Forall_fmap. refine (Forall_impl _ _ _ Hd _). intros n Hn. cbn.
    by rewrite (proj2 (value_of_char n Hn)). }
  rewrite mapM_fmap_Forall_Some by (refine (Forall_impl _ _ _ Hd _); intros n Hn; apply (value_of_char n Hn)).
  cbn. by rewrite (bytes_of_digits_of _ (byte_values_range s)); cbn; rewrite string_of_byte_values.
Qed.

End Base64.

(** ** [strings.Split] by one byte *)

Fixpoint Split (c : ascii) (s : string) : list string :=
  match s with
  | EmptyString => [""]
  | String d s =>
      if bool_decide (d = c) then "" :: Split c s
      else match Split c s with part :: parts => String d part :: parts | [] => [String d ""] end
  end.

(** What has no such byte is one part, and the parts joined again are the string. *)
Definition without (c : ascii) (s : string) : Prop := c ∉ String.list_ascii_of_string s.

Lemma Split_cons c d s : Split c (String d s) =
  if bool_decide (d = c) then "" :: Split c s
  else match Split c s with part :: parts => String d part :: parts | [] => [String d ""] end.
Proof. done. Qed.

Lemma Split_without c s : without c s → Split c s = [s].
Proof.
  unfold without. induction s as [|d s IH]; [done|]. rewrite Split_cons. cbn [String.list_ascii_of_string].
  rewrite not_elem_of_cons. intros [Hd Hs].
  rewrite bool_decide_false by congruence. by rewrite (IH Hs).
Qed.

Lemma Split_app c a s : without c a → Split c (a +:+ String c s) = a :: Split c s.
Proof.
  unfold without. induction a as [|d a IH].
  - intros _. change ("" +:+ String c s) with (String c s). rewrite Split_cons. by rewrite bool_decide_true.
  - change (String d a +:+ String c s) with (String d (a +:+ String c s)). rewrite Split_cons.
    cbn [String.list_ascii_of_string]. rewrite not_elem_of_cons. intros [Hd Ha].
    rewrite bool_decide_false by congruence. by rewrite (IH Ha).
Qed.

Lemma Split_inv c s part parts : Split c s = part :: parts →
  without c part ∧
  (parts = [] ∧ s = part ∨ ∃ rest, s = part +:+ String c rest ∧ Split c rest = parts).
Proof.
  revert part parts. induction s as [|d s IH]; intros part parts.
  - intros [= <- <-]. split; [apply not_elem_of_nil|by left].
  - rewrite Split_cons. case_bool_decide as Hd.
    { subst d. intros [= <- <-]. split; [apply not_elem_of_nil|]. right. by exists s. }
    destruct (Split c s) as [|p ps] eqn:Hs.
    { intros [= <- <-]. destruct s as [|e s]; [|exfalso; revert Hs; cbn; repeat case_match; done]. done. }
    intros [= <- <-]. destruct (IH p ps eq_refl) as [Hp Hrest]. split.
    { unfold without. cbn. apply not_elem_of_cons. split; [congruence|exact Hp]. }
    destruct Hrest as [[-> ->]|(rest & -> & Hrest)]; [by left|]. right. by exists rest.
Qed.

Lemma without_app c a b : without c a → without c b → without c (a +:+ b).
Proof.
  unfold without. intros Ha Hb. induction a as [|d a IH]; [done|]. cbn in Ha |- *.
  apply not_elem_of_cons in Ha as [Hd Ha]. apply not_elem_of_cons. split; [done|]. by apply IH.
Qed.

Lemma EncodeToString_without s : without "."%char (Base64.EncodeToString s).
Proof.
  unfold without, Base64.EncodeToString. rewrite String.list_ascii_of_string_of_list_ascii.
  intros (n & Heq & Hn)%list_elem_of_fmap.
  pose proof (Base64.digits_range _ (Base64.byte_values_range s)) as Hd. rewrite Forall_forall in Hd.
  destruct (Base64.value_of_char n (Hd n Hn)) as [Hv _]. rewrite <-Heq in Hv. by vm_compute in Hv.
Qed.

(** ** The service *)

Module Auth.

Definition tokenVersion : string := "v1".

Abbreviation Scope := string (only parsing).
Definition ScopeGameplay : Scope := "gameplay".
Definition ScopeLobby : Scope := "lobby_read".
Definition ScopeAdmin : Scope := "admin".

Inductive auth_error :=
  | ErrSecretRequired
  | ErrInvalidToken
  | ErrInvalidSignature
  | ErrInvalidClaims
  | ErrTokenExpired
  | ErrTokenNotYetValid
  | ErrUnsupportedFormat
  | ErrMarshal.

Record Claims := mkClaims {
  cl_Subject : string;
  cl_MatchID : string;
  cl_SessionKind : string;
  cl_Scope : Scope;
  cl_IssuedAt : Z;
  cl_ExpiresAt : Z;
}.
#[export] Instance Claims_eta : RecordEta Claims := λ r,
  mkClaims (cl_Subject r) (cl_MatchID r) (cl_SessionKind r) (cl_Scope r) (cl_IssuedAt r) (cl_ExpiresAt r).
#[export] Instance Claims_eq_dec : EqDecision Claims.
Proof. solve_decision. Defined.

Definition Allows (c : Claims) (scope : Scope) : bool :=
  if cl_Scope c ≟ ScopeAdmin then true
  else if (scope ≟ ScopeLobby) && (cl_Scope c ≟ ScopeGameplay) then true
  else cl_Scope c ≟ scope.

(** HMAC-SHA256, and the JSON of the claims. *)
Class TokenPrimitives := {
  hmac_sha256 : string → string → string;
  marshal_claims : Claims → option string;
  unmarshal_claims : string → option Claims;
}.

(** The clock skew is in nanoseconds. *)
Record TokenService := mkTokens {
  ts_secret : string;
  ts_clockSkew : Z;
}.

Definition newTokenService (secret : string) (clockSkew : Z) : auth_error + TokenService :=
  let trimmedSecret := TrimSpace secret in
  if trimmedSecret ≟ "" then inl ErrSecretRequired
  else
    let clockSkew := if clockSkew <? 0 then 0 else clockSkew in
    inr (mkTokens trimmedSecret clockSkew).

Definition NewTokenService := newTokenService.

(** Two's complement at 64 bits. *)
Definition int64 (x : Z) : Z := (x + 2 ^ 63) mod 2 ^ 64 - 2 ^ 63.
Definition is_int64 (x : Z) : Prop := - 2 ^ 63 <= x < 2 ^ 63.

Definition skewSeconds (s : TokenService) : Z := ts_clockSkew s ÷ 10 ^ 9.

Section tokens.
Context `{!TokenPrimitives}.

Definition computeSignature (s : TokenService) (signingInput : string) : string :=
  hmac_sha256 (ts_secret s) signingInput.

Definition normalize_claims (now : Z) (claims : Claims) : Claims :=
  if cl_IssuedAt claims <=? 0 then claims <| cl_IssuedAt := now |> else claims.

Definition Sign (s : TokenService) (now : Z) (claims : Claims) : auth_error + string :=
  if ts_secret s ≟ "" then inl ErrSecretRequired
  else
    let normalized := normalize_claims now claims in
    if (cl_ExpiresAt normalized <=? 0) || (cl_ExpiresAt normalized <=? cl_IssuedAt normalized)
    then inl ErrInvalidClaims
    else match marshal_claims normalized with
    | None => inl ErrMarshal
    | Some payload =>
        let payloadB64 := Base64.EncodeToString payload in
        let signingInput := tokenVersion +:+ "." +:+ payloadB64 in
        let signature := computeSignature s signingInput in
        let signatureB64 := Base64.EncodeToString signature in
        inr (signingInput +:+ "." +:+ signatureB64)
    end.

(** The claims of a payload, once its signature is right. *)
Definition check_claims (s : TokenService) (now : Z) (claims : Claims) : auth_error + Claims :=
  if (cl_ExpiresAt claims <=? 0) || (cl_ExpiresAt claims <=? cl_IssuedAt claims) then inl ErrInvalidClaims
  else if (0 <? cl_IssuedAt claims) && (int64 (now + skewSeconds s) <? cl_IssuedAt claims) then inl ErrTokenNotYetValid
  else if cl_ExpiresAt claims <=? int64 (now - skewSeconds s) then inl ErrTokenExpired
  else inr claims.

Definition Verify (s : TokenService) (now : Z) (token : string) : auth_error + Claims :=
  if ts_secret s ≟ "" then inl ErrSecretRequired
  else match Split "."%char token with
  | [version; payloadB64; signatureB64] =>
      if version ≠? tokenVersion then inl ErrUnsupportedFormat
      else
        let signingInput := version +:+ "." +:+ payloadB64 in
        match Base64.DecodeString signatureB64 with
        | None => inl ErrInvalidToken
        | Some givenSignature =>
            let expectedSignature := computeSignature s signingInput in
            if givenSignature ≠? expectedSignature then inl ErrInvalidSignature
            else match Base64.DecodeString payloadB64 with
            | None => inl ErrInvalidToken
            | Some payload =>
                match unmarshal_claims payload with
                | None => inl ErrInvalidToken
                | Some claims => check_claims s now claims
                end
            end
        end
  | _ => inl ErrInvalidToken
  end.

End tokens.

(** ** Signing and checking *)

Section tokens_lemmas.
Context `{!TokenPrimitives}.
Implicit Types (s : TokenService) (c : Claims).

(** Claims that are accepted at a time. *)
Definition accepted_at s (now : Z) c : Prop :=
  0 < cl_ExpiresAt c ∧ cl_IssuedAt c < cl_ExpiresAt c ∧
  (0 < cl_IssuedAt c → cl_IssuedAt c <= int64 (now + skewSeconds s)) ∧
  int64 (now - skewSeconds s) < cl_ExpiresAt c.

Lemma check_claims_accepted s now c : check_claims s now c = inr c ↔ accepted_at s now c.
Proof.
  unfold check_claims, accepted_at. repeat (case_match; bool_props); (split; [|intros (?&?&?&?); try lia]); try done;
    try (intros _; split_and?; lia); try (destruct_or?; lia).
Qed.

Lemma check_claims_same s now c c' : check_claims s now c = inr c' → c' = c.
Proof. unfold check_claims. repeat case_match; congruence. Qed.

Lemma Verify_accepts s now payloadB64 signatureB64 payload c :
  ts_secret s ≠ "" → without "."%char payloadB64 → without "."%char signatureB64 →
  Base64.DecodeString signatureB64 = Some (hmac_sha256 (ts_secret s) (tokenVersion +:+ "." +:+ payloadB64)) →
  Base64.DecodeString payloadB64 = Some payload → unmarshal_claims payload = Some c → accepted_at s now c →
  Verify s now (tokenVersion +:+ "." +:+ payloadB64 +:+ "." +:+ signatureB64) = inr c.
Proof.
  intros Hsec Hp Hsig Hgiven Hpay Hjson Hc. unfold Verify. rewrite bool_decide_false by done.
  change (tokenVersion +:+ "." +:+ payloadB64 +:+ "." +:+ signatureB64) with
    (tokenVersion +:+ String "." (payloadB64 +:+ String "." signatureB64)).
  rewrite !Split_app, (Split_without _ _ Hsig) by (done || by apply (bool_decide_unpack _); vm_compute).
  rewrite bool_decide_true by done. cbn [negb]. rewrite Hgiven. unfold computeSignature.
  rewrite bool_decide_true by done. cbn [negb]. rewrite Hpay, Hjson. by apply check_claims_accepted.
Qed.

(** C30: A token is accepted exactly when it is [v1], a payload and the signature of both under
    the service's secret, joined by dots; the payload decodes to the claims returned; and the
    time, give or take the skew, is after they were issued and before they expire. *)
Theorem Verify_spec s now token c :
  Verify s now token = inr c ↔
  ts_secret s ≠ "" ∧ ∃ payloadB64 signatureB64 payload,
    token = tokenVersion +:+ "." +:+ payloadB64 +:+ "." +:+ signatureB64 ∧
    without "."%char payloadB64 ∧ without "."%char signatureB64 ∧
    Base64.DecodeString signatureB64 = Some (hmac_sha256 (ts_secret s) (tokenVersion +:+ "." +:+ payloadB64)) ∧
    Base64.DecodeString payloadB64 = Some payload ∧ unmarshal_claims payload = Some c ∧
    accepted_at s now c.
Proof.
  split.
  - unfold Verify. case_bool_decide as Hsec; [done|].
    destruct (Split _ token) as [|version [|payloadB64 [|signatureB64 [|]]]] eqn:Hsplit; try done.
    apply Split_inv in Hsplit as [_ [[? _]|(rest & Htok & Hsplit)]]; [done|].
    apply Split_inv in Hsplit as [Hp [[? _]|(rest' & -> & Hsplit)]]; [done|].
    apply Split_inv in Hsplit as [Hsig [[_ ->]|(? & _ & ?)]]; [|by destruct x; cbn in *; repeat case_match].
    case_bool_decide as Hv; cbn [negb]; [subst version|done].
    destruct (Base64.DecodeString signatureB64) as [given|] eqn:Hgiven; [|done].
    case_bool_decide as Heq; cbn [negb]; [subst given|done].
    destruct (Base64.DecodeString payloadB64) as [payload|] eqn:Hpay; [|done].
    destruct (unmarshal_claims payload) as [claims|] eqn:Hjson; [|done]. intros Hc.
    assert (c = claims) as -> by (by eapply check_claims_same). split; [done|].
    exists payloadB64, signatureB64, payload. split_and!; try done. by apply check_claims_accepted.
  - intros (Hs & payloadB64 & signatureB64 & payload & -> & Hp & Hsig & Hgiven & Hpay & Hjson & Hc).
    by apply (Verify_accepts _ _ _ _ payload).
Qed.

(** C31: A token the service signed is accepted, with the claims that were signed, at any time
    that is not before they were issued nor after they expire, give or take the skew. *)
Theorem Verify_Sign s issued now c token
    (Hsign : Sign s issued c = inr token)
    (Hjson : ∀ payload, marshal_claims (normalize_claims issued c) = Some payload →
       unmarshal_claims payload = Some (normalize_claims issued c))
    (Hafter : is_int64 (now + skewSeconds s)) (Hbefore : is_int64 (now - skewSeconds s))
    (Hissued : cl_IssuedAt (normalize_claims issued c) <= now + skewSeconds s)
    (Hexpires : now - skewSeconds s < cl_ExpiresAt c) :
  Verify s now token = inr (normalize_claims issued c).
Proof.
  unfold Sign in Hsign. case_bool_decide as Hsec; [done|].
  destruct (_ || _) eqn:Hexp; [done|]. bool_props.
  destruct (marshal_claims _) as [payload|] eqn:Hpay; [|done]. injection Hsign as <-.
  rewrite <-!append_assoc. change (String "." ?p) with ("." +:+ p). eapply Verify_accepts; try done.
  - apply EncodeToString_without.
  - apply EncodeToString_without.
  - apply Base64.DecodeString_EncodeToString.
  - apply Base64.DecodeString_EncodeToString.
  - by apply Hjson.
  - unfold accepted_at. unfold is_int64, int64 in *. rewrite !Z.mod_small by lia.
    assert (cl_ExpiresAt (normalize_claims issued c) = cl_ExpiresAt c) as Hsame
      by (unfold normalize_claims; by case_match).
    rewrite Hsame in *. lia.
Qed.

End tokens_lemmas.

(** ** A service at work

    A signature that names the secret and the input, and two claims that have a text. *)

Definition demo_claims : Claims := mkClaims "ann" "match-1" "player" ScopeGameplay 1000 4600.

#[local] Instance demo_primitives : TokenPrimitives := {|
  hmac_sha256 secret input := secret +:+ "/" +:+ input;
  marshal_claims c := if bool_decide (c = demo_claims) then Some "ann at match-1" else None;
  unmarshal_claims payload := if payload ≟ "ann at match-1" then Some demo_claims else None;
|}.

Definition demo_service : TokenService := mkTokens "secret" (5 * 10 ^ 9).

Lemma Verify_Sign_witness :
  ∃ token, Sign demo_service 1000 demo_claims = inr token ∧ Verify demo_service 4604 token = inr demo_claims.
Proof.
  destruct (Sign demo_service 1000 demo_claims) as [|token] eqn:Hsign; [by vm_compute in Hsign|].
  exists token. split; [done|]. apply (Verify_Sign demo_service 1000 4604 demo_claims token Hsign).
  - intros payload Hp. assert (Some payload = Some "ann at match-1") as [= ->] by (rewrite <-Hp; reflexivity).
    reflexivity.
  - vm_compute. split; [discriminate|reflexivity].
  - vm_compute. split; [discriminate|reflexivity].
  - vm_compute. discriminate.
  - vm_compute. reflexivity.
Defined.

(** The same token is refused once it has expired. *)
Example demo_expired token :
  Sign demo_service 1000 demo_claims = inr token → Verify demo_service 4605 token = inl ErrTokenExpired.
Proof. intros H. assert (inr token = Sign demo_service 1000 demo_claims) as [= ->] by done. by vm_compute. Qed.
End Auth.
