(* ===== verification/Persistence.v ===== *)
(** * Persistence

    [internal/server/persistence/store.go]: the accounts of the players and the history of
    the matches, in memory and, when there is a path, in a JSON file that is written whole
    after every change and read when the store opens.

    An instant is the number of nanoseconds since Go's zero [time.Time], so [IsZero] is [0].
    The JSON of the files is the class [StoreCodec].  The calls to the operating system work
    on an explicit file system; which of them fail is an argument, a [Faults] record for each
    write of the file.  The mutex and the copies that keep callers from sharing memory with the
    store have no counterpart in a functional model. *)

From S2P Require Import Prelude Float32 Model GoStrings Keyed Win.

#[local] Open Scope Z_scope.

Module Persistence.

Definition CurrentSchemaVersion : Z := 1.

Inductive store_error :=
  | ErrInvalidPlayerID
  | ErrInvalidMatchRecord
  | ErrUnsupportedSchema
  | ErrUnknownSchemaMigration
  | ErrRead
  | ErrDecode
  | ErrEncode
  | ErrMkdir
  | ErrWrite
  | ErrRemove
  | ErrRename.

Record Config := mkConfig {
  cf_Path : string;
  cf_MaxMatchHistory : Z;
}.

Definition DefaultConfig : Config := mkConfig "" 0.

Definition normalized (config : Config) : Config :=
  mkConfig (TrimSpace (cf_Path config))
    (if cf_MaxMatchHistory config <? 0 then cf_MaxMatchHistory DefaultConfig else cf_MaxMatchHistory config).

(** ** Records *)

Record AccountStats := mkStats {
  as_MatchesPlayed : Z;
  as_MatchesWon : Z;
  as_MatchesEscaped : Z;
  as_MatchesSurvived : Z;
  as_Deaths : Z;
}.
#[export] Instance AccountStats_eta : RecordEta AccountStats := λ r,
  mkStats (as_MatchesPlayed r) (as_MatchesWon r) (as_MatchesEscaped r) (as_MatchesSurvived r) (as_Deaths r).

Definition zero_stats : AccountStats := mkStats 0 0 0 0 0.

Record Account := mkAccount {
  ac_PlayerID : PlayerID;
  ac_DisplayName : string;
  ac_CreatedAt : Z;
  ac_UpdatedAt : Z;
  ac_LastSeenAt : Z;
  ac_Stats : AccountStats;
}.
#[export] Instance Account_eta : RecordEta Account := λ r,
  mkAccount (ac_PlayerID r) (ac_DisplayName r) (ac_CreatedAt r) (ac_UpdatedAt r) (ac_LastSeenAt r) (ac_Stats r).

Record MatchPlayerRecord := mkMatchPlayer {
  mp_PlayerID : PlayerID;
  mp_Name : string;
  mp_Role : RoleType;
  mp_Faction : FactionType;
  mp_Alignment : AlignmentType;
  mp_Alive : bool;
  mp_Escaped : bool;
  mp_Winner : bool;
}.

Record MatchRecord := mkMatchRecord {
  mr_MatchID : MatchID;
  mr_EndedAt : Z;
  mr_EndedTick : Z;
  mr_Reason : WinReason;
  mr_WinnerPlayerIDs : list PlayerID;
  mr_Players : list MatchPlayerRecord;
}.

Record storeFileV0 := mkFileV0 {
  v0_Accounts : list Account;
  v0_Matches : list MatchRecord;
}.

(** A Go map or slice that is [nil] is an empty one here; [loadStoreFile] makes the ones that
    JSON left [nil]. *)
Record storeFileV1 := mkFileV1 {
  v1_SchemaVersion : Z;
  v1_Accounts : gmap PlayerID Account;
  v1_Matches : list MatchRecord;
}.
#[export] Instance storeFileV1_eta : RecordEta storeFileV1 := λ r,
  mkFileV1 (v1_SchemaVersion r) (v1_Accounts r) (v1_Matches r).

Record Store := mkStore {
  st_path : string;
  st_maxMatchHistory : Z;
  st_data : storeFileV1;
}.
#[export] Instance Store_eta : RecordEta Store := λ r, mkStore (st_path r) (st_maxMatchHistory r) (st_data r).

(** ** Accounts *)

Definition fallbackDisplayName (playerID : PlayerID) : string :=
  if playerID ≟ "" then "Player" else playerID.

Definition ensureAccountLocked (accounts : gmap PlayerID Account) (playerID : PlayerID) (displayName : string)
    (observedAt : Z) : Account :=
  let account := default (mkAccount playerID (TrimSpace displayName) observedAt observedAt observedAt zero_stats)
    (accounts !! playerID) in
  let account := if ac_CreatedAt account ≟ 0 then account <| ac_CreatedAt := observedAt |> else account in
  let account := if displayName ≠? "" then account <| ac_DisplayName := displayName |> else account in
  let account := if ac_DisplayName account ≟ ""
    then account <| ac_DisplayName := fallbackDisplayName playerID |> else account in
  let account := if ac_LastSeenAt account <? observedAt then account <| ac_LastSeenAt := observedAt |> else account in
  if ac_UpdatedAt account <? observedAt then account <| ac_UpdatedAt := observedAt |> else account.

(** What one player of a match adds to the account. *)
Definition count_player (stats : AccountStats) (player : MatchPlayerRecord) : AccountStats :=
  let stats := stats <| as_MatchesPlayed ::= λ n, u32 (n + 1) |> in
  let stats := if mp_Winner player then stats <| as_MatchesWon ::= λ n, u32 (n + 1) |> else stats in
  let stats := if mp_Escaped player then stats <| as_MatchesEscaped ::= λ n, u32 (n + 1) |> else stats in
  if mp_Alive player then stats <| as_MatchesSurvived ::= λ n, u32 (n + 1) |>
  else stats <| as_Deaths ::= λ n, u32 (n + 1) |>.

Definition recompute_player (endedAt : Z) (accounts : gmap PlayerID Account) (player : MatchPlayerRecord) :
    gmap PlayerID Account :=
  if mp_PlayerID player ≟ "" then accounts
  else
    let account := ensureAccountLocked accounts (mp_PlayerID player) (mp_Name player) endedAt in
    <[mp_PlayerID player := account <| ac_Stats ::= λ stats, count_player stats player |>]> accounts.

Definition recompute_match (accounts : gmap PlayerID Account) (record : MatchRecord) : gmap PlayerID Account :=
  foldl (recompute_player (mr_EndedAt record)) accounts (mr_Players record).

Definition recomputeStatsLocked (data : storeFileV1) : storeFileV1 :=
  let accounts := (λ account, account <| ac_Stats := zero_stats |>) <$> v1_Accounts data in
  data <| v1_Accounts := foldl recompute_match accounts (v1_Matches data) |>.

(** ** The history *)

(** Later matches first, and of matches that ended together the greater identifier first. *)
Definition match_key (record : MatchRecord) : Z * MatchID := (mr_EndedAt record, mr_MatchID record).

Definition match_key_le : relation (Z * MatchID) := λ a b,
  b.1 < a.1 ∨ a.1 = b.1 ∧ String.le b.2 a.2.
#[export] Instance match_key_le_dec : RelDecision match_key_le.
Proof. intros a b. unfold match_key_le. apply _. Defined.

Definition sortMatchesLocked (matches : list MatchRecord) : list MatchRecord :=
  sort_by match_key_le match_key matches.

Definition enforceHistoryCapLocked (maxMatchHistory : Z) (matches : list MatchRecord) : list MatchRecord :=
  if (maxMatchHistory <=? 0) || (Z.of_nat (length matches) <=? maxMatchHistory) then matches
  else take (Z.to_nat maxMatchHistory) matches.

Definition match_player (winnerSet : list PlayerID) (player : PlayerState) : MatchPlayerRecord :=
  mkMatchPlayer (ps_ID player) (ps_Name player) (ps_Role player) (ps_Faction player) (ps_Alignment player)
    (ps_Alive player) (ps_CurrentRoomID player ≟ Win.EscapedRoomID) (bool_decide (ps_ID player ∈ winnerSet)).

Definition buildMatchRecord (state : GameState) (gameOver : GameOverState) (endedAt : Z) : MatchRecord :=
  let players := match_player (go_WinnerPlayerIDs gameOver) <$> gs_Players state in
  let players := sort_by String.le mp_PlayerID players in
  let winners := sort_strings (go_WinnerPlayerIDs gameOver) in
  mkMatchRecord (gs_MatchID state) endedAt (gs_TickID state) (go_Reason gameOver) winners players.

(** The first record of the same match is replaced, otherwise the record is added. *)
Definition upsert_match (matches : list MatchRecord) (record : MatchRecord) : list MatchRecord :=
  match find_idx (λ old, mr_MatchID old ≟ mr_MatchID record) matches with
  | Some i => <[i := record]> matches
  | None => matches ++ [record]
  end.

(** ** The file *)

(** The JSON of the files: a raw text, and what [json.Marshal] and [json.Unmarshal] make of it. *)
Class StoreCodec := {
  raw : Type;
  raw_blank : raw → bool;
  encode_v1 : storeFileV1 → option raw;
  decode_v1 : raw → option storeFileV1;
  decode_v0 : raw → option storeFileV0;
  (** [None]: not JSON; [Some None]: no [schema_version]. *)
  probe_version : raw → option (option Z);
}.

(** The calls that fail in one write of the file; a write that fails may leave a part of the text.
    The directory is only made when the path names one, and no call fails for it otherwise.  The
    removal of the temporary file after an error may fail too, and the code does not look. *)
Record Faults {R : Type} := mkFaults {
  fails_mkdir : bool;
  fails_write : option (option R);
  fails_remove : bool;
  fails_rename : bool;
  fails_cleanup : bool;
}.
Arguments Faults R : clear implicits.
Arguments mkFaults {R}.

Section store.
Context `{Codec : !StoreCodec}.

Abbreviation files := (gmap string raw) (only parsing).

Definition temp_path (path : string) : string := path +:+ ".tmp".

(** The error of the write, if any, the version that the data now has, and the files after it.  A
    missing file is no error for the removal. *)
Definition persistLocked (faults : Faults raw) (fs : files) (store : Store) : Store * files * option store_error :=
  if st_path store ≟ "" then (store, fs, None)
  else
    let store := store <| st_data ::= λ data, data <| v1_SchemaVersion := CurrentSchemaVersion |> |> in
    match encode_v1 (st_data store) with
    | None => (store, fs, Some ErrEncode)
    | Some text =>
        if fails_mkdir faults then (store, fs, Some ErrMkdir)
        else
          let tempPath := temp_path (st_path store) in
          let cleaned fs := if fails_cleanup faults then fs else delete tempPath fs in
          match fails_write faults with
          | Some rest => (store, match rest with Some part => <[tempPath := part]> fs | None => fs end, Some ErrWrite)
          | None =>
              let fs := <[tempPath := text]> fs in
              if fails_remove faults && bool_decide (is_Some (fs !! st_path store))
              then (store, cleaned fs, Some ErrRemove)
              else
                let fs := delete (st_path store) fs in
                if fails_rename faults then (store, cleaned fs, Some ErrRename)
                else (store, <[st_path store := text]> (delete tempPath fs), None)
          end
    end.

Definition detectSchemaVersion (text : raw) : option Z := default 0 <$> probe_version text.

(** Of the accounts of a player the one that was updated last is kept. *)
Definition migrate_account (accounts : gmap PlayerID Account) (account : Account) : gmap PlayerID Account :=
  if ac_PlayerID account ≟ "" then accounts
  else
    let newer :=
      match accounts !! ac_PlayerID account with
      | None => true
      | Some existing => ac_UpdatedAt existing <? ac_UpdatedAt account
      end in
    if newer then
      let account := if ac_DisplayName account ≟ ""
        then account <| ac_DisplayName := fallbackDisplayName (ac_PlayerID account) |> else account in
      <[ac_PlayerID account := account]> accounts
    else accounts.

Definition migrateV0ToV1 (text : raw) : option (option raw) :=
  legacy ← decode_v0 text;
  let accounts := foldl migrate_account ∅ (v0_Accounts legacy) in
  Some (encode_v1 (mkFileV1 CurrentSchemaVersion accounts (v0_Matches legacy))).

Definition schemaMigrations (version : Z) : option (raw → option (option raw)) :=
  if version =? 0 then Some migrateV0ToV1 else None.

(** The loop over the versions, [n] of them missing. *)
Fixpoint migrate_from (n : nat) (version : Z) (text : raw) : store_error + raw :=
  match n with
  | O => inr text
  | S n =>
      match schemaMigrations version with
      | None => inl ErrUnknownSchemaMigration
      | Some migrate =>
          match migrate text with
          | None => inl ErrDecode
          | Some None => inl ErrEncode
          | Some (Some text) => migrate_from n (version + 1) text
          end
      end
  end.

Definition empty_file : storeFileV1 := mkFileV1 CurrentSchemaVersion ∅ [].

(** [read]: what reading the path gives. *)
Definition loadStoreFile (read_fails : bool) (fs : files) (path : string) : store_error + storeFileV1 :=
  if read_fails then inl ErrRead
  else match fs !! path with
  | None => inr empty_file
  | Some text =>
      if raw_blank text then inr empty_file
      else match detectSchemaVersion text with
      | None => inl ErrDecode
      | Some version =>
          match migrate_from (Z.to_nat (CurrentSchemaVersion - version)) version text with
          | inl err => inl err
          | inr text =>
              if CurrentSchemaVersion <? version then inl ErrUnsupportedSchema
              else match decode_v1 text with
              | None => inl ErrDecode
              | Some out => inr (mkFileV1 CurrentSchemaVersion (v1_Accounts out) (sortMatchesLocked (v1_Matches out)))
              end
          end
      end
  end.

(** ** Operations *)

Definition Open (config : Config) (read_fails : bool) (faults : Faults raw) (fs : files) :
    files * (store_error + Store) :=
  let config := normalized config in
  let store := mkStore (cf_Path config) (cf_MaxMatchHistory config) empty_file in
  if cf_Path config ≟ "" then (fs, inr store)
  else match loadStoreFile read_fails fs (cf_Path config) with
  | inl err => (fs, inl err)
  | inr loaded =>
      let data := loaded <| v1_Matches ::= enforceHistoryCapLocked (st_maxMatchHistory store) |> in
      let store := store <| st_data := recomputeStatsLocked data |> in
      match persistLocked faults fs store with
      | (_, fs, Some err) => (fs, inl err)
      | (store, fs, None) => (fs, inr store)
      end
  end.

(** [observedAt], or the clock when there is none. *)
Definition instant (now observedAt : Z) : Z := if observedAt ≟ 0 then now else observedAt.

Definition upsert_account (store : Store) (playerID : PlayerID) (displayName : string) (observedAt : Z) : Store :=
  let account := ensureAccountLocked (v1_Accounts (st_data store)) playerID displayName observedAt in
  let account := account <| ac_UpdatedAt := observedAt |> <| ac_LastSeenAt := observedAt |> in
  let account := if displayName ≠? "" then account <| ac_DisplayName := displayName |> else account in
  let account := if ac_DisplayName account ≟ ""
    then account <| ac_DisplayName := fallbackDisplayName playerID |> else account in
  store <| st_data ::= λ data, data <| v1_Accounts ::= <[playerID := account]> |> |>.

Definition UpsertAccount (now : Z) (faults : Faults raw) (fs : files) (store : Store)
    (playerID : PlayerID) (displayName : string) (observedAt : Z) : Store * files * option store_error :=
  let trimmedID := TrimSpace playerID in
  if trimmedID ≟ "" then (store, fs, Some ErrInvalidPlayerID)
  else persistLocked faults fs
    (upsert_account store trimmedID (TrimSpace displayName) (instant now observedAt)).

Definition record_match (store : Store) (record : MatchRecord) : Store :=
  let matches := upsert_match (v1_Matches (st_data store)) record in
  let matches := enforceHistoryCapLocked (st_maxMatchHistory store) (sortMatchesLocked matches) in
  store <| st_data ::= λ data, recomputeStatsLocked (data <| v1_Matches := matches |>) |>.

Definition RecordMatch (now : Z) (faults : Faults raw) (fs : files) (store : Store)
    (state : GameState) (endedAt : Z) : Store * files * option store_error :=
  if gs_MatchID state ≟ "" then (store, fs, Some ErrInvalidMatchRecord)
  else match gs_GameOver state with
  | None => (store, fs, Some ErrInvalidMatchRecord)
  | Some gameOver =>
      persistLocked faults fs (record_match store (buildMatchRecord state gameOver (instant now endedAt)))
  end.

End store.

(** ** Queries *)

Definition SchemaVersion (store : Store) : Z := v1_SchemaVersion (st_data store).

Definition GetAccount (store : Store) (playerID : PlayerID) : option Account :=
  let trimmedID := TrimSpace playerID in
  if trimmedID ≟ "" then None else v1_Accounts (st_data store) !! trimmedID.

Definition Accounts (store : Store) : list Account :=
  sort_by String.le ac_PlayerID (map_to_list (v1_Accounts (st_data store))).*2.

Definition cloneHistoryWithLimit (history : list MatchRecord) (limit : Z) : list MatchRecord :=
  if (0 <? limit) && (limit <? Z.of_nat (length history)) then take (Z.to_nat limit) history else history.

Definition MatchHistory (store : Store) (limit : Z) : list MatchRecord :=
  cloneHistoryWithLimit (v1_Matches (st_data store)) limit.

Definition matchHasPlayer (record : MatchRecord) (playerID : PlayerID) : bool :=
  existsb (λ player, mp_PlayerID player ≟ playerID) (mr_Players record).

Definition PlayerMatchHistory (store : Store) (playerID : PlayerID) (limit : Z) : list MatchRecord :=
  let trimmedID := TrimSpace playerID in
  if trimmedID ≟ "" then []
  else cloneHistoryWithLimit (filter (λ record, matchHasPlayer record trimmedID = true) (v1_Matches (st_data store))) limit.

(** ** Order of the history *)

#[export] Instance match_key_le_order : PartialOrder match_key_le.
Proof.
  unfold match_key_le. split; [split|].
  - intros a. right. split; [done|]. reflexivity.
  - intros a b c [H1|[H1 H1']] [H2|[H2 H2']]; [left; lia|left; lia|left; lia|].
    right. split; [lia|]. by etransitivity.
  - intros [a1 a2] [b1 b2] [H1|[H1 H1']] [H2|[H2 H2']]; cbn in *; try lia. subst. f_equal.
    by apply (anti_symm String.le).
Qed.
#[export] Instance match_key_le_total : Total match_key_le.
Proof.
  intros a b. unfold match_key_le. destruct (decide (a.1 = b.1)) as [->|].
  - destruct (total String.le b.2 a.2); [left|right]; right; done.
  - destruct (decide (b.1 < a.1)); [by left; left|right; left; lia].
Qed.

Definition in_history_order : list MatchRecord → Prop := StronglySorted (on_key match_key_le match_key).

Lemma sorted_history matches : in_history_order (sortMatchesLocked matches).
Proof. apply sort_by_sorted; apply _. Qed.

Lemma history_keys matches : NoDup (mr_MatchID <$> matches) → NoDup (match_key <$> matches).
Proof.
  intros H. apply (NoDup_fmap_1 snd). rewrite <-list_fmap_compose. exact H.
Qed.

Lemma sort_sorted matches :
  NoDup (mr_MatchID <$> matches) → in_history_order matches → sortMatchesLocked matches = matches.
Proof. intros Hnd Hs. symmetry. apply sort_by_unique; try apply _; [by apply history_keys|done|done]. Qed.

Lemma cap_prefix cap matches : ∃ n, enforceHistoryCapLocked cap matches = take n matches.
Proof. unfold enforceHistoryCapLocked. case_match; [exists (length matches); by rewrite firstn_all|by eexists]. Qed.

Lemma cap_bound cap matches : 0 < cap → Z.of_nat (length (enforceHistoryCapLocked cap matches)) <= cap.
Proof.
  intros Hcap. unfold enforceHistoryCapLocked. case_match; bool_props; [destruct_or?; lia|].
  rewrite length_take. lia.
Qed.

Lemma cap_id cap matches : (0 < cap → Z.of_nat (length matches) <= cap) → enforceHistoryCapLocked cap matches = matches.
Proof.
  intros H. unfold enforceHistoryCapLocked. destruct (_ || _) eqn:Hc; [done|]. bool_props. lia.
Qed.

Lemma sorted_take {A} (R : relation A) n l : StronglySorted R l → StronglySorted R (take n l).
Proof.
  intros Hs. revert n. induction Hs as [|x l Hs IH Hx]; intros [|n]; cbn; try constructor; [done|].
  by apply Forall_take.
Qed.

(** ** The upsert *)

Lemma upsert_ids matches record : NoDup (mr_MatchID <$> matches) →
  NoDup (mr_MatchID <$> upsert_match matches record).
Proof.
  intros Hnd. unfold upsert_match. destruct (find_idx _ matches) as [i|] eqn:Hi.
  - apply find_idx_Some in Hi as (old & Hi & Heq & _). bool_props.
    rewrite list_fmap_insert. rewrite <-Heq. rewrite list_insert_id; [done|].
    by rewrite list_lookup_fmap, Hi.
  - rewrite fmap_app. apply NoDup_app. split; [done|]. split; [|apply NoDup_singleton].
    intros id (r & -> & Hr)%list_elem_of_fmap Heq. cbn in Heq. rewrite list_elem_of_singleton in Heq.
    rewrite find_idx_None in Hi. specialize (Hi r Hr). cbv beta in Hi. bool_props. done.
Qed.

(** ** One account at a time

    What [recomputeStatsLocked] does to the account of a player depends on that account and on
    the player's records alone. *)

Abbreviation entry := (Z * MatchPlayerRecord)%type (only parsing).

Definition entries (matches : list MatchRecord) : list entry :=
  matches ≫= λ record, (λ player, (mr_EndedAt record, player)) <$> mr_Players record.

Definition own (id : PlayerID) (es : list entry) : list entry := filter (λ e, mp_PlayerID e.2 = id) es.

Definition entry_step (accounts : gmap PlayerID Account) (e : entry) : gmap PlayerID Account :=
  recompute_player e.1 accounts e.2.

Definition fresh_account (id : PlayerID) (e : entry) : Account :=
  mkAccount id (TrimSpace (mp_Name e.2)) e.1 e.1 e.1 zero_stats.

(** What a record does to an account that is there. *)
Definition account_step (id : PlayerID) (a : Account) (e : entry) : Account :=
  ensureAccountLocked {[ id := a ]} id (mp_Name e.2) e.1 <| ac_Stats ::= λ stats, count_player stats e.2 |>.

Definition account_of (id : PlayerID) (o : option Account) (es : list entry) : option Account :=
  match o, es with
  | Some a, _ => Some (foldl (account_step id) a es)
  | None, [] => None
  | None, e :: _ => Some (foldl (account_step id) (fresh_account id e) es)
  end.

Lemma recompute_entries accounts matches :
  foldl recompute_match accounts matches = foldl entry_step accounts (entries matches).
Proof.
  revert accounts. induction matches as [|record matches IH]; intros accounts; [done|].
  cbn [foldl]. rewrite IH. unfold entries. cbn. rewrite foldl_app. f_equal.
  unfold recompute_match. generalize (mr_Players record). intros players. revert accounts.
  induction players as [|p players IHp]; intros accounts; [done|]. apply IHp.
Qed.

Lemma ensure_present accounts id a name at_ : accounts !! id = Some a →
  ensureAccountLocked accounts id name at_ = ensureAccountLocked {[ id := a ]} id name at_.
Proof. intros H. unfold ensureAccountLocked. by rewrite H, lookup_singleton_eq. Qed.

Lemma ensure_absent accounts id name at_ : accounts !! id = None →
  ensureAccountLocked accounts id name at_ =
    ensureAccountLocked {[ id := mkAccount id (TrimSpace name) at_ at_ at_ zero_stats ]} id name at_.
Proof. intros H. unfold ensureAccountLocked. by rewrite H, lookup_singleton_eq. Qed.

Lemma account_after id accounts es : id ≠ "" →
  foldl entry_step accounts es !! id = account_of id (accounts !! id) (own id es).
Proof.
  intros Hid. revert accounts. induction es as [|e es IH]; intros accounts; cbn [foldl].
  { cbn. by destruct (accounts !! id). }
  rewrite IH. unfold own in *. unfold entry_step, recompute_player.
  destruct (decide (mp_PlayerID e.2 = id)) as [He|He].
  - rewrite (filter_cons_True _ e es) by done. rewrite He, bool_decide_false by done.
    rewrite lookup_insert_eq. destruct (accounts !! id) as [a|] eqn:Ha; cbn [account_of foldl].
    + by rewrite (ensure_present _ _ _ _ _ Ha).
    + by rewrite (ensure_absent _ _ _ _ Ha).
  - rewrite (filter_cons_False _ e es) by done. case_bool_decide; [done|]. by rewrite lookup_insert_ne.
Qed.

Lemma account_unnamed accounts es : foldl entry_step accounts es !! "" = accounts !! "".
Proof.
  revert accounts. induction es as [|e es IH]; intros accounts; [done|]. cbn [foldl]. rewrite IH.
  unfold entry_step, recompute_player. case_bool_decide; [done|]. by rewrite lookup_insert_ne.
Qed.

Definition fresh_stats (a : Account) : Account := a <| ac_Stats := zero_stats |>.

Lemma recompute_lookup data id : id ≠ "" →
  v1_Accounts (recomputeStatsLocked data) !! id =
    account_of id (fresh_stats <$> v1_Accounts data !! id) (own id (entries (v1_Matches data))).
Proof.
  intros Hid. unfold recomputeStatsLocked. cbn -[foldl]. rewrite recompute_entries, account_after by done.
  by rewrite lookup_fmap.
Qed.

Lemma recompute_unnamed data :
  v1_Accounts (recomputeStatsLocked data) !! "" = fresh_stats <$> v1_Accounts data !! "".
Proof.
  unfold recomputeStatsLocked. cbn -[foldl]. by rewrite recompute_entries, account_unnamed, lookup_fmap.
Qed.

(** ** Statistics *)

Definition count (p : MatchPlayerRecord → bool) (players : list MatchPlayerRecord) : Z :=
  u32 (Z.of_nat (length (filter (λ player, p player = true) players))).

(** The statistics of a player: how many of the records are of matches played, won, and so on. *)
Definition tally (players : list MatchPlayerRecord) : AccountStats :=
  mkStats (count (λ _, true) players) (count mp_Winner players) (count mp_Escaped players)
    (count mp_Alive players) (count (λ player, negb (mp_Alive player)) players).

Lemma count_snoc p players player :
  count p (players ++ [player]) = if p player then u32 (count p players + 1) else count p players.
Proof.
  unfold count. rewrite filter_app, length_app. cbn [filter]. unfold filter. cbn [list_filter].
  destruct (p player); cbn.
  - rewrite Nat2Z.inj_add. unfold u32. rewrite Zplus_mod_idemp_l. done.
  - by rewrite Nat.add_0_r.
Qed.

Lemma count_players players : foldl count_player zero_stats players = tally players.
Proof.
  induction players as [|player players IH] using rev_ind; [done|]. rewrite foldl_app. cbn [foldl]. rewrite IH.
  unfold tally. rewrite !count_snoc. unfold count_player, tally.
  destruct (mp_Winner player), (mp_Escaped player), (mp_Alive player); reflexivity.
Qed.

Lemma ensure_stats accounts id name at_ :
  ac_Stats (ensureAccountLocked accounts id name at_) = default zero_stats (ac_Stats <$> accounts !! id).
Proof. unfold ensureAccountLocked. destruct (accounts !! id) as [a|]; cbn; repeat (case_match; cbn); done. Qed.

Lemma steps_stats id a es :
  ac_Stats (foldl (account_step id) a es) = foldl count_player (ac_Stats a) (snd <$> es).
Proof.
  revert a. induction es as [|e es IH]; intros a; [done|]. cbn [foldl fmap list_fmap]. rewrite IH. f_equal.
  unfold account_step. cbn. by rewrite ensure_stats, lookup_singleton_eq.
Qed.

(** The records of one player in a history. *)
Definition played (id : PlayerID) (matches : list MatchRecord) : list MatchPlayerRecord :=
  filter (λ player, mp_PlayerID player = id) (matches ≫= mr_Players).

Lemma own_played id matches : snd <$> own id (entries matches) = played id matches.
Proof.
  unfold own, played, entries. induction matches as [|record matches IH]; [done|].
  cbn. rewrite !filter_app, fmap_app, IH. f_equal. clear IH. generalize (mr_Players record). intros players.
  induction players as [|p players IHp]; [done|]. cbn [fmap list_fmap]. destruct (decide (mp_PlayerID p = id)) as [Hp|Hp].
  - rewrite !filter_cons_True by done. cbn. by rewrite IHp.
  - rewrite !filter_cons_False by done. exact IHp.
Qed.

(** Everybody with a record has an account, and the statistics of an account count the player's
    records in the history that is kept. *)
Definition stats_exact (data : storeFileV1) : Prop := ∀ id, id ≠ "" →
  match v1_Accounts data !! id with
  | Some account => ac_Stats account = tally (played id (v1_Matches data))
  | None => played id (v1_Matches data) = []
  end.

Lemma recompute_exact data : stats_exact (recomputeStatsLocked data).
Proof.
  intros id Hid. rewrite recompute_lookup by done.
  change (v1_Matches (recomputeStatsLocked data)) with (v1_Matches data). rewrite <-own_played.
  destruct (v1_Accounts data !! id) as [a|]; cbn [fmap option_fmap option_map account_of].
  - rewrite steps_stats. apply count_players.
  - destruct (own id _) as [|e es]; cbn [account_of]; [done|]. rewrite steps_stats. apply count_players.
Qed.

Lemma upsert_exact store id name at_ :
  stats_exact (st_data store) → stats_exact (st_data (upsert_account store id name at_)).
Proof.
  intros H id' Hid'. specialize (H id' Hid'). unfold upsert_account.
  set (account := ensureAccountLocked _ _ _ _). set (account' := if _ ≟ "" then _ else _).
  assert (ac_Stats account' = ac_Stats account) as Hstats by (subst account'; repeat (case_match; cbn); done).
  cbn -[lookup insert tally played account']. destruct (decide (id' = id)) as [->|Hne]; [|by rewrite lookup_insert_ne].
  rewrite lookup_insert_eq, Hstats. subst account. rewrite ensure_stats.
  destruct (v1_Accounts (st_data store) !! id) as [a|]; cbn -[tally played]; [done|]. by rewrite H.
Qed.

(** ** Computing the statistics again

    Each field of an account is a fold over the player's records of its own. *)

Definition step_created (created : Z) (e : entry) : Z := if created ≟ 0 then e.1 else created.
Definition step_latest (at_ : Z) (e : entry) : Z := if at_ <? e.1 then e.1 else at_.
Definition step_name (id : PlayerID) (name : string) (e : entry) : string :=
  let name := if mp_Name e.2 ≠? "" then mp_Name e.2 else name in
  if name ≟ "" then fallbackDisplayName id else name.

Lemma account_step_fields id a e :
  account_step id a e =
    mkAccount (ac_PlayerID a) (step_name id (ac_DisplayName a) e) (step_created (ac_CreatedAt a) e)
      (step_latest (ac_UpdatedAt a) e) (step_latest (ac_LastSeenAt a) e) (count_player (ac_Stats a) e.2).
Proof.
  unfold account_step, ensureAccountLocked, step_created, step_latest, step_name. rewrite lookup_singleton_eq.
  destruct a as [pid name created updated seen stats]. cbn.
  repeat (case_match; cbn in *); try done; bool_props; congruence.
Qed.

Lemma fold_account id a es :
  foldl (account_step id) a es =
    mkAccount (ac_PlayerID a) (foldl (step_name id) (ac_DisplayName a) es) (foldl step_created (ac_CreatedAt a) es)
      (foldl step_latest (ac_UpdatedAt a) es) (foldl step_latest (ac_LastSeenAt a) es)
      (foldl count_player (ac_Stats a) (snd <$> es)).
Proof.
  revert a. induction es as [|e es IH]; intros a; [by destruct a|].
  cbn [foldl fmap list_fmap]. rewrite IH, account_step_fields. done.
Qed.

Lemma created_again x es : foldl step_created (foldl step_created x es) es = foldl step_created x es.
Proof.
  assert (∀ y es, y ≠ 0 → foldl step_created y es = y) as Hfix.
  { clear. intros y es Hy. induction es as [|e es IH]; [done|]. cbn [foldl]. unfold step_created at 2.
    by rewrite bool_decide_false. }
  destruct (decide (foldl step_created x es = 0)) as [H0|H0]; [|by apply Hfix].
  destruct (decide (x = 0)) as [->|Hx]; [by rewrite H0|]. rewrite Hfix in H0 by done. done.
Qed.

Lemma latest_again x es : foldl step_latest (foldl step_latest x es) es = foldl step_latest x es.
Proof.
  assert (∀ x es, x <= foldl step_latest x es ∧ Forall (λ e, e.1 <= foldl step_latest x es) es) as Hmax.
  { clear. intros x es. revert x. induction es as [|e es IH]; intros x; cbn [foldl]; [split; [lia|constructor]|].
    destruct (IH (step_latest x e)) as [H1 H2]. unfold step_latest in H1 at 1.
    destruct (x <? e.1) eqn:Hlt; bool_props; (split; [lia|constructor; [lia|exact H2]]). }
  destruct (Hmax x es) as [_ H]. revert H. generalize (foldl step_latest x es). intros y H.
  induction H as [|e es He _ IH]; [done|]. cbn [foldl]. unfold step_latest at 2.
  destruct (y <? e.1) eqn:Hlt; bool_props; [lia|done].
Qed.

Lemma fallback_named id : fallbackDisplayName id ≠ "".
Proof. unfold fallbackDisplayName. by case_bool_decide. Qed.

Definition named (e : entry) : Prop := mp_Name e.2 ≠ "".
#[local] Instance named_dec e : Decision (named e).
Proof. unfold named. apply _. Defined.

(** A record with a name decides, whatever the name was before. *)
Lemma name_forgets id x y es : Exists named es → foldl (step_name id) x es = foldl (step_name id) y es.
Proof.
  intros H. revert x y. induction es as [|e es IH]; intros x y; [by apply Exists_nil in H|]. cbn [foldl].
  destruct (decide (mp_Name e.2 = "")) as [He|He].
  - apply Exists_cons in H as [H|H]; [done|]. by apply IH.
  - assert (step_name id x e = step_name id y e) as ->; [|done].
    unfold step_name. by rewrite !(bool_decide_false _ He).
Qed.

Lemma name_again id x es : foldl (step_name id) (foldl (step_name id) x es) es = foldl (step_name id) x es.
Proof.
  destruct (decide (Exists named es)) as [H|H]; [by apply name_forgets|].
  apply not_Exists_Forall in H; [|intros; apply _].
  assert (∀ y, y ≠ "" → foldl (step_name id) y es = y) as Hfix.
  { intros y Hy. revert H. clear -Hy. induction 1 as [|e es He _ IH]; [done|]. cbn [foldl].
    assert (step_name id y e = y) as ->; [|exact IH]. unfold step_name. unfold named in He.
    destruct (decide (mp_Name e.2 = "")) as [He'|]; [|done]. rewrite (bool_decide_true _ He'). cbn [negb].
    by rewrite (bool_decide_false _ Hy). }
  destruct es as [|e es]; [done|]. apply Hfix. intros Hempty.
  assert (∀ y, y ≠ "" → foldl (step_name id) y es ≠ "") as Hstay.
  { clear. induction es as [|e es IH]; intros y Hy; [done|]. cbn [foldl]. apply IH. unfold step_name.
    case_bool_decide; [apply fallback_named|done]. }
  revert Hempty. cbn [foldl]. apply Hstay. unfold step_name. case_bool_decide; [apply fallback_named|done].
Qed.

Lemma steps_again id a es : ac_Stats a = zero_stats →
  foldl (account_step id) (fresh_stats (foldl (account_step id) a es)) es = foldl (account_step id) a es.
Proof.
  intros Hz. rewrite !fold_account. cbn -[foldl]. by rewrite name_again, created_again, !latest_again, Hz.
Qed.

Lemma account_again id o es : (∀ a, o = Some a → ac_Stats a = zero_stats) →
  account_of id (fresh_stats <$> account_of id o es) es = account_of id o es.
Proof.
  intros Hz. destruct o as [a|]; [|destruct es as [|e es]; [done|]];
    cbn [account_of fmap option_fmap option_map]; f_equal; apply steps_again; [by apply Hz|done].
Qed.

Lemma recompute_again data : recomputeStatsLocked (recomputeStatsLocked data) = recomputeStatsLocked data.
Proof.
  assert (v1_Accounts (recomputeStatsLocked (recomputeStatsLocked data)) = v1_Accounts (recomputeStatsLocked data)) as H.
  { apply map_eq. intros id. destruct (decide (id = "")) as [->|Hid].
    - rewrite !recompute_unnamed. by destruct (v1_Accounts data !! "").
    - rewrite recompute_lookup, recompute_lookup by done.
      change (v1_Matches (recomputeStatsLocked data)) with (v1_Matches data). apply account_again.
      intros a. destruct (v1_Accounts data !! id) as [b|]; [|done]. by intros [= <-]. }
  revert H. unfold recomputeStatsLocked at 1 4. cbn -[foldl recomputeStatsLocked]. intros ->. done.
Qed.

(** ** What the store keeps *)

Record store_sound (store : Store) : Prop := {
  so_order : in_history_order (v1_Matches (st_data store));
  so_cap : 0 < st_maxMatchHistory store →
    Z.of_nat (length (v1_Matches (st_data store))) <= st_maxMatchHistory store;
  so_exact : stats_exact (st_data store);
}.

Definition distinct_matches (store : Store) : Prop := NoDup (mr_MatchID <$> v1_Matches (st_data store)).

(** The store after a write, whether it failed or not. *)
Definition versioned (store : Store) : Store :=
  if st_path store ≟ "" then store
  else store <| st_data ::= λ data, data <| v1_SchemaVersion := CurrentSchemaVersion |> |>.

Lemma versioned_sound store : store_sound (versioned store) ↔ store_sound store.
Proof. unfold versioned. case_match; [done|]. split; intros [H1 H2 H3]; split; done. Qed.
Lemma versioned_matches store : v1_Matches (st_data (versioned store)) = v1_Matches (st_data store).
Proof. unfold versioned. by case_match. Qed.
Lemma versioned_accounts store : v1_Accounts (st_data (versioned store)) = v1_Accounts (st_data store).
Proof. unfold versioned. by case_match. Qed.

Definition recorded (store : Store) (record : MatchRecord) : list MatchRecord :=
  enforceHistoryCapLocked (st_maxMatchHistory store)
    (sortMatchesLocked (upsert_match (v1_Matches (st_data store)) record)).

Lemma capped_sorted cap matches : in_history_order matches → in_history_order (enforceHistoryCapLocked cap matches).
Proof. intros H. destruct (cap_prefix cap matches) as [n ->]. by apply sorted_take. Qed.

Lemma capped_ids cap matches :
  NoDup (mr_MatchID <$> matches) → NoDup (mr_MatchID <$> enforceHistoryCapLocked cap matches).
Proof.
  intros H. destruct (cap_prefix cap matches) as [n ->]. rewrite fmap_take.
  rewrite <-(take_drop n (mr_MatchID <$> matches)) in H. by apply NoDup_app in H as [H _].
Qed.

Lemma sorted_ids matches : NoDup (mr_MatchID <$> matches) → NoDup (mr_MatchID <$> sortMatchesLocked matches).
Proof. intros H. unfold sortMatchesLocked. by rewrite sort_by_perm by apply _. Qed.

Lemma record_match_sound store record : store_sound (record_match store record).
Proof.
  split.
  - apply capped_sorted, sorted_history.
  - intros H. by apply cap_bound.
  - apply recompute_exact.
Qed.

Lemma record_match_distinct store record : distinct_matches store → distinct_matches (record_match store record).
Proof. intros H. apply capped_ids, sorted_ids. by apply upsert_ids. Qed.

Lemma sorted_app_le {A} (R : relation A) l1 l2 : StronglySorted R (l1 ++ l2) → ∀ x y, x ∈ l1 → y ∈ l2 → R x y.
Proof.
  induction l1 as [|z l1 IH]; cbn; intros Hs x y Hx Hy; [by apply not_elem_of_nil in Hx|].
  apply StronglySorted_inv in Hs as [Hs Hz]. apply elem_of_cons in Hx as [->|Hx]; [|by apply IH].
  rewrite Forall_forall in Hz. apply Hz. apply elem_of_app. by right.
Qed.

(** Recording a match again changes nothing, even when the history has no room for it. *)
Lemma recorded_again store record : distinct_matches store →
  recorded (record_match store record) record = recorded store record.
Proof.
  intros Hnd. set (sorted := sortMatchesLocked (upsert_match (v1_Matches (st_data store)) record)).
  set (cap := st_maxMatchHistory store). set (kept := enforceHistoryCapLocked cap sorted).
  change (enforceHistoryCapLocked cap (sortMatchesLocked (upsert_match kept record)) = kept).
  assert (NoDup (mr_MatchID <$> sorted)) as Hids by by apply sorted_ids, upsert_ids.
  assert (NoDup (mr_MatchID <$> kept)) as Hkept by by apply capped_ids.
  assert (in_history_order kept) as Horder by apply capped_sorted, sorted_history.
  assert (record ∈ sorted) as Hin.
  { unfold sorted, sortMatchesLocked. rewrite elem_of_sort_by by apply _. unfold upsert_match.
    destruct (find_idx _ _) as [i|] eqn:Hi; [|set_solver].
    apply find_idx_Some in Hi as (old & Hi & _). apply list_elem_of_lookup. exists i.
    apply list_lookup_insert_eq. by eapply lookup_lt_Some. }
  assert (∀ old, old ∈ sorted → mr_MatchID old = mr_MatchID record → old = record) as Huniq
    by (intros old Hold; by apply (NoDup_key_inj mr_MatchID sorted)).
  assert (∀ old, old ∈ kept → old ∈ sorted) as Hsub.
  { unfold kept. destruct (cap_prefix cap sorted) as [n ->]. intros old. apply subseteq_take. }
  unfold upsert_match. destruct (find_idx _ kept) as [i|] eqn:Hi.
  - apply find_idx_Some in Hi as (old & Hi & Heq & _). bool_props.
    assert (old = record) as -> by (apply Huniq; [by eapply Hsub, list_elem_of_lookup_2|done]).
    rewrite list_insert_id by done. rewrite sort_sorted by done. apply cap_id. intros Hcap. by apply cap_bound.
  - rewrite find_idx_None in Hi.
    assert (record ∉ kept) as Hout by (intros H; specialize (Hi _ H); cbv beta in Hi; bool_props; done).
    assert (kept = take (Z.to_nat cap) sorted ∧ 0 < cap < Z.of_nat (length sorted)) as [Htake Hlong].
    { revert Hout. unfold kept, enforceHistoryCapLocked. destruct (_ || _) eqn:Hc; [done|]. bool_props. intros _.
      split; [done|lia]. }
    assert (length kept = Z.to_nat cap) as Hlen by (rewrite Htake, length_take; lia).
    rewrite sort_sorted.
    + unfold enforceHistoryCapLocked. rewrite length_app, Hlen. cbn [length].
      assert ((cap <=? 0) || (Z.of_nat (Z.to_nat cap + 1) <=? cap) = false) as ->.
      { apply orb_false_iff. rewrite !Z.leb_gt. lia. }
      rewrite take_app_le by lia. by rewrite <-Hlen, firstn_all.
    + rewrite fmap_app. apply NoDup_app. split; [done|]. split; [|apply NoDup_singleton].
      intros mid (old & -> & Hold)%list_elem_of_fmap Hmid. cbn in Hmid. apply list_elem_of_singleton in Hmid.
      apply Hout. by rewrite <-(Huniq old) by auto.
    + apply sorted_snoc; [done|]. apply Forall_forall. intros old Hold.
      assert (record ∈ drop (Z.to_nat cap) sorted) as Hdrop.
      { rewrite <-(take_drop (Z.to_nat cap) sorted), elem_of_app in Hin. destruct Hin as [Hin|Hin]; [|done].
        rewrite Htake in Hout. done. }
      rewrite Htake in Hold. assert (in_history_order sorted) as Hs by apply sorted_history.
      rewrite <-(take_drop (Z.to_nat cap) sorted) in Hs. by apply (sorted_app_le _ _ _ Hs).
Qed.

Definition recorded_data (store : Store) (matches : list MatchRecord) : storeFileV1 :=
  mkFileV1 (v1_SchemaVersion (st_data store)) (v1_Accounts (st_data store)) matches.

Lemma record_match_data store record :
  record_match store record =
    mkStore (st_path store) (st_maxMatchHistory store) (recomputeStatsLocked (recorded_data store (recorded store record))).
Proof. reflexivity. Qed.

Lemma record_match_again store record : distinct_matches store →
  record_match (record_match store record) record = record_match store record.
Proof.
  intros Hnd. rewrite (record_match_data (record_match store record)), (recorded_again store record Hnd).
  rewrite record_match_data at 1 2 3. cbn [st_path st_maxMatchHistory]. rewrite record_match_data. f_equal.
  set (data := recorded_data store (recorded store record)).
  rewrite <-(recompute_again data) at 2. reflexivity.
Qed.

(** ** Writing the file *)

Section store_lemmas.
Context `{Codec : !StoreCodec}.
Implicit Types (fs : gmap string raw) (faults : Faults raw).

Lemma persist_store faults fs store : (persistLocked faults fs store).1.1 = versioned store.
Proof.
  unfold persistLocked, versioned. case_bool_decide; [done|]. cbn -[encode_v1].
  repeat (case_match; cbn); done.
Qed.

Lemma temp_path_ne path : temp_path path ≠ path.
Proof.
  intros H. apply (f_equal String.length) in H. unfold temp_path in H. rewrite length_append in H.
  cbn in H. lia.
Qed.

(** C34: What a write of the file leaves behind.  Files other than the store's and its temporary
    one are never touched.  A write that succeeds leaves exactly the text of the data, and no
    temporary file.  A write that fails leaves the file as it was, unless it is the renaming
    that fails: then the old file has been removed already, and the store's file is gone. *)
Theorem persistLocked_spec faults fs store (Hpath : st_path store ≠ "") :
  let '(store', fs', err) := persistLocked faults fs store in
  store' = versioned store ∧
  (∀ path, path ≠ st_path store → path ≠ temp_path (st_path store) → fs' !! path = fs !! path) ∧
  match err with
  | None => ∃ text, encode_v1 (st_data store') = Some text ∧ fs' !! st_path store = Some text ∧
      fs' !! temp_path (st_path store) = None
  | Some ErrRename => fs' !! st_path store = None
  | Some _ => fs' !! st_path store = fs !! st_path store
  end.
Proof.
  pose proof (temp_path_ne (st_path store)) as Hne. pose proof (persist_store faults fs store) as Hstore.
  unfold persistLocked in *. rewrite (bool_decide_false _ Hpath) in *.
  set (store' := store <| st_data ::= _ |>) in *.
  destruct (encode_v1 (st_data store')) as [text|] eqn:Htext; [|by split_and!].
  destruct (fails_mkdir faults); [by split_and!|].
  destruct (fails_write faults) as [rest|].
  { split; [exact Hstore|]. split; [|by destruct rest; rewrite ?lookup_insert_ne].
    intros path _ Htemp. destruct rest; [|done]. by rewrite lookup_insert_ne. }
  cbv zeta. change (st_path store') with (st_path store). destruct (fails_remove faults && _); [|destruct (fails_rename faults)]; (split; [exact Hstore|]);
    (split; [intros path Hp Htemp|]); try destruct (fails_cleanup faults);
    try (by simplify_map_eq).
  all: exists text; split; [exact Htext|]; by simplify_map_eq.
Qed.

(** ** Histories of a store *)

Inductive store_step : relation Store :=
  | step_account now faults fs store playerID displayName observedAt :
      store_step store (UpsertAccount now faults fs store playerID displayName observedAt).1.1
  | step_match now faults fs store state endedAt :
      store_step store (RecordMatch now faults fs store state endedAt).1.1.

Lemma step_kept store store' : store_step store store' →
  (store_sound store → store_sound store') ∧ (distinct_matches store → distinct_matches store').
Proof.
  intros [now faults fs s id name at_|now faults fs s state at_].
  - unfold UpsertAccount. case_bool_decide; [done|]. rewrite persist_store, versioned_sound.
    unfold distinct_matches. rewrite versioned_matches. split; [|done].
    intros [Ho Hc He]. split; [done|done|]. by apply upsert_exact.
  - unfold RecordMatch. case_bool_decide; [done|]. destruct (gs_GameOver state); [|done].
    rewrite persist_store, versioned_sound. unfold distinct_matches. rewrite versioned_matches.
    split; [intros _; apply record_match_sound|apply record_match_distinct].
Qed.

Lemma empty_sound path cap : store_sound (mkStore path cap empty_file).
Proof. split; [constructor|cbn; lia|]. intros id _. by vm_compute. Qed.

Lemma Open_sound config read_fails faults fs fs' store :
  Open config read_fails faults fs = (fs', inr store) → store_sound store.
Proof.
  unfold Open. case_bool_decide; [intros [= _ <-]; apply empty_sound|].
  destruct (loadStoreFile _ _ _) as [|loaded] eqn:Hload; [done|].
  set (opened := mkStore _ _ _ <| st_data := _ |>).
  pose proof (persist_store faults fs opened) as Hp. destruct (persistLocked faults fs opened) as [[s fs1] [err|]]; [done|].
  intros [= <- <-]. cbn in Hp. rewrite Hp. apply versioned_sound. split.
  - apply capped_sorted. unfold loadStoreFile in Hload. repeat case_match; simplify_eq; try apply sorted_history.
    all: constructor.
  - intros Hcap. by apply cap_bound.
  - apply recompute_exact.
Qed.

(** C32: Whatever file it was opened on and whichever writes fail, a store keeps its history in
    order and within its bound; everybody with a record in it has an account; and the
    statistics of an account count exactly the records of the history that is kept. *)
Theorem store_history config read_fails faults fs fs' opened store
    (Hopen : Open config read_fails faults fs = (fs', inr opened)) (Hsteps : rtc store_step opened store) :
  store_sound store.
Proof.
  apply Open_sound in Hopen. induction Hsteps as [store|store next last Hstep _ IH]; [done|].
  apply IH. by apply (step_kept _ _ Hstep).
Qed.

Lemma versioned_record store record :
  record_match (versioned store) record = versioned (record_match store record).
Proof. unfold versioned. change (st_path (record_match store record)) with (st_path store). by case_match. Qed.
Lemma versioned_twice store : versioned (versioned store) = versioned store.
Proof.
  unfold versioned. destruct (st_path store ≟ "") eqn:Hp; [by rewrite Hp|].
  cbn [st_path]. change (st_path (store <| st_data ::= ?f |>)) with (st_path store). by rewrite Hp.
Qed.

(** A match that is recorded again, by a retry with other faults, does not change the store:
    its statistics are not counted twice, even when the history had no room for it. *)
Theorem RecordMatch_retried now now' faults faults' fs fs' store state endedAt
    (Hended : endedAt ≠ 0) (Hnd : distinct_matches store) :
  let store' := (RecordMatch now faults fs store state endedAt).1.1 in
  (RecordMatch now' faults' fs' store' state endedAt).1.1 = store' ∧ distinct_matches store'.
Proof.
  cbv zeta. split; [|apply (step_kept store); [constructor|exact Hnd]].
  unfold RecordMatch, instant. case_bool_decide; [done|]. destruct (gs_GameOver state) as [gameOver|]; [|done].
  rewrite (bool_decide_false _ Hended), !persist_store.
  set (record := buildMatchRecord state gameOver endedAt).
  by rewrite versioned_record, versioned_twice, record_match_again.
Qed.

Lemma name_of_last id x name es :
  last (filter (λ n, n ≠ "") (mp_Name <$> (snd <$> es))) = Some name → foldl (step_name id) x es = name.
Proof.
  revert name. induction es as [|e es IH] using rev_ind; intros name; [done|].
  rewrite !fmap_app, filter_app, foldl_app. cbn [fmap list_fmap foldl]. intros Hlast.
  destruct (decide (mp_Name e.2 = "")) as [He|He].
  - rewrite filter_cons_False, filter_nil, app_nil_r in Hlast by (intros H; by apply H).
    rewrite (IH _ Hlast). unfold step_name. rewrite (bool_decide_true _ He). cbn [negb].
    rewrite bool_decide_false; [done|]. apply last_Some_elem_of in Hlast. by apply list_elem_of_filter in Hlast as [? _].
  - rewrite filter_cons_True, filter_nil, last_snoc in Hlast by done. injection Hlast as <-.
    unfold step_name. rewrite (bool_decide_false _ He). cbn [negb]. by rewrite (bool_decide_false _ He).
Qed.

(** The display name of a player with named records is the name in the oldest record of the
    history, after every match that is recorded: also that of somebody else, and also when the
    account was given a newer name in the meantime. *)
Theorem RecordMatch_display_name now faults fs store state endedAt id name
    (Hid : id ≠ "") (Hover : is_Some (gs_GameOver state)) (Hmatch : gs_MatchID state ≠ "") :
  let store' := (RecordMatch now faults fs store state endedAt).1.1 in
  last (filter (λ n, n ≠ "") (mp_Name <$> played id (v1_Matches (st_data store')))) = Some name →
  ac_DisplayName <$> v1_Accounts (st_data store') !! id = Some name.
Proof.
  cbv zeta. unfold RecordMatch. rewrite (bool_decide_false _ Hmatch). destruct Hover as [gameOver ->].
  rewrite persist_store, versioned_matches, versioned_accounts. rewrite record_match_data. cbn [st_data].
  rewrite recompute_lookup by done. set (data := recorded_data _ _).
  change (v1_Matches (recomputeStatsLocked data)) with (v1_Matches data). rewrite <-own_played.
  set (es := own id _). intros Hlast.
  assert (∀ a, ac_DisplayName (foldl (account_step id) a es) = name) as Hname.
  { intros a. rewrite fold_account. cbn [ac_DisplayName]. by apply name_of_last. }
  destruct (fresh_stats <$> _) as [a|]; [cbn; by rewrite Hname|].
  destruct es as [|e es'] eqn:Hes; [done|]. cbn [account_of fmap option_fmap option_map]. by rewrite Hname.
Qed.

Definition no_faults : Faults raw := mkFaults false None false false false.

Lemma persistLocked_written faults fs store store' fs' : st_path store ≠ "" →
  persistLocked faults fs store = (store', fs', None) →
  store' = versioned store ∧ ∃ text, encode_v1 (st_data store') = Some text ∧
    fs' !! st_path store = Some text ∧ fs' !! temp_path (st_path store) = None.
Proof.
  intros Hpath Hwritten. pose proof (temp_path_ne (st_path store)) as Hne.
  pose proof (persist_store faults fs store) as Hstore. rewrite Hwritten in Hstore. split; [exact Hstore|]. clear Hstore.
  revert Hwritten. unfold persistLocked. rewrite (bool_decide_false _ Hpath).
  set (next := store <| st_data ::= _ |>). change (st_path next) with (st_path store).
  destruct (encode_v1 (st_data next)) as [text|] eqn:Htext; [|done]. destruct (fails_mkdir faults); [done|].
  destruct (fails_write faults); [done|]. cbv zeta. destruct (_ && _); [done|]. destruct (fails_rename faults); [done|].
  intros [= <- <-]. exists text. split; [exact Htext|]. by simplify_map_eq.
Qed.

Lemma persist_again fs store text : st_path store ≠ "" →
  encode_v1 (st_data (versioned store)) = Some text →
  fs !! st_path store = Some text → fs !! temp_path (st_path store) = None →
  persistLocked no_faults fs store = (versioned store, fs, None).
Proof.
  intros Hpath. unfold versioned, persistLocked. rewrite (bool_decide_false _ Hpath).
  set (next := store <| st_data ::= _ |>). change (st_path next) with (st_path store). intros -> Hfile Htemp.
  cbn [fails_mkdir fails_write fails_remove fails_rename no_faults andb]. cbv zeta. do 2 f_equal.
  apply map_eq. intros path. pose proof (temp_path_ne (st_path store)) as Hne.
  destruct (decide (path = st_path store)) as [->|Hp]; [by rewrite lookup_insert_eq|rewrite lookup_insert_ne by done].
  destruct (decide (path = temp_path (st_path store))) as [->|Ht]; [by rewrite lookup_delete_eq|].
  by rewrite !lookup_delete_ne, lookup_insert_ne by done.
Qed.

Lemma load_current fs path text data : fs !! path = Some text →
  decode_v1 text = Some data ∧ raw_blank text = false ∧ probe_version text = Some (Some CurrentSchemaVersion) →
  v1_SchemaVersion data = CurrentSchemaVersion →
  NoDup (mr_MatchID <$> v1_Matches data) → in_history_order (v1_Matches data) →
  loadStoreFile false fs path = inr data.
Proof.
  intros Hfile (Hdecode & Hblank & Hprobe) Hversion Hnd Horder. unfold loadStoreFile, detectSchemaVersion.
  rewrite Hfile, Hblank, Hprobe. cbn [fmap option_fmap option_map default from_option].
  change (Z.to_nat (CurrentSchemaVersion - id CurrentSchemaVersion)) with O. cbn [migrate_from].
  change (CurrentSchemaVersion <? id CurrentSchemaVersion) with false. cbv iota.
  rewrite Hdecode, (sort_sorted _ Hnd Horder), <-Hversion. by destruct data.
Qed.

(** C33: A store that is opened on the file that recording a match has written is the store that
    wrote it. *)
Theorem Open_RecordMatch now faults fs store state endedAt store' fs'
    (Hwritten : RecordMatch now faults fs store state endedAt = (store', fs', None))
    (Hpath : st_path store ≠ "") (Htrim : TrimSpace (st_path store) = st_path store)
    (Hcap : 0 <= st_maxMatchHistory store) (Hnd : distinct_matches store)
    (Hjson : ∀ text, encode_v1 (st_data store') = Some text →
       decode_v1 text = Some (st_data store') ∧ raw_blank text = false ∧
       probe_version text = Some (Some CurrentSchemaVersion)) :
  Open (mkConfig (st_path store) (st_maxMatchHistory store)) false no_faults fs' = (fs', inr store').
Proof.
  unfold RecordMatch in Hwritten. case_bool_decide; [done|].
  destruct (gs_GameOver state) as [gameOver|]; [|done]. set (record := buildMatchRecord _ _ _) in *.
  assert (st_path (record_match store record) ≠ "") as Hpath' by exact Hpath.
  destruct (persistLocked_written _ _ _ _ _ Hpath' Hwritten) as (-> & text & Htext & Hfile & Htemp).
  pose proof (record_match_sound store record) as [Horder Hbound _].
  pose proof (record_match_distinct store record Hnd) as Hdistinct.
  change (st_path (record_match store record)) with (st_path store) in *.
  assert (versioned (record_match store record) = mkStore (st_path store) (st_maxMatchHistory store)
    (recomputeStatsLocked (mkFileV1 CurrentSchemaVersion (v1_Accounts (st_data store)) (recorded store record)))) as Hv.
  { unfold versioned. change (st_path (record_match store record)) with (st_path store).
    by rewrite (bool_decide_false _ Hpath). }
  set (data := mkFileV1 _ _ _) in Hv. specialize (Hjson text Htext). rewrite Hv in Htext, Hjson |- *. cbn [st_data] in Htext, Hjson.
  unfold Open, normalized. cbn [cf_Path cf_MaxMatchHistory]. rewrite Htrim.
  destruct (_ <? 0) eqn:Hneg; bool_props; [lia|]. rewrite (bool_decide_false _ Hpath).
  rewrite (load_current _ _ _ _ Hfile Hjson eq_refl Hdistinct Horder). cbn [st_maxMatchHistory].
  assert (recomputeStatsLocked data <| v1_Matches ::= enforceHistoryCapLocked (st_maxMatchHistory store) |> =
    recomputeStatsLocked data) as ->.
  { change (mkFileV1 CurrentSchemaVersion (v1_Accounts (recomputeStatsLocked data))
      (enforceHistoryCapLocked (st_maxMatchHistory store) (v1_Matches (st_data (record_match store record)))) =
      recomputeStatsLocked data). rewrite cap_id by exact Hbound. reflexivity. }
  rewrite recompute_again. set (s := mkStore _ _ _ <| st_data := _ |>).
  assert (s = mkStore (st_path store) (st_maxMatchHistory store) (recomputeStatsLocked data)) as Hs' by reflexivity. clearbody s. subst s.
  set (s := mkStore _ _ _).
  assert (versioned s = s) as Hs by (unfold versioned; change (st_path s) with (st_path store); by rewrite (bool_decide_false _ Hpath)).
  rewrite (persist_again fs' s text); [by rewrite Hs|exact Hpath|by rewrite Hs|exact Hfile|exact Htemp].
Qed.
End store_lemmas.

(** ** A store at work

    The text of a file is its data, and a match between two players has ended twice, the second
    time after one of them took a new name. *)

#[local] Instance demo_codec : StoreCodec := {|
  raw := storeFileV1;
  raw_blank _ := false;
  encode_v1 := Some;
  decode_v1 := Some;
  decode_v0 _ := None;
  probe_version data := Some (Some (v1_SchemaVersion data));
|}.

Definition demo_player (id name : string) (alive : bool) : PlayerState :=
  zero_PlayerState <| ps_ID := id |> <| ps_Name := name |> <| ps_Alive := alive |>.

Definition demo_over (matchID : MatchID) (annName : string) : GameState :=
  zero_GameState <| gs_MatchID := matchID |> <| gs_TickID := 90 |>
    <| gs_Players := [demo_player "bob" "Bob" false; demo_player "ann" annName true] |>
    <| gs_GameOver := Some (mkGameOver WinReasonWardenDied 90 ["ann"] "") |>.

Definition demo_store : Store := mkStore "db.json" 2 empty_file.
Definition demo_after_one : Store * gmap string raw * option store_error :=
  RecordMatch 7 no_faults ∅ demo_store (demo_over "m1" "Ann") 10.
Definition demo_renamed : Store * gmap string raw * option store_error :=
  UpsertAccount 7 no_faults demo_after_one.1.2 demo_after_one.1.1 "ann" "Anna" 20.
Definition demo_after_two : Store * gmap string raw * option store_error :=
  RecordMatch 7 no_faults demo_renamed.1.2 demo_renamed.1.1 (demo_over "m2" "Anna") 30.

Lemma demo_distinct : distinct_matches demo_store.
Proof. constructor. Qed.

Lemma persistLocked_spec_witness :
  (persistLocked (mkFaults false None false true false) demo_after_one.1.2 demo_after_one.1.1).1.2 !! "db.json" = None.
Proof.
  pose proof (persistLocked_spec (mkFaults false None false true false) demo_after_one.1.2 demo_after_one.1.1
    ltac:(by vm_compute)) as H.
  destruct (persistLocked _ _ _) as [[s fs] err] eqn:Hp. destruct H as (_ & _ & H).
  assert (err = Some ErrRename) as -> by (assert (err = (s, fs, err).2) as -> by done; rewrite <-Hp; by vm_compute).
  exact H.
Defined.

Lemma store_history_witness : store_sound demo_after_two.1.1.
Proof.
  apply (store_history (mkConfig "db.json" 2) false no_faults ∅ (Open (mkConfig "db.json" 2) false no_faults ∅).1
    (versioned demo_store)).
  - by vm_compute.
  - eapply rtc_l; [apply (step_match 7 no_faults ∅ _ (demo_over "m1" "Ann") 10)|].
    eapply rtc_l; [apply (step_account 7 no_faults demo_after_one.1.2 _ "ann" "Anna" 20)|].
    eapply rtc_l; [apply (step_match 7 no_faults demo_renamed.1.2 _ (demo_over "m2" "Anna") 30)|].
    assert ((RecordMatch 7 no_faults demo_renamed.1.2 (UpsertAccount 7 no_faults demo_after_one.1.2
      (RecordMatch 7 no_faults ∅ (versioned demo_store) (demo_over "m1" "Ann") 10).1.1 "ann" "Anna" 20).1.1
      (demo_over "m2" "Anna") 30).1.1 = demo_after_two.1.1) as -> by by vm_compute.
    constructor.
Defined.

Lemma RecordMatch_retried_witness :
  (RecordMatch 8 no_faults ∅ demo_after_one.1.1 (demo_over "m1" "Ann") 10).1.1 = demo_after_one.1.1.
Proof. apply (RecordMatch_retried 7 8 no_faults no_faults ∅ ∅ demo_store (demo_over "m1" "Ann") 10 ltac:(done) demo_distinct). Defined.

(** Ann took the name Anna, and played under it; the store calls her Ann. *)
Lemma RecordMatch_display_name_witness :
  ac_DisplayName <$> v1_Accounts (st_data demo_renamed.1.1) !! "ann" = Some "Anna" ∧
  ac_DisplayName <$> v1_Accounts (st_data demo_after_two.1.1) !! "ann" = Some "Ann".
Proof.
  split; [by vm_compute|].
  apply (RecordMatch_display_name 7 no_faults demo_renamed.1.2 demo_renamed.1.1 (demo_over "m2" "Anna") 30 "ann" "Ann");
    [done|by eexists|done|by vm_compute].
Defined.

Lemma Open_RecordMatch_witness :
  Open (mkConfig "db.json" 2) false no_faults demo_after_one.1.2 = (demo_after_one.1.2, inr demo_after_one.1.1).
Proof.
  apply (Open_RecordMatch 7 no_faults ∅ demo_store (demo_over "m1" "Ann") 10 demo_after_one.1.1 demo_after_one.1.2).
  - by vm_compute.
  - done.
  - by vm_compute.
  - done.
  - apply demo_distinct.
  - intros text [= <-]. by vm_compute.
Defined.
End Persistence.
