(* ===== verification/Protocol.v ===== *)
(** * The messages between client and server

    [internal/shared/protocol/messages.go].  A message travels in an envelope whose payload is
    JSON.  What a payload decodes to, and which messages can be encoded, is the class [Wire]:
    the server's messages are values here, and an envelope that the server sends is its
    message.  The messages the server never sends have no constructor. *)

From S2P Require Import Prelude Float32 Model GoStrings Session InputQueue Matchmaking.

#[local] Open Scope Z_scope.

(** ** Kinds of message *)

Abbreviation MessageType := string (only parsing).
Definition MsgJoinGame : MessageType := "join_game".
Definition MsgListLobbies : MessageType := "list_lobbies".
Definition MsgRequestReplay : MessageType := "request_replay".
Definition MsgLeaveMatch : MessageType := "leave_match".
Definition MsgPlayerInput : MessageType := "player_input".
Definition MsgAbilityUse : MessageType := "ability_use".
Definition MsgCardUse : MessageType := "card_use".
Definition MsgPing : MessageType := "ping".
Definition MsgAckSnapshot : MessageType := "ack_snapshot".
Definition MsgJoinAccepted : MessageType := "join_accepted".
Definition MsgLobbyList : MessageType := "lobby_list".
Definition MsgReplayLog : MessageType := "replay_log".
Definition MsgGameStart : MessageType := "game_start".
Definition MsgSnapshot : MessageType := "snapshot".
Definition MsgPong : MessageType := "pong".
Definition MsgError : MessageType := "error".

Record Envelope := mkEnvelope {
  en_Version : Z;
  en_Type : MessageType;
  en_RequestID : string;
  en_MatchID : MatchID;
  en_PlayerID : PlayerID;
  en_Payload : string;
}.
#[export] Instance Envelope_eta : RecordEta Envelope := λ r,
  mkEnvelope (en_Version r) (en_Type r) (en_RequestID r) (en_MatchID r) (en_PlayerID r) (en_Payload r).

(** ** What clients send *)

Record JoinGameRequest := mkJoinRequest {
  jr_PlayerName : string;
  jr_PreferredMatchID : MatchID;
  jr_PreferredRegion : string;
  jr_RegionLatencyMS : gmap string Z;
  jr_Spectator : bool;
  jr_SpectatorFollowPlayerID : PlayerID;
  jr_SpectatorFollowSlot : Z;
  jr_SessionToken : string;
  jr_ClientBuild : string;
}.
#[export] Instance JoinGameRequest_eta : RecordEta JoinGameRequest := λ r,
  mkJoinRequest (jr_PlayerName r) (jr_PreferredMatchID r) (jr_PreferredRegion r) (jr_RegionLatencyMS r)
    (jr_Spectator r) (jr_SpectatorFollowPlayerID r) (jr_SpectatorFollowSlot r) (jr_SessionToken r) (jr_ClientBuild r).

Abbreviation SessionKind := string (only parsing).
Definition SessionKindPlayer : SessionKind := "player".
Definition SessionKindSpectator : SessionKind := "spectator".

Record ListLobbiesRequest := mkListRequest {
  lr_IncludeRunning : bool;
  lr_PreferredRegion : string;
  lr_RegionLatencyMS : gmap string Z;
  lr_SessionToken : string;
}.

Record ReplayLogRequest := mkReplayRequest { rq_MatchID : MatchID }.
Record PlayerInputMessage := mkInputMessage { pi_Command : InputCommand }.
Record AbilityUseMessage := mkAbilityMessage { au_ClientSeq : Z; au_Payload : AbilityUsePayload }.
Record CardUseMessage := mkCardMessage { cu_ClientSeq : Z; cu_Payload : CardUsePayload }.
Record PingMessage := mkPing { pg_ClientSendUnixMS : Z }.
Record SnapshotAckMessage := mkAckMessage { ak_ClientTickID : Z; ak_LastProcessedClientSeq : Z }.

(** ** What the server sends *)

Record JoinGameAccepted := mkAccepted {
  ja_MatchID : MatchID;
  ja_PlayerID : PlayerID;
  ja_MinPlayers : Z;
  ja_MaxPlayers : Z;
  ja_TickRateHz : Z;
  ja_SessionKind : SessionKind;
  ja_CanSendCommands : bool;
  ja_SpectatorFollowPlayerID : PlayerID;
  ja_SpectatorFollowSlot : Z;
  ja_SpectatorSlotCount : Z;
}.

Record PongMessage := mkPong { po_ClientSendUnixMS : Z; po_ServerSendUnixMS : Z }.

Record LobbySummary := mkLobbySummary {
  sl_MatchID : MatchID;
  sl_Region : string;
  sl_Status : MatchStatus;
  sl_PlayerCount : Z;
  sl_MinPlayers : Z;
  sl_MaxPlayers : Z;
  sl_OpenSlots : Z;
  sl_Joinable : bool;
  sl_ReadyToStart : bool;
  sl_CreatedAt : Z;
}.

Record ReplayInputEntry := mkReplayInput {
  ri_AcceptedTick : Z;
  ri_IngressSeq : Z;
  ri_AcceptedAt : Z;
  ri_Command : InputCommand;
}.

Record ReplayLogMessage := mkReplayLog {
  rl_MatchID : MatchID;
  rl_Status : MatchStatus;
  rl_TickRateHz : Z;
  rl_CreatedAt : Z;
  rl_StartedAt : option Z;
  rl_EndedAt : option Z;
  rl_EndedReason : string;
  rl_Entries : list ReplayInputEntry;
}.

Record GameStartMessage := mkGameStart {
  gt_MatchID : MatchID;
  gt_LocalPlayerID : PlayerID;
  gt_StartTickID : Z;
  gt_InitialSnapshot : Snapshot;
}.

Abbreviation ErrorCode := string (only parsing).
Definition CodeUnknown : ErrorCode := "unknown".
Definition CodeInvalidPayload : ErrorCode := "invalid_payload".
Definition CodeUnsupportedVersion : ErrorCode := "unsupported_version".
Definition CodeUnauthorized : ErrorCode := "unauthorized".
Definition CodeRateLimited : ErrorCode := "rate_limited".
Definition CodeOutOfDateCommand : ErrorCode := "out_of_date_command".
Definition CodeMatchNotFound : ErrorCode := "match_not_found".

(** The text of an error, before it is printed: a literal, or the error of another part. *)
Inductive complaint :=
  | Says (text : string)
  | Exceeds (field : string) (limit : Z)
  | WrongVersion (got want : Z)
  | OfGame (err : game_error)
  | OfRequest (err : Matchmaking.request_error)
  | Because (text : string) (cause : complaint).

Record ErrorMessage := mkError {
  em_Code : ErrorCode;
  em_Message : complaint;
  em_Retryable : bool;
}.

Inductive server_message :=
  | JoinAccepted (payload : JoinGameAccepted)
  | LobbyList (lobbies : list LobbySummary)
  | ReplayLogOf (payload : ReplayLogMessage)
  | GameStart (payload : GameStartMessage)
  | SnapshotOf (snapshot : Snapshot)
  | Pong (payload : PongMessage)
  | Error (payload : ErrorMessage).

Definition message_type (message : server_message) : MessageType :=
  match message with
  | JoinAccepted _ => MsgJoinAccepted
  | LobbyList _ => MsgLobbyList
  | ReplayLogOf _ => MsgReplayLog
  | GameStart _ => MsgGameStart
  | SnapshotOf _ => MsgSnapshot
  | Pong _ => MsgPong
  | Error _ => MsgError
  end.

(** ** JSON *)

(** Each decoder is [json.Unmarshal] into its type; [None] is an error. *)
Class Wire := {
  decode_envelope : string → option Envelope;
  decode_join : string → option JoinGameRequest;
  decode_list_lobbies : string → option ListLobbiesRequest;
  decode_request_replay : string → option ReplayLogRequest;
  decode_player_input : string → option PlayerInputMessage;
  decode_ability_use : string → option AbilityUseMessage;
  decode_card_use : string → option CardUseMessage;
  decode_ping : string → option PingMessage;
  decode_ack : string → option SnapshotAckMessage;
  marshal_ability : AbilityUsePayload → option string;
  marshal_card : CardUsePayload → option string;
  (** [json.Marshal] has no error for the message. *)
  encodable : server_message → bool;
}.

(** An absent payload is the zero value. *)
Definition DecodePayload {T} (decode : string → option T) (zero : T) (envelope : Envelope) : option T :=
  if String.length (en_Payload envelope) ≟ 0%nat then Some zero else decode (en_Payload envelope).

Definition zero_join : JoinGameRequest := mkJoinRequest "" "" "" ∅ false "" 0 "" "".
Definition zero_list : ListLobbiesRequest := mkListRequest false "" ∅ "".
Definition zero_replay : ReplayLogRequest := mkReplayRequest "".
Definition zero_input : PlayerInputMessage := mkInputMessage zero_InputCommand.
Definition zero_ability : AbilityUseMessage := mkAbilityMessage 0 zero_AbilityUsePayload.
Definition zero_card : CardUseMessage := mkCardMessage 0 zero_CardUsePayload.
Definition zero_ping : PingMessage := mkPing 0.
Definition zero_ack : SnapshotAckMessage := mkAckMessage 0 0.

(** The snapshots that a message carries. *)
Definition carried_snapshot (message : server_message) : option Snapshot :=
  match message with
  | GameStart payload => Some (gt_InitialSnapshot payload)
  | SnapshotOf snapshot => Some snapshot
  | _ => None
  end.
