(* ===== verification/Network.v ===== *)
(** * The game server's connections

    [internal/server/networking/server.go], with [config.go] and [types.go]: the registry of
    the connections, the handlers of the messages clients send, and the dispatch of snapshots.
    The server calls the match manager of [Session], [Lifecycle] and [InputQueue], the
    matchmaker of [Matchmaking] and the token service of [Auth].

    A connection is an object that its reader, its writer and the server's maps share:
    [sv_objects] is the store of all the objects ever made, [sv_connections] the identifiers
    in the server's map.  A handler keeps the identifier and reads the object when the code
    does, so what another handler or a nested call does to it is seen.  The channel of a
    connection is closed exactly when its state is disconnected; what it holds can still be
    written.  [closeOnce] has no counterpart: a second [close] finds no entry in the map.

    Each handler, each round of the two pumps and each dispatch is one step; the clock answers
    the same instant throughout a step, and the order in which Go ranges over a map is an
    argument.  The sockets, the timers and the upgrade of a request to a socket are not
    modelled. *)

From S2P Require Import Prelude Float32 Model GoStrings Access Items Phase Visibility Session InputQueue Lifecycle Matchmaking Auth Protocol.
From Stdlib Require Import Ascii.

#[local] Open Scope Z_scope.

Module Network.

(** ** Configuration *)

Record Config := mkConfig {
  nc_ReadLimitBytes : Z;
  nc_WriteTimeout : Z;
  nc_PongTimeout : Z;
  nc_PingInterval : Z;
  nc_SendQueueDepth : Z;
  nc_RequireAuth : bool;
  nc_AuthSecret : string;
  nc_AuthClockSkew : Z;
}.

Definition DefaultConfig : Config :=
  mkConfig (2 ^ 20) (5 * 10 ^ 9) (60 * 10 ^ 9) (30 * 10 ^ 9) 64 false "" (5 * 10 ^ 9).

Definition positive_or (value fallback : Z) : Z := if value <=? 0 then fallback else value.

Definition normalized (c : Config) : Config :=
  mkConfig (positive_or (nc_ReadLimitBytes c) (nc_ReadLimitBytes DefaultConfig))
    (positive_or (nc_WriteTimeout c) (nc_WriteTimeout DefaultConfig))
    (positive_or (nc_PongTimeout c) (nc_PongTimeout DefaultConfig))
    (positive_or (nc_PingInterval c) (nc_PingInterval DefaultConfig))
    (positive_or (nc_SendQueueDepth c) (nc_SendQueueDepth DefaultConfig))
    (nc_RequireAuth c) (TrimSpace (nc_AuthSecret c))
    (positive_or (nc_AuthClockSkew c) (nc_AuthClockSkew DefaultConfig)).

Definition maxJoinPlayerNameLength : Z := 32.
Definition maxJoinPlayerIDLength : Z := 64.
Definition maxPreferredMatchIDLength : Z := 64.
Definition maxJoinClientBuildLength : Z := 64.
Definition maxJoinSessionTokenLength : Z := 4096.
Definition maxEnvelopeRequestIDLength : Z := 128.
Definition ProtocolVersion : Z := 1.

(** ** Connections and events *)

Abbreviation ConnectionState := string (only parsing).
Definition ConnectionStateConnected : ConnectionState := "connected".
Definition ConnectionStateDisconnected : ConnectionState := "disconnected".

Definition ConnectionEventConnected : string := "connected".
Definition ConnectionEventDisconnected : string := "disconnected".
Definition ConnectionEventMessageIn : string := "message_in".
Definition ConnectionEventMessageOut : string := "message_out".
Definition ConnectionEventJoinedMatch : string := "joined_match".
Definition ConnectionEventDeliveryError : string := "delivery_error".
Definition ConnectionEventProtocolError : string := "protocol_error".

Record ConnectionEvent := mkConnEvent {
  ce_Type : string;
  ce_ConnectionID : string;
  ce_MessageType : MessageType;
  ce_PlayerID : PlayerID;
  ce_MatchID : MatchID;
  ce_At : Z;
  ce_Detail : complaint;
}.

Record wsConnection := mkConn {
  wc_id : string;
  wc_send : list server_message;
  wc_remoteAddr : string;
  wc_connectedAt : Z;
  wc_lastSeenAt : Z;
  wc_lastSnapshotTick : Z;
  wc_lastClientAckTick : Z;
  wc_lastClientAckClientSeq : Z;
  wc_playerID : PlayerID;
  wc_viewerID : PlayerID;
  wc_matchID : MatchID;
  wc_sessionKind : SessionKind;
  wc_authSubject : string;
  wc_authScope : string;
  wc_state : ConnectionState;
}.
#[export] Instance wsConnection_eta : RecordEta wsConnection := λ r,
  mkConn (wc_id r) (wc_send r) (wc_remoteAddr r) (wc_connectedAt r) (wc_lastSeenAt r) (wc_lastSnapshotTick r)
    (wc_lastClientAckTick r) (wc_lastClientAckClientSeq r) (wc_playerID r) (wc_viewerID r) (wc_matchID r)
    (wc_sessionKind r) (wc_authSubject r) (wc_authScope r) (wc_state r).

Definition zero_conn : wsConnection := mkConn "" [] "" 0 0 0 0 0 "" "" "" "" "" "" "".

Record Server := mkServer {
  sv_manager : Manager;
  sv_matchmaker : Matchmaking.Service;
  sv_config : Config;
  sv_auth : option Auth.TokenService;
  sv_authErr : option Auth.auth_error;
  sv_nextConnectionSequence : Z;
  sv_objects : gmap string wsConnection;
  sv_connections : gset string;
  sv_playerToConnection : gmap PlayerID string;
  sv_matchToConnections : gmap MatchID (gset string);
  sv_events : list ConnectionEvent;
}.
#[export] Instance Server_eta : RecordEta Server := λ r,
  mkServer (sv_manager r) (sv_matchmaker r) (sv_config r) (sv_auth r) (sv_authErr r) (sv_nextConnectionSequence r)
    (sv_objects r) (sv_connections r) (sv_playerToConnection r) (sv_matchToConnections r) (sv_events r).

Definition NewServer (manager : Manager) (config : Config) : Server :=
  let config := normalized config in
  let server := mkServer manager Matchmaking.NewService config None None 0 ∅ ∅ ∅ ∅ [] in
  if nc_RequireAuth config then
    match Auth.NewTokenService (nc_AuthSecret config) (nc_AuthClockSkew config) with
    | inr tokens => server <| sv_auth := Some tokens |>
    | inl err => server <| sv_authErr := Some err |>
    end
  else server.

Definition conn_of (s : Server) (id : string) : wsConnection := default zero_conn (sv_objects s !! id).
Definition update_conn (id : string) (f : wsConnection → wsConnection) (s : Server) : Server :=
  s <| sv_objects ::= alter f id |>.
Definition appendEvent (event : ConnectionEvent) (s : Server) : Server :=
  s <| sv_events ::= λ events, events ++ [event] |>.

(** ** Registering and closing *)

Definition connection_id (n : Z) : string := "conn-" +:+ Itoa06 n.

Definition registerConnection (now : Z) (remoteAddr : string) (s : Server) : Server * string :=
  let s := s <| sv_nextConnectionSequence ::= λ n, u64 (n + 1) |> in
  let id := connection_id (sv_nextConnectionSequence s) in
  let conn := mkConn id [] remoteAddr now now 0 0 0 "" "" "" "" "" "" ConnectionStateConnected in
  let s := s <| sv_objects ::= <[id := conn]> |> <| sv_connections ::= λ ids, {[id]} ∪ ids |> in
  (appendEvent (mkConnEvent ConnectionEventConnected id "" "" "" now (Says remoteAddr)) s, id).

(** A set that becomes empty is dropped. *)
Definition drop_member (matchID : MatchID) (id : string) (sets : gmap MatchID (gset string)) :
    gmap MatchID (gset string) :=
  match sets !! matchID with
  | None => sets
  | Some ids =>
      let ids := ids ∖ {[id]} in
      if size ids ≟ 0%nat then delete matchID sets else <[matchID := ids]> sets
  end.

Definition unregisterConnection (now : Z) (id : string) (reason : string) (s : Server) : Server :=
  if negb (bool_decide (id ∈ sv_connections s)) then s
  else
    let conn := conn_of s id in
    let s := s <| sv_connections ::= λ ids, ids ∖ {[id]} |> in
    let s :=
      if (wc_playerID conn ≠? "") && bool_decide (sv_playerToConnection s !! wc_playerID conn = Some id)
      then s <| sv_playerToConnection ::= delete (wc_playerID conn) |> else s in
    let s := if wc_matchID conn ≠? "" then s <| sv_matchToConnections ::= drop_member (wc_matchID conn) id |> else s in
    let s := update_conn id (λ c, c <| wc_state := ConnectionStateDisconnected |> <| wc_lastSeenAt := now |>) s in
    let s := appendEvent (mkConnEvent ConnectionEventDisconnected id "" (wc_playerID conn) (wc_matchID conn) now
      (Says (TrimSpace reason))) s in
    if (wc_playerID conn ≠? "") && (wc_matchID conn ≠? "")
    then s <| sv_manager ::= λ m, (SetPlayerConnected m (wc_matchID conn) (wc_playerID conn) false).1 |> else s.

Definition close := unregisterConnection.

Inductive network_error := ErrConnectionNotFound | ErrSendQueueFull | ErrNotEncodable.

Definition CloseConnection (now : Z) (id reason : string) (s : Server) : Server * option network_error :=
  if bool_decide (id ∈ sv_connections s) then (close now id reason s, None) else (s, Some ErrConnectionNotFound).

Definition touchConnection (now : Z) (id : string) (s : Server) : Server :=
  if bool_decide (id ∈ sv_connections s) then update_conn id (λ c, c <| wc_lastSeenAt := now |>) s else s.

Definition updateSnapshotCursor (id : string) (tickID : Z) (s : Server) : Server :=
  if bool_decide (id ∈ sv_connections s) then
    update_conn id (λ c, if wc_lastSnapshotTick c <? tickID then c <| wc_lastSnapshotTick := tickID |> else c) s
  else s.

(** Sorted by identifier. *)
Definition connectionsForMatch (s : Server) (matchID : MatchID) : list string :=
  sort_strings (elements (default ∅ (sv_matchToConnections s !! matchID) ∩ sv_connections s)).

(** [bindConnection] up to the closing of the stale connections: the server, and these. *)
Definition clear_binding (c : wsConnection) : wsConnection :=
  c <| wc_playerID := "" |> <| wc_viewerID := "" |> <| wc_matchID := "" |> <| wc_sessionKind := "" |>
    <| wc_authSubject := "" |> <| wc_authScope := "" |>.

(** The connection that another one takes a player over from. *)
Definition displace (previous : string) (s : Server) : Server :=
  let conn := conn_of s previous in
  let s := if wc_matchID conn ≠? ""
    then s <| sv_matchToConnections ::= drop_member (wc_matchID conn) previous |> else s in
  update_conn previous clear_binding s.

Definition release_player (id : string) (playerID : PlayerID) (s : Server) : Server * list string :=
  if playerID ≟ "" then (s, [])
  else match sv_playerToConnection s !! playerID with
  | None => (s, [])
  | Some previous =>
      if previous ≟ id then (s, [])
      else
        let '(s, stale) :=
          if bool_decide (previous ∈ sv_connections s) then (displace previous s, [previous]) else (s, []) in
        (s <| sv_playerToConnection ::= delete playerID |>, stale)
  end.

Definition bind (id : string) (matchID : MatchID) (playerID viewerID : PlayerID) (sessionKind : SessionKind)
    (authSubject authScope : string) (s : Server) : Server :=
  let conn := conn_of s id in
  let s := if wc_matchID conn ≠? "" then s <| sv_matchToConnections ::= drop_member (wc_matchID conn) id |> else s in
  let s := if wc_playerID conn ≠? "" then s <| sv_playerToConnection ::= delete (wc_playerID conn) |> else s in
  let s := update_conn id (λ c, c <| wc_matchID := matchID |> <| wc_playerID := playerID |> <| wc_viewerID := viewerID |>
    <| wc_sessionKind := sessionKind |> <| wc_authSubject := TrimSpace authSubject |> <| wc_authScope := authScope |>
    <| wc_lastSnapshotTick := 0 |> <| wc_lastClientAckTick := 0 |> <| wc_lastClientAckClientSeq := 0 |>) s in
  let s := if playerID ≠? "" then s <| sv_playerToConnection ::= <[playerID := id]> |> else s in
  s <| sv_matchToConnections ::= λ sets, <[matchID := {[id]} ∪ default ∅ (sets !! matchID)]> sets |>.

Definition bindConnection (now : Z) (id : string) (matchID : MatchID) (playerID viewerID : PlayerID)
    (sessionKind : SessionKind) (authSubject authScope : string) (s : Server) : Server :=
  if negb (bool_decide (id ∈ sv_connections s)) then s
  else
    let '(s, stale) := release_player id playerID s in
    let s := bind id matchID playerID viewerID sessionKind authSubject authScope s in
    let s := appendEvent (mkConnEvent ConnectionEventJoinedMatch id "" playerID matchID now (Says sessionKind)) s in
    let s := foldl (λ s staleID, (CloseConnection now staleID "session_rebound" s).1) s stale in
    if (playerID ≠? "") && (matchID ≠? "")
    then s <| sv_manager ::= λ m, (SetPlayerConnected m matchID playerID true).1 |> else s.

Definition setConnectionAuthContext (id : string) (subject scope : string) (s : Server) : Server :=
  if bool_decide (id ∈ sv_connections s) then
    update_conn id (λ c, c <| wc_authSubject := TrimSpace subject |> <| wc_authScope := scope |>) s
  else s.

(** ** Validation *)

(** [strings.EqualFold] with an ASCII word: letters, and the two runes that fold to one. *)
Fixpoint Fold (s : string) : string :=
  match s with
  | EmptyString => EmptyString
  | String "197" (String "191" s) => String "s" (Fold s)
  | String "226" (String "132" (String "170" s)) => String "k" (Fold s)
  | String c s => String (lower_ascii c) (Fold s)
  end.
Definition EqualFold (s word : string) : bool := Fold s ≟ Fold word.

Definition length_over (limit : Z) (s : string) : bool := limit <? Z.of_nat (String.length s).

Definition isSafeIdentifier (value : string) : bool :=
  forallb Matchmaking.safe_char (String.list_ascii_of_string value).

Definition validatePlayerID (playerID : string) : option complaint :=
  let trimmed := TrimSpace playerID in
  if trimmed ≟ "" then Some (Says "player_id is required")
  else if length_over maxJoinPlayerIDLength trimmed then Some (Exceeds "player_id" maxJoinPlayerIDLength)
  else if negb (isSafeIdentifier trimmed) then Some (Says "player_id contains unsupported characters")
  else None.

Definition validateInboundEnvelope (envelope : Envelope) : option complaint :=
  if en_Version envelope ≠? ProtocolVersion then Some (WrongVersion (en_Version envelope) ProtocolVersion)
  else if TrimSpace (en_Type envelope) ≟ "" then Some (Says "message type is required")
  else if length_over maxEnvelopeRequestIDLength (TrimSpace (en_RequestID envelope))
  then Some (Exceeds "request_id" maxEnvelopeRequestIDLength)
  else None.

Definition validateJoinRequest (order : list string) (req : JoinGameRequest) : option complaint :=
  let playerName := TrimSpace (jr_PlayerName req) in
  if negb (jr_Spectator req) && (playerName ≟ "") then Some (Says "player_name is required")
  else if length_over maxJoinPlayerNameLength playerName then Some (Exceeds "player_name" maxJoinPlayerNameLength)
  else if length_over maxPreferredMatchIDLength (TrimSpace (jr_PreferredMatchID req))
  then Some (Exceeds "preferred_match_id" maxPreferredMatchIDLength)
  else if length_over maxJoinClientBuildLength (TrimSpace (jr_ClientBuild req))
  then Some (Exceeds "client_build" maxJoinClientBuildLength)
  else if length_over maxJoinSessionTokenLength (TrimSpace (jr_SessionToken req))
  then Some (Exceeds "session_token" maxJoinSessionTokenLength)
  else if negb (jr_Spectator req) && ((jr_SpectatorFollowPlayerID req ≠? "") || (0 <? jr_SpectatorFollowSlot req))
  then Some (Says "spectator follow options require spectator=true")
  else if MaxPlayers <? jr_SpectatorFollowSlot req then Some (Exceeds "spectator_follow_slot" MaxPlayers)
  else match (if jr_SpectatorFollowPlayerID req ≠? ""
              then validatePlayerID (TrimSpace (jr_SpectatorFollowPlayerID req)) else None) with
  | Some err => Some (Because "spectator_follow_player_id is invalid" err)
  | None =>
      OfRequest <$> Matchmaking.ValidateQueueRequest order
        (Matchmaking.mkRequest "" (jr_PreferredRegion req) (jr_RegionLatencyMS req) [])
  end.

Section server.
Context `{Hwire : !Wire, Hdec : !PayloadDecoder, Htokens : !Auth.TokenPrimitives}.

(** ** Sending *)

(** A message is left in the queue of the connection; a queue that is full closes it. *)
Definition enqueueEnvelope (now : Z) (id : string) (message : server_message) (s : Server) :
    Server * option network_error :=
  let conn := conn_of s id in
  let failed detail := mkConnEvent ConnectionEventDeliveryError id (message_type message) (wc_playerID conn)
    (wc_matchID conn) now (Says detail) in
  if wc_state conn ≠? ConnectionStateConnected then
    (appendEvent (failed "send_on_closed_channel") s, Some ErrConnectionNotFound)
  else if Z.of_nat (length (wc_send conn)) <? nc_SendQueueDepth (sv_config s) then
    (update_conn id (λ c, c <| wc_send ::= λ queue, queue ++ [message] |>) s, None)
  else (close now id "send_queue_full" (appendEvent (failed "send_queue_full") s), Some ErrSendQueueFull).

Definition sendTyped (now : Z) (id : string) (message : server_message) (s : Server) :
    Server * option network_error :=
  if encodable message then enqueueEnvelope now id message s else (s, Some ErrNotEncodable).

Definition sendProtocolError (now : Z) (id : string) (code : ErrorCode) (message : complaint) (s : Server) : Server :=
  (sendTyped now id (Error (mkError code message false)) s).1.

Definition mapDomainErrorCode (err : game_error) : ErrorCode :=
  match err with
  | ErrInvalidPlayerID | ErrInvalidPlayerName => CodeInvalidPayload
  | ErrMatchNotFound => CodeMatchNotFound
  | ErrMatchFull => CodeRateLimited
  | ErrMatchNotJoinable | ErrPlayerAlreadyInMatch | ErrPlayerNotFound => CodeUnauthorized
  | ErrMatchNotRunning | ErrInputPlayerMismatch => CodeUnauthorized
  | ErrInvalidInputCommand | ErrInvalidInputPayload => CodeInvalidPayload
  | ErrInputRateLimited => CodeRateLimited
  | ErrDuplicateInput | ErrInputTooLateDropped => CodeOutOfDateCommand
  | _ => CodeUnknown
  end.

Definition domain_error (now : Z) (id : string) (err : game_error) : Server → Server :=
  sendProtocolError now id (mapDomainErrorCode err) (OfGame err).

(** Every connection in turn, until one fails. *)
Fixpoint broadcast (now : Z) (message : server_message) (ids : list string) (s : Server) :
    Server * option network_error :=
  match ids with
  | [] => (s, None)
  | id :: ids =>
      match enqueueEnvelope now id message s with
      | (s, Some err) => (s, Some err)
      | (s, None) => broadcast now message ids s
      end
  end.

Definition BroadcastToMatch (now : Z) (matchID : MatchID) (message : server_message) (s : Server) :
    Server * option network_error :=
  if encodable message then broadcast now message (connectionsForMatch s matchID) s else (s, Some ErrNotEncodable).

(** ** Who may do what *)

Definition zero_claims : Auth.Claims := Auth.mkClaims "" "" "" "" 0 0.
Definition unix_seconds (now : Z) : Z := now / 10 ^ 9.

Definition verifySessionTokenForScope (now : Z) (s : Server) (sessionToken : string) (scope : string) :
    complaint + Auth.Claims :=
  if negb (nc_RequireAuth (sv_config s)) then inr zero_claims
  else match sv_auth s with
  | None =>
      match sv_authErr s with
      | Some _ => inl (Because "authentication is unavailable" (Says "auth: secret is required"))
      | None => inl (Says "authentication is unavailable")
      end
  | Some tokens =>
      let trimmedToken := TrimSpace sessionToken in
      if trimmedToken ≟ "" then inl (Says "session token is required")
      else match Auth.Verify tokens (unix_seconds now) trimmedToken with
      | inl _ => inl (Says "invalid or expired session token")
      | inr claims =>
          if negb (Auth.Allows claims scope) then inl (Says "session token scope is not authorized")
          else inr claims
      end
  end.

Definition authorizeGameplayCommand (s : Server) (conn : wsConnection) (envelope : Envelope) : option complaint :=
  if (wc_matchID conn ≟ "") || (wc_playerID conn ≟ "") || (wc_sessionKind conn ≠? SessionKindPlayer)
  then Some (Says "join_game required before gameplay commands")
  else if (en_MatchID envelope ≠? "") && (en_MatchID envelope ≠? wc_matchID conn)
  then Some (Says "envelope match_id does not match connection match_id")
  else if (en_PlayerID envelope ≠? "") && (en_PlayerID envelope ≠? wc_playerID conn)
  then Some (Says "envelope player_id does not match connection player_id")
  else if negb (nc_RequireAuth (sv_config s)) then None
  else if (wc_authScope conn ≠? Auth.ScopeGameplay) && (wc_authScope conn ≠? Auth.ScopeAdmin)
  then Some (Says "session token scope does not allow gameplay commands")
  else if TrimSpace (wc_authSubject conn) ≟ "" then Some (Says "authenticated player identity is missing")
  else if TrimSpace (wc_authSubject conn) ≠? wc_playerID conn
  then Some (Says "session token subject does not match bound player")
  else None.

Definition authorizeReplayRequest (s : Server) (conn : wsConnection) (matchID : MatchID) : option complaint :=
  if wc_matchID conn ≟ "" then Some (Says "join_game required before replay requests")
  else if wc_matchID conn ≠? matchID then Some (Says "requested match does not match bound connection match")
  else if negb (nc_RequireAuth (sv_config s)) then None
  else if (wc_authScope conn ≠? Auth.ScopeGameplay) && (wc_authScope conn ≠? Auth.ScopeAdmin)
  then Some (Says "session token scope does not allow replay access")
  else None.

Definition resolveJoinPlayerIdentity (now : Z) (s : Server) (id : string) (envelope : Envelope)
    (req : JoinGameRequest) : complaint + (PlayerID * Auth.Claims) :=
  if nc_RequireAuth (sv_config s) then
    match verifySessionTokenForScope now s (jr_SessionToken req) Auth.ScopeGameplay with
    | inl err => inl err
    | inr claims =>
        if negb (EqualFold (Auth.cl_SessionKind claims) SessionKindPlayer)
        then inl (Says "session token is not valid for player joins")
        else
          let tokenPlayerID := TrimSpace (Auth.cl_Subject claims) in
          if bool_decide (is_Some (validatePlayerID tokenPlayerID))
          then inl (Says "session token subject is invalid")
          else if (en_PlayerID envelope ≠? "") && (TrimSpace (en_PlayerID envelope) ≠? tokenPlayerID)
          then inl (Says "session token subject does not match envelope player_id")
          else if (jr_PreferredMatchID req ≠? "") && (Auth.cl_MatchID claims ≠? "") &&
                  (Auth.cl_MatchID claims ≠? jr_PreferredMatchID req)
          then inl (Says "session token match does not match requested match")
          else inr (tokenPlayerID, claims)
    end
  else
    let playerID := TrimSpace (en_PlayerID envelope) in
    let playerID := if playerID ≟ "" then "player-" +:+ id else playerID in
    match validatePlayerID playerID with
    | Some err => inl err
    | None => inr (playerID, zero_claims)
    end.

(** ** Starting a match *)

Definition listed_player (player : PlayerSession) : PlayerState :=
  zero_PlayerState <| ps_ID := pl_PlayerID player |> <| ps_Name := pl_Name player |> <| ps_Connected := true |>
    <| ps_Alive := true |> <| ps_Facing := mkVector2 (f32_of_Z 1) f32_zero |>.

Definition stateFromMatchSnapshot (snapshot : MatchSnapshot) : GameState :=
  zero_GameState <| gs_MatchID := sm_MatchID snapshot |> <| gs_TickID := sm_TickID snapshot |>
    <| gs_Status := sm_Status snapshot |> <| gs_Players := map listed_player (sm_Players snapshot) |>.

Definition announce_start (now : Z) (started : MatchSnapshot) (initial : Snapshot) (s : Server) (id : string) : Server :=
  let conn := conn_of s id in
  let visible := ProjectSnapshotForViewer initial (wc_viewerID conn) in
  match sendTyped now id (GameStart (mkGameStart (sm_MatchID started) (wc_playerID conn) (sm_TickID started) visible)) s with
  | (s, None) => updateSnapshotCursor id (sn_TickID visible) s
  | (s, Some _) => s
  end.

Definition maybeAutoStartMatch (now : Z) (matchID : MatchID) (s : Server) : Server :=
  match StartMatch (sv_manager s) now matchID with
  | (m, inl _) => s <| sv_manager := m |>
  | (m, inr started) =>
      let s := s <| sv_manager := m |> in
      let initial :=
        match FullSnapshot m (sm_MatchID started) with
        | inr snapshot => snapshot
        | inl _ => zero_Snapshot <| sn_Kind := SnapshotKindFull |> <| sn_TickID := sm_TickID started |>
                     <| sn_State := Some (stateFromMatchSnapshot started) |>
        end in
      foldl (announce_start now started initial) s (connectionsForMatch s matchID)
  end.

(** ** Joining *)

(** A player who is in a match already resumes it. *)
Definition join_or_resume (m : Manager) (now : Z) (matchID : MatchID) (playerID : PlayerID) (name : string) :
    Manager * (game_error + MatchSnapshot) :=
  match JoinMatch m now matchID playerID name with
  | (m, inl ErrPlayerAlreadyInMatch) => ResumePlayer m matchID playerID name
  | result => result
  end.

Definition find_lobby (now : Z) (order : list string) (request : Matchmaking.QueueRequest) (s : Server) :
    Server * MatchID :=
  let '(m, service, lobby) :=
    Matchmaking.FindOrCreateLobbyForRequest (sv_manager s) (sv_matchmaker s) now now order request in
  (s <| sv_manager := m |> <| sv_matchmaker := service |>, Matchmaking.lb_MatchID lobby).

Definition join_match (now : Z) (matchID : MatchID) (playerID : PlayerID) (name : string) (s : Server) :
    Server * (game_error + MatchSnapshot) :=
  let '(m, result) := join_or_resume (sv_manager s) now matchID playerID name in
  (s <| sv_manager := m |>, result).

(** The match of a join, when the request and the token name none: the player's, or a lobby. *)
Definition choose_match (now : Z) (order : list string) (request : Matchmaking.QueueRequest) (s : Server) :
    Server * MatchID :=
  match MatchIDForPlayer (sv_manager s) (Matchmaking.qr_PlayerID request) with
  | Some existing => (s, existing)
  | None => find_lobby now order request s
  end.

Definition may_fall_back (err : game_error) : bool :=
  match err with ErrMatchFull | ErrMatchNotJoinable | ErrMatchNotFound => true | _ => false end.

(** The join, and another lobby when the one that was chosen for the player cannot be joined. *)
Definition join_with_fallback (now : Z) (order : list string) (allowFallback : bool) (request : Matchmaking.QueueRequest)
    (matchID : MatchID) (playerID : PlayerID) (name : string) (s : Server) : Server * (game_error + MatchSnapshot) :=
  let '(s, joined) := join_match now matchID playerID name s in
  match joined with
  | inr snapshot => (s, inr snapshot)
  | inl err =>
      if allowFallback && may_fall_back err then
        let '(s, fallback) := find_lobby now order (Matchmaking.mkRequest (Matchmaking.qr_PlayerID request)
          (Matchmaking.qr_PreferredRegion request) (Matchmaking.qr_RegionLatencyMS request) [matchID]) s in
        if fallback ≠? matchID then join_match now fallback playerID name s else (s, inl err)
      else (s, inl err)
  end.

(** The full state of the match, as the viewer may see it. *)
Definition send_full_snapshot (now : Z) (id : string) (viewerID : PlayerID) (full : Snapshot) (s : Server) : Server :=
  let visible := ProjectSnapshotForViewer full viewerID in
  match sendTyped now id (SnapshotOf visible) s with
  | (s, None) => updateSnapshotCursor id (sn_TickID visible) s
  | (s, Some _) => s
  end.

(** What follows a join that the manager accepted. *)
Definition welcome_player (now : Z) (id : string) (playerID : PlayerID) (claims : Auth.Claims)
    (snapshot : MatchSnapshot) (s : Server) : Server :=
  let s := bindConnection now id (sm_MatchID snapshot) playerID playerID SessionKindPlayer
    (Auth.cl_Subject claims) (Auth.cl_Scope claims) s in
  let '(minPlayers, maxPlayers) := MatchConstraints (sv_manager s) in
  let accepted := mkAccepted (sm_MatchID snapshot) playerID minPlayers maxPlayers
    (ServerConfig.TickRateHz (mg_config (sv_manager s))) SessionKindPlayer true "" 0 0 in
  let s := (sendTyped now id (JoinAccepted accepted) s).1 in
  let s :=
    match FullSnapshot (sv_manager s) (sm_MatchID snapshot) with
    | inr full => send_full_snapshot now id playerID full s
    | inl _ => s
    end in
  maybeAutoStartMatch now (sm_MatchID snapshot) s.

Definition join_player (now : Z) (order : list string) (id : string) (req : JoinGameRequest) (playerID : PlayerID)
    (claims : Auth.Claims) (s : Server) : Server :=
  let tokenMatch := if nc_RequireAuth (sv_config s) then TrimSpace (Auth.cl_MatchID claims) else "" in
  let matchID := if tokenMatch ≠? "" then tokenMatch else jr_PreferredMatchID req in
  let request := Matchmaking.mkRequest playerID (jr_PreferredRegion req) (jr_RegionLatencyMS req) [] in
  let '(s, matchID) := if matchID ≟ "" then choose_match now order request s else (s, matchID) in
  let allowFallback := (jr_PreferredMatchID req ≟ "") &&
    (negb (nc_RequireAuth (sv_config s)) || (TrimSpace (Auth.cl_MatchID claims) ≟ "")) in
  match join_with_fallback now order allowFallback request matchID playerID (jr_PlayerName req) s with
  | (s, inl err) => domain_error now id err s
  | (s, inr snapshot) => welcome_player now id playerID claims snapshot s
  end.

(** The players that are alive first, then by identifier. *)
Definition follow_key (player : PlayerState) : Z * PlayerID := (if ps_Alive player then 0 else 1, ps_ID player).

(** The player a spectator follows, the slot, and the number of slots. *)
Definition resolveSpectatorFollowTarget (snapshot : Snapshot) (requestedPlayerID : PlayerID) (requestedSlot : Z) :
    PlayerID * Z * Z :=
  match sn_State snapshot with
  | None => ("", 0, 0)
  | Some state =>
      let players := sort_by (lex_le Z.le String.le) follow_key (gs_Players state) in
      let slotCount := u8 (Z.of_nat (length players)) in
      match players with
      | [] => ("", 0, 0)
      | first :: _ =>
          let trimmedRequestedID := TrimSpace requestedPlayerID in
          let at_slot :=
            if (0 <? requestedSlot) && (requestedSlot <=? Z.of_nat (length players)) then
              match players !! Z.to_nat (requestedSlot - 1) with
              | Some player => (ps_ID player, requestedSlot, slotCount)
              | None => (ps_ID first, 1, slotCount)
              end
            else (ps_ID first, 1, slotCount) in
          if trimmedRequestedID ≠? "" then
            match find_idx (λ player, ps_ID player ≟ trimmedRequestedID) players with
            | Some i => (trimmedRequestedID, u8 (Z.of_nat i + 1), slotCount)
            | None => at_slot
            end
          else at_slot
      end
  end.

Definition spectator_id (id : string) : PlayerID := "spectator-" +:+ id.

Definition handleJoinGameAsSpectator (now : Z) (id : string) (req : JoinGameRequest) (claims : Auth.Claims) (s : Server) :
    Server :=
  let matchID := jr_PreferredMatchID req in
  if matchID ≟ "" then
    sendProtocolError now id CodeInvalidPayload (Says "spectator join requires preferred_match_id") s
  else if nc_RequireAuth (sv_config s) && (Auth.cl_MatchID claims ≠? "") && (Auth.cl_MatchID claims ≠? matchID) then
    sendProtocolError now id CodeUnauthorized (Says "session token match does not match requested match") s
  else match mg_matches (sv_manager s) !! matchID with
  | None => sendProtocolError now id CodeMatchNotFound (OfGame ErrMatchNotFound) s
  | Some session =>
      if sm_Status (snapshotFromSession session) ≠? MatchStatusRunning then
        sendProtocolError now id CodeUnauthorized (Says "spectator join is only available for running matches") s
      else match FullSnapshot (sv_manager s) matchID with
      | inl err => domain_error now id err s
      | inr full =>
          let '(followPlayerID, followSlot, slotCount) :=
            resolveSpectatorFollowTarget full (jr_SpectatorFollowPlayerID req) (jr_SpectatorFollowSlot req) in
          let viewerID := spectator_id id in
          let s := bindConnection now id matchID "" viewerID SessionKindSpectator
            (Auth.cl_Subject claims) (Auth.cl_Scope claims) s in
          let '(minPlayers, maxPlayers) := MatchConstraints (sv_manager s) in
          let accepted := mkAccepted matchID "" minPlayers maxPlayers
            (ServerConfig.TickRateHz (mg_config (sv_manager s))) SessionKindSpectator false
            followPlayerID followSlot slotCount in
          let s := (sendTyped now id (JoinAccepted accepted) s).1 in
          let s := send_full_snapshot now id viewerID full s in
          let visible := ProjectSnapshotForViewer full viewerID in
          (sendTyped now id (GameStart (mkGameStart matchID "" (sn_TickID visible) visible)) s).1
      end
  end.

Definition handleJoinGame (now : Z) (order : list string) (id : string) (envelope : Envelope) (s : Server) : Server :=
  match DecodePayload decode_join zero_join envelope with
  | None => sendProtocolError now id CodeInvalidPayload (Says "invalid join_game payload") s
  | Some req =>
      match validateJoinRequest order req with
      | Some err => sendProtocolError now id CodeInvalidPayload err s
      | None =>
          if jr_Spectator req then
            match verifySessionTokenForScope now s (jr_SessionToken req) Auth.ScopeGameplay with
            | inl err => sendProtocolError now id CodeUnauthorized err s
            | inr claims =>
                if nc_RequireAuth (sv_config s) && negb (EqualFold (Auth.cl_SessionKind claims) SessionKindSpectator)
                then sendProtocolError now id CodeUnauthorized (Says "session token is not valid for spectator joins") s
                else handleJoinGameAsSpectator now id req claims s
            end
          else match resolveJoinPlayerIdentity now s id envelope req with
          | inl err =>
              sendProtocolError now id
                (if nc_RequireAuth (sv_config s) then CodeUnauthorized else CodeInvalidPayload) err s
          | inr (playerID, claims) => join_player now order id req playerID claims s
          end
      end
  end.

(** ** Lobbies and replays *)

Definition lobby_summary (lobby : Matchmaking.Lobby) : LobbySummary :=
  mkLobbySummary (Matchmaking.lb_MatchID lobby) (Matchmaking.lb_Region lobby) (Matchmaking.lb_Status lobby)
    (Matchmaking.lb_PlayerCount lobby) (Matchmaking.lb_MinPlayers lobby) (Matchmaking.lb_MaxPlayers lobby)
    (Matchmaking.lb_OpenSlots lobby) (Matchmaking.lb_Joinable lobby) (Matchmaking.lb_ReadyToStart lobby)
    (Matchmaking.lb_CreatedAt lobby).

Definition lobbySummariesForRequest (includeRunning : bool) (order : list string) (request : Matchmaking.QueueRequest)
    (s : Server) : Server * list LobbySummary :=
  let '(service, lobbies) :=
    Matchmaking.ListLobbiesForRequest (sv_manager s) (sv_matchmaker s) includeRunning order request in
  (s <| sv_matchmaker := service |>, map lobby_summary lobbies).

Definition LobbySummaries (includeRunning : bool) (s : Server) : Server * list LobbySummary :=
  lobbySummariesForRequest includeRunning [] (Matchmaking.mkRequest "" "" ∅ []) s.

Definition handleListLobbies (now : Z) (order : list string) (id : string) (envelope : Envelope) (s : Server) : Server :=
  match DecodePayload decode_list_lobbies zero_list envelope with
  | None => sendProtocolError now id CodeInvalidPayload (Says "invalid list_lobbies payload") s
  | Some req =>
      let request := Matchmaking.mkRequest "" (lr_PreferredRegion req) (lr_RegionLatencyMS req) [] in
      match Matchmaking.ValidateQueueRequest order request with
      | Some err => sendProtocolError now id CodeInvalidPayload (OfRequest err) s
      | None =>
          let answer s :=
            let '(s, lobbies) := lobbySummariesForRequest (lr_IncludeRunning req) order request s in
            (sendTyped now id (LobbyList lobbies) s).1 in
          if nc_RequireAuth (sv_config s) then
            match verifySessionTokenForScope now s (lr_SessionToken req) Auth.ScopeLobby with
            | inl err => sendProtocolError now id CodeUnauthorized err s
            | inr claims => answer (setConnectionAuthContext id (Auth.cl_Subject claims) (Auth.cl_Scope claims) s)
            end
          else answer s
      end
  end.

Definition replay_entry (entry : ReplayEntry) : ReplayInputEntry :=
  mkReplayInput (re_AcceptedTick entry) (re_IngressSeq entry) (re_AcceptedAt entry) (re_Command entry).

Definition replayLogToProtocolMessage (replay : MatchReplay) : ReplayLogMessage :=
  mkReplayLog (mr_MatchID replay) (mr_Status replay) (mr_TickRateHz replay) (mr_CreatedAt replay)
    (mr_StartedAt replay) (mr_EndedAt replay) (mr_EndedReason replay) (map replay_entry (mr_Entries replay)).

Definition handleRequestReplay (now : Z) (id : string) (envelope : Envelope) (s : Server) : Server :=
  let conn := conn_of s id in
  let refuse message := sendProtocolError now id CodeUnauthorized message s in
  match DecodePayload decode_request_replay zero_replay envelope with
  | None => sendProtocolError now id CodeInvalidPayload (Says "invalid request_replay payload") s
  | Some req =>
      let matchID := if rq_MatchID req ≟ "" then wc_matchID conn else rq_MatchID req in
      if matchID ≟ "" then refuse (Says "join_game required before replay requests")
      else if (en_MatchID envelope ≠? "") && (en_MatchID envelope ≠? matchID)
      then refuse (Says "envelope match_id does not match requested replay match")
      else if (wc_matchID conn ≠? "") && (matchID ≠? wc_matchID conn)
      then refuse (Says "requested match does not match bound connection match")
      else match authorizeReplayRequest s conn matchID with
      | Some err => refuse err
      | None =>
          match ReplayLog (sv_manager s) matchID with
          | inl err => domain_error now id err s
          | inr replay => (sendTyped now id (ReplayLogOf (replayLogToProtocolMessage replay)) s).1
          end
      end
  end.

Definition handlePing (now : Z) (id : string) (envelope : Envelope) (s : Server) : Server :=
  match DecodePayload decode_ping zero_ping envelope with
  | None => sendProtocolError now id CodeInvalidPayload (Says "invalid ping payload") s
  | Some req => (sendTyped now id (Pong (mkPong (pg_ClientSendUnixMS req) (now / 10 ^ 6))) s).1
  end.

(** ** Commands *)

Definition submit (now : Z) (id : string) (command : InputCommand) (s : Server) : Server :=
  match SubmitInput (sv_manager s) now (wc_matchID (conn_of s id)) command with
  | (m, inl err) => domain_error now id err (s <| sv_manager := m |>)
  | (m, inr _) => s <| sv_manager := m |>
  end.

Definition handlePlayerInput (now : Z) (id : string) (envelope : Envelope) (s : Server) : Server :=
  let conn := conn_of s id in
  match authorizeGameplayCommand s conn envelope with
  | Some err => sendProtocolError now id CodeUnauthorized err s
  | None =>
      match DecodePayload decode_player_input zero_input envelope with
      | None => sendProtocolError now id CodeInvalidPayload (Says "invalid player_input payload") s
      | Some message =>
          let command := pi_Command message in
          if (ic_PlayerID command ≠? "") && (ic_PlayerID command ≠? wc_playerID conn) then
            sendProtocolError now id CodeUnauthorized (Says "command player_id does not match connection player_id") s
          else submit now id (command <| ic_PlayerID := wc_playerID conn |>) s
      end
  end.

Definition handleAbilityUse (now : Z) (id : string) (envelope : Envelope) (s : Server) : Server :=
  let conn := conn_of s id in
  match authorizeGameplayCommand s conn envelope with
  | Some err => sendProtocolError now id CodeUnauthorized err s
  | None =>
      match DecodePayload decode_ability_use zero_ability envelope with
      | None => sendProtocolError now id CodeInvalidPayload (Says "invalid ability_use payload") s
      | Some message =>
          match marshal_ability (au_Payload message) with
          | None => sendProtocolError now id CodeInvalidPayload (Says "invalid ability payload") s
          | Some rawPayload =>
              submit now id (zero_InputCommand <| ic_PlayerID := wc_playerID conn |>
                <| ic_ClientSeq := au_ClientSeq message |> <| ic_Type := CmdUseAbility |> <| ic_Payload := rawPayload |>) s
          end
      end
  end.

Definition handleCardUse (now : Z) (id : string) (envelope : Envelope) (s : Server) : Server :=
  let conn := conn_of s id in
  match authorizeGameplayCommand s conn envelope with
  | Some err => sendProtocolError now id CodeUnauthorized err s
  | None =>
      match DecodePayload decode_card_use zero_card envelope with
      | None => sendProtocolError now id CodeInvalidPayload (Says "invalid card_use payload") s
      | Some message =>
          match marshal_card (cu_Payload message) with
          | None => sendProtocolError now id CodeInvalidPayload (Says "invalid card payload") s
          | Some rawPayload =>
              submit now id (zero_InputCommand <| ic_PlayerID := wc_playerID conn |>
                <| ic_ClientSeq := cu_ClientSeq message |> <| ic_Type := CmdUseCard |> <| ic_Payload := rawPayload |>) s
          end
      end
  end.

Definition acknowledge (ack : SnapshotAckMessage) (c : wsConnection) : wsConnection :=
  let c := if wc_lastClientAckTick c <? ak_ClientTickID ack then c <| wc_lastClientAckTick := ak_ClientTickID ack |> else c in
  if wc_lastClientAckClientSeq c <? ak_LastProcessedClientSeq ack
  then c <| wc_lastClientAckClientSeq := ak_LastProcessedClientSeq ack |> else c.

Definition handleAckSnapshot (now : Z) (id : string) (envelope : Envelope) (s : Server) : Server :=
  match authorizeGameplayCommand s (conn_of s id) envelope with
  | Some err => sendProtocolError now id CodeUnauthorized err s
  | None =>
      match DecodePayload decode_ack zero_ack envelope with
      | None => sendProtocolError now id CodeInvalidPayload (Says "invalid ack_snapshot payload") s
      | Some ack => if bool_decide (id ∈ sv_connections s) then update_conn id (acknowledge ack) s else s
      end
  end.

(** ** The pumps *)

Definition handleEnvelope (now : Z) (order : list string) (id : string) (envelope : Envelope) (s : Server) : Server :=
  let type := en_Type envelope in
  if type ≟ MsgJoinGame then handleJoinGame now order id envelope s
  else if type ≟ MsgListLobbies then handleListLobbies now order id envelope s
  else if type ≟ MsgRequestReplay then handleRequestReplay now id envelope s
  else if type ≟ MsgLeaveMatch then close now id "client_leave" s
  else if type ≟ MsgPing then handlePing now id envelope s
  else if type ≟ MsgPlayerInput then handlePlayerInput now id envelope s
  else if type ≟ MsgAbilityUse then handleAbilityUse now id envelope s
  else if type ≟ MsgCardUse then handleCardUse now id envelope s
  else if type ≟ MsgAckSnapshot then handleAckSnapshot now id envelope s
  else sendProtocolError now id CodeInvalidPayload (Says "unsupported message type") s.

(** One round of [readPump]; [None] is an error of the socket. *)
Definition read_round (now : Z) (order : list string) (id : string) (raw : option string) (s : Server) : Server :=
  match raw with
  | None => close now id "read_closed" s
  | Some raw =>
      let s := touchConnection now id s in
      let event kind type player match_ detail := mkConnEvent kind id type player match_ now detail in
      match decode_envelope raw with
      | None =>
          let s := appendEvent (event ConnectionEventProtocolError "" "" "" (Says "invalid_json_envelope")) s in
          sendProtocolError now id CodeInvalidPayload (Says "invalid JSON envelope") s
      | Some envelope =>
          match validateInboundEnvelope envelope with
          | Some err =>
              let s := appendEvent (event ConnectionEventProtocolError "" "" "" err) s in
              let code := match err with WrongVersion _ _ => CodeUnsupportedVersion | _ => CodeInvalidPayload end in
              sendProtocolError now id code err s
          | None =>
              let conn := conn_of s id in
              let s := appendEvent (event ConnectionEventMessageIn (en_Type envelope) (wc_playerID conn) (wc_matchID conn)
                (Says "")) s in
              handleEnvelope now order id envelope s
          end
      end
  end.

(** One round of [writePump]: a message of the queue is written, or the write, the deadline or a
    ping fails. *)
Inductive write_outcome := Written | DeadlineFailed | WriteFailed | PingFailed.

Definition write_round (now : Z) (id : string) (outcome : write_outcome) (s : Server) : Server :=
  match outcome, wc_send (conn_of s id) with
  | PingFailed, _ => close now id "ping_failed" s
  | _, [] => s
  | _, message :: queue =>
      let s := update_conn id (λ c, c <| wc_send := queue |>) s in
      match outcome with
      | Written =>
          let s := touchConnection now id s in
          let conn := conn_of s id in
          appendEvent (mkConnEvent ConnectionEventMessageOut id (message_type message) (wc_playerID conn)
            (wc_matchID conn) now (Says "")) s
      | DeadlineFailed => close now id "write_deadline_failed" s
      | _ => close now id "write_failed" s
      end
  end.

(** ** Dispatching snapshots *)

Record snapshotDispatchTarget := mkTarget {
  dt_connectionID : string;
  dt_matchID : MatchID;
  dt_lastSnapshotTick : Z;
}.

(** The snapshots in turn, until a send fails; the tick of the last one that was sent. *)
Fixpoint dispatch_snapshots (now : Z) (id : string) (latestTick : Z) (snapshots : list Snapshot) (s : Server) :
    Server * Z :=
  match snapshots with
  | [] => (s, latestTick)
  | snapshot :: snapshots =>
      if sn_TickID snapshot <=? latestTick then dispatch_snapshots now id latestTick snapshots s
      else
        let visible := ProjectSnapshotForViewer snapshot (wc_viewerID (conn_of s id)) in
        match sendTyped now id (SnapshotOf visible) s with
        | (s, Some _) => (s, latestTick)
        | (s, None) => dispatch_snapshots now id (sn_TickID visible) snapshots s
        end
  end.

Definition dispatch_target (now : Z) (s : Server) (target : snapshotDispatchTarget) : Server :=
  match SnapshotsSince (sv_manager s) (dt_matchID target) (dt_lastSnapshotTick target) with
  | inl _ => s
  | inr snapshots =>
      let '(s, latestTick) := dispatch_snapshots now (dt_connectionID target) (dt_lastSnapshotTick target) snapshots s in
      if dt_lastSnapshotTick target <? latestTick then updateSnapshotCursor (dt_connectionID target) latestTick s else s
  end.

Definition dispatch_targets (s : Server) (order : list string) : list snapshotDispatchTarget :=
  omap (λ id,
    let conn := conn_of s id in
    if negb (bool_decide (id ∈ sv_connections s)) || (wc_matchID conn ≟ "") || (wc_viewerID conn ≟ "") then None
    else Some (mkTarget id (wc_matchID conn) (wc_lastSnapshotTick conn))) order.

Definition dispatchPendingSnapshots (now : Z) (order : list string) (s : Server) : Server :=
  foldl (dispatch_target now) s (dispatch_targets s order).

Definition Shutdown (now : Z) (order : list string) (s : Server) : Server :=
  foldl (λ s id, (CloseConnection now id "server_shutdown" s).1) s
    (filter (λ id, id ∈ sv_connections s) order).

(** ** Queries *)

Definition ConnectionCount (s : Server) : Z := Z.of_nat (size (sv_connections s)).

Record ConnectionSnapshot := mkConnSnapshot {
  cs_ConnectionID : string;
  cs_State : ConnectionState;
  cs_RemoteAddr : string;
  cs_ConnectedAt : Z;
  cs_LastSeenAt : Z;
  cs_PlayerID : PlayerID;
  cs_ViewerID : PlayerID;
  cs_MatchID : MatchID;
  cs_SessionKind : SessionKind;
  cs_AuthSubject : string;
  cs_AuthScope : string;
}.

Definition conn_snapshot (c : wsConnection) : ConnectionSnapshot :=
  mkConnSnapshot (wc_id c) (wc_state c) (wc_remoteAddr c) (wc_connectedAt c) (wc_lastSeenAt c) (wc_playerID c)
    (wc_viewerID c) (wc_matchID c) (wc_sessionKind c) (wc_authSubject c) (wc_authScope c).

Definition ConnectionSnapshots (s : Server) : list ConnectionSnapshot :=
  sort_by String.le cs_ConnectionID (map (λ id, conn_snapshot (conn_of s id)) (elements (sv_connections s))).

End server.

(** ** A server at work

    Tokens are required; the token is signed as in [Auth], with primitives of the same kind, and a
    message is its own text.  A match starts with its first player. *)

Module Demo.

Definition demo_claims : Auth.Claims := Auth.mkClaims "ann" "" "player" Auth.ScopeGameplay 1000 4600.

#[export] Instance demo_primitives : Auth.TokenPrimitives := {|
  Auth.hmac_sha256 secret input := secret +:+ "/" +:+ input;
  Auth.marshal_claims c := if Auth.cl_Subject c ≟ "ann" then Some "ann" else None;
  Auth.unmarshal_claims payload := if payload ≟ "ann" then Some demo_claims else None;
|}.

Definition demo_token : string :=
  match Auth.Sign (Auth.mkTokens "secret" (5 * 10 ^ 9)) 1000 demo_claims with inr token => token | inl _ => "" end.

#[export] Instance demo_wire : Wire := {|
  decode_envelope raw :=
    if raw ≟ "ann joins" then Some (mkEnvelope 1 MsgJoinGame "" "" "ann" "as ann")
    else if raw ≟ "ann moves" then Some (mkEnvelope 1 MsgPlayerInput "" "" "ann" "move") else None;
  decode_join payload :=
    if payload ≟ "as ann" then Some (zero_join <| jr_PlayerName := "Ann" |> <| jr_SessionToken := demo_token |>) else None;
  decode_list_lobbies _ := None; decode_request_replay _ := None;
  decode_player_input payload :=
    if payload ≟ "move" then
      Some (mkInputMessage (zero_InputCommand <| ic_ClientSeq := 1 |> <| ic_Type := CmdReload |>)) else None;
  decode_ability_use _ := None; decode_card_use _ := None; decode_ping _ := None; decode_ack _ := None;
  marshal_ability _ := None; marshal_card _ := None; encodable _ := true;
|}.

#[export] Instance demo_decoder : PayloadDecoder := {|
  decode_movement _ := None; decode_aim _ := None; decode_interact _ := None; decode_ability _ := None;
  decode_card _ := None; decode_item _ := None; decode_market _ := None; decode_fire _ := None;
  decode_equip _ := None; decode_drop _ := None; decode_craft _ := None;
|}.

Definition demo_manager : Manager := newManagerWithDeps (ServerConfig.mkConfig 1 12 20 0 0 0 "").
Definition demo_settings : Config := mkConfig 0 0 0 0 0 true "secret" 0.
Definition demo_now : Z := 1010 * 10 ^ 9.
Definition demo_opened : Server := (registerConnection demo_now "host" (NewServer demo_manager demo_settings)).1.
Definition demo_joined : Server := read_round demo_now [] "conn-000001" (Some "ann joins") demo_opened.
Definition demo_played : Server := read_round demo_now [] "conn-000001" (Some "ann moves") demo_joined.

Definition demo_read : list (string * string) := [("conn-000001", "ann joins")].
End Demo.

End Network.
