(* ===== verification/Connections.v ===== *)
(** * The registry of the connections, and what leaves the server

    The steps of the server of [Network], as moves of its connections; the invariant of the
    server's maps, the authentication of the connections, and the privacy of what is sent. *)

From S2P Require Import Prelude Float32 Model GoStrings Access Items Phase Visibility Session InputQueue Lifecycle Matchmaking Auth Protocol Network.
From Stdlib Require Import Ascii.

#[local] Open Scope Z_scope.

Module Connections.
Import Network.

Section server.
Context `{Hwire : !Wire, Hdec : !PayloadDecoder, Htokens : !Auth.TokenPrimitives}.

(** ** What the server does, step by step *)

(** A step, with the message that the reader of a connection got, if any.  [BroadcastToMatch] is no
    step: it sends what its caller hands it, and nothing calls it but tests. *)
Inductive server_step : option (string * string) → relation Server :=
  | step_connect now remoteAddr s :
      sv_nextConnectionSequence s + 1 < 2 ^ 64 → server_step None s (registerConnection now remoteAddr s).1
  | step_read now order id raw s : server_step (Some (id, raw)) s (read_round now order id (Some raw) s)
  | step_read_failed now order id s : server_step None s (read_round now order id None s)
  | step_write now id outcome s : server_step None s (write_round now id outcome s)
  | step_dispatch now order s : server_step None s (dispatchPendingSnapshots now order s)
  | step_close now id reason s : server_step None s (CloseConnection now id reason s).1
  | step_shutdown now order s : server_step None s (Shutdown now order s)
  | step_lobbies includeRunning s : server_step None s (LobbySummaries includeRunning s).1
  (** The matches move on without the server. *)
  | step_matches m s : server_step None s (s <| sv_manager := m |>).

(** A server that has been running, and the messages it has read. *)
Inductive history (manager : Manager) (config : Config) : list (string * string) → Server → Prop :=
  | history_new : history manager config [] (NewServer manager config)
  | history_step H label s s' : history manager config H s → server_step label s s' →
      history manager config (H ++ option_list label) s'.

(** ** The contract of a connection

    What the steps amount to: a connection is registered, bound to a viewer, closed; a message
    is queued on it or taken off; and the rest does not show in the registry.  A message that
    carries a snapshot is only queued as the viewer of the connection may see it, and with
    authentication a connection is only bound to a player by a token for that player. *)

Definition own_view (viewerID : PlayerID) (message : server_message) : Prop :=
  ∀ snapshot, carried_snapshot message = Some snapshot → ∃ full, snapshot = ProjectSnapshotForViewer full viewerID.

(** The message is a join with a token for the player, which lets the player play. *)
Definition admits (s : Server) (raw : string) (playerID : PlayerID) : Prop :=
  ∃ tokens envelope req at_ claims, sv_auth s = Some tokens ∧ decode_envelope raw = Some envelope ∧
    DecodePayload decode_join zero_join envelope = Some req ∧
    Auth.Verify tokens at_ (TrimSpace (jr_SessionToken req)) = inr claims ∧
    Auth.Allows claims Auth.ScopeGameplay = true ∧ TrimSpace (Auth.cl_Subject claims) = playerID.

(** A change of a connection that its owner and its queue do not notice. *)
Record unnoticed (f : wsConnection → wsConnection) : Prop := {
  un_id : ∀ c, wc_id (f c) = wc_id c;
  un_send : ∀ c, wc_send (f c) = wc_send c;
  un_player : ∀ c, wc_playerID (f c) = wc_playerID c;
  un_viewer : ∀ c, wc_viewerID (f c) = wc_viewerID c;
  un_match : ∀ c, wc_matchID (f c) = wc_matchID c;
  un_kind : ∀ c, wc_sessionKind (f c) = wc_sessionKind c;
  un_state : ∀ c, wc_state (f c) = wc_state c;
}.

(** [may id playerID]: the connection may become the player's. *)
Section moves.
Context (may : string → PlayerID → Prop).

Inductive move : relation Server :=
  | move_event event s : move s (appendEvent event s)
  | move_manager m s : move s (s <| sv_manager := m |>)
  | move_matchmaker service s : move s (s <| sv_matchmaker := service |>)
  | move_note id f s : unnoticed f → move s (update_conn id f s)
  | move_send id message s :
      wc_state (conn_of s id) = ConnectionStateConnected → own_view (wc_viewerID (conn_of s id)) message →
      move s (update_conn id (λ c, c <| wc_send ::= λ queue, queue ++ [message] |>) s)
  | move_take id message queue s : wc_send (conn_of s id) = message :: queue →
      move s (update_conn id (λ c, c <| wc_send := queue |>) s)
  | move_close now id reason s : move s (close now id reason s)
  | move_bind now id matchID playerID viewerID sessionKind subject scope s :
      (playerID ≠ "" → nc_RequireAuth (sv_config s) = true → may id playerID) →
      viewerID = playerID ∨ viewerID = spectator_id id →
      move s (bindConnection now id matchID playerID viewerID sessionKind subject scope s)
  | move_register now remoteAddr s :
      sv_nextConnectionSequence s + 1 < 2 ^ 64 → move s (registerConnection now remoteAddr s).1.

Abbreviation moves := (rtc move).

Lemma moves_CloseConnection now id reason s : moves s (CloseConnection now id reason s).1.
Proof. unfold CloseConnection. case_bool_decide; [apply rtc_once, move_close|reflexivity]. Qed.

Lemma moves_touch now id s : moves s (touchConnection now id s).
Proof. unfold touchConnection. case_bool_decide; [|reflexivity]. apply rtc_once, move_note. by split. Qed.

Lemma moves_cursor id tickID s : moves s (updateSnapshotCursor id tickID s).
Proof.
  unfold updateSnapshotCursor. case_bool_decide; [|reflexivity]. apply rtc_once, move_note.
  split; intros c; by case_match.
Qed.

Lemma moves_send now id message s : own_view (wc_viewerID (conn_of s id)) message →
  moves s (sendTyped now id message s).1.
Proof.
  intros Hview. unfold sendTyped. destruct (encodable message); [|reflexivity]. unfold enqueueEnvelope.
  case_bool_decide as Hstate; cbn [negb]; [|apply rtc_once, move_event].
  destruct (_ <? _); [by apply rtc_once, move_send|].
  eapply rtc_l; [apply move_event|]. apply rtc_once, move_close.
Qed.

Lemma blank_view v message : carried_snapshot message = None → own_view v message.
Proof. intros H snapshot Hs. congruence. Qed.

Lemma moves_error now id code message s : moves s (sendProtocolError now id code message s).
Proof. by apply moves_send, blank_view. Qed.

Lemma moves_manager m s : moves s (s <| sv_manager := m |>).
Proof. apply rtc_once, move_manager. Qed.

(** ** The viewer of a connection *)

(** If the connection is open, its viewer is this one. *)
Definition sees (id : string) (v : PlayerID) (s : Server) : Prop :=
  wc_state (conn_of s id) = ConnectionStateConnected → wc_viewerID (conn_of s id) = v.

Lemma conn_of_update id f s id' :
  conn_of (update_conn id f s) id' = if decide (id' = id) then match sv_objects s !! id with Some c => f c | None => zero_conn end
    else conn_of s id'.
Proof.
  unfold conn_of, update_conn. cbn. case_decide as H.
  - subst. rewrite lookup_alter_eq. by destruct (sv_objects s !! id).
  - by rewrite lookup_alter_ne.
Qed.

Lemma sees_update id v g f s :
  (∀ c, wc_viewerID (f c) = wc_viewerID c) →
  (∀ c, wc_state (f c) = ConnectionStateConnected → wc_state c = ConnectionStateConnected) →
  sees id v s → sees id v (update_conn g f s).
Proof.
  intros Hv Hs H. unfold sees in *. rewrite conn_of_update. case_decide as Hid; [|done]. subst.
  unfold conn_of in H. destruct (sv_objects s !! g); [|done]. cbn in H. rewrite Hv. auto.
Qed.

Lemma close_objects now id reason s :
  sv_objects (close now id reason s) =
    if bool_decide (id ∈ sv_connections s) then
      alter (λ c, c <| wc_state := ConnectionStateDisconnected |> <| wc_lastSeenAt := now |>) id (sv_objects s)
    else sv_objects s.
Proof.
  unfold close, unregisterConnection. case_bool_decide; cbn [negb]; [|done].
  repeat case_match; done.
Qed.

Lemma sees_close id v now g reason s : sees id v s → sees id v (close now g reason s).
Proof.
  intros H. unfold sees, conn_of. rewrite close_objects. case_bool_decide; [|exact H].
  assert (sees id v (update_conn g (λ c, c <| wc_state := ConnectionStateDisconnected |> <| wc_lastSeenAt := now |>) s)) as H'
    by (apply sees_update; [done|done|exact H]).
  exact H'.
Qed.

Lemma sees_CloseConnection id v now g reason s : sees id v s → sees id v (CloseConnection now g reason s).1.
Proof. intros H. unfold CloseConnection. case_bool_decide; [by apply sees_close|done]. Qed.

Lemma sees_send id v now g message s : sees id v s → sees id v (sendTyped now g message s).1.
Proof.
  intros H. unfold sendTyped. destruct (encodable message); [|done]. unfold enqueueEnvelope.
  case_bool_decide; cbn [negb]; [|exact H]. destruct (_ <? _); [by apply sees_update|]. by apply sees_close.
Qed.

Lemma sees_cursor id v g tickID s : sees id v s → sees id v (updateSnapshotCursor g tickID s).
Proof.
  intros H. unfold updateSnapshotCursor. case_bool_decide; [|done].
  apply sees_update; [intros c; by case_match|intros c; by case_match|done].
Qed.

Lemma moves_send_as now id v message s : sees id v s → own_view v message → moves s (sendTyped now id message s).1.
Proof.
  intros Hsees Hview. destruct (decide (wc_state (conn_of s id) = ConnectionStateConnected)) as [Hs|Hs].
  - apply moves_send. by rewrite (Hsees Hs).
  - unfold sendTyped. destruct (encodable message); [|reflexivity]. unfold enqueueEnvelope.
    rewrite (bool_decide_false _ Hs). apply rtc_once, move_event.
Qed.

Lemma own_snapshot v full : own_view v (SnapshotOf (ProjectSnapshotForViewer full v)).
Proof. intros snapshot [= <-]. eauto. Qed.
Lemma own_start v matchID playerID tick full :
  own_view v (GameStart (mkGameStart matchID playerID tick (ProjectSnapshotForViewer full v))).
Proof. intros snapshot [= <-]. eauto. Qed.

(** ** The handlers are moves *)

Lemma moves_full now id v full s : sees id v s → moves s (send_full_snapshot now id v full s).
Proof.
  intros H. unfold send_full_snapshot. pose proof (moves_send_as now id v _ s H (own_snapshot v full)) as Hm.
  destruct (sendTyped _ _ _ _) as [s' [err|]]; [exact Hm|]. cbn in Hm. etransitivity; [exact Hm|apply moves_cursor].
Qed.

Lemma sees_full now id v full s : sees id v s → sees id v (send_full_snapshot now id v full s).
Proof.
  intros H. unfold send_full_snapshot.
  pose proof (sees_send id v now id (SnapshotOf (ProjectSnapshotForViewer full v)) s H) as Hm.
  destruct (sendTyped _ _ _ _) as [s' [err|]]; [exact Hm|]. by apply sees_cursor.
Qed.

Lemma moves_announce now started initial s id : moves s (announce_start now started initial s id).
Proof.
  unfold announce_start.
  set (message := GameStart _). assert (own_view (wc_viewerID (conn_of s id)) message) as Hview by apply own_start.
  pose proof (moves_send now id message s Hview) as Hm.
  destruct (sendTyped _ _ _ _) as [s' [err|]]; [exact Hm|]. cbn in Hm. etransitivity; [exact Hm|apply moves_cursor].
Qed.

Lemma moves_foldl {A} (f : Server → A → Server) l s : (∀ s x, moves s (f s x)) → moves s (foldl f s l).
Proof.
  intros Hf. revert s. induction l as [|x l IH]; intros s; [reflexivity|]. cbn. etransitivity; [apply Hf|apply IH].
Qed.

Lemma moves_start now matchID s : moves s (maybeAutoStartMatch now matchID s).
Proof.
  unfold maybeAutoStartMatch. destruct (StartMatch _ _ _) as [m [err|started]]; [apply moves_manager|].
  etransitivity; [apply (moves_manager m)|]. apply moves_foldl. intros. apply moves_announce.
Qed.

(** What keeps the server in order: see below. *)
Definition tracked (s : Server) : Prop :=
  ∀ id, id ∉ sv_connections s → wc_state (conn_of s id) ≠ ConnectionStateConnected.

Lemma bind_objects id matchID playerID viewerID kind subject scope s :
  sv_objects (bind id matchID playerID viewerID kind subject scope s) =
    alter (λ c, c <| wc_matchID := matchID |> <| wc_playerID := playerID |> <| wc_viewerID := viewerID |>
      <| wc_sessionKind := kind |> <| wc_authSubject := TrimSpace subject |> <| wc_authScope := scope |>
      <| wc_lastSnapshotTick := 0 |> <| wc_lastClientAckTick := 0 |> <| wc_lastClientAckClientSeq := 0 |>) id (sv_objects s).
Proof. unfold bind. repeat case_match; done. Qed.

Lemma sees_bind now id matchID playerID viewerID kind subject scope s : tracked s →
  sees id viewerID (bindConnection now id matchID playerID viewerID kind subject scope s).
Proof.
  intros Htracked. unfold bindConnection. case_bool_decide as Hlive; cbn [negb].
  2:{ intros Hs. by apply Htracked in Hlive. }
  destruct (release_player id playerID s) as [s1 stale] eqn:Hrel.
  set (s2 := bind _ _ _ _ _ _ _ s1).
  assert (sees id viewerID (appendEvent (mkConnEvent ConnectionEventJoinedMatch id "" playerID matchID now (Says kind)) s2)) as H3.
  { unfold sees, conn_of. change (sv_objects (appendEvent ?e s2)) with (sv_objects s2). unfold s2.
    rewrite bind_objects, lookup_alter_eq. by destruct (sv_objects s1 !! id). }
  revert H3. generalize (appendEvent (mkConnEvent ConnectionEventJoinedMatch id "" playerID matchID now (Says kind)) s2).
  intros s3 H3. assert (sees id viewerID (foldl (λ s staleID, (CloseConnection now staleID "session_rebound" s).1) s3 stale)) as H4.
  { clear -H3. revert s3 H3. induction stale as [|x stale IH]; intros s3 H3; [done|]. by apply IH, sees_CloseConnection. }
  case_match; exact H4.
Qed.

Lemma moves_welcome now id playerID claims snapshot s : tracked s →
  (playerID ≠ "" → nc_RequireAuth (sv_config s) = true → may id playerID) →
  moves s (welcome_player now id playerID claims snapshot s).
Proof.
  intros Htracked Hcred. unfold welcome_player.
  pose proof (sees_bind now id (sm_MatchID snapshot) playerID playerID SessionKindPlayer (Auth.cl_Subject claims)
    (Auth.cl_Scope claims) s Htracked) as Hsees.
  eapply rtc_l; [apply (move_bind now id (sm_MatchID snapshot) playerID playerID SessionKindPlayer (Auth.cl_Subject claims)
    (Auth.cl_Scope claims) s Hcred (or_introl eq_refl))|]. revert Hsees. generalize (bindConnection now id (sm_MatchID snapshot) playerID
    playerID SessionKindPlayer (Auth.cl_Subject claims) (Auth.cl_Scope claims) s). clear Htracked Hcred s. intros s Hsees.
  destruct (MatchConstraints (sv_manager s)) as [minPlayers maxPlayers].
  set (message := JoinAccepted _). etransitivity; [apply (moves_send_as now id playerID message s Hsees); by apply blank_view|].
  apply (sees_send id playerID now id message) in Hsees. revert Hsees. generalize (sendTyped now id message s).1.
  intros s' Hsees. etransitivity; [|apply moves_start]. destruct (FullSnapshot _ _) as [err|full]; [reflexivity|].
  by apply moves_full.
Qed.

Lemma moves_spectator now id req claims s : tracked s → moves s (handleJoinGameAsSpectator now id req claims s).
Proof.
  intros Htracked. unfold handleJoinGameAsSpectator. case_bool_decide; [apply moves_error|].
  destruct (_ && _); [apply moves_error|]. destruct (_ !! _) as [session|]; [|apply moves_error].
  destruct (_ ≠? _); [apply moves_error|]. destruct (FullSnapshot _ _) as [err|full]; [apply moves_error|].
  destruct (resolveSpectatorFollowTarget _ _ _) as [[followPlayerID followSlot] slotCount].
  set (matchID := jr_PreferredMatchID req). set (v := spectator_id id).
  pose proof (sees_bind now id matchID "" v SessionKindSpectator (Auth.cl_Subject claims) (Auth.cl_Scope claims) s
    Htracked) as Hsees.
  eapply rtc_l; [apply (move_bind now id matchID "" v SessionKindSpectator (Auth.cl_Subject claims)
    (Auth.cl_Scope claims) s ltac:(done) (or_intror eq_refl))|]. revert Hsees.
  generalize (bindConnection now id matchID "" v SessionKindSpectator (Auth.cl_Subject claims) (Auth.cl_Scope claims) s).
  clear Htracked s. intros s Hsees. destruct (MatchConstraints (sv_manager s)) as [minPlayers maxPlayers].
  set (message := JoinAccepted _). etransitivity; [apply (moves_send_as now id v message s Hsees); by apply blank_view|].
  apply (sees_send id v now id message) in Hsees. revert Hsees. generalize (sendTyped now id message s).1.
  intros s' Hsees. etransitivity; [by apply moves_full|]. apply (moves_send_as now id v); [by apply sees_full|apply own_start].
Qed.

(** Looking for a match changes the manager and the matchmaker only. *)
Lemma moves_find now order request s : moves s (find_lobby now order request s).1.
Proof.
  unfold find_lobby. destruct (Matchmaking.FindOrCreateLobbyForRequest _ _ _ _ _ _) as [[m service] lobby].
  eapply rtc_l; [apply (move_manager m)|]. apply rtc_once, move_matchmaker.
Qed.
Lemma moves_join now matchID playerID name s : moves s (join_match now matchID playerID name s).1.
Proof. unfold join_match. destruct (join_or_resume _ _ _ _ _) as [m result]. apply moves_manager. Qed.

Lemma moves_fallback now order allow request matchID playerID name s :
  moves s (join_with_fallback now order allow request matchID playerID name s).1.
Proof.
  unfold join_with_fallback. pose proof (moves_join now matchID playerID name s) as Hj.
  destruct (join_match _ _ _ _ _) as [s1 [err|snapshot]]; [|exact Hj]. cbn in Hj. destruct (_ && _); [|exact Hj].
  etransitivity; [exact Hj|]. set (request' := Matchmaking.mkRequest _ _ _ _).
  pose proof (moves_find now order request' s1) as Hf. destruct (find_lobby _ _ _ _) as [s2 fallback]. cbn in Hf.
  destruct (_ ≠? _); [|exact Hf]. etransitivity; [exact Hf|apply moves_join].
Qed.

(** The search for a match leaves the connections alone. *)
Record same_network (s s' : Server) : Prop := mkSameNetwork {
  sn_objects : sv_objects s' = sv_objects s;
  sn_connections : sv_connections s' = sv_connections s;
  sn_config : sv_config s' = sv_config s;
  sn_auth : sv_auth s' = sv_auth s;
}.

#[export] Instance same_network_preorder : PreOrder same_network.
Proof. split; [done|]. intros s1 s2 s3 [] []. split; congruence. Qed.

Lemma same_find now order request s : same_network s (find_lobby now order request s).1.
Proof. unfold find_lobby. by destruct (Matchmaking.FindOrCreateLobbyForRequest _ _ _ _ _ _) as [[m service] lobby]. Qed.
Lemma same_join now matchID playerID name s : same_network s (join_match now matchID playerID name s).1.
Proof. unfold join_match. by destruct (join_or_resume _ _ _ _ _). Qed.

Lemma same_fallback now order allow request matchID playerID name s :
  same_network s (join_with_fallback now order allow request matchID playerID name s).1.
Proof.
  unfold join_with_fallback. pose proof (same_join now matchID playerID name s) as Hj.
  destruct (join_match _ _ _ _ _) as [s1 [err|snapshot]]; [|exact Hj]. destruct (_ && _); [|exact Hj].
  set (request' := Matchmaking.mkRequest _ _ _ _).
  pose proof (same_find now order request' s1) as Hf. destruct (find_lobby _ _ _ _) as [s2 fallback].
  destruct (_ ≠? _); [|etransitivity; [exact Hj|exact Hf]].
  etransitivity; [exact Hj|]. etransitivity; [exact Hf|]. apply same_join.
Qed.

Lemma same_tracked s s' : same_network s s' → tracked s → tracked s'.
Proof. intros [H1 H2 _ _] H id. unfold conn_of. rewrite H1, H2. apply H. Qed.

Lemma verify_credential now s token scope claims : nc_RequireAuth (sv_config s) = true →
  verifySessionTokenForScope now s token scope = inr claims →
  ∃ tokens, sv_auth s = Some tokens ∧ Auth.Verify tokens (unix_seconds now) (TrimSpace token) = inr claims ∧
    Auth.Allows claims scope = true.
Proof.
  intros Hreq. unfold verifySessionTokenForScope. rewrite Hreq. cbn [negb].
  destruct (sv_auth s) as [tokens|]; [|by destruct (sv_authErr s)]. case_bool_decide; [done|].
  destruct (Auth.Verify _ _ _) as [err|c] eqn:Hv; [done|].
  destruct (Auth.Allows c scope) eqn:Ha; cbn [negb]; [|done]. intros [= <-]. by exists tokens.
Qed.

Lemma resolve_admits now s id raw envelope req playerID claims : nc_RequireAuth (sv_config s) = true →
  decode_envelope raw = Some envelope → DecodePayload decode_join zero_join envelope = Some req →
  resolveJoinPlayerIdentity now s id envelope req = inr (playerID, claims) → admits s raw playerID.
Proof.
  intros Hreq Henv Hjoin. unfold resolveJoinPlayerIdentity. rewrite Hreq.
  destruct (verifySessionTokenForScope _ _ _ _) as [err|c] eqn:Hv; [done|].
  destruct (verify_credential _ _ _ _ _ Hreq Hv) as (tokens & H1 & H2 & H3).
  destruct (negb _); [done|]. case_bool_decide; [done|]. destruct (_ && _); [done|]. destruct (_ && _ && _); [done|].
  intros [= <- <-]. by exists tokens, envelope, req, (unix_seconds now), c.
Qed.

Lemma moves_join_player now order id req playerID claims s : tracked s →
  (nc_RequireAuth (sv_config s) = true → may id playerID) →
  moves s (join_player now order id req playerID claims s).
Proof.
  intros Htracked Hcred. unfold join_player.
  set (request := Matchmaking.mkRequest _ _ _ _). set (matchID := if _ ≠? "" then _ else _).
  assert (∃ s1 matchID1, (if matchID ≟ "" then choose_match now order request s else (s, matchID)) = (s1, matchID1) ∧
    moves s s1 ∧ same_network s s1) as (s1 & matchID1 & -> & Hm & Hsame).
  { case_bool_decide; [|by exists s, matchID]. unfold choose_match.
    destruct (MatchIDForPlayer _ _) as [existing|]; [by exists s, existing|].
    pose proof (moves_find now order request s) as Hf. pose proof (same_find now order request s) as Hs.
    destruct (find_lobby _ _ _ _) as [s1 found]. by exists s1, found. }
  set (allow := _ && _).
  pose proof (moves_fallback now order allow request matchID1 playerID (jr_PlayerName req) s1) as Hf.
  pose proof (same_fallback now order allow request matchID1 playerID (jr_PlayerName req) s1) as Hs.
  destruct (join_with_fallback _ _ _ _ _ _ _ _) as [s2 joined]. cbn [fst] in Hf, Hs.
  assert (same_network s s2) as Hall by (etransitivity; [exact Hsame|exact Hs]).
  etransitivity; [exact Hm|]. etransitivity; [exact Hf|].
  destruct joined as [err|snapshot]; [apply moves_error|].
  apply moves_welcome; [by eapply same_tracked|]. intros _. rewrite (sn_config _ _ Hall). exact Hcred.
Qed.

Lemma moves_handle_join now order id raw envelope s : tracked s → decode_envelope raw = Some envelope →
  (∀ playerID, admits s raw playerID → may id playerID) → moves s (handleJoinGame now order id envelope s).
Proof.
  intros Htracked Henv Hmay. unfold handleJoinGame. destruct (DecodePayload _ _ _) as [req|] eqn:Hjoin; [|apply moves_error].
  destruct (validateJoinRequest _ _); [apply moves_error|]. destruct (jr_Spectator req).
  - destruct (verifySessionTokenForScope _ _ _ _) as [err|claims]; [apply moves_error|].
    destruct (_ && _); [apply moves_error|by apply moves_spectator].
  - destruct (resolveJoinPlayerIdentity _ _ _ _ _) as [err|[playerID claims]] eqn:Hres; [apply moves_error|].
    apply moves_join_player; [done|]. intros Hreq. by eapply Hmay, resolve_admits.
Qed.

Lemma moves_lobbies now id includeRunning order request s :
  moves s (let '(s, lobbies) := lobbySummariesForRequest includeRunning order request s in
    (sendTyped now id (LobbyList lobbies) s).1).
Proof.
  unfold lobbySummariesForRequest. destruct (Matchmaking.ListLobbiesForRequest _ _ _ _ _) as [service lobbies].
  eapply rtc_l; [apply (move_matchmaker service)|]. by apply moves_send, blank_view.
Qed.

Lemma moves_list now order id envelope s : moves s (handleListLobbies now order id envelope s).
Proof.
  unfold handleListLobbies. destruct (DecodePayload _ _ _) as [req|]; [|apply moves_error].
  destruct (Matchmaking.ValidateQueueRequest _ _); [apply moves_error|].
  destruct (nc_RequireAuth _); [|apply moves_lobbies].
  destruct (verifySessionTokenForScope _ _ _ _) as [err|claims]; [apply moves_error|].
  etransitivity; [|apply moves_lobbies]. unfold setConnectionAuthContext. case_bool_decide; [|reflexivity].
  apply rtc_once, move_note. by split.
Qed.

Lemma moves_replay now id envelope s : moves s (handleRequestReplay now id envelope s).
Proof.
  unfold handleRequestReplay. destruct (DecodePayload _ _ _) as [req|]; [|apply moves_error].
  repeat first [apply moves_error | by apply moves_send, blank_view | case_match].
Qed.

Lemma moves_submit now id command s : moves s (submit now id command s).
Proof.
  unfold submit. destruct (SubmitInput _ _ _ _) as [m [err|result]]; [|apply moves_manager].
  etransitivity; [apply (moves_manager m)|apply moves_error].
Qed.

Lemma moves_handle now order id raw envelope s : tracked s → decode_envelope raw = Some envelope →
  (∀ playerID, admits s raw playerID → may id playerID) → moves s (handleEnvelope now order id envelope s).
Proof.
  intros Htracked Henv Hmay. unfold handleEnvelope. repeat case_bool_decide; [by eapply moves_handle_join|apply moves_list|apply moves_replay|
    apply rtc_once, move_close|..|apply moves_error].
  - unfold handlePing. destruct (DecodePayload _ _ _); [by apply moves_send, blank_view|apply moves_error].
  - unfold handlePlayerInput. repeat first [apply moves_error | apply moves_submit | case_match].
  - unfold handleAbilityUse. repeat first [apply moves_error | apply moves_submit | case_match].
  - unfold handleCardUse. repeat first [apply moves_error | apply moves_submit | case_match].
  - unfold handleAckSnapshot. destruct (authorizeGameplayCommand _ _ _); [apply moves_error|].
    destruct (DecodePayload _ _ _); [|apply moves_error]. case_bool_decide; [|reflexivity].
    apply rtc_once, move_note. unfold acknowledge. split; intros c; by repeat case_match.
Qed.

Lemma moves_read now order id raw s : tracked s → (∀ playerID, admits s raw playerID → may id playerID) →
  moves s (read_round now order id (Some raw) s).
Proof.
  intros Htracked Hmay. unfold read_round. etransitivity; [apply (moves_touch now id)|].
  assert (tracked (touchConnection now id s)) as Ht.
  { unfold touchConnection. case_bool_decide as Hid; [|exact Htracked]. intros id' Hid'. rewrite conn_of_update.
    case_decide; [by subst|by apply Htracked]. }
  assert (∀ playerID, admits (touchConnection now id s) raw playerID → may id playerID) as Hm
    by (intros playerID; unfold touchConnection; case_bool_decide; apply Hmay).
  revert Ht Hm. generalize (touchConnection now id s). clear Htracked Hmay s. intros s Ht Hm.
  destruct (decode_envelope raw) as [envelope|] eqn:Henv.
  2:{ eapply rtc_l; [apply move_event|]. apply moves_error. }
  destruct (validateInboundEnvelope envelope).
  { eapply rtc_l; [apply move_event|]. apply moves_error. }
  eapply rtc_l; [apply move_event|]. by eapply moves_handle.
Qed.

Lemma moves_write now id outcome s : moves s (write_round now id outcome s).
Proof.
  unfold write_round. destruct (wc_send (conn_of s id)) as [|message queue] eqn:Hq.
  { destruct outcome; try reflexivity. apply rtc_once, move_close. }
  destruct outcome; [|..|apply rtc_once, move_close]; (eapply rtc_l; [by apply (move_take id message queue)|]).
  - etransitivity; [apply (moves_touch now id)|]. apply rtc_once, move_event.
  - apply rtc_once, move_close.
  - apply rtc_once, move_close.
Qed.

Lemma moves_snapshots now id latest snapshots s : moves s (dispatch_snapshots now id latest snapshots s).1.
Proof.
  revert latest s. induction snapshots as [|snapshot snapshots IH]; intros latest s; [reflexivity|].
  cbn [dispatch_snapshots]. destruct (_ <=? _); [apply IH|].
  set (message := SnapshotOf _). pose proof (moves_send now id message s (own_snapshot _ _)) as Hm.
  destruct (sendTyped _ _ _ _) as [s1 [err|]]; [exact Hm|]. etransitivity; [exact Hm|apply IH].
Qed.

Lemma moves_dispatch now order s : moves s (dispatchPendingSnapshots now order s).
Proof.
  unfold dispatchPendingSnapshots. apply moves_foldl. clear. intros s target. unfold dispatch_target.
  destruct (SnapshotsSince _ _ _) as [err|snapshots]; [reflexivity|].
  pose proof (moves_snapshots now (dt_connectionID target) (dt_lastSnapshotTick target) snapshots s) as Hm.
  destruct (dispatch_snapshots _ _ _ _ _) as [s1 latest]. cbn in Hm.
  destruct (_ <? _); [|exact Hm]. etransitivity; [exact Hm|apply moves_cursor].
Qed.

End moves.

(** What a message may bind its connection to. *)
Definition admitted (s : Server) (label : option (string * string)) (id : string) (playerID : PlayerID) : Prop :=
  ∃ raw, label = Some (id, raw) ∧ admits s raw playerID.

Lemma step_moves label s s' : tracked s → server_step label s s' → rtc (move (admitted s label)) s s'.
Proof.
  intros Htracked Hstep. revert Htracked. destruct Hstep; intros Htracked.
  - by apply rtc_once, move_register.
  - apply moves_read; [done|]. intros playerID Hadm. by exists raw.
  - apply rtc_once, move_close.
  - apply moves_write.
  - apply moves_dispatch.
  - apply moves_CloseConnection.
  - unfold Shutdown. apply moves_foldl. intros. apply moves_CloseConnection.
  - unfold LobbySummaries, lobbySummariesForRequest.
    destruct (Matchmaking.ListLobbiesForRequest _ _ _ _ _) as [service lobbies]. apply rtc_once, move_matchmaker.
  - apply moves_manager.
Qed.

(** ** The registry *)

(** The maps and the objects agree: who is connected, which connection a player has, and which
    connections a match has. *)
Record registry_ok (s : Server) : Prop := {
  rg_live : ∀ id, id ∈ sv_connections s →
    wc_state (conn_of s id) = ConnectionStateConnected ∧ wc_id (conn_of s id) = id;
  rg_gone : tracked s;
  rg_ids : ∀ id, is_Some (sv_objects s !! id) → ∃ n, 0 <= n <= sv_nextConnectionSequence s ∧ id = connection_id n;
  rg_seq : 0 <= sv_nextConnectionSequence s;
  rg_players : ∀ playerID id, sv_playerToConnection s !! playerID = Some id ↔
    id ∈ sv_connections s ∧ playerID ≠ "" ∧ wc_playerID (conn_of s id) = playerID;
  rg_matches : ∀ matchID id, matchID ≠ "" → id ∈ default ∅ (sv_matchToConnections s !! matchID) ↔
    id ∈ sv_connections s ∧ wc_matchID (conn_of s id) = matchID;
  rg_nonempty : ∀ matchID ids, sv_matchToConnections s !! matchID = Some ids → ids ≠ ∅;
}.

Definition same_owner (c c' : wsConnection) : Prop :=
  wc_id c' = wc_id c ∧ wc_playerID c' = wc_playerID c ∧ wc_matchID c' = wc_matchID c ∧ wc_state c' = wc_state c.

Lemma registry_same s s' :
  (∀ id, same_owner (conn_of s id) (conn_of s' id)) → dom (sv_objects s') = dom (sv_objects s) →
  sv_connections s' = sv_connections s → sv_nextConnectionSequence s' = sv_nextConnectionSequence s →
  sv_playerToConnection s' = sv_playerToConnection s → sv_matchToConnections s' = sv_matchToConnections s →
  registry_ok s → registry_ok s'.
Proof.
  intros Hown Hdom Hlive Hseq Hp Hm [H1 H2 H3 H4 H5 H6 H7].
  assert (∀ id, is_Some (sv_objects s' !! id) → is_Some (sv_objects s !! id)) as Hsome
    by (intros id; rewrite <-!elem_of_dom; by rewrite Hdom).
  split; rewrite ?Hlive, ?Hseq, ?Hp, ?Hm; try done.
  - intros id Hid. destruct (Hown id) as (-> & _ & _ & ->). by apply H1.
  - intros id. rewrite Hlive. destruct (Hown id) as (_ & _ & _ & ->). apply H2.
  - intros id Hid. by apply H3, Hsome.
  - intros playerID id. rewrite H5. destruct (Hown id) as (_ & -> & _ & _). done.
  - intros matchID id Hne. rewrite H6 by done. destruct (Hown id) as (_ & _ & -> & _). done.
Qed.

Lemma registry_update id f s : (∀ c, same_owner c (f c)) → registry_ok s → registry_ok (update_conn id f s).
Proof.
  intros Hf. apply registry_same; try done.
  - intros id'. rewrite conn_of_update. case_decide as Hid; [subst|done].
    unfold conn_of. destruct (sv_objects s !! id); [apply Hf|done].
  - unfold update_conn. cbn. apply dom_alter_L.
Qed.

Lemma drop_member_lookup matchID id sets matchID' id' :
  id' ∈ default ∅ (drop_member matchID id sets !! matchID') ↔
    id' ∈ default ∅ (sets !! matchID') ∧ (matchID' = matchID → id' ≠ id).
Proof.
  unfold drop_member. destruct (sets !! matchID) as [ids|] eqn:Hs.
  - destruct (decide (matchID' = matchID)) as [->|Hne].
    + rewrite Hs. cbn [default from_option]. case_bool_decide as Hsize.
      * rewrite lookup_delete_eq. cbn. apply size_empty_inv in Hsize. set_solver.
      * rewrite lookup_insert_eq. cbn. set_solver.
    + case_bool_decide; rewrite ?lookup_delete_ne, ?lookup_insert_ne by done; naive_solver.
  - split; [|naive_solver]. intros Hin. split; [done|]. intros ->. rewrite Hs in Hin. cbn in Hin. set_solver.
Qed.

Lemma drop_member_nonempty matchID id sets :
  (∀ m ids, sets !! m = Some ids → ids ≠ ∅) → ∀ m ids, drop_member matchID id sets !! m = Some ids → ids ≠ ∅.
Proof.
  intros H m ids. unfold drop_member. destruct (sets !! matchID) as [old|]; [|apply H].
  case_bool_decide as Hsize; [rewrite lookup_delete_Some; intros [_ Hm]; by eapply H|].
  rewrite lookup_insert_Some. intros [[_ <-]|[_ Hm]]; [|by eapply H]. intros Hempty. by rewrite Hempty in Hsize.
Qed.

Lemma drop_match_lookup matchID id sets matchID' id' : matchID' ≠ "" →
  id' ∈ default ∅ ((if matchID ≠? "" then drop_member matchID id sets else sets) !! matchID') ↔
    id' ∈ default ∅ (sets !! matchID') ∧ (matchID' = matchID → id' ≠ id).
Proof.
  intros Hne. destruct (decide (matchID = "")) as [->|Hm].
  - rewrite bool_decide_true by done. cbn [negb]. naive_solver.
  - rewrite bool_decide_false by done. apply drop_member_lookup.
Qed.

Lemma close_parts now id reason s : id ∈ sv_connections s →
  let s' := close now id reason s in
  sv_connections s' = sv_connections s ∖ {[id]} ∧ sv_nextConnectionSequence s' = sv_nextConnectionSequence s ∧
  sv_playerToConnection s' =
    (if (wc_playerID (conn_of s id) ≠? "") && bool_decide (sv_playerToConnection s !! wc_playerID (conn_of s id) = Some id)
     then delete (wc_playerID (conn_of s id)) (sv_playerToConnection s) else sv_playerToConnection s) ∧
  sv_matchToConnections s' =
    (if wc_matchID (conn_of s id) ≠? "" then drop_member (wc_matchID (conn_of s id)) id (sv_matchToConnections s)
     else sv_matchToConnections s).
Proof.
  intros Hid. cbv zeta. unfold close, unregisterConnection. rewrite (bool_decide_true _ Hid). cbn [negb].
  destruct (_ && bool_decide _), (wc_matchID (conn_of s id) ≠? ""), ((wc_playerID (conn_of s id) ≠? "") && _); by split_and!.
Qed.

Definition disconnected (now : Z) (c : wsConnection) : wsConnection :=
  c <| wc_state := ConnectionStateDisconnected |> <| wc_lastSeenAt := now |>.

Lemma close_conn now id reason s id' : id ∈ sv_connections s → is_Some (sv_objects s !! id) →
  conn_of (close now id reason s) id' = if decide (id' = id) then disconnected now (conn_of s id) else conn_of s id'.
Proof.
  intros Hid Hobj. pose proof (conn_of_update id (disconnected now) s id') as H.
  unfold conn_of at 1. rewrite close_objects, (bool_decide_true _ Hid).
  unfold conn_of at 1, update_conn in H. cbn in H. unfold disconnected in H at 1. rewrite H.
  case_decide; [|done]. unfold conn_of. by destruct Hobj as [c ->].
Qed.

Lemma live_object s id : registry_ok s → id ∈ sv_connections s → is_Some (sv_objects s !! id).
Proof.
  intros Hok Hid. destruct (rg_live _ Hok id Hid) as [H _]. unfold conn_of in H.
  destruct (sv_objects s !! id); [by eexists|done].
Qed.

Lemma close_dom now id reason s : dom (sv_objects (close now id reason s)) = dom (sv_objects s).
Proof. rewrite close_objects. case_bool_decide; [|done]. apply dom_alter_L. Qed.

Lemma registry_close now id reason s : registry_ok s → registry_ok (close now id reason s).
Proof.
  intros Hok. destruct (decide (id ∈ sv_connections s)) as [Hid|Hid].
  2:{ unfold close, unregisterConnection. by rewrite (bool_decide_false _ Hid). }
  pose proof (live_object s id Hok Hid) as Hobj. pose proof (λ id', close_conn now id reason s id' Hid Hobj) as Hconn.
  destruct (close_parts now id reason s Hid) as (Hlive & Hseq & Hp & Hm). destruct Hok as [H1 H2 H3 H4 H5 H6 H7].
  split; rewrite ?Hlive, ?Hseq, ?Hp, ?Hm.
  - intros id' [Hin Hne]%elem_of_difference. rewrite elem_of_singleton in Hne. rewrite Hconn.
    rewrite decide_False by done. by apply H1.
  - intros id'. rewrite Hlive, elem_of_difference, elem_of_singleton, Hconn. intros Hout.
    destruct (decide (id' = id)) as [Heq|Heq]; [by change (ConnectionStateDisconnected ≠ ConnectionStateConnected)|]. apply H2. naive_solver.
  - intros id'. rewrite <-elem_of_dom, close_dom, elem_of_dom. apply H3.
  - done.
  - intros playerID id'. rewrite elem_of_difference, elem_of_singleton, Hconn.
    set (old := wc_playerID (conn_of s id)) in *.
    destruct (_ && bool_decide _) eqn:Hdrop; bool_props.
    + rewrite lookup_delete_Some, H5. destruct (decide (id' = id)) as [->|Hne].
      * split; [intros (Hp' & _ & _ & Hown); by destruct Hp'|by intros ((_ & []) & _)].
      * split; [intros (_ & ? & ? & ?); by split_and!|]. intros ((Hin & _) & Hp' & Hown). split_and!; try done.
        intros ->. destruct Hne. assert (sv_playerToConnection s !! playerID = Some id') as Heq by by apply H5. congruence.
    + rewrite H5. destruct (decide (id' = id)) as [->|Hne].
      * split; [|by intros ((_ & []) & _)]. intros (_ & Hp' & Hown). exfalso.
        destruct Hdrop as [Hempty|Hother]; bool_props; [by subst old; congruence|].
        apply Hother. apply H5. subst old. by rewrite Hown.
      * split; [intros (? & ? & ?); by split_and!|intros ((? & _) & ? & ?); by split_and!].
  - intros matchID id' Hne. rewrite drop_match_lookup, H6, elem_of_difference, elem_of_singleton, Hconn by done.
    destruct (decide (id' = id)) as [->|Hid'].
    + split; [intros ((_ & <-) & []); done|by intros ((_ & []) & _)].
    + split; [intros ((? & ?) & _); by split_and!|intros ((? & _) & ?); by split_and!].
  - case_match; [by apply drop_member_nonempty|done].
Qed.

Lemma displace_parts previous s :
  let s' := displace previous s in
  sv_connections s' = sv_connections s ∧ sv_nextConnectionSequence s' = sv_nextConnectionSequence s ∧
  sv_playerToConnection s' = sv_playerToConnection s ∧ dom (sv_objects s') = dom (sv_objects s) ∧
  sv_matchToConnections s' =
    (if wc_matchID (conn_of s previous) ≠? ""
     then drop_member (wc_matchID (conn_of s previous)) previous (sv_matchToConnections s)
     else sv_matchToConnections s) ∧
  (∀ id, is_Some (sv_objects s !! previous) →
     conn_of s' id = if decide (id = previous) then clear_binding (conn_of s previous) else conn_of s id).
Proof.
  cbv zeta. unfold displace. destruct (wc_matchID (conn_of s previous) ≠? "");
    (split_and!; [done|done|done|apply dom_alter_L|done|]); intros id [c Hc]; rewrite conn_of_update;
    unfold conn_of; cbn; (destruct (decide (id = previous)); [by rewrite Hc|done]).
Qed.

Lemma registry_displace playerID previous s : registry_ok s → sv_playerToConnection s !! playerID = Some previous →
  registry_ok (displace previous s <| sv_playerToConnection ::= delete playerID |>).
Proof.
  intros Hok Hprev. pose proof (proj1 (rg_players _ Hok _ _) Hprev) as (Hin & Hp & Hown).
  pose proof (live_object s previous Hok Hin) as Hobj.
  destruct (displace_parts previous s) as (Hlive & Hseq & Hpl & Hdom & Hm & Hconn).
  destruct Hok as [H1 H2 H3 H4 H5 H6 H7].
  set (s' := displace previous s <| sv_playerToConnection ::= delete playerID |>).
  assert (sv_connections s' = sv_connections s) as Hlive' by exact Hlive.
  assert (sv_nextConnectionSequence s' = sv_nextConnectionSequence s) as Hseq' by exact Hseq.
  assert (sv_playerToConnection s' = delete playerID (sv_playerToConnection s)) as Hpl' by (rewrite <-Hpl; done).
  assert (dom (sv_objects s') = dom (sv_objects s)) as Hdom' by exact Hdom.
  assert (∀ id, conn_of s' id = if decide (id = previous) then clear_binding (conn_of s previous) else conn_of s id)
    as Hconn' by (intros; by apply Hconn).
  assert (sv_matchToConnections s' = sv_matchToConnections (displace previous s)) as Hm' by done. rewrite Hm in Hm'.
  clearbody s'. clear Hlive Hseq Hpl Hdom Hm Hconn. split; rewrite ?Hlive', ?Hseq', ?Hpl', ?Hm'.
  - intros id Hid. rewrite Hconn'. destruct (decide (id = previous)) as [->|]; [exact (H1 previous Hid)|by apply H1].
  - intros id Hid. rewrite Hlive' in Hid. rewrite Hconn'. destruct (decide (id = previous)) as [->|]; [exact (H2 previous Hid)|by apply H2].
  - intros id. rewrite <-elem_of_dom, Hdom', elem_of_dom. apply H3.
  - done.
  - intros playerID' id. rewrite Hconn', lookup_delete_Some, H5. destruct (decide (id = previous)) as [->|Hid].
    + split; [intros (Hne & _ & _ & Hown'); congruence|intros (_ & Hne & Hown'); by destruct Hne].
    + split; [intros (_ & ? & ? & ?); by split_and!|]. intros (Hin' & Hne & Hown'). split_and!; try done.
      intros ->. destruct Hid. assert (sv_playerToConnection s !! playerID' = Some id) by by apply H5. congruence.
  - intros matchID id Hne. rewrite drop_match_lookup, H6, Hconn' by done. destruct (decide (id = previous)) as [->|Hid].
    + split; [intros ((_ & <-) & []); done|intros (_ & Hown'); by destruct Hne].
    + split; [intros ((? & ?) & _); by split_and!|intros (? & ?); by split_and!].
  - case_match; [by apply drop_member_nonempty|done].
Qed.

Lemma release_parts id playerID s : registry_ok s →
  registry_ok (release_player id playerID s).1 ∧
  sv_connections (release_player id playerID s).1 = sv_connections s ∧
  (playerID ≠ "" → ∀ id', sv_playerToConnection (release_player id playerID s).1 !! playerID = Some id' → id' = id).
Proof.
  intros Hok. unfold release_player. case_bool_decide as Hp; [by split_and!|].
  destruct (sv_playerToConnection s !! playerID) as [previous|] eqn:Hprev; [|split_and!; [done|done|intros _ id'; cbn; by rewrite Hprev]].
  case_bool_decide as Hsame; [split_and!; [done|done|intros _ id'; cbn; rewrite Hprev; congruence]|].
  rewrite (bool_decide_true _ (proj1 (proj1 (rg_players _ Hok _ _) Hprev))). cbn [fst]. split_and!.
  - by apply registry_displace.
  - apply displace_parts.
  - intros _ id'. cbn. by rewrite lookup_delete_eq.
Qed.

Lemma bind_parts id matchID playerID viewerID kind subject scope s :
  let s' := bind id matchID playerID viewerID kind subject scope s in
  let players := if wc_playerID (conn_of s id) ≠? "" then delete (wc_playerID (conn_of s id)) (sv_playerToConnection s)
    else sv_playerToConnection s in
  let sets := if wc_matchID (conn_of s id) ≠? "" then drop_member (wc_matchID (conn_of s id)) id (sv_matchToConnections s)
    else sv_matchToConnections s in
  sv_connections s' = sv_connections s ∧ sv_nextConnectionSequence s' = sv_nextConnectionSequence s ∧
  sv_playerToConnection s' = (if playerID ≠? "" then <[playerID := id]> players else players) ∧
  sv_matchToConnections s' = <[matchID := {[id]} ∪ default ∅ (sets !! matchID)]> sets.
Proof. cbv zeta. unfold bind. repeat case_match; by split_and!. Qed.

Lemma bind_conn id matchID playerID viewerID kind subject scope s id' : is_Some (sv_objects s !! id) →
  let c := conn_of (bind id matchID playerID viewerID kind subject scope s) id' in
  (id' ≠ id → c = conn_of s id') ∧
  (id' = id → wc_id c = wc_id (conn_of s id) ∧ wc_state c = wc_state (conn_of s id) ∧ wc_playerID c = playerID ∧
     wc_matchID c = matchID).
Proof.
  intros [c Hc]. cbv zeta. unfold conn_of. rewrite bind_objects. split.
  - intros Hne. by rewrite lookup_alter_ne.
  - intros ->. by rewrite lookup_alter_eq, Hc.
Qed.

(** The player's entry goes to the connection, and every other entry of the connection goes away. *)
Lemma bind_players s id playerID : registry_ok s → id ∈ sv_connections s →
  (playerID ≠ "" → ∀ id', sv_playerToConnection s !! playerID = Some id' → id' = id) →
  ∀ p id', sv_playerToConnection (bind id "" playerID "" "" "" "" s) !! p = Some id' ↔
    (playerID ≠ "" ∧ p = playerID ∧ id' = id) ∨
    (id' ≠ id ∧ id' ∈ sv_connections s ∧ p ≠ "" ∧ wc_playerID (conn_of s id') = p).
Proof.
  intros Hok Hid Hfree p id'. destruct (bind_parts id "" playerID "" "" "" "" s) as (_ & _ & -> & _).
  pose proof (rg_players _ Hok) as H5. set (old := wc_playerID (conn_of s id)).
  assert (∀ p id', (if old ≠? "" then delete old (sv_playerToConnection s) else sv_playerToConnection s) !! p = Some id' ↔
    id' ≠ id ∧ id' ∈ sv_connections s ∧ p ≠ "" ∧ wc_playerID (conn_of s id') = p) as Hplayers.
  { clear p id'. intros p id'. destruct (decide (old = "")) as [Ho|Ho].
    - rewrite (bool_decide_true _ Ho). cbn [negb]. rewrite H5. split; [|by intros (_ & ?)].
      intros (? & Hp & Hown). split_and!; try done. intros ->. apply Hp. by rewrite <-Hown.
    - rewrite (bool_decide_false _ Ho). cbn [negb]. rewrite lookup_delete_Some, H5. split.
      + intros (Hp & ? & ? & Hown). split_and!; try done. intros ->. by apply Hp.
      + intros (Hne & ? & ? & Hown). split_and!; try done. intros <-. apply Hne.
        assert (sv_playerToConnection s !! old = Some id') as Heq by (by apply H5).
        assert (sv_playerToConnection s !! old = Some id) as Heq' by (by apply H5). congruence. }
  destruct (decide (playerID = "")) as [Hp|Hp].
  - rewrite (bool_decide_true _ Hp). cbn [negb]. rewrite Hplayers. naive_solver.
  - rewrite (bool_decide_false _ Hp). cbn [negb]. rewrite lookup_insert_Some, Hplayers. split; [naive_solver|].
    intros [(_ & -> & ->)|(Hne & Hin & Hp' & Hown)]; [by left|]. right. split_and!; try done. intros <-. apply Hne.
    apply (Hfree Hp). by apply H5.
Qed.

Lemma bind_matches s id matchID : registry_ok s → id ∈ sv_connections s →
  ∀ m id', m ≠ "" → id' ∈ default ∅ (sv_matchToConnections (bind id matchID "" "" "" "" "" s) !! m) ↔
    (m = matchID ∧ id' = id) ∨ (id' ≠ id ∧ id' ∈ sv_connections s ∧ wc_matchID (conn_of s id') = m).
Proof.
  intros Hok Hid m id' Hne. destruct (bind_parts id matchID "" "" "" "" "" s) as (_ & _ & _ & ->).
  pose proof (rg_matches _ Hok) as H6. set (sets := if wc_matchID (conn_of s id) ≠? "" then _ else _).
  assert (id' ∈ default ∅ (sets !! m) ↔ id' ≠ id ∧ id' ∈ sv_connections s ∧ wc_matchID (conn_of s id') = m) as Hsets.
  { unfold sets. rewrite drop_match_lookup, H6 by done. split.
    - intros ((? & ?) & Hd). split_and!; try done. intros ->. by apply Hd.
    - intros (? & ? & ?). by split_and!. }
  destruct (decide (m = matchID)) as [->|Hnm].
  - rewrite lookup_insert_eq. cbn. rewrite elem_of_union, elem_of_singleton, Hsets. naive_solver.
  - rewrite lookup_insert_ne, Hsets by done. naive_solver.
Qed.

Lemma registry_bind id matchID playerID viewerID kind subject scope s : registry_ok s → id ∈ sv_connections s →
  (playerID ≠ "" → ∀ id', sv_playerToConnection s !! playerID = Some id' → id' = id) →
  registry_ok (bind id matchID playerID viewerID kind subject scope s).
Proof.
  intros Hok Hid Hfree. pose proof (live_object s id Hok Hid) as Hobj.
  pose proof (λ id', bind_conn id matchID playerID viewerID kind subject scope s id' Hobj) as Hconn.
  pose proof (bind_players s id playerID Hok Hid Hfree) as Hplayers.
  pose proof (bind_matches s id matchID Hok Hid) as Hmatches.
  destruct (bind_parts id "" playerID "" "" "" "" s) as (_ & _ & Hpl1 & _). rewrite Hpl1 in Hplayers.
  destruct (bind_parts id matchID "" "" "" "" "" s) as (_ & _ & _ & Hm1). rewrite Hm1 in Hmatches.
  pose proof (bind_parts id matchID playerID viewerID kind subject scope s) as (Hlive & Hseq & Hpl & Hm).
  rewrite <-Hpl in Hplayers. rewrite <-Hm in Hmatches. clear Hpl1 Hm1.
  assert (dom (sv_objects (bind id matchID playerID viewerID kind subject scope s)) = dom (sv_objects s)) as Hdom
    by (rewrite bind_objects; apply dom_alter_L).
  revert Hconn Hlive Hseq Hm Hplayers Hmatches Hdom. clear Hpl.
  generalize (bind id matchID playerID viewerID kind subject scope s).
  intros s' Hconn Hlive Hseq Hm Hplayers Hmatches Hdom. cbv zeta in Hconn. destruct Hok as [H1 H2 H3 H4 H5 H6 H7].
  split.
  - intros id'. rewrite Hlive. intros Hin. destruct (Hconn id') as [Hother Hself].
    destruct (decide (id' = id)) as [->|Hne]; [destruct (Hself eq_refl) as (-> & -> & _)|rewrite (Hother Hne)]; by apply H1.
  - intros id'. rewrite Hlive. intros Hout. destruct (Hconn id') as [Hother _].
    destruct (decide (id' = id)) as [->|Hne]; [done|rewrite (Hother Hne)]; by apply H2.
  - intros id'. rewrite <-elem_of_dom, Hdom, elem_of_dom, Hseq. apply H3.
  - by rewrite Hseq.
  - intros p id'. rewrite Hplayers, Hlive. destruct (Hconn id') as [Hother Hself]. clear Hplayers Hmatches.
    destruct (decide (id' = id)) as [->|Hne]; [destruct (Hself eq_refl) as (_ & _ & -> & _)|rewrite (Hother Hne)]; naive_solver.
  - intros m id' Hm'. rewrite Hmatches, Hlive by done. destruct (Hconn id') as [Hother Hself]. clear Hplayers Hmatches.
    destruct (decide (id' = id)) as [->|Hne]; [destruct (Hself eq_refl) as (_ & _ & _ & ->)|rewrite (Hother Hne)]; naive_solver.
  - intros m ids. rewrite Hm, lookup_insert_Some. intros [[_ <-]|[_ Hm']]; [set_solver|].
    revert Hm'. destruct (_ ≠? _); [apply (drop_member_nonempty _ _ _ H7)|apply H7].
Qed.

Lemma registry_closes now reason stale s : registry_ok s →
  registry_ok (foldl (λ s staleID, (CloseConnection now staleID reason s).1) s stale).
Proof.
  revert s. induction stale as [|id stale IH]; intros s Hok; [done|]. cbn. apply IH.
  unfold CloseConnection. case_bool_decide; [by apply registry_close|done].
Qed.

Lemma registry_manager m s : registry_ok s → registry_ok (s <| sv_manager := m |>).
Proof. by apply registry_same. Qed.

Lemma registry_bindConnection now id matchID playerID viewerID kind subject scope s :
  registry_ok s → registry_ok (bindConnection now id matchID playerID viewerID kind subject scope s).
Proof.
  intros Hok. unfold bindConnection. case_bool_decide as Hid; cbn [negb]; [|done].
  destruct (release_parts id playerID s Hok) as (Hok1 & Hlive & Hfree).
  destruct (release_player id playerID s) as [s1 stale]. cbn [fst] in *.
  set (s3 := foldl _ _ _). assert (registry_ok s3) as H3.
  { unfold s3. apply registry_closes. apply (registry_same (bind id matchID playerID viewerID kind subject scope s1)); try done.
    apply registry_bind; [done|by rewrite Hlive|done]. }
  clearbody s3. case_match; [by apply registry_manager|done].
Qed.

Lemma registry_register now remoteAddr s : sv_nextConnectionSequence s + 1 < 2 ^ 64 →
  registry_ok s → registry_ok (registerConnection now remoteAddr s).1.
Proof.
  intros Hroom [H1 H2 H3 H4 H5 H6 H7]. unfold registerConnection. cbn [fst].
  set (n := u64 (sv_nextConnectionSequence s + 1)).
  assert (n = sv_nextConnectionSequence s + 1) as Hn by (apply u64_small; unfold is_u64; lia).
  set (id := connection_id n).
  assert (sv_objects s !! id = None) as Hnew.
  { destruct (sv_objects s !! id) as [c|] eqn:Hc; [|done]. destruct (H3 id ltac:(by eexists)) as (k & Hk & Heq).
    apply (match_id_inj "conn") in Heq; lia. }
  assert (id ∉ sv_connections s) as Hout.
  { intros Hin. destruct (H1 id Hin) as [Hs _]. unfold conn_of in Hs. by rewrite Hnew in Hs. }
  set (s' := appendEvent _ _).
  assert (∀ id', id' ≠ id → conn_of s' id' = conn_of s id') as Hother
    by (intros id' Hne; unfold conn_of; change (sv_objects s') with (<[id := mkConn id [] remoteAddr now now 0 0 0 "" "" "" "" "" ""
      ConnectionStateConnected]> (sv_objects s)); by rewrite lookup_insert_ne).
  assert (conn_of s' id = mkConn id [] remoteAddr now now 0 0 0 "" "" "" "" "" "" ConnectionStateConnected) as Hself
    by (unfold conn_of; change (sv_objects s') with (<[id := mkConn id [] remoteAddr now now 0 0 0 "" "" "" "" "" ""
      ConnectionStateConnected]> (sv_objects s)); by rewrite lookup_insert_eq).
  assert (sv_connections s' = {[id]} ∪ sv_connections s) as Hlive by done.
  assert (dom (sv_objects s') = {[id]} ∪ dom (sv_objects s)) as Hdom
    by (change (sv_objects s') with (<[id := mkConn id [] remoteAddr now now 0 0 0 "" "" "" "" "" ""
      ConnectionStateConnected]> (sv_objects s)); by rewrite dom_insert_L).
  assert (sv_nextConnectionSequence s' = n ∧ sv_playerToConnection s' = sv_playerToConnection s ∧
    sv_matchToConnections s' = sv_matchToConnections s) as (Hseq & Hp & Hm) by done.
  clearbody s'. split; rewrite ?Hlive, ?Hseq, ?Hp, ?Hm; try done.
  - intros id' [Heq%elem_of_singleton|Hin]%elem_of_union; [subst id'; by rewrite Hself|].
    rewrite Hother by (intros ->; done). by apply H1.
  - intros id'. rewrite Hlive, elem_of_union, elem_of_singleton. intros Hn'. rewrite Hother by tauto. apply H2. tauto.
  - intros id'. rewrite <-elem_of_dom, Hdom, elem_of_union, elem_of_singleton, elem_of_dom. intros [->|Hin].
    + exists n. split; [lia|done].
    + destruct (H3 id' Hin) as (k & Hk & ->). exists k. split; [lia|done].
  - lia.
  - intros playerID id'. rewrite H5, elem_of_union, elem_of_singleton. destruct (decide (id' = id)) as [->|Hne].
    + rewrite Hself. cbn. naive_solver.
    + rewrite Hother by done. naive_solver.
  - intros matchID id' Hne'. rewrite H6, elem_of_union, elem_of_singleton by done. destruct (decide (id' = id)) as [->|Hne].
    + rewrite Hself. cbn. naive_solver.
    + rewrite Hother by done. naive_solver.
Qed.

Lemma move_registry may s s' : move may s s' → registry_ok s → registry_ok s'.
Proof.
  intros []; [by apply registry_same|by apply registry_same|by apply registry_same|..].
  - apply registry_update. intros c. destruct H as [? ? ? ? ? ? ?]. unfold same_owner. by split_and!.
  - by apply registry_update.
  - by apply registry_update.
  - apply registry_close.
  - apply registry_bindConnection.
  - by apply registry_register.
Qed.

Lemma moves_registry may s s' : rtc (move may) s s' → registry_ok s → registry_ok s'.
Proof. induction 1; [done|]. eauto using move_registry. Qed.

Lemma registry_new manager config : registry_ok (NewServer manager config).
Proof.
  assert (registry_ok (mkServer manager Matchmaking.NewService (normalized config) None None 0 ∅ ∅ ∅ ∅ [])) as H.
  { split; cbn.
    - intros id. set_solver.
    - intros id _. by vm_compute.
    - intros id [c Hc]. by rewrite lookup_empty in Hc.
    - done.
    - intros playerID id. rewrite lookup_empty. set_solver.
    - intros matchID id _. rewrite lookup_empty. cbn. set_solver.
    - intros matchID ids. by rewrite lookup_empty. }
  unfold NewServer. destruct (nc_RequireAuth _); [|exact H].
  destruct (Auth.NewTokenService _ _); revert H; by apply registry_same.
Qed.


(** ** Whose a connection is

    What a connection loses is nobody's business: its player, its viewer, messages of its queue. *)

Record loses (s s' : Server) : Prop := mkLoses {
  ls_config : sv_config s' = sv_config s;
  ls_auth : sv_auth s' = sv_auth s;
  ls_player : ∀ id, wc_playerID (conn_of s' id) = "" ∨ wc_playerID (conn_of s' id) = wc_playerID (conn_of s id);
  ls_viewer : ∀ id, wc_viewerID (conn_of s' id) = "" ∨ wc_viewerID (conn_of s' id) = wc_viewerID (conn_of s id);
  ls_queue : ∀ id message, message ∈ wc_send (conn_of s' id) → message ∈ wc_send (conn_of s id);
}.

#[export] Instance loses_preorder : PreOrder loses.
Proof.
  split.
  - intros s. split; auto.
  - intros s1 s2 s3 [] []. split; [congruence|congruence|..]; intros id.
    + destruct (ls_player1 id) as [->| ->]; [by left|apply ls_player0].
    + destruct (ls_viewer1 id) as [->| ->]; [by left|apply ls_viewer0].
    + intros message Hm. by apply ls_queue0, ls_queue1.
Qed.

Lemma loses_same s s' : sv_config s' = sv_config s → sv_auth s' = sv_auth s → sv_objects s' = sv_objects s → loses s s'.
Proof. intros Hc Ha Ho. split; [done|done|..]; intros id; unfold conn_of; rewrite Ho; auto. Qed.

Lemma loses_update id f s :
  (∀ c, (wc_playerID (f c) = "" ∨ wc_playerID (f c) = wc_playerID c) ∧
        (wc_viewerID (f c) = "" ∨ wc_viewerID (f c) = wc_viewerID c) ∧
        (∀ message, message ∈ wc_send (f c) → message ∈ wc_send c)) → loses s (update_conn id f s).
Proof.
  intros Hf. split; [done|done|..]; intros id'; rewrite conn_of_update; (case_decide; [subst|auto]);
    unfold conn_of; (destruct (sv_objects s !! id) as [c|]; [apply (Hf c)|auto]).
Qed.

Lemma loses_close now id reason s : loses s (close now id reason s).
Proof.
  transitivity (if bool_decide (id ∈ sv_connections s) then update_conn id (disconnected now) s else s).
  - case_bool_decide; [|reflexivity]. apply loses_update. intros c. split_and!; [by right|by right|done].
  - unfold close, unregisterConnection. case_bool_decide; cbn [negb]; [|reflexivity].
    repeat case_match; by apply loses_same.
Qed.

Lemma loses_closes now reason stale s : loses s (foldl (λ s staleID, (CloseConnection now staleID reason s).1) s stale).
Proof.
  revert s. induction stale as [|id stale IH]; intros s; [reflexivity|]. cbn. etransitivity; [|apply IH].
  unfold CloseConnection. case_bool_decide; [apply loses_close|reflexivity].
Qed.

Lemma loses_release id playerID s : loses s (release_player id playerID s).1.
Proof.
  unfold release_player. case_bool_decide; [reflexivity|].
  destruct (sv_playerToConnection s !! playerID) as [previous|]; [|reflexivity].
  case_bool_decide; [reflexivity|]. case_bool_decide; cbn [fst]; [|by apply loses_same].
  transitivity (displace previous s); [|by apply loses_same]. unfold displace.
  set (s1 := if _ ≠? _ then _ else _). transitivity s1; [unfold s1; case_match; [by apply loses_same|reflexivity]|].
  apply loses_update. intros c. split_and!; [by left|by left|done].
Qed.

Section guarded.
Context (may : string → PlayerID → Prop).

(** Who may see through a connection: a player who may have it, the spectator it can be, nobody. *)
Definition viewer_ok (s : Server) (id : string) (v : PlayerID) : Prop :=
  v = "" ∨ v = spectator_id id ∨ (nc_RequireAuth (sv_config s) = true → may id v).

Record guarded (s : Server) : Prop := mkGuarded {
  gd_player : ∀ id, wc_playerID (conn_of s id) ≠ "" → nc_RequireAuth (sv_config s) = true →
    may id (wc_playerID (conn_of s id));
  gd_viewer : ∀ id, viewer_ok s id (wc_viewerID (conn_of s id));
  gd_queue : ∀ id message, message ∈ wc_send (conn_of s id) → ∃ v, own_view v message ∧ viewer_ok s id v;
}.

Lemma guarded_loses s s' : loses s s' → guarded s → guarded s'.
Proof.
  intros [Hc Ha Hp Hv Hq] [H1 H2 H3]. split; unfold viewer_ok; rewrite ?Hc.
  - intros id. destruct (Hp id) as [->| ->]; [done|]. apply H1.
  - intros id. destruct (Hv id) as [->| ->]; [by left|]. apply H2.
  - intros id message Hin. by apply H3, Hq.
Qed.

Lemma guarded_bind id matchID playerID viewerID kind subject scope s :
  (playerID ≠ "" → nc_RequireAuth (sv_config s) = true → may id playerID) →
  viewerID = playerID ∨ viewerID = spectator_id id →
  guarded s → guarded (bind id matchID playerID viewerID kind subject scope s).
Proof.
  intros Hmay Hviewer [H1 H2 H3]. set (s' := bind id matchID playerID viewerID kind subject scope s).
  assert (sv_config s' = sv_config s) as Hc by (unfold s', bind; repeat case_match; done).
  assert (∀ id', conn_of s' id' = conn_of s id' ∨
    id' = id ∧ wc_playerID (conn_of s' id') = playerID ∧ wc_viewerID (conn_of s' id') = viewerID ∧
    wc_send (conn_of s' id') = wc_send (conn_of s id')) as Hconn.
  { intros id'. unfold conn_of, s'. rewrite bind_objects. destruct (decide (id' = id)) as [->|Hne].
    - rewrite lookup_alter_eq. destruct (sv_objects s !! id); [by right|by left].
    - rewrite lookup_alter_ne by done. by left. }
  clearbody s'. split; unfold viewer_ok; rewrite ?Hc; intros id'.
  - destruct (Hconn id') as [->|(-> & -> & _)]; [apply H1|exact Hmay].
  - destruct (Hconn id') as [->|(-> & _ & -> & _)]; [apply H2|].
    destruct Hviewer as [->| ->]; [|by right; left]. destruct (decide (playerID = "")); [by left|]. right. right. auto.
  - destruct (Hconn id') as [->|(-> & _ & _ & ->)]; apply H3.
Qed.

Lemma guarded_move s s' : move may s s' →
  sv_config s' = sv_config s ∧ sv_auth s' = sv_auth s ∧ (guarded s → guarded s').
Proof.
  assert (∀ s s', loses s s' → sv_config s' = sv_config s ∧ sv_auth s' = sv_auth s ∧ (guarded s → guarded s')) as Hloses
    by (intros s1 s2 Hl; split_and!; [apply Hl|apply Hl|by apply guarded_loses]).
  intros [event s0|m s0|service s0|id f s0 Hf|id message s0 Hopen Hview|id message queue s0 Hq|now id reason s0|
    now id matchID playerID viewerID kind subject scope s0 Hmay Hviewer|now remoteAddr s0 Hroom];
    try (by apply Hloses, loses_same).
  - apply Hloses, loses_update. intros c. destruct Hf as [_ Hs Hp Hv _ _ _]. rewrite Hs, Hp, Hv. auto.
  - split_and!; [done|done|]. intros [H1 H2 H3]. split; intros id'; unfold viewer_ok;
      rewrite conn_of_update; (case_decide; [subst|first [apply H1|apply H2|apply H3]]); unfold conn_of in *;
      (destruct (sv_objects s0 !! id) as [c|] eqn:Hc; [|done]).
    + specialize (H1 id). by rewrite Hc in H1.
    + specialize (H2 id). by rewrite Hc in H2.
    + intros message'. cbn. rewrite elem_of_app, list_elem_of_singleton. intros [Hin| ->].
      * specialize (H3 id message'). rewrite Hc in H3. by apply H3.
      * exists (wc_viewerID c). split; [exact Hview|]. specialize (H2 id). by rewrite Hc in H2.
  - split_and!; [done|done|]. intros Hg. apply (guarded_loses s0); [|exact Hg].
    split; [done|done|..]; intros id'; rewrite conn_of_update; (case_decide; [subst|auto]); unfold conn_of in *;
      destruct (sv_objects s0 !! id) as [c|]; auto. cbn. intros message'. cbn in Hq. rewrite Hq. intros. by right.
  - apply Hloses, loses_close.
  - unfold bindConnection. case_bool_decide; cbn [negb]; [|done].
    pose proof (loses_release id playerID s0) as Hrel. destruct (release_player id playerID s0) as [s1 stale]. cbn [fst] in Hrel.
    set (s2 := appendEvent _ _). set (s3 := foldl _ _ _).
    assert (loses s2 s3) as H23 by apply loses_closes.
    assert (sv_config s2 = sv_config s1 ∧ sv_auth s2 = sv_auth s1) as [Hc2 Ha2] by (unfold s2, bind; repeat case_match; done).
    assert (guarded s0 → guarded s2) as H02.
    { intros Hg. apply (guarded_loses (bind id matchID playerID viewerID kind subject scope s1)); [by apply loses_same|].
      apply guarded_bind; [|done|by apply (guarded_loses s0)]. by rewrite (ls_config _ _ Hrel). }
    assert (∀ s4, loses s3 s4 → sv_config s4 = sv_config s0 ∧ sv_auth s4 = sv_auth s0 ∧ (guarded s0 → guarded s4)) as H4.
    { intros s4 H34. destruct Hrel as [Hc1 Ha1 _ _ _]. destruct (H23) as [Hc3 Ha3 _ _ _]. destruct (H34) as [Hc4 Ha4 _ _ _].
      split_and!; [congruence|congruence|]. intros Hg. apply (guarded_loses s3); [done|]. apply (guarded_loses s2); auto. }
    clearbody s3. case_match; apply H4; [by apply loses_same|reflexivity].
  - apply Hloses. split; [done|done|..]; intros id; unfold conn_of;
      change (sv_objects (registerConnection now remoteAddr s0).1) with
      (<[connection_id (u64 (sv_nextConnectionSequence s0 + 1)) := mkConn (connection_id (u64 (sv_nextConnectionSequence s0 + 1)))
        [] remoteAddr now now 0 0 0 "" "" "" "" "" "" ConnectionStateConnected]> (sv_objects s0));
      (destruct (decide (id = connection_id (u64 (sv_nextConnectionSequence s0 + 1)))) as [->|Hne];
       [rewrite lookup_insert_eq|rewrite lookup_insert_ne by done]); auto.
    cbn. intros message Hm. by apply not_elem_of_nil in Hm.
Qed.

Lemma guarded_moves s s' : rtc (move may) s s' →
  sv_config s' = sv_config s ∧ sv_auth s' = sv_auth s ∧ (guarded s → guarded s').
Proof.
  induction 1 as [s|s1 s2 s3 Hstep _ (Hc & Ha & Hg)]; [done|]. destruct (guarded_move _ _ Hstep) as (Hc1 & Ha1 & Hg1).
  split_and!; [congruence|congruence|auto].
Qed.
End guarded.

Lemma move_mono may may' s s' : (∀ id p, may id p → may' id p) → move may s s' → move may' s s'.
Proof.
  intros H []; [apply move_event|apply move_manager|apply move_matchmaker|by apply move_note|by apply move_send|
    by eapply move_take|apply move_close|apply move_bind; auto|by apply move_register].
Qed.

Lemma guarded_mono may may' s : (∀ id p, may id p → may' id p) → guarded may s → guarded may' s.
Proof.
  intros H [H1 H2 H3]. assert (∀ id v, viewer_ok may s id v → viewer_ok may' s id v) as Hv
    by (intros id v [?|[?|?]]; [by left|by right; left|right; right; auto]).
  split; [auto|auto|]. intros id message Hm. destruct (H3 id message Hm) as (v & ? & ?). exists v. auto.
Qed.

(** A message that the server read on the connection joined as this player, with a token for it. *)
Definition joined_as (H : list (string * string)) (s : Server) (id : string) (playerID : PlayerID) : Prop :=
  ∃ raw, (id, raw) ∈ H ∧ admits s raw playerID.

Lemma guarded_new may manager config : guarded may (NewServer manager config).
Proof.
  assert (∀ id, conn_of (NewServer manager config) id = zero_conn) as Hconn.
  { intros id. unfold NewServer. destruct (nc_RequireAuth _); [|done]. by destruct (Auth.NewTokenService _ _). }
  split; intros id; rewrite Hconn; [done|by left|]. intros message Hm. by apply not_elem_of_nil in Hm.
Qed.

Lemma history_ok manager config H s : history manager config H s → registry_ok s ∧ guarded (joined_as H s) s.
Proof.
  induction 1 as [|H label s s' _ [Hok Hg] Hstep]; [split; [apply registry_new|apply guarded_new]|].
  pose proof (step_moves label s s' (rg_gone _ Hok) Hstep) as Hmoves.
  split; [by eapply moves_registry|].
  set (may := joined_as (H ++ option_list label) s).
  assert (rtc (move may) s s') as Hmay.
  { clear -Hmoves. assert (∀ id p, admitted s label id p → may id p) as Hmono.
    { intros id p (raw & -> & Hadm). exists raw. split; [|done]. apply elem_of_app. right. cbn. by apply list_elem_of_singleton. }
    revert Hmoves Hmono. generalize (admitted s label). generalize may. clear. intros may may0 Hmoves Hmono.
    induction Hmoves as [|s1 s2 s3 H12 _ IH]; [done|]. eapply rtc_l; [by eapply move_mono|exact IH]. }
  destruct (guarded_moves may s s' Hmay) as (Hc & Ha & Hg'). apply (guarded_mono may).
  { intros id p (raw & Hraw & tokens & envelope & req & at_ & claims & Ht & Hrest). exists raw. split; [done|].
    exists tokens, envelope, req, at_, claims. by rewrite Ha. }
  apply Hg'. revert Hg. apply guarded_mono. intros id p (raw & Hraw & Hadm). exists raw. split; [|done].
  apply elem_of_app. by left.
Qed.

(** C11: Whatever it has been sent, the server's registry is in order: exactly the open connections
    are in its maps, a player has at most one of them and it is the one the player's entry names,
    and a match's set holds the connections that are bound to the match, and is dropped when it
    is empty. *)
Theorem server_registry manager config H s (Hhist : history manager config H s) :
  registry_ok s ∧
  ∀ id id', id ∈ sv_connections s → id' ∈ sv_connections s →
    wc_playerID (conn_of s id) ≠ "" → wc_playerID (conn_of s id') = wc_playerID (conn_of s id) → id' = id.
Proof.
  destruct (history_ok _ _ _ _ Hhist) as [Hok _]. split; [exact Hok|]. intros id id' Hid Hid' Hne Heq.
  pose proof (proj2 (rg_players _ Hok (wc_playerID (conn_of s id)) id)) as H1.
  pose proof (proj2 (rg_players _ Hok (wc_playerID (conn_of s id)) id')) as H2.
  rewrite (H1 ltac:(by split_and!)) in H2. specialize (H2 ltac:(by split_and!)). congruence.
Qed.

(** C10: With authentication, a connection is bound to a player only if the server read on this
    connection a join with a token that it signed, whose subject is that player and whose scope
    lets the player play. *)
Theorem connections_authenticated manager config H s id (Hhist : history manager config H s)
    (Hauth : nc_RequireAuth (sv_config s) = true) (Hbound : wc_playerID (conn_of s id) ≠ "") :
  joined_as H s id (wc_playerID (conn_of s id)).
Proof. destruct (history_ok _ _ _ _ Hhist) as [_ Hg]. by apply (gd_player _ _ Hg). Qed.

(** C9: A snapshot never leaves the server unprojected: what waits in the queue of a connection is
    the projection of a snapshot for nobody, for the spectator that the connection can be, or,
    with authentication, for a player whose token was presented on this connection. *)
Theorem snapshots_private manager config H s id message snapshot (Hhist : history manager config H s)
    (Hmessage : message ∈ wc_send (conn_of s id)) (Hcarried : carried_snapshot message = Some snapshot) :
  ∃ full v, snapshot = ProjectSnapshotForViewer full v ∧
    (v = "" ∨ v = spectator_id id ∨ (nc_RequireAuth (sv_config s) = true → joined_as H s id v)).
Proof.
  destruct (history_ok _ _ _ _ Hhist) as [_ Hg].
  destruct (gd_queue _ _ Hg id message Hmessage) as (v & Hview & Hok).
  destruct (Hview snapshot Hcarried) as [full ->]. by exists full, v.
Qed.

End server.

(** ** Witnesses *)

Import Demo.

Lemma demo_read_history : history demo_manager demo_settings demo_read demo_joined.
Proof.
  apply (history_step demo_manager demo_settings [] (Some ("conn-000001", "ann joins")) demo_opened).
  - apply (history_step demo_manager demo_settings [] None (NewServer demo_manager demo_settings)); [constructor|].
    apply step_connect. by vm_compute.
  - apply step_read.
Qed.

Lemma server_registry_witness :
  registry_ok demo_joined ∧ sv_playerToConnection demo_joined !! "ann" = Some "conn-000001".
Proof. split; [exact (proj1 (server_registry _ _ _ _ demo_read_history))|by vm_compute]. Defined.

Lemma connections_authenticated_witness :
  joined_as demo_read demo_joined "conn-000001" (wc_playerID (conn_of demo_joined "conn-000001")) ∧
  wc_playerID (conn_of demo_joined "conn-000001") = "ann".
Proof.
  split; [apply (connections_authenticated _ _ _ _ _ demo_read_history)|]; vm_compute; [done|discriminate|done].
Defined.

Lemma demo_sent : ∃ message snapshot,
  wc_send (conn_of demo_joined "conn-000001") !! 1%nat = Some message ∧ carried_snapshot message = Some snapshot.
Proof.
  assert (bool_decide (is_Some (wc_send (conn_of demo_joined "conn-000001") !! 1%nat ≫= carried_snapshot)) = true) as H
    by (vm_compute; reflexivity).
  apply bool_decide_eq_true in H as [snapshot (message & Hm & Hs)%bind_Some]. exists message, snapshot. exact (conj Hm Hs).
Qed.

Lemma snapshots_private_witness : ∃ message snapshot full v,
  wc_send (conn_of demo_joined "conn-000001") !! 1%nat = Some message ∧ carried_snapshot message = Some snapshot ∧
  snapshot = ProjectSnapshotForViewer full v ∧
  (v = "" ∨ v = spectator_id "conn-000001" ∨
   (nc_RequireAuth (sv_config demo_joined) = true → joined_as demo_read demo_joined "conn-000001" v)).
Proof.
  destruct demo_sent as (message & snapshot & Hm & Hs).
  destruct (snapshots_private _ _ _ _ "conn-000001" message snapshot demo_read_history (list_elem_of_lookup_2 _ _ _ Hm) Hs)
    as (full & v & H).
  exists message, snapshot, full, v. exact (conj Hm (conj Hs H)).
Defined.

End Connections.
