(* ===== verification/Delivery.v ===== *)
(** * Commands in, snapshots out

    What the handlers of the server of [Network] do to the matches, and that a dispatch brings
    the snapshots of a match to the connections that watch it. *)

From S2P Require Import Prelude Float32 Model GoStrings Access Items Phase Visibility Session InputQueue Lifecycle Matchmaking Auth Protocol Network Connections.
From Stdlib Require Import Ascii.

#[local] Open Scope Z_scope.

Module Delivery.
Import Network Connections.

Section server.
Context `{Hwire : !Wire, Hdec : !PayloadDecoder, Htokens : !Auth.TokenPrimitives}.

(** ** What a client can do to a match *)

(** The connection may send commands. *)
Definition may_command (s : Server) (conn : wsConnection) : Prop :=
  wc_matchID conn ≠ "" ∧ wc_playerID conn ≠ "" ∧ wc_sessionKind conn = SessionKindPlayer ∧
  (nc_RequireAuth (sv_config s) = true →
     TrimSpace (wc_authSubject conn) = wc_playerID conn ∧
     (wc_authScope conn = Auth.ScopeGameplay ∨ wc_authScope conn = Auth.ScopeAdmin)).

Lemma authorize_may s conn envelope : authorizeGameplayCommand s conn envelope = None → may_command s conn.
Proof.
  unfold authorizeGameplayCommand, may_command. destruct (_ || _) eqn:H1; [done|]. bool_props.
  destruct ((en_MatchID envelope ≠? "") && _); [done|]. destruct ((en_PlayerID envelope ≠? "") && _); [done|].
  destruct (nc_RequireAuth _) eqn:Hreq; cbn [negb]; [|intros _; by split_and!].
  destruct ((wc_authScope conn ≠? _) && _) eqn:Hscope; [done|].
  assert (wc_authScope conn = Auth.ScopeGameplay ∨ wc_authScope conn = Auth.ScopeAdmin) as Hs
    by (apply andb_false_iff in Hscope as [Hs|Hs]; bool_props; auto). clear Hscope.
  case_bool_decide; [done|]. case_bool_decide as Hsub; cbn [negb]; [|done]. intros _. by split_and!.
Qed.

(** The queue of the connection is full, so that one more message closes it. *)
Definition overflows (s : Server) (id : string) : Prop :=
  wc_state (conn_of s id) = ConnectionStateConnected ∧
  nc_SendQueueDepth (sv_config s) <= Z.of_nat (length (wc_send (conn_of s id))).

(** The manager as it was; or, for the reason [gone], with the connection's player marked as
    gone. *)
Definition reported (s : Server) (id : string) (gone : Prop) (m m' : Manager) : Prop :=
  m' = m ∨ gone ∧ m' = (SetPlayerConnected m (wc_matchID (conn_of s id)) (wc_playerID (conn_of s id)) false).1.

Lemma reported_mono s id (gone gone' : Prop) m m' : (gone → gone') → reported s id gone m m' → reported s id gone' m m'.
Proof. intros Hgone [->|[H ->]]; [by left|right]. by split; [apply Hgone|]. Qed.

Lemma close_reported now id reason s : reported s id True (sv_manager s) (sv_manager (close now id reason s)).
Proof.
  unfold reported, close, unregisterConnection. case_bool_decide; cbn [negb]; [|by left].
  destruct ((wc_playerID (conn_of s id) ≠? "") && (wc_matchID (conn_of s id) ≠? "")); [right; split; [done|]|left];
    destruct (_ && _), (wc_matchID (conn_of s id) ≠? ""); done.
Qed.

Lemma send_reported now id message s :
  reported s id (overflows s id) (sv_manager s) (sv_manager (sendTyped now id message s).1).
Proof.
  unfold sendTyped. destruct (encodable message); [|by left]. unfold enqueueEnvelope.
  case_bool_decide as Hopen; cbn [negb]; [|by left]. destruct (_ <? _) eqn:Hroom; bool_props; [by left|].
  set (event := mkConnEvent _ _ _ _ _ _ _). eapply reported_mono; [|exact (close_reported now id "send_queue_full" (appendEvent event s))].
  intros _. split; [exact Hopen|lia].
Qed.

Lemma error_reported now id code message s :
  reported s id (overflows s id) (sv_manager s) (sv_manager (sendProtocolError now id code message s)).
Proof. apply send_reported. Qed.

(** What a message other than a join does to the manager.  Only three types of message submit a
    command, and only a message to leave, or an answer for which there is no room, marks the player
    as gone. *)
Definition attributed (now : Z) (s : Server) (id : string) (type : MessageType) (m' : Manager) : Prop :=
  ∃ m, (m = sv_manager s ∨ type ∈ [MsgPlayerInput; MsgAbilityUse; MsgCardUse] ∧
        ∃ command, may_command s (conn_of s id) ∧ ic_PlayerID command = wc_playerID (conn_of s id) ∧
          m = (SubmitInput (sv_manager s) now (wc_matchID (conn_of s id)) command).1) ∧
    reported s id (type = MsgLeaveMatch ∨ overflows s id) m m'.

Lemma attributed_reported now s id type m' : reported s id (overflows s id) (sv_manager s) m' → attributed now s id type m'.
Proof. intros H. exists (sv_manager s). split; [by left|]. eapply reported_mono; [|exact H]. by right. Qed.

Lemma submit_attributed now id type command s : type ∈ [MsgPlayerInput; MsgAbilityUse; MsgCardUse] →
  may_command s (conn_of s id) → ic_PlayerID command = wc_playerID (conn_of s id) →
  attributed now s id type (sv_manager (submit now id command s)).
Proof.
  intros Htype Hmay Hp. exists (SubmitInput (sv_manager s) now (wc_matchID (conn_of s id)) command).1.
  split; [right; split; [exact Htype|by exists command]|]. unfold submit.
  destruct (SubmitInput _ _ _ _) as [m [err|result]]; [|by left]. cbn [fst].
  eapply reported_mono; [|exact (error_reported now id (mapDomainErrorCode err) (OfGame err) (s <| sv_manager := m |>))]. by right.
Qed.

Lemma lobbies_reported now id includeRunning order request s :
  reported s id (overflows s id) (sv_manager s) (sv_manager (let '(s, lobbies) := lobbySummariesForRequest includeRunning order request s in
    (sendTyped now id (LobbyList lobbies) s).1)).
Proof.
  unfold lobbySummariesForRequest. destruct (Matchmaking.ListLobbiesForRequest _ _ _ _ _) as [service lobbies].
  set (s' := s <| sv_matchmaker := service |>). exact (send_reported now id (LobbyList (map lobby_summary lobbies)) s').
Qed.

Lemma list_reported now order id envelope s :
  reported s id (overflows s id) (sv_manager s) (sv_manager (handleListLobbies now order id envelope s)).
Proof.
  unfold handleListLobbies.
  destruct (DecodePayload _ _ _) as [req|]; [|apply error_reported].
  destruct (Matchmaking.ValidateQueueRequest _ _); [apply error_reported|].
  destruct (nc_RequireAuth _); [|apply lobbies_reported].
  destruct (verifySessionTokenForScope _ _ _ _) as [err|claims]; [apply error_reported|].
  unfold setConnectionAuthContext. case_bool_decide; [|apply lobbies_reported].
  set (s' := update_conn id _ s).
  pose proof (lobbies_reported now id (lr_IncludeRunning req) order
    (Matchmaking.mkRequest "" (lr_PreferredRegion req) (lr_RegionLatencyMS req) []) s') as Hr.
  change (sv_manager s') with (sv_manager s) in Hr.
  assert (wc_matchID (conn_of s' id) = wc_matchID (conn_of s id) ∧ wc_playerID (conn_of s' id) = wc_playerID (conn_of s id) ∧
    wc_state (conn_of s' id) = wc_state (conn_of s id) ∧ wc_send (conn_of s' id) = wc_send (conn_of s id)) as (Hm & Hp & Hst & Hq)
    by (unfold s'; rewrite conn_of_update, decide_True by done; unfold conn_of; by destruct (sv_objects s !! id)).
  unfold reported, overflows in *. rewrite Hm, Hp, Hst, Hq in Hr. exact Hr.
Qed.

(** C28: A message other than a join touches the matches in two ways only.  A player's input, an
    ability or a card submits at most one command, in the name of the connection's own player, to
    the connection's own match, if the connection may send commands; no other message submits one.
    And the connection's player is marked as gone, by a message to leave, or because the queue of
    the connection was full when the message was to be answered; not otherwise. *)
Theorem commands_attributed now order id envelope s (Htype : en_Type envelope ≠ MsgJoinGame) :
  attributed now s id (en_Type envelope) (sv_manager (handleEnvelope now order id envelope s)).
Proof.
  unfold handleEnvelope. rewrite (bool_decide_false _ Htype).
  repeat case_bool_decide; try (apply attributed_reported, error_reported).
  - apply attributed_reported, list_reported.
  - apply attributed_reported. unfold handleRequestReplay.
    destruct (DecodePayload _ _ _) as [req|]; [|apply error_reported].
    repeat first [apply error_reported | apply send_reported | case_match].
  - exists (sv_manager s). split; [by left|]. eapply reported_mono; [|apply close_reported]. by left.
  - apply attributed_reported. unfold handlePing. destruct (DecodePayload _ _ _); [apply send_reported|apply error_reported].
  - unfold handlePlayerInput. destruct (authorizeGameplayCommand _ _ _) eqn:Hauth; [apply attributed_reported, error_reported|].
    destruct (DecodePayload _ _ _) as [message|]; [|apply attributed_reported, error_reported].
    destruct (_ && _); [apply attributed_reported, error_reported|]. apply submit_attributed; [set_solver|by eapply authorize_may|done].
  - unfold handleAbilityUse. destruct (authorizeGameplayCommand _ _ _) eqn:Hauth; [apply attributed_reported, error_reported|].
    destruct (DecodePayload _ _ _) as [message|]; [|apply attributed_reported, error_reported].
    destruct (marshal_ability _); [|apply attributed_reported, error_reported].
    apply submit_attributed; [set_solver|by eapply authorize_may|done].
  - unfold handleCardUse. destruct (authorizeGameplayCommand _ _ _) eqn:Hauth; [apply attributed_reported, error_reported|].
    destruct (DecodePayload _ _ _) as [message|]; [|apply attributed_reported, error_reported].
    destruct (marshal_card _); [|apply attributed_reported, error_reported].
    apply submit_attributed; [set_solver|by eapply authorize_may|done].
  - apply attributed_reported. unfold handleAckSnapshot. destruct (authorizeGameplayCommand _ _ _); [apply error_reported|].
    destruct (DecodePayload _ _ _); [|apply error_reported]. case_bool_decide; by left.
Qed.

(** ** Snapshots reach their viewers *)

Definition same_snapshots (m m' : Manager) : Prop :=
  ∀ matchID afterTick, SnapshotsSince m' matchID afterTick = SnapshotsSince m matchID afterTick.

Lemma connected_recorded session playerID connected session' :
  setPlayerConnectedLocked session playerID connected = Some session' →
  ss_snapshotHistory session' = ss_snapshotHistory session.
Proof.
  unfold setPlayerConnectedLocked. case_bool_decide; [done|]. destruct (find_idx _ _); [|done]. by intros [= <-].
Qed.

Lemma connect_recorded session playerID connected :
  ss_snapshotHistory (connect_session session playerID connected).1 = ss_snapshotHistory session.
Proof.
  assert (ss_snapshotHistory (touch_last_processed session playerID) = ss_snapshotHistory session) as <-
    by (unfold touch_last_processed; by case_match).
  unfold connect_session. generalize (touch_last_processed session playerID). clear session. intros s1.
  destruct (setPlayerConnectedLocked s1 _ _) as [s2|] eqn:H2; [by eapply connected_recorded|].
  destruct (setPlayerConnectedLocked (syncGameStatePlayersLocked s1) _ _) as [s3|] eqn:H3; [|done].
  by apply connected_recorded in H3.
Qed.

Lemma SetPlayerConnected_snapshots m matchID playerID connected :
  same_snapshots m (SetPlayerConnected m matchID playerID connected).1.
Proof.
  intros matchID' afterTick. unfold SetPlayerConnected. case_bool_decide; [done|].
  destruct (mg_matches m !! matchID) as [session|] eqn:Hs; [|done]. destruct (negb _); [done|].
  pose proof (connect_recorded session (TrimSpace playerID) connected) as Hh.
  destruct (connect_session _ _ _) as [session' err]. cbn in Hh. unfold SnapshotsSince, set_session. cbn.
  destruct (decide (matchID' = matchID)) as [->|Hne]; [by rewrite lookup_insert_eq, Hs, Hh|by rewrite lookup_insert_ne].
Qed.

(** Nothing happened to this connection, nor to what the matches have recorded. *)
Record undisturbed (id : string) (s s' : Server) : Prop := mkUndisturbed {
  ud_conn : sv_objects s' !! id = sv_objects s !! id;
  ud_live : id ∈ sv_connections s' ↔ id ∈ sv_connections s;
  ud_config : sv_config s' = sv_config s;
  ud_snapshots : same_snapshots (sv_manager s) (sv_manager s');
}.

#[export] Instance undisturbed_preorder id : PreOrder (undisturbed id).
Proof.
  split; [by split|]. intros s1 s2 s3 [] []. split; [congruence|by etransitivity|congruence|].
  intros matchID t. by rewrite ud_snapshots1, ud_snapshots0.
Qed.

Lemma undisturbed_update id g f s : id ≠ g → undisturbed id s (update_conn g f s).
Proof. intros Hne. split; [cbn; by rewrite lookup_alter_ne|done|done|done]. Qed.

Lemma undisturbed_close id now g reason s : id ≠ g → undisturbed id s (close now g reason s).
Proof.
  intros Hne. destruct (decide (g ∈ sv_connections s)) as [Hg|Hg].
  2:{ unfold close, unregisterConnection. rewrite (bool_decide_false _ Hg). reflexivity. }
  destruct (close_parts now g reason s Hg) as (Hlive & _). split.
  - rewrite close_objects, (bool_decide_true _ Hg). by rewrite lookup_alter_ne.
  - rewrite Hlive. set_solver.
  - apply loses_close.
  - destruct (close_reported now g reason s) as [->|[_ ->]]; [done|]. apply SetPlayerConnected_snapshots.
Qed.

Lemma undisturbed_send id now g message s : id ≠ g → undisturbed id s (sendTyped now g message s).1.
Proof.
  intros Hne. unfold sendTyped. destruct (encodable message); [|reflexivity]. unfold enqueueEnvelope.
  case_bool_decide; cbn [negb]; [|by split]. destruct (_ <? _); [by apply undisturbed_update|].
  cbn [fst]. etransitivity; [|by apply undisturbed_close]. by split.
Qed.

Lemma undisturbed_cursor id g tickID s : id ≠ g → undisturbed id s (updateSnapshotCursor g tickID s).
Proof. intros Hne. unfold updateSnapshotCursor. case_bool_decide; [by apply undisturbed_update|reflexivity]. Qed.

Lemma undisturbed_snapshots id now g latest snapshots s : id ≠ g →
  undisturbed id s (dispatch_snapshots now g latest snapshots s).1.
Proof.
  intros Hne. revert latest s. induction snapshots as [|snapshot snapshots IH]; intros latest s; [reflexivity|].
  cbn [dispatch_snapshots]. destruct (_ <=? _); [apply IH|]. set (message := SnapshotOf _).
  pose proof (undisturbed_send id now g message s Hne) as Hm.
  destruct (sendTyped _ _ _ _) as [s1 [err|]]; [exact Hm|]. etransitivity; [exact Hm|apply IH].
Qed.

Lemma undisturbed_target id now target s : id ≠ dt_connectionID target → undisturbed id s (dispatch_target now s target).
Proof.
  intros Hne. unfold dispatch_target. destruct (SnapshotsSince _ _ _) as [err|snapshots]; [reflexivity|].
  pose proof (undisturbed_snapshots id now _ (dt_lastSnapshotTick target) snapshots s Hne) as Hm.
  destruct (dispatch_snapshots _ _ _ _ _) as [s1 latest]. destruct (_ <? _); [|exact Hm].
  etransitivity; [exact Hm|by apply undisturbed_cursor].
Qed.

Lemma undisturbed_targets id now targets s : id ∉ map dt_connectionID targets →
  undisturbed id s (foldl (dispatch_target now) s targets).
Proof.
  revert s. induction targets as [|target targets IH]; intros s Hout; [reflexivity|]. cbn in Hout |- *.
  apply not_elem_of_cons in Hout as [Hne Hout]. etransitivity; [by apply undisturbed_target|by apply IH].
Qed.

Definition viewed (v : PlayerID) (snapshot : Snapshot) : server_message := SnapshotOf (ProjectSnapshotForViewer snapshot v).

Lemma last_cons {A} (x : A) l d : List.last (x :: l) d = List.last l x.
Proof.
  revert x d. induction l as [|y l IH]; intros x d; [done|].
  change (List.last (x :: y :: l) d) with (List.last (y :: l) d). by rewrite !IH.
Qed.

Lemma dispatch_snapshots_room now id latest snapshots s c :
  sv_objects s !! id = Some c → wc_state c = ConnectionStateConnected →
  Z.of_nat (length (wc_send c) + length snapshots) <= nc_SendQueueDepth (sv_config s) →
  StronglySorted Z.lt (latest :: map sn_TickID snapshots) →
  Forall (λ snapshot, encodable (viewed (wc_viewerID c) snapshot) = true) snapshots →
  let r := dispatch_snapshots now id latest snapshots s in
  r.2 = List.last (map sn_TickID snapshots) latest ∧ sv_connections r.1 = sv_connections s ∧
  sv_objects r.1 !! id = Some (c <| wc_send ::= λ queue, queue ++ map (viewed (wc_viewerID c)) snapshots |>).
Proof.
  cbv zeta. revert latest s c. induction snapshots as [|snapshot snapshots IH]; intros latest s c Hc Hopen Hroom Hticks Henc.
  { split_and!; [done|done|]. cbn. rewrite Hc. f_equal. destruct c. cbn. unfold field_update. cbn. by rewrite app_nil_r. }
  cbn [dispatch_snapshots]. apply StronglySorted_inv in Hticks as [Hticks Hlt]. cbn in Hlt.
  apply Forall_cons in Hlt as [Hlt _]. apply Forall_cons in Henc as [Hsnap Henc].
  destruct (sn_TickID snapshot <=? latest) eqn:Hle; bool_props; [lia|].
  assert (conn_of s id = c) as Hconn by (unfold conn_of; by rewrite Hc). rewrite Hconn.
  unfold sendTyped. unfold viewed in Hsnap. rewrite Hsnap. unfold enqueueEnvelope. rewrite Hconn.
  rewrite (bool_decide_true _ Hopen). cbn [negb].
  destruct (Z.of_nat (length (wc_send c)) <? nc_SendQueueDepth (sv_config s)) eqn:Hdepth; bool_props; [|cbn in Hroom; lia].
  set (c1 := c <| wc_send ::= λ queue, queue ++ [SnapshotOf (ProjectSnapshotForViewer snapshot (wc_viewerID c))] |>).
  set (s1 := update_conn id _ s).
  assert (sv_objects s1 !! id = Some c1) as Hc1 by (unfold s1, update_conn; cbn; by rewrite lookup_alter_eq, Hc).
  destruct (IH (sn_TickID (ProjectSnapshotForViewer snapshot (wc_viewerID c))) s1 c1) as (H1 & H2 & H3); try done.
  { unfold c1. cbn. unfold field_update. cbn. rewrite length_app. cbn in *. lia. }
  split_and!.
  - rewrite H1. cbn [map]. change (sn_TickID (ProjectSnapshotForViewer snapshot (wc_viewerID c))) with (sn_TickID snapshot).
    by rewrite last_cons.
  - by rewrite H2.
  - rewrite H3. f_equal. unfold c1. destruct c. cbn. unfold field_update. cbn. by rewrite <-app_assoc.
Qed.

Lemma last_tick t ticks : StronglySorted Z.lt (t :: ticks) → ticks = [] ∨ t < List.last ticks t.
Proof.
  destruct ticks as [|t' ticks] using rev_ind; [by left|]. intros Hs. right.
  apply StronglySorted_inv in Hs as [_ Hall]. rewrite List.last_last.
  apply Forall_app in Hall as [_ Hall]. by apply Forall_inv in Hall.
Qed.

Lemma targets_of s id order : id ∉ order → id ∉ map dt_connectionID (dispatch_targets s order).
Proof.
  intros Hout Hin. apply list_elem_of_fmap in Hin as (target & -> & Hin).
  apply list_elem_of_omap in Hin as (id' & Hid & Ht). cbv zeta in Ht.
  destruct (negb (bool_decide (id' ∈ sv_connections s)) || (wc_matchID (conn_of s id') ≟ "") || (wc_viewerID (conn_of s id') ≟ "")); [done|].
  injection Ht as <-. by cbn in Hout.
Qed.

(** C29: A dispatch gives every connection what it has not seen, as its viewer may see it.  If the
    snapshots of the match since the connection's cursor fit its queue, they are appended to it,
    projected and in order, whatever happens to the other connections in the same dispatch; and
    the cursor moves to the last of them. *)
Theorem dispatch_delivers now order s id snapshots
    (Hlive : id ∈ sv_connections s) (Hopen : wc_state (conn_of s id) = ConnectionStateConnected)
    (Hmatch : wc_matchID (conn_of s id) ≠ "") (Hviewer : wc_viewerID (conn_of s id) ≠ "")
    (Hsince : SnapshotsSince (sv_manager s) (wc_matchID (conn_of s id)) (wc_lastSnapshotTick (conn_of s id)) = inr snapshots)
    (Hticks : StronglySorted Z.lt (wc_lastSnapshotTick (conn_of s id) :: map sn_TickID snapshots))
    (Hroom : Z.of_nat (length (wc_send (conn_of s id)) + length snapshots) <= nc_SendQueueDepth (sv_config s))
    (Henc : Forall (λ snapshot, encodable (viewed (wc_viewerID (conn_of s id)) snapshot) = true) snapshots)
    (Horder : id ∈ order) (Honce : NoDup order) :
  let c := conn_of s id in
  let c' := conn_of (dispatchPendingSnapshots now order s) id in
  wc_send c' = wc_send c ++ map (viewed (wc_viewerID c)) snapshots ∧
  wc_lastSnapshotTick c' = List.last (map sn_TickID snapshots) (wc_lastSnapshotTick c) ∧
  wc_state c' = ConnectionStateConnected.
Proof.
  cbv zeta. assert (∃ c, sv_objects s !! id = Some c) as [c Hc].
  { unfold conn_of in Hopen. destruct (sv_objects s !! id) as [c|]; [by exists c|done]. }
  assert (conn_of s id = c) as Hconn by (unfold conn_of; by rewrite Hc). rewrite Hconn in *.
  apply list_elem_of_split in Horder as (l1 & l2 & ->).
  apply NoDup_app in Honce as (_ & Hl1 & Honce). apply NoDup_cons in Honce as [Hl2 _].
  assert (id ∉ l1) as Hl1' by (intros H; by destruct (Hl1 id H); left).
  unfold dispatchPendingSnapshots. set (target := mkTarget id (wc_matchID c) (wc_lastSnapshotTick c)).
  assert (dispatch_targets s (l1 ++ id :: l2) = dispatch_targets s l1 ++ target :: dispatch_targets s l2) as ->.
  { unfold dispatch_targets. rewrite omap_app. f_equal. cbn. rewrite Hconn. rewrite (bool_decide_true _ Hlive).
    by rewrite (bool_decide_false _ Hmatch), (bool_decide_false _ Hviewer). }
  rewrite foldl_app. cbn [foldl]. set (s1 := foldl (dispatch_target now) s (dispatch_targets s l1)).
  assert (undisturbed id s s1) as [Hobj1 Hlive1 Hcfg1 Hsnap1] by (by apply undisturbed_targets, targets_of).
  pose proof (undisturbed_targets id now (dispatch_targets s l2) (dispatch_target now s1 target) (targets_of _ _ _ Hl2)) as Hrest.
  unfold conn_of. rewrite (ud_conn _ _ _ Hrest). unfold dispatch_target. cbn [dt_matchID dt_lastSnapshotTick dt_connectionID target].
  rewrite (Hsnap1 _ _), Hsince.
  destruct (dispatch_snapshots_room now id (wc_lastSnapshotTick c) snapshots s1 c) as (Hlatest & Hlive2 & Hobj2);
    try done; [by rewrite Hobj1|by rewrite Hcfg1|].
  destruct (dispatch_snapshots _ _ _ _ _) as [s2 latest]. cbn [fst snd] in Hlatest, Hlive2, Hobj2. subst latest.
  set (latest := List.last (map sn_TickID snapshots) (wc_lastSnapshotTick c)) in *.
  destruct (wc_lastSnapshotTick c <? latest) eqn:Hlt; bool_props.
  - assert (conn_of (updateSnapshotCursor id latest s2) id =
      c <| wc_send ::= λ queue, queue ++ map (viewed (wc_viewerID c)) snapshots |> <| wc_lastSnapshotTick := latest |>) as Hend.
    { unfold updateSnapshotCursor. rewrite Hlive2, (bool_decide_true _ (proj2 Hlive1 Hlive)).
      rewrite conn_of_update, decide_True by done. rewrite Hobj2. cbn. 
      apply Z.ltb_lt in Hlt. change (Z.ltb _ latest) with (wc_lastSnapshotTick c <? latest). by rewrite Hlt. }
    unfold conn_of in Hend. rewrite Hend. cbn. done.
  - destruct (last_tick _ _ Hticks) as [Hnil|Hlast]; [|subst latest; lia].
    subst latest. rewrite Hobj2, Hnil. cbn. done.
Qed.

End server.

(** ** Witnesses *)

Import Demo.

Definition demo_envelope : Envelope := mkEnvelope 1 MsgPlayerInput "" "" "ann" "move".

Lemma commands_attributed_witness :
  attributed demo_now demo_joined "conn-000001" MsgPlayerInput (sv_manager (handleEnvelope demo_now [] "conn-000001" demo_envelope demo_joined)) ∧
  (ss_nextIngressSeq <$> mg_matches (sv_manager demo_joined) !! "match-000001") = Some 0 ∧
  (ss_nextIngressSeq <$> mg_matches (sv_manager demo_played) !! "match-000001") = Some 1.
Proof.
  split; [apply (commands_attributed demo_now [] "conn-000001" demo_envelope); by vm_compute|]. split; by vm_compute.
Defined.

(** Two players watch a match that has recorded two snapshots; one of them is at the first. *)
Definition demo_snapshots : gmap Z Snapshot :=
  {[1 := zero_Snapshot <| sn_TickID := 1 |>; 2 := zero_Snapshot <| sn_TickID := 2 |>]}.

Definition demo_watched : Server :=
  let player id playerID tick := mkConn id [] "host" 0 0 tick 0 0 playerID playerID "m" SessionKindPlayer "" ""
    ConnectionStateConnected in
  mkServer
    (demo_manager <| mg_matches := {["m" := two_player_session <| ss_snapshotHistory := demo_snapshots |>]} |>)
    Matchmaking.NewService DefaultConfig None None 2
    {["conn-000001" := player "conn-000001" "ann" 0; "conn-000002" := player "conn-000002" "bob" 1]}
    {["conn-000001"; "conn-000002"]} {["ann" := "conn-000001"; "bob" := "conn-000002"]}
    {["m" := {["conn-000001"; "conn-000002"]}]} [].

Lemma dispatch_delivers_witness :
  let c' := conn_of (dispatchPendingSnapshots demo_now ["conn-000001"; "conn-000002"] demo_watched) "conn-000002" in
  wc_send c' = [SnapshotOf (ProjectSnapshotForViewer (zero_Snapshot <| sn_TickID := 2 |>) "bob")] ∧
  wc_lastSnapshotTick c' = 2.
Proof.
  destruct (dispatch_delivers demo_now ["conn-000001"; "conn-000002"] demo_watched "conn-000002"
    [zero_Snapshot <| sn_TickID := 2 |>]) as (H1 & H2 & _).
  - by vm_compute.
  - by vm_compute.
  - by vm_compute.
  - by vm_compute.
  - by vm_compute.
  - vm_compute. repeat constructor.
  - by vm_compute.
  - by repeat constructor.
  - right. left.
  - apply NoDup_ListNoDup. repeat constructor; set_solver.
  - cbv zeta. split; [rewrite H1; by vm_compute|rewrite H2; by vm_compute].
Defined.

End Delivery.
