(* ===== verification/Prematch.v ===== *)
(** * The client before a match

    [internal/client/prematch/flow.go]: the menu, the list of lobbies, the tutorial, connecting
    and waiting, as a state machine over the pages of the client.  The receivers are never nil
    here.  Go's [int] has 64 bits, and a selection that moves is brought back into range by a
    loop, whose fuel is what it has to make up. *)

From S2P Require Import Prelude Float32 Model GoStrings Session InputQueue Matchmaking Protocol.

#[local] Open Scope Z_scope.

Module Prematch.

Inductive Stage :=
  | StageMainMenu | StageLobbyList | StageTutorial | StageConnecting | StageLobbyWait | StageInMatch | StageErrorNotice.
#[export] Instance Stage_eq_dec : EqDecision Stage.
Proof. solve_decision. Defined.

Inductive MenuOption :=
  | MenuOptionQuickPlay | MenuOptionBrowseLobbies | MenuOptionSpectateMatch | MenuOptionTutorialCodex.

Record ConnectIntent := mkIntent { in_PreferredMatchID : MatchID; in_Spectator : bool }.

Record LobbyStatus := mkLobbyStatus {
  lo_MatchID : MatchID;
  lo_Status : MatchStatus;
  lo_PlayerCount : Z;
  lo_MinPlayers : Z;
  lo_MaxPlayers : Z;
}.
#[export] Instance LobbyStatus_eta : RecordEta LobbyStatus := λ r,
  mkLobbyStatus (lo_MatchID r) (lo_Status r) (lo_PlayerCount r) (lo_MinPlayers r) (lo_MaxPlayers r).

Definition ReadyToStart (s : LobbyStatus) : bool :=
  if lo_MinPlayers s ≟ 0 then false else lo_MinPlayers s <=? lo_PlayerCount s.

Record Flow := mkFlow {
  fl_stage : Stage;
  fl_menuOptions : list MenuOption;
  fl_menuIndex : Z;
  fl_lobbies : list LobbySummary;
  fl_selectedLobby : Z;
  fl_tutorialPage : Z;
  fl_lobbyStatus : LobbyStatus;
  fl_lastError : string;
}.
#[export] Instance Flow_eta : RecordEta Flow := λ r,
  mkFlow (fl_stage r) (fl_menuOptions r) (fl_menuIndex r) (fl_lobbies r) (fl_selectedLobby r) (fl_tutorialPage r)
    (fl_lobbyStatus r) (fl_lastError r).

Definition NewFlow : Flow :=
  mkFlow StageMainMenu [MenuOptionQuickPlay; MenuOptionBrowseLobbies; MenuOptionSpectateMatch; MenuOptionTutorialCodex]
    0 [] 0 0 (mkLobbyStatus "" "" 0 0 0) "".

Definition MenuOptionLabel (option : MenuOption) : string :=
  match option with
  | MenuOptionQuickPlay => "Quick Play (create/join)"
  | MenuOptionBrowseLobbies => "Browse Lobbies"
  | MenuOptionSpectateMatch => "Spectate Match"
  | MenuOptionTutorialCodex => "Tutorial / Rules Codex"
  end.

(** ** Selections *)

Definition int (z : Z) : Z := (z + 2 ^ 63) `mod` 2 ^ 64 - 2 ^ 63.

(** [for next < 0 { next += count }]. *)
Fixpoint raise (fuel : nat) (count next : Z) : Z :=
  match fuel with
  | O => next
  | S fuel => if next <? 0 then raise fuel count (int (next + count)) else next
  end.

(** A selection moved by [delta] among [count]. *)
Definition moved (count index delta : Z) : Z :=
  let next := int (index + delta) in
  raise (Z.to_nat (- next)) count next `rem` count.

Definition MoveMenuSelection (delta : Z) (f : Flow) : Flow :=
  let count := Z.of_nat (length (fl_menuOptions f)) in
  if (fl_stage f ≠? StageMainMenu) || (count ≟ 0) || (delta ≟ 0) then f
  else f <| fl_menuIndex := moved count (fl_menuIndex f) delta |>.

Definition enter (stage : Stage) (f : Flow) : Flow := f <| fl_stage := stage |> <| fl_lastError := "" |>.

(** The flow, and what to connect to, if it is to connect. *)
Definition ActivateMenuSelection (f : Flow) : Flow * option ConnectIntent :=
  if fl_stage f ≠? StageMainMenu then (f, None)
  else match fl_menuOptions f !! Z.to_nat (fl_menuIndex f) with
  | Some MenuOptionQuickPlay => (enter StageConnecting f, Some (mkIntent "" false))
  | Some MenuOptionBrowseLobbies => (enter StageLobbyList f <| fl_selectedLobby := 0 |>, None)
  | Some MenuOptionSpectateMatch => (enter StageConnecting f, Some (mkIntent "" true))
  | Some MenuOptionTutorialCodex => (enter StageTutorial f <| fl_tutorialPage := 0 |>, None)
  | None => (f, None)
  end.

Definition BackToMainMenu (f : Flow) : Flow := f <| fl_stage := StageMainMenu |>.

Definition MoveTutorialPage (delta pageCount : Z) (f : Flow) : Flow :=
  if (fl_stage f ≠? StageTutorial) || (pageCount <=? 0) || (delta ≟ 0) then f
  else f <| fl_tutorialPage := moved pageCount (fl_tutorialPage f) delta |>.

(** ** Lobbies *)

(** The joinable ones first, then those ready to start, the fuller ones, and by identifier. *)
Definition listing_key (lobby : LobbySummary) : Z * (Z * (Z * MatchID)) :=
  (if sl_Joinable lobby then 0 else 1, (if sl_ReadyToStart lobby then 0 else 1, (- sl_PlayerCount lobby, sl_MatchID lobby))).
Definition listing_key_le : relation (Z * (Z * (Z * MatchID))) := lex_le Z.le (lex_le Z.le (lex_le Z.le String.le)).
#[export] Instance listing_key_dec : RelDecision listing_key_le.
Proof. unfold listing_key_le. apply _. Defined.
#[export] Instance listing_key_total : Total listing_key_le.
Proof. unfold listing_key_le. apply _. Qed.
#[export] Instance listing_key_partial : PartialOrder listing_key_le.
Proof. unfold listing_key_le. apply _. Qed.

Definition sort_listing (lobbies : list LobbySummary) : list LobbySummary := sort_by listing_key_le listing_key lobbies.

(** The selection is brought into the list. *)
Definition clamp_selection (count selected : Z) : Z :=
  if count ≟ 0 then 0
  else
    let selected := if selected <? 0 then 0 else selected in
    if count <=? selected then count - 1 else selected.

Definition SetLobbies (lobbies : list LobbySummary) (f : Flow) : Flow :=
  let lobbies := sort_listing lobbies in
  f <| fl_lobbies := lobbies |> <| fl_selectedLobby ::= clamp_selection (Z.of_nat (length lobbies)) |>.

Definition MoveLobbySelection (delta : Z) (f : Flow) : Flow :=
  let count := Z.of_nat (length (fl_lobbies f)) in
  if (fl_stage f ≠? StageLobbyList) || (count ≟ 0) || (delta ≟ 0) then f
  else f <| fl_selectedLobby := moved count (fl_selectedLobby f) delta |>.

Definition SelectedLobby (f : Flow) : option LobbySummary :=
  if fl_selectedLobby f <? 0 then None else fl_lobbies f !! Z.to_nat (fl_selectedLobby f).

Inductive flow_error := ErrNotAvailable | ErrNoLobbies | ErrEmptyMatchID.

Definition begin_selected (spectator : bool) (f : Flow) : Flow * (flow_error + ConnectIntent) :=
  if fl_stage f ≠? StageLobbyList then (f, inl ErrNotAvailable)
  else match SelectedLobby f with
  | None => (f, inl ErrNoLobbies)
  | Some selected =>
      if sl_MatchID selected ≟ "" then (f, inl ErrEmptyMatchID)
      else (enter StageConnecting f, inr (mkIntent (sl_MatchID selected) spectator))
  end.

Definition BeginJoinSelectedLobby : Flow → Flow * (flow_error + ConnectIntent) := begin_selected false.
Definition BeginSpectateSelectedLobby : Flow → Flow * (flow_error + ConnectIntent) := begin_selected true.

(** ** What the connection reports *)

(** The text of the error, if there is one. *)
Definition OnConnectError (err : option string) (f : Flow) : Flow :=
  let message := TrimSpace (default "" err) in
  f <| fl_stage := StageErrorNotice |> <| fl_lastError := if message ≟ "" then "connection failed" else message |>.

Definition OnJoined (lobby : LobbyStatus) (f : Flow) : Flow :=
  let f := f <| fl_lastError := "" |> <| fl_lobbyStatus := lobby |> in
  f <| fl_stage := if lo_Status lobby ≟ MatchStatusRunning then StageInMatch else StageLobbyWait |>.

Definition OnLobbySnapshot (status : MatchStatus) (playerCount : Z) (f : Flow) : Flow :=
  let f := f <| fl_lobbyStatus ::= λ s, s <| lo_Status := status |> <| lo_PlayerCount := playerCount |> |> in
  if (fl_stage f ≟ StageLobbyWait) && (status ≟ MatchStatusRunning) then f <| fl_stage := StageInMatch |> else f.

(** ** What the pages call, in any order *)

Inductive event :=
  | MoveMenu (delta : Z) | ActivateMenu | Back | MoveTutorial (delta pageCount : Z)
  | Listed (lobbies : list LobbySummary) | MoveLobby (delta : Z) | JoinSelected | SpectateSelected
  | ConnectFailed (err : option string) | Joined (lobby : LobbyStatus) | LobbySeen (status : MatchStatus) (playerCount : Z).

(** The flow, and the connection that was asked for. *)
Definition run_event (f : Flow) (e : event) : Flow * option ConnectIntent :=
  match e with
  | MoveMenu delta => (MoveMenuSelection delta f, None)
  | ActivateMenu => ActivateMenuSelection f
  | Back => (BackToMainMenu f, None)
  | MoveTutorial delta pageCount => (MoveTutorialPage delta pageCount f, None)
  | Listed lobbies => (SetLobbies lobbies f, None)
  | MoveLobby delta => (MoveLobbySelection delta f, None)
  | JoinSelected => let '(f, r) := BeginJoinSelectedLobby f in (f, match r with inr i => Some i | inl _ => None end)
  | SpectateSelected => let '(f, r) := BeginSpectateSelectedLobby f in (f, match r with inr i => Some i | inl _ => None end)
  | ConnectFailed err => (OnConnectError err f, None)
  | Joined lobby => (OnJoined lobby f, None)
  | LobbySeen status playerCount => (OnLobbySnapshot status playerCount f, None)
  end.

Definition run_events (events : list event) : Flow := foldl (λ f e, (run_event f e).1) NewFlow events.

(** A slice has a length that is an [int]. *)
Definition event_fits (e : event) : Prop :=
  match e with
  | MoveTutorial _ pageCount => pageCount < 2 ^ 63
  | Listed lobbies => Z.of_nat (length lobbies) < 2 ^ 63
  | _ => True
  end.

(** ** Selections stay in range *)

Lemma int_small z : - 2 ^ 63 <= z < 2 ^ 63 → int z = z.
Proof. intros H. unfold int. rewrite Z.mod_small; lia. Qed.
Lemma int_range z : - 2 ^ 63 <= int z < 2 ^ 63.
Proof. unfold int. pose proof (Z.mod_pos_bound (z + 2 ^ 63) (2 ^ 64) ltac:(lia)). lia. Qed.

Lemma raise_spec fuel count next : 0 < count < 2 ^ 63 → - 2 ^ 63 <= next < 2 ^ 63 → (Z.to_nat (- next) <= fuel)%nat →
  let r := raise fuel count next in 0 <= r ∧ r `mod` count = next `mod` count ∧ (0 <= next → r = next).
Proof.
  cbv zeta. intros Hc. revert next. induction fuel as [|fuel IH]; intros next Hn Hfuel; cbn [raise].
  { split_and!; [lia|done|done]. }
  destruct (next <? 0) eqn:Hneg; bool_props; [|split_and!; [lia|done|done]].
  rewrite int_small by lia. destruct (IH (next + count)) as (H1 & H2 & _); [lia|lia|].
  split_and!; [done| |lia]. rewrite H2. rewrite <-(Z.mod_add next 1 count) by lia. f_equal. lia.
Qed.

Lemma moved_mod count index delta : 0 < count < 2 ^ 63 → moved count index delta = int (index + delta) `mod` count.
Proof.
  intros Hc. unfold moved. cbv zeta.
  destruct (raise_spec (Z.to_nat (- int (index + delta))) count (int (index + delta)) Hc (int_range _)) as (H1 & H2 & _); [lia|].
  rewrite Z.rem_mod_nonneg by lia. exact H2.
Qed.

Lemma moved_range count index delta : 0 < count < 2 ^ 63 → 0 <= moved count index delta < count.
Proof. intros Hc. rewrite moved_mod by done. apply Z.mod_pos_bound. lia. Qed.

(** ** The invariant *)

Definition menu : list MenuOption := fl_menuOptions NewFlow.
Definition selection_ok (f : Flow) : Prop :=
  fl_lobbies f = [] ∧ fl_selectedLobby f = 0 ∨ 0 <= fl_selectedLobby f < Z.of_nat (length (fl_lobbies f)).

Definition calm (stage : Stage) : bool :=
  match stage with StageConnecting | StageLobbyWait | StageInMatch => true | _ => false end.

Record flow_ok (f : Flow) : Prop := mkFlowOk {
  fo_menu : fl_menuOptions f = menu ∧ 0 <= fl_menuIndex f < 4;
  fo_listed : StronglySorted (on_key listing_key_le listing_key) (fl_lobbies f) ∧ Z.of_nat (length (fl_lobbies f)) < 2 ^ 63;
  fo_selected : selection_ok f;
  fo_page : 0 <= fl_tutorialPage f;
  (** An error is shown on its page; connecting, waiting and playing have none. *)
  fo_error : fl_stage f = StageErrorNotice → fl_lastError f ≠ "";
  fo_fine : calm (fl_stage f) = true → fl_lastError f = "";
  (** Who waits waits for a match that is not running. *)
  fo_waiting : fl_stage f = StageLobbyWait → lo_Status (fl_lobbyStatus f) ≠ MatchStatusRunning;
}.

Lemma flow_ok_new : flow_ok NewFlow.
Proof.
  split; try done.
  - split; [apply SSorted_nil|done].
  - by left.
Qed.

(** Only the pages that show errors or none look at the error. *)
Lemma enter_ok stage f : flow_ok f → stage ≠ StageErrorNotice → stage ≠ StageLobbyWait → flow_ok (enter stage f).
Proof.
  intros [] H1 H2. by split.
Qed.

Lemma SetLobbies_ok lobbies f : flow_ok f → Z.of_nat (length lobbies) < 2 ^ 63 → flow_ok (SetLobbies lobbies f).
Proof.
  intros [] Hlen. split; try done.
  - split; [apply (sort_by_sorted listing_key_le listing_key)|]. cbn. unfold sort_listing. by rewrite length_sort_by.
  - unfold selection_ok, SetLobbies. cbn. unfold clamp_selection. case_bool_decide as H0.
    + left. split; [|done]. by apply length_zero_iff_nil, Nat2Z.inj.
    + right. destruct (fl_selectedLobby f <? 0) eqn:Hneg; bool_props;
        match goal with |- context [?a <=? ?b] => destruct (a <=? b) eqn:Hle end; bool_props; lia.
Qed.

Lemma begin_ok spectator f : flow_ok f → flow_ok (begin_selected spectator f).1.
Proof.
  intros Hf. unfold begin_selected. case_bool_decide; [|done]. cbn [negb].
  destruct (SelectedLobby f); [|done]. case_bool_decide; [done|]. by apply enter_ok.
Qed.

Lemma connect_error_shown err : (let message := TrimSpace (default "" err) in
  if message ≟ "" then "connection failed" else message) ≠ "".
Proof. cbv zeta. case_bool_decide; [done|done]. Qed.

Lemma run_event_ok e f : event_fits e → flow_ok f → flow_ok (run_event f e).1.
Proof.
  intros Hfit Hf. destruct e as [delta| | |delta pageCount|lobbies|delta| | |err|lobby|status playerCount]; cbn [run_event].
  - unfold MoveMenuSelection. destruct (_ || _); [done|]. destruct Hf as [[Hm Hi] ?]. split; try done.
    split; [done|]. cbn. rewrite Hm. apply (moved_range 4). lia.
  - unfold ActivateMenuSelection. destruct (_ ≠? _); [done|]. destruct (_ !! _) as [[]|]; [| | | |done].
    all: assert (∀ stage, stage ≠ StageErrorNotice → stage ≠ StageLobbyWait → flow_ok (enter stage f)) as Hen by (intros; by apply enter_ok).
    + by apply Hen.
    + destruct (Hen StageLobbyList) as []; [done|done|]. split; try done.
      unfold selection_ok. cbn. destruct (fl_lobbies f) as [|x l]; [by left|right; cbn; lia].
    + by apply Hen.
    + destruct (Hen StageTutorial) as []; [done|done|]. by split.
  - destruct Hf. by split.
  - unfold MoveTutorialPage. destruct (_ || _) eqn:Hcond; [done|]. bool_props. destruct Hf. split; try done.
    cbn. cbn in Hfit. by apply moved_range.
  - by apply SetLobbies_ok.
  - unfold MoveLobbySelection. destruct (_ || _) eqn:Hcond; [done|]. bool_props. destruct Hf as [? [Hs Hlen] ?]. split; try done.
    right. cbn. apply moved_range. destruct (fl_lobbies f); [done|cbn in *; lia].
  - pose proof (begin_ok false f Hf) as H. unfold BeginJoinSelectedLobby. by destruct (begin_selected false f).
  - pose proof (begin_ok true f Hf) as H. unfold BeginSpectateSelectedLobby. by destruct (begin_selected true f).
  - destruct Hf. split; try done; intros _; apply connect_error_shown.
  - destruct Hf. unfold OnJoined. cbn. split; try done; cbn; case_bool_decide; done.
  - destruct Hf. unfold OnLobbySnapshot. destruct (_ && _) eqn:Hcond.
    + bool_props. split; try done. intros _. cbn. apply fo_fine0. change (fl_stage f = StageLobbyWait) in H. by rewrite H.
    + split; try done. cbn. intros Hw. apply andb_false_iff in Hcond as [H|H]; bool_props; [|done]. by destruct H.
Qed.

Lemma run_events_ok events : Forall event_fits events → flow_ok (run_events events).
Proof.
  unfold run_events. generalize flow_ok_new. generalize NewFlow. induction events as [|e events IH]; intros f Hf Hall; [done|].
  apply Forall_cons in Hall as [He Hall]. cbn. apply IH; [by apply run_event_ok|done].
Qed.

(** What a page asks to connect to: anything, from the menu, or the lobby that is selected. *)
Definition offered_by (f : Flow) (i : ConnectIntent) : Prop :=
  fl_stage f = StageMainMenu ∧ in_PreferredMatchID i = "" ∨
  fl_stage f = StageLobbyList ∧ ∃ lobby, SelectedLobby f = Some lobby ∧ lobby ∈ fl_lobbies f ∧
    sl_MatchID lobby = in_PreferredMatchID i ∧ sl_MatchID lobby ≠ "".

(** What brings the client into a match. *)
Definition enters (f : Flow) (e : event) : Prop :=
  match e with
  | Joined lobby => lo_Status lobby = MatchStatusRunning
  | LobbySeen status _ => fl_stage f = StageLobbyWait ∧ status = MatchStatusRunning
  | _ => False
  end.

Lemma begin_offered spectator f i : (begin_selected spectator f).2 = inr i →
  fl_stage (begin_selected spectator f).1 = StageConnecting ∧ offered_by f i.
Proof.
  unfold begin_selected. case_bool_decide as Hstage; cbn [negb]; [|done].
  destruct (SelectedLobby f) as [lobby|] eqn:Hsel; [|done]. case_bool_decide as Hid; [done|].
  intros [= <-]. split; [done|]. right. split; [done|]. exists lobby. split_and!; try done.
  unfold SelectedLobby in Hsel. destruct (_ <? _); [done|]. by eapply list_elem_of_lookup_2.
Qed.

Lemma begin_stage spectator f : fl_stage (begin_selected spectator f).1 = StageInMatch → fl_stage f = StageInMatch.
Proof.
  unfold begin_selected. case_bool_decide; cbn [negb]; [|done]. destruct (SelectedLobby f); [|done]. by case_bool_decide.
Qed.

Lemma asked_for f e i : (run_event f e).2 = Some i → fl_stage (run_event f e).1 = StageConnecting ∧ offered_by f i.
Proof.
  destruct e; cbn [run_event]; try done.
  - unfold ActivateMenuSelection. case_bool_decide as Hstage; cbn [negb]; [|done].
    destruct (_ !! _) as [[]|]; try done; intros [= <-]; (split; [done|by left]).
  - pose proof (begin_offered false f) as H. unfold BeginJoinSelectedLobby.
    destruct (begin_selected false f) as [f' [err|i']]; [done|]. intros [= <-]. by apply H.
  - pose proof (begin_offered true f) as H. unfold BeginSpectateSelectedLobby.
    destruct (begin_selected true f) as [f' [err|i']]; [done|]. intros [= <-]. by apply H.
Qed.

Lemma entered f e : fl_stage (run_event f e).1 = StageInMatch → fl_stage f = StageInMatch ∨ enters f e.
Proof.
  destruct e; cbn [run_event]; try done; try (by left).
  - unfold MoveMenuSelection. case_match; intros Hm; by left.
  - unfold ActivateMenuSelection. case_bool_decide as Hs; cbn [negb]; [|intros Hm; by left]. destruct (_ !! _) as [[]|]; try done. intros Hm. by left.
  - unfold MoveTutorialPage. case_match; intros Hm; by left.
  - unfold MoveLobbySelection. case_match; intros Hm; by left.
  - pose proof (begin_stage false f) as H. unfold BeginJoinSelectedLobby. destruct (begin_selected false f). intros Hm. left. by apply H.
  - pose proof (begin_stage true f) as H. unfold BeginSpectateSelectedLobby. destruct (begin_selected true f). intros Hm. left. by apply H.
  - cbn. case_bool_decide; [intros _; by right|done].
  - unfold OnLobbySnapshot. destruct (_ && _) eqn:Hc; [|intros Hm; left; exact Hm]. bool_props. intros _. by right.
Qed.

(** C23: Whatever the player presses and the connection reports (lists and pages being fewer than
    2^63, as every [int] says they are), the flow of the client is sound:
    what is selected is on the page, an error page has an error, and while the client waits in a
    lobby the status it last saw of the match is not running.  A connection is only asked for from
    the menu or for the lobby that is selected in the list, and a match is only entered by joining
    one that runs or by waiting until it does. *)
Theorem flow_sound events e (Hfits : Forall event_fits events) :
  let f := run_events events in
  flow_ok f ∧
  (∀ i, (run_event f e).2 = Some i → fl_stage (run_event f e).1 = StageConnecting ∧ offered_by f i) ∧
  (fl_stage (run_event f e).1 = StageInMatch → fl_stage f = StageInMatch ∨ enters f e).
Proof.
  cbv zeta. split; [by apply run_events_ok|]. split; [intros i; apply asked_for|apply entered].
Qed.

(** ** A witness: a player browses, and joins the fuller of two lobbies *)

Definition demo_lobbies : list LobbySummary :=
  [mkLobbySummary "match-000001" "eu" MatchStatusLobby 1 2 12 11 true false 0;
   mkLobbySummary "match-000002" "eu" MatchStatusLobby 3 2 12 9 true true 0].

Definition demo_events : list event :=
  [MoveMenu 1; ActivateMenu; Listed demo_lobbies; MoveLobby (-1); MoveLobby 1].

Lemma flow_sound_witness :
  (run_event (run_events demo_events) JoinSelected).2 = Some (mkIntent "match-000002" false) ∧
  fl_stage (run_event (run_events demo_events) JoinSelected).1 = StageConnecting.
Proof.
  destruct (flow_sound demo_events JoinSelected) as (_ & H & _); [by repeat constructor|].
  split; [by vm_compute|]. by apply (H (mkIntent "match-000002" false)).
Defined.
End Prematch.
