(* ===== verification/ClientSession.v ===== *)
(** * The client's session with the server

    [internal/client/netclient/session.go]: joining a match, the snapshots that arrive, their
    acknowledgement, and the queue of what is sent.  The client's store is [SnapshotStore].

    What arrives is a list of envelopes: a message, or one whose payload cannot be decoded; the
    socket, its deadlines and the context of the join are not modelled, and a list that ends is
    a read that fails.  The reader, the writer, the caller and [Close] take turns; each turn is
    one step. *)

From S2P Require Import Prelude Float32 Model GoStrings Access Items Phase Visibility Session InputQueue Lifecycle Matchmaking Keyed SnapshotStore Auth Protocol Network Connections Delivery.

#[local] Open Scope Z_scope.

Module ClientSession.

(** ** Configuration *)

Record SessionConfig := mkSessionConfig {
  cc_ServerURL : string;
  cc_PlayerName : string;
  cc_PlayerID : PlayerID;
  cc_PreferredMatchID : MatchID;
  cc_PreferredRegion : string;
  cc_RegionLatencyMS : gmap string Z;
  cc_Spectator : bool;
  cc_SpectatorFollowPlayerID : PlayerID;
  cc_SpectatorFollowSlot : Z;
  cc_AuthToken : string;
  cc_HandshakeTimeout : Z;
  cc_WriteTimeout : Z;
  cc_SendQueueDepth : Z;
}.

Definition DefaultSessionConfig : SessionConfig :=
  mkSessionConfig "ws://127.0.0.1:8080/ws" "Player" "" "" "" ∅ false "" 0 "" (6 * 10 ^ 9) (2 * 10 ^ 9) 128.

Definition text_or (text fallback : string) : string := if text ≟ "" then fallback else text.
Definition region_name (region : string) : string := ToLower (TrimSpace region).

Definition clone_latency (latencies : gmap string Z) (out : gmap string Z) (region : string) : gmap string Z :=
  let latency := default 0 (latencies !! region) in
  let normalizedRegion := region_name region in
  if (normalizedRegion ≟ "") || (latency ≟ 0) then out else <[normalizedRegion := latency]> out.

(** The order is that in which Go ranges over the map of the latencies. *)
Definition normalized (order : list string) (c : SessionConfig) : SessionConfig :=
  mkSessionConfig (text_or (TrimSpace (cc_ServerURL c)) (cc_ServerURL DefaultSessionConfig))
    (text_or (TrimSpace (cc_PlayerName c))
       (if cc_Spectator c then "Spectator" else cc_PlayerName DefaultSessionConfig))
    (cc_PlayerID c) (cc_PreferredMatchID c) (region_name (cc_PreferredRegion c))
    (if size (cc_RegionLatencyMS c) ≟ 0%nat then cc_RegionLatencyMS c
     else foldl (clone_latency (cc_RegionLatencyMS c)) ∅ order)
    (cc_Spectator c) (TrimSpace (cc_SpectatorFollowPlayerID c)) (cc_SpectatorFollowSlot c)
    (TrimSpace (cc_AuthToken c))
    (Network.positive_or (cc_HandshakeTimeout c) (cc_HandshakeTimeout DefaultSessionConfig))
    (Network.positive_or (cc_WriteTimeout c) (cc_WriteTimeout DefaultSessionConfig))
    (Network.positive_or (cc_SendQueueDepth c) (cc_SendQueueDepth DefaultSessionConfig)).

(** The first envelope: its [player_id], and its payload. *)
Definition join_request (c : SessionConfig) : PlayerID * JoinGameRequest :=
  (cc_PlayerID c,
   mkJoinRequest (cc_PlayerName c) (cc_PreferredMatchID c) (cc_PreferredRegion c) (cc_RegionLatencyMS c)
     (cc_Spectator c) (cc_SpectatorFollowPlayerID c) (cc_SpectatorFollowSlot c) (cc_AuthToken c) "").

(** ** Messages *)

Inductive inbound := Message (message : server_message) | BadPayload (type : MessageType).
Inductive client_message := PlayerInput (command : InputCommand) | AckSnapshot (ack : SnapshotAckMessage).

Definition client_message_type (message : client_message) : MessageType :=
  match message with PlayerInput _ => MsgPlayerInput | AckSnapshot _ => MsgAckSnapshot end.

Inductive session_error :=
  | ErrReadOnlySession | ErrSendQueueFull | ErrSessionClosed
  | ErrConnect | ErrRead | ErrDecode (type : MessageType) | ErrRejected (error : ErrorMessage)
  | ErrServer (error : ErrorMessage) | ErrBuild (type : MessageType) | ErrWrite (type : MessageType).

(** ** Joining *)

Record handshake := mkHandshake {
  hs_accepted : JoinGameAccepted;
  hs_gotJoin : bool;
  hs_gotState : bool;
  hs_store : SnapshotStore.t;
}.
#[export] Instance handshake_eta : RecordEta handshake := λ r,
  mkHandshake (hs_accepted r) (hs_gotJoin r) (hs_gotState r) (hs_store r).
#[export] Instance accepted_eta : RecordEta JoinGameAccepted := λ r,
  mkAccepted (ja_MatchID r) (ja_PlayerID r) (ja_MinPlayers r) (ja_MaxPlayers r) (ja_TickRateHz r) (ja_SessionKind r)
    (ja_CanSendCommands r) (ja_SpectatorFollowPlayerID r) (ja_SpectatorFollowSlot r) (ja_SpectatorSlotCount r).

Definition zero_accepted : JoinGameAccepted := mkAccepted "" "" 0 0 0 "" false "" 0 0.
Definition new_handshake : handshake := mkHandshake zero_accepted false false SnapshotStore.NewSnapshotStore.

Definition take_state (snapshot : Snapshot) (h : handshake) : handshake :=
  let '(store, taken) := SnapshotStore.ApplySnapshot (hs_store h) snapshot in
  let h := h <| hs_store := store |> in
  if taken : bool then h <| hs_gotState := true |> else h.

Definition handshake_step (h : handshake) (input : inbound) : session_error + handshake :=
  match input with
  | Message (JoinAccepted payload) => inr (h <| hs_accepted := payload |> <| hs_gotJoin := true |>)
  | Message (SnapshotOf snapshot) => inr (take_state snapshot h)
  | Message (GameStart payload) =>
      let h := take_state (gt_InitialSnapshot payload) h in
      inr (if hs_gotJoin h then h
           else h <| hs_accepted ::= λ a, a <| ja_MatchID := gt_MatchID payload |> <| ja_PlayerID := gt_LocalPlayerID payload |> |>)
  | Message (Error payload) => inl (ErrRejected payload)
  | BadPayload type =>
      if bool_decide (type ∈ [MsgJoinAccepted; MsgSnapshot; MsgGameStart; MsgError]) then inl (ErrDecode type) else inr h
  | Message _ => inr h
  end.

(** What is left of the input is for the reader. *)
Fixpoint handshake_loop (h : handshake) (inputs : list inbound) : session_error + (handshake * list inbound) :=
  if hs_gotJoin h && hs_gotState h then inr (h, inputs)
  else match inputs with
  | [] => inl ErrRead
  | input :: inputs =>
      match handshake_step h input with
      | inl err => inl err
      | inr h => handshake_loop h inputs
      end
  end.

Record Session := mkSession {
  cs_store : SnapshotStore.t;
  cs_localPlayerID : PlayerID;
  cs_sessionKind : SessionKind;
  cs_matchID : MatchID;
  cs_minPlayers : Z;
  cs_maxPlayers : Z;
  cs_spectatorFollowPlayerID : PlayerID;
  cs_spectatorFollowSlot : Z;
  cs_spectatorSlotCount : Z;
  cs_sendQueue : list client_message;
  cs_sendQueueDepth : Z;
  cs_closed : bool;    (** the send queue is closed *)
  cs_done : bool;      (** the reader has ended *)
  cs_sendDone : bool;  (** the writer has ended *)
  cs_lastSnapshotAckTick : Z;
  cs_lastServerAckSeq : Z;
  cs_lastServerAckTick : Z;
  cs_lastAsyncErr : option session_error;
}.
#[export] Instance Session_eta : RecordEta Session := λ r,
  mkSession (cs_store r) (cs_localPlayerID r) (cs_sessionKind r) (cs_matchID r) (cs_minPlayers r) (cs_maxPlayers r)
    (cs_spectatorFollowPlayerID r) (cs_spectatorFollowSlot r) (cs_spectatorSlotCount r) (cs_sendQueue r)
    (cs_sendQueueDepth r) (cs_closed r) (cs_done r) (cs_sendDone r) (cs_lastSnapshotAckTick r) (cs_lastServerAckSeq r)
    (cs_lastServerAckTick r) (cs_lastAsyncErr r).

Definition findAckedClientSeq (acks : list PlayerAck) (playerID : PlayerID) : option Z :=
  ack_LastProcessedClientSeq <$> find_first (λ ack, ack_PlayerID ack ≟ playerID) acks.

(** The sequence and the tick that the first snapshot acknowledges. *)
Definition initial_ack (store : SnapshotStore.t) (playerID : PlayerID) : Z * Z :=
  let '(meta, ok) := SnapshotStore.LatestSnapshotMeta store in
  if ok && (playerID ≠? "") then
    match findAckedClientSeq (SnapshotStore.mt_PlayerAcks meta) playerID with
    | Some ackSeq => (ackSeq, SnapshotStore.mt_TickID meta)
    | None => (0, 0)
    end
  else (0, 0).

Definition new_session (config : SessionConfig) (h : handshake) : Session :=
  let accepted := hs_accepted h in
  let '(ackSeq, ackTick) := initial_ack (hs_store h) (ja_PlayerID accepted) in
  mkSession (hs_store h) (ja_PlayerID accepted) (ja_SessionKind accepted) (ja_MatchID accepted)
    (ja_MinPlayers accepted) (ja_MaxPlayers accepted) (ja_SpectatorFollowPlayerID accepted)
    (ja_SpectatorFollowSlot accepted) (ja_SpectatorSlotCount accepted) [] (cc_SendQueueDepth config)
    false false false 0 ackSeq ackTick None.

(** [connected]: the address is good, the server answers, and the join can be encoded and written. *)
Definition DialAndJoin (connected : bool) (order : list string) (config : SessionConfig) (inputs : list inbound) :
    session_error + (Session * list inbound) :=
  let config := normalized order config in
  if negb connected then inl ErrConnect
  else match handshake_loop new_handshake inputs with
  | inl err => inl err
  | inr (h, inputs) => inr (new_session config h, inputs)
  end.

(** ** The reader and the writer *)

Definition setAsyncErr (err : session_error) (s : Session) : Session := s <| cs_lastAsyncErr := Some err |>.

Definition enqueueEnvelope (message : client_message) (s : Session) : Session * option session_error :=
  if cs_done s || cs_closed s then (s, Some ErrSessionClosed)
  else if Z.of_nat (length (cs_sendQueue s)) <? cs_sendQueueDepth s then
    (s <| cs_sendQueue ::= λ queue, queue ++ [message] |>, None)
  else (s, Some ErrSendQueueFull).

Definition updateServerAck (snapshot : Snapshot) (s : Session) : Session :=
  if cs_localPlayerID s ≟ "" then s
  else match findAckedClientSeq (sn_PlayerAcks snapshot) (cs_localPlayerID s) with
  | None => s
  | Some ackSeq =>
      let s := if cs_lastServerAckSeq s <? ackSeq then s <| cs_lastServerAckSeq := ackSeq |> else s in
      if cs_lastServerAckTick s <? sn_TickID snapshot then s <| cs_lastServerAckTick := sn_TickID snapshot |> else s
  end.

(** [json.Marshal] has no error for the message. *)
Class ClientWire := client_encodable : client_message → bool.

Section session.
Context `{Hwire : !ClientWire}.

Definition sendSnapshotAck (snapshotTick : Z) (s : Session) : Session :=
  if (cs_sessionKind s ≠? SessionKindPlayer) || (cs_localPlayerID s ≟ "") then s
  else if (snapshotTick ≟ 0) || (snapshotTick <=? cs_lastSnapshotAckTick s) then s
  else
    let message := AckSnapshot (mkAckMessage snapshotTick (cs_lastServerAckSeq s)) in
    let s := s <| cs_lastSnapshotAckTick := snapshotTick |> in
    if client_encodable message then (enqueueEnvelope message s).1 else setAsyncErr (ErrBuild MsgAckSnapshot) s.

Definition onAuthoritativeSnapshot (snapshot : Snapshot) (s : Session) : Session :=
  let '(store, taken) := SnapshotStore.ApplySnapshot (cs_store s) snapshot in
  let s := s <| cs_store := store |> in
  if taken : bool then sendSnapshotAck (sn_TickID snapshot) (updateServerAck snapshot s) else s.

(** A field that the server leaves out stays as it is. *)
Definition join_again (payload : JoinGameAccepted) (s : Session) : Session :=
  let text new old := if new ≠? "" then new else old in
  let number new old := if 0 <? new then new else old in
  s <| cs_localPlayerID ::= text (ja_PlayerID payload) |> <| cs_sessionKind ::= text (ja_SessionKind payload) |>
    <| cs_matchID ::= text (ja_MatchID payload) |> <| cs_minPlayers ::= number (ja_MinPlayers payload) |>
    <| cs_maxPlayers ::= number (ja_MaxPlayers payload) |>
    <| cs_spectatorFollowPlayerID ::= text (ja_SpectatorFollowPlayerID payload) |>
    <| cs_spectatorFollowSlot ::= number (ja_SpectatorFollowSlot payload) |>
    <| cs_spectatorSlotCount ::= number (ja_SpectatorSlotCount payload) |>.

(** What the socket gives the reader: an envelope, a close that ends the session, or an error. *)
Inductive received := Got (input : inbound) | ClosedNormally | ReadFailed.

(** One round of [readLoop]. *)
Definition read_message (r : received) (s : Session) : Session :=
  if cs_done s then s
  else match r with
  | ClosedNormally => s <| cs_done := true |>
  | ReadFailed => setAsyncErr ErrRead s <| cs_done := true |>
  | Got (Message (SnapshotOf snapshot)) => onAuthoritativeSnapshot snapshot s
  | Got (Message (GameStart payload)) => onAuthoritativeSnapshot (gt_InitialSnapshot payload) s
  | Got (Message (JoinAccepted payload)) => join_again payload s
  | Got (Message (Error payload)) => setAsyncErr (ErrServer payload) s
  | Got (Message _) => s
  | Got (BadPayload type) =>
      if bool_decide (type ∈ [MsgJoinAccepted; MsgSnapshot; MsgGameStart; MsgError]) then setAsyncErr (ErrDecode type) s else s
  end.

(** One round of [writeLoop]: the message it took, if any. *)
Definition write_message (written : bool) (s : Session) : Session * option client_message :=
  if cs_sendDone s then (s, None)
  else match cs_sendQueue s with
  | [] => (if cs_closed s then s <| cs_sendDone := true |> else s, None)
  | message :: queue =>
      let s := s <| cs_sendQueue := queue |> in
      (if written then s else setAsyncErr (ErrWrite (client_message_type message)) s <| cs_sendDone := true |>, Some message)
  end.

Definition SendInputCommand (command : InputCommand) (s : Session) : Session * option session_error :=
  if cs_sessionKind s ≠? SessionKindPlayer then (s, Some ErrReadOnlySession)
  else if cs_localPlayerID s ≟ "" then (s, Some ErrSessionClosed)
  else
    let message := PlayerInput (command <| ic_PlayerID := cs_localPlayerID s |>) in
    if client_encodable message then enqueueEnvelope message s else (s, Some (ErrBuild MsgPlayerInput)).

(** The socket is closed, which ends the reader, and then the queue. *)
Definition Close (s : Session) : Session :=
  let s := if cs_done s then s else setAsyncErr ErrRead s <| cs_done := true |> in
  s <| cs_closed := true |>.

(** ** Acknowledgements

    A run of a session, with what its writer has taken. *)

Record run := mkRun { rn_session : Session; rn_written : list client_message }.

Inductive session_step : relation run :=
  | step_read r s written : session_step (mkRun s written) (mkRun (read_message r s) written)
  | step_write ok s written :
      session_step (mkRun s written) (mkRun (write_message ok s).1 (written ++ option_list (write_message ok s).2))
  | step_send command s written : session_step (mkRun s written) (mkRun (SendInputCommand command s).1 written)
  | step_close s written : session_step (mkRun s written) (mkRun (Close s) written).

Definition ack_of (message : client_message) : option SnapshotAckMessage :=
  match message with AckSnapshot ack => Some ack | PlayerInput _ => None end.

(** What was written and what waits, in order. *)
Definition acks (r : run) : list SnapshotAckMessage := omap ack_of (rn_written r ++ cs_sendQueue (rn_session r)).

Definition ticks (r : run) : list Z := map ak_ClientTickID (acks r).
Definition sequences (r : run) : list Z := map ak_LastProcessedClientSeq (acks r).

Record acks_ok (r : run) : Prop := mkAcksOk {
  ao_ticks : StronglySorted Z.lt (ticks r);
  ao_last : Forall (λ tick, tick <= cs_lastSnapshotAckTick (rn_session r)) (ticks r);
  ao_sequences : StronglySorted Z.le (sequences r);
  ao_acked : Forall (λ seq, seq <= cs_lastServerAckSeq (rn_session r)) (sequences r);
}.

(** A step that the acknowledgements do not notice. *)
Lemma acks_ok_same r s written : acks_ok r → written ++ cs_sendQueue s = rn_written r ++ cs_sendQueue (rn_session r) →
  cs_lastSnapshotAckTick s = cs_lastSnapshotAckTick (rn_session r) →
  cs_lastServerAckSeq (rn_session r) <= cs_lastServerAckSeq s → acks_ok (mkRun s written).
Proof.
  intros [] Hq Ht Hs. unfold ticks, sequences, acks in *. split; unfold ticks, sequences, acks; cbn [rn_session rn_written];
    rewrite Hq; [done|by rewrite Ht|done|]. eapply Forall_impl; [exact ao_acked0|]. cbn. lia.
Qed.

Lemma enqueue_cases message s : (enqueueEnvelope message s).1 = s ∨
  (enqueueEnvelope message s).1 = s <| cs_sendQueue ::= λ queue, queue ++ [message] |>.
Proof. unfold enqueueEnvelope. destruct (_ || _); [by left|]. destruct (_ <? _); [by right|by left]. Qed.

Lemma ack_cases snapshotTick s :
  let s' := sendSnapshotAck snapshotTick s in
  cs_sendQueue s' = cs_sendQueue s ∧ cs_lastServerAckSeq s' = cs_lastServerAckSeq s ∧
    cs_lastSnapshotAckTick s <= cs_lastSnapshotAckTick s' ∨
  cs_sendQueue s' = cs_sendQueue s ++ [AckSnapshot (mkAckMessage snapshotTick (cs_lastServerAckSeq s))] ∧
    cs_lastServerAckSeq s' = cs_lastServerAckSeq s ∧ cs_lastSnapshotAckTick s < snapshotTick ∧
    cs_lastSnapshotAckTick s' = snapshotTick.
Proof.
  cbv zeta. unfold sendSnapshotAck. destruct (_ || _); [left; split_and!; [done|done|lia]|].
  destruct (_ || _) eqn:Hold; [left; split_and!; [done|done|lia]|]. bool_props.
  destruct (client_encodable _); [|left; split_and!; [done|done|cbn; lia]].
  set (message := AckSnapshot _). set (s1 := s <| cs_lastSnapshotAckTick := snapshotTick |>).
  destruct (enqueue_cases message s1) as [-> | ->]; [left; split_and!; [done|done|cbn; lia]|].
  right. split_and!; [done|done|lia|done].
Qed.

Lemma acks_ok_ack r snapshotTick : acks_ok r →
  acks_ok (mkRun (sendSnapshotAck snapshotTick (rn_session r)) (rn_written r)).
Proof.
  intros Hr. destruct (ack_cases snapshotTick (rn_session r)) as [(Hq & Hseq & Ht)|(Hq & Hseq & Hlt & Ht)].
  - destruct Hr. unfold ticks, sequences, acks in *.
    split; unfold ticks, sequences, acks; cbn [rn_session rn_written]; rewrite Hq, ?Hseq; try done.
    eapply Forall_impl; [exact ao_last0|]. cbn. lia.
  - destruct Hr. unfold ticks, sequences, acks in *.
    split; unfold ticks, sequences, acks; cbn [rn_session rn_written]; rewrite Hq, ?Hseq, ?Ht, app_assoc, omap_app, map_app;
      cbn [omap ack_of map app].
    + apply sorted_snoc; [done|]. eapply Forall_impl; [exact ao_last0|]. cbn. lia.
    + apply Forall_app. split; [|repeat constructor; cbn; lia]. eapply Forall_impl; [exact ao_last0|]. cbn. lia.
    + apply sorted_snoc; [done|exact ao_acked0].
    + apply Forall_app. split; [exact ao_acked0|]. repeat constructor. cbn. lia.
Qed.

Lemma server_ack_grows snapshot s :
  let s' := updateServerAck snapshot s in
  cs_sendQueue s' = cs_sendQueue s ∧ cs_lastSnapshotAckTick s' = cs_lastSnapshotAckTick s ∧
  cs_lastServerAckSeq s <= cs_lastServerAckSeq s'.
Proof.
  cbv zeta. unfold updateServerAck. case_bool_decide; [split_and!; [done|done|lia]|].
  destruct (findAckedClientSeq _ _) as [ackSeq|]; [|split_and!; [done|done|lia]].
  destruct (cs_lastServerAckSeq s <? ackSeq) eqn:Hlt; bool_props; case_match; split_and!; try done; cbn; lia.
Qed.

Lemma acks_ok_snapshot r snapshot : acks_ok r →
  acks_ok (mkRun (onAuthoritativeSnapshot snapshot (rn_session r)) (rn_written r)) ∧
  cs_lastServerAckSeq (rn_session r) <= cs_lastServerAckSeq (onAuthoritativeSnapshot snapshot (rn_session r)).
Proof.
  intros Hr. unfold onAuthoritativeSnapshot. destruct (SnapshotStore.ApplySnapshot _ _) as [store taken].
  set (s1 := rn_session r <| cs_store := store |>).
  assert (acks_ok (mkRun s1 (rn_written r))) as H1 by (apply (acks_ok_same r); [done|done|done|cbn; lia]).
  destruct taken; [|split; [exact H1|cbn; lia]].
  destruct (server_ack_grows snapshot s1) as (Hq & Ht & Hs).
  assert (acks_ok (mkRun (updateServerAck snapshot s1) (rn_written r))) as H2.
  { apply (acks_ok_same (mkRun s1 (rn_written r))); cbn [rn_session rn_written]; [exact H1|by rewrite Hq|exact Ht|exact Hs]. }
  split; [exact (acks_ok_ack _ (sn_TickID snapshot) H2)|].
  destruct (ack_cases (sn_TickID snapshot) (updateServerAck snapshot s1)) as [(_ & -> & _)|(_ & -> & _)]; exact Hs.
Qed.

Lemma step_acks r r' : session_step r r' → acks_ok r →
  acks_ok r' ∧ cs_lastServerAckSeq (rn_session r) <= cs_lastServerAckSeq (rn_session r').
Proof.
  intros Hstep Hr. destruct Hstep as [rc s written|ok s written|command s written|s written]; cbn [rn_session].
  - unfold read_message. destruct (cs_done s); [split; [done|lia]|].
    assert (∀ s', cs_sendQueue s' = cs_sendQueue s → cs_lastSnapshotAckTick s' = cs_lastSnapshotAckTick s →
      cs_lastServerAckSeq s' = cs_lastServerAckSeq s →
      acks_ok (mkRun s' written) ∧ cs_lastServerAckSeq s <= cs_lastServerAckSeq s') as Hsame.
    { intros s' Hq Ht Hs. split; [|lia]. apply (acks_ok_same (mkRun s written)); cbn; [done|by rewrite Hq|done|lia]. }
    destruct rc as [[[]|type]| |]; try (by apply Hsame).
    + exact (acks_ok_snapshot (mkRun s written) (gt_InitialSnapshot payload) Hr).
    + exact (acks_ok_snapshot (mkRun s written) snapshot Hr).
    + case_bool_decide; by apply Hsame.
  - unfold write_message. destruct (cs_sendDone s); [rewrite app_nil_r; split; [done|cbn; lia]|].
    destruct (cs_sendQueue s) as [|message queue] eqn:Hq.
    + rewrite app_nil_r. destruct (cs_closed s); [|split; [done|cbn; lia]].
      split; [|cbn; lia]. apply (acks_ok_same (mkRun s written)); cbn; [done|done|done|lia].
    + split; [|destruct ok; cbn; lia]. apply (acks_ok_same (mkRun s written)); cbn [rn_session rn_written option_list snd fst].
      * done.
      * rewrite Hq. destruct ok; cbn; by rewrite <-app_assoc.
      * by destruct ok.
      * destruct ok; cbn; lia.
  - unfold SendInputCommand. destruct (_ ≠? _); [split; [done|cbn; lia]|]. case_bool_decide; [split; [done|cbn; lia]|].
    destruct (client_encodable _); [|split; [done|cbn; lia]]. set (message := PlayerInput _).
    destruct (enqueue_cases message s) as [-> | ->]; [split; [done|cbn; lia]|]. split; [|cbn; lia].
    destruct Hr. unfold ticks, sequences, acks in *. cbn [rn_session rn_written] in *.
    split; unfold ticks, sequences, acks; cbn; unfold field_update; cbn; rewrite app_assoc, omap_app; cbn;
      rewrite app_nil_r; done.
  - unfold Close. split; [|by destruct (cs_done s)]. apply (acks_ok_same (mkRun s written)); cbn; destruct (cs_done s); cbn; try done; lia.
Qed.

Lemma new_session_queue config h : cs_sendQueue (new_session config h) = [] ∧ cs_lastSnapshotAckTick (new_session config h) = 0.
Proof. unfold new_session. by destruct (initial_ack _ _). Qed.

(** C21: Whatever the server sends and the client does, a session acknowledges snapshots in order:
    the ticks of its acknowledgements increase strictly, the command sequences in them never
    fall, and what the client knows of the server's progress never falls either. *)
Theorem acks_increase connected order config inputs session rest middle last
    (Hjoin : DialAndJoin connected order config inputs = inr (session, rest))
    (Hsteps : rtc session_step (mkRun session []) middle) (Hmore : rtc session_step middle last) :
  StronglySorted Z.lt (ticks last) ∧ StronglySorted Z.le (sequences last) ∧
  cs_lastServerAckSeq (rn_session middle) <= cs_lastServerAckSeq (rn_session last).
Proof.
  assert (acks_ok (mkRun session [])) as H0.
  { unfold DialAndJoin in Hjoin. destruct connected; [|done]. cbn [negb] in Hjoin.
    destruct (handshake_loop _ _) as [|[h inputs']]; [done|]. injection Hjoin as <- _.
    destruct (new_session_queue (normalized order config) h) as [Hq Ht].
    split; unfold ticks, sequences, acks; cbn [rn_session rn_written]; rewrite Hq; cbn; constructor. }
  assert (acks_ok middle) as H1.
  { revert H0. induction Hsteps as [|r1 r2 r3 H12 _ IH]; [done|]. intros H. by apply IH, (step_acks r1). }
  clear Hsteps. revert H1. induction Hmore as [r|r1 r2 r3 H12 _ IH]; intros H1; [destruct H1; split_and!; [done|done|lia]|].
  destruct (step_acks _ _ H12 H1) as [H2 Hle]. destruct (IH H2) as (? & ? & ?). split_and!; [done|done|lia].
Qed.

End session.

(** ** Joining, on both sides

    The messages that the server leaves for a player who joins are those the client waits for. *)

Section joining.
Import Network Connections Delivery.
Context `{Hsrv : !Wire}.

(** The connection keeps its queue, and the match is still there. *)
Record unhurt (id : string) (matchID : MatchID) (s s' : Server) : Prop := mkUnhurt {
  uh_send : wc_send (conn_of s' id) = wc_send (conn_of s id);
  uh_state : wc_state (conn_of s' id) = wc_state (conn_of s id);
  uh_object : is_Some (sv_objects s !! id) → is_Some (sv_objects s' !! id);
  uh_config : sv_config s' = sv_config s;
  uh_match : is_Some (mg_matches (sv_manager s) !! matchID) → is_Some (mg_matches (sv_manager s') !! matchID);
}.

#[local] Instance unhurt_preorder id matchID : PreOrder (unhurt id matchID).
Proof.
  split; [by split|]. intros s1 s2 s3 [] []. split; [congruence|congruence|auto|congruence|auto].
Qed.

Lemma unhurt_update id matchID g f s : (∀ c, wc_send (f c) = wc_send c ∧ wc_state (f c) = wc_state c) →
  unhurt id matchID s (update_conn g f s).
Proof.
  intros Hf. assert (∀ c, wc_send (f c) = wc_send c) as H1 by apply Hf. assert (∀ c, wc_state (f c) = wc_state c) as H2 by apply Hf.
  split; [| | |done|done].
  1,2: rewrite conn_of_update; case_decide as Hid; [subst|done]; unfold conn_of; by destruct (sv_objects s !! g).
  unfold update_conn. cbn. destruct (decide (id = g)) as [->|Hne]; [|by rewrite lookup_alter_ne].
  rewrite lookup_alter_eq. by destruct (sv_objects s !! g).
Qed.

Lemma unhurt_manager id matchID m s :
  (is_Some (mg_matches (sv_manager s) !! matchID) → is_Some (mg_matches m !! matchID)) → unhurt id matchID s (s <| sv_manager := m |>).
Proof. by split. Qed.

Lemma connected_keeps m matchID' playerID connected matchID :
  is_Some (mg_matches m !! matchID) → is_Some (mg_matches (SetPlayerConnected m matchID' playerID connected).1 !! matchID).
Proof.
  intros Hm. unfold SetPlayerConnected. case_bool_decide; [done|]. destruct (mg_matches m !! matchID') as [session|] eqn:Hs; [|done].
  destruct (negb _); [done|]. destruct (connect_session _ _ _) as [session' err]. unfold set_session. cbn.
  destruct (decide (matchID = matchID')) as [->|Hne]; [by rewrite lookup_insert_eq|by rewrite lookup_insert_ne].
Qed.

Lemma unhurt_close id matchID now g reason s : id ≠ g → unhurt id matchID s (close now g reason s).
Proof.
  intros Hne. destruct (undisturbed_close id now g reason s Hne) as [Hobj _ Hcfg _].
  split; [by unfold conn_of; rewrite Hobj|by unfold conn_of; rewrite Hobj|by rewrite Hobj|done|].
  destruct (close_reported now g reason s) as [-> | [_ ->]]; [done|apply connected_keeps].
Qed.

Lemma unhurt_release id matchID playerID s : unhurt id matchID s (release_player id playerID s).1 ∧
  (id ∉ (release_player id playerID s).2) ∧ sv_connections (release_player id playerID s).1 = sv_connections s.
Proof.
  unfold release_player. case_bool_decide; [split_and!; [reflexivity|by apply not_elem_of_nil|done]|].
  destruct (sv_playerToConnection s !! playerID) as [previous|]; [|split_and!; [reflexivity|by apply not_elem_of_nil|done]].
  case_bool_decide as Hprev; [split_and!; [reflexivity|by apply not_elem_of_nil|done]|].
  case_bool_decide; cbn [fst snd].
  - split_and!; [|by apply not_elem_of_cons; split; [congruence|apply not_elem_of_nil]|].
    + transitivity (displace previous s); [|by split]. unfold displace.
      destruct (wc_matchID (conn_of s previous) ≠? ""); [|by apply unhurt_update].
      set (s1 := s <| sv_matchToConnections ::= drop_member (wc_matchID (conn_of s previous)) previous |>).
      transitivity s1; [by split|by apply unhurt_update].
    + unfold displace. by case_match.
  - split_and!; [by split|by apply not_elem_of_nil|done].
Qed.

Lemma unhurt_bind id g matchID' matchID playerID viewerID kind subject scope s :
  unhurt id matchID' s (bind g matchID playerID viewerID kind subject scope s) ∧
  sv_connections (bind g matchID playerID viewerID kind subject scope s) = sv_connections s.
Proof.
  split; [|unfold bind; by repeat case_match]. split.
  1,2: unfold conn_of; rewrite bind_objects; destruct (decide (id = g)) as [->|Hne];
    [rewrite lookup_alter_eq; by destruct (sv_objects s !! g)|by rewrite lookup_alter_ne].
  - rewrite bind_objects. destruct (decide (id = g)) as [->|Hne]; [rewrite lookup_alter_eq; by destruct (sv_objects s !! g)|by rewrite lookup_alter_ne].
  - unfold bind. by repeat case_match.
  - unfold bind. by repeat case_match.
Qed.

Lemma unhurt_closes id matchID now reason stale s : id ∉ stale →
  unhurt id matchID s (foldl (λ s staleID, (CloseConnection now staleID reason s).1) s stale).
Proof.
  revert s. induction stale as [|g stale IH]; intros s Hout; [reflexivity|]. apply not_elem_of_cons in Hout as [Hne Hout].
  cbn. etransitivity; [|by apply IH]. unfold CloseConnection. case_bool_decide; [by apply unhurt_close|reflexivity].
Qed.

Lemma unhurt_bindConnection now id matchID playerID viewerID kind subject scope s :
  unhurt id matchID s (bindConnection now id matchID playerID viewerID kind subject scope s).
Proof.
  unfold bindConnection. case_bool_decide; cbn [negb]; [|reflexivity].
  destruct (unhurt_release id matchID playerID s) as (H1 & Hout & _).
  destruct (release_player id playerID s) as [s1 stale]. cbn [fst snd] in H1, Hout.
  set (s2 := bind _ _ _ _ _ _ _ s1). set (s3 := appendEvent _ s2). set (s4 := foldl _ s3 stale).
  assert (unhurt id matchID s s4) as H4.
  { transitivity s1; [exact H1|]. transitivity s2; [apply unhurt_bind|]. transitivity s3; [by split|]. by apply unhurt_closes. }
  case_match; [|exact H4]. etransitivity; [exact H4|]. apply unhurt_manager, connected_keeps.
Qed.

(** ** The queue of the connection *)

Definition extends (id : string) (s s' : Server) : Prop :=
  ∃ more, wc_send (conn_of s' id) = wc_send (conn_of s id) ++ more.

#[local] Instance extends_preorder id : PreOrder (extends id).
Proof.
  split; [intros s; exists []; by rewrite app_nil_r|]. intros s1 s2 s3 [l1 H1] [l2 H2]. exists (l1 ++ l2). by rewrite H2, H1, app_assoc.
Qed.

Lemma extends_update id g f s : (∀ c, ∃ more, wc_send (f c) = wc_send c ++ more) → extends id s (update_conn g f s).
Proof.
  intros Hf. unfold extends. rewrite conn_of_update. case_decide as Hid; [subst|exists []; by rewrite app_nil_r].
  unfold conn_of. destruct (sv_objects s !! g) as [c|]; [apply Hf|by exists []].
Qed.

Lemma extends_close id now g reason s : extends id s (close now g reason s).
Proof.
  assert (extends id s (update_conn g (λ c, c <| wc_state := ConnectionStateDisconnected |> <| wc_lastSeenAt := now |>) s)) as H
    by (apply extends_update; intros c; exists []; by rewrite app_nil_r).
  unfold extends, conn_of. rewrite close_objects. case_bool_decide; [exact H|exists []; by rewrite app_nil_r].
Qed.

Lemma extends_send id now g message s : extends id s (sendTyped now g message s).1.
Proof.
  unfold sendTyped. destruct (encodable message); [|reflexivity]. unfold enqueueEnvelope.
  case_bool_decide; cbn [negb]; [|exists []; by rewrite app_nil_r].
  destruct (_ <? _); [apply extends_update; intros c; by exists [message]|]. cbn [fst].
  set (s1 := appendEvent _ s). exact (extends_close id now g "send_queue_full" s1).
Qed.

Lemma extends_cursor id g tick s : extends id s (updateSnapshotCursor g tick s).
Proof.
  unfold updateSnapshotCursor. case_bool_decide; [|reflexivity].
  apply extends_update. intros c. exists []. rewrite app_nil_r. by case_match.
Qed.

Lemma extends_announce id now started initial ids s : extends id s (foldl (announce_start now started initial) s ids).
Proof.
  revert s. induction ids as [|g ids IH]; intros s; [reflexivity|]. cbn. etransitivity; [|apply IH].
  unfold announce_start. set (message := GameStart _).
  pose proof (extends_send id now g message s) as Hs. destruct (sendTyped now g message s) as [s2 [err|]]; [exact Hs|].
  etransitivity; [exact Hs|apply extends_cursor].
Qed.

Lemma extends_start id now matchID s : extends id s (maybeAutoStartMatch now matchID s).
Proof.
  unfold maybeAutoStartMatch. destruct (StartMatch _ _ _) as [m [err|started]]; [exists []; by rewrite app_nil_r|].
  set (s1 := s <| sv_manager := m |>). transitivity s1; [exists []; by rewrite app_nil_r|]. apply extends_announce.
Qed.

(** With room, a message is left in the queue, and that is all. *)
Lemma send_room id now message s : is_Some (sv_objects s !! id) → wc_state (conn_of s id) = ConnectionStateConnected →
  encodable message = true → Z.of_nat (length (wc_send (conn_of s id))) < nc_SendQueueDepth (sv_config s) →
  (sendTyped now id message s).2 = None ∧
  wc_send (conn_of (sendTyped now id message s).1 id) = wc_send (conn_of s id) ++ [message] ∧
  wc_state (conn_of (sendTyped now id message s).1 id) = ConnectionStateConnected ∧
  is_Some (sv_objects (sendTyped now id message s).1 !! id) ∧
  sv_config (sendTyped now id message s).1 = sv_config s ∧ sv_manager (sendTyped now id message s).1 = sv_manager s.
Proof.
  intros [c Hc] Hopen Henc Hroom. unfold sendTyped. rewrite Henc. unfold enqueueEnvelope. rewrite (bool_decide_true _ Hopen).
  cbn [negb]. apply Z.ltb_lt in Hroom. rewrite Hroom. cbn [fst snd].
  assert (conn_of s id = c) as Hconn by (unfold conn_of; by rewrite Hc). rewrite Hconn in *.
  rewrite conn_of_update, decide_True by done. rewrite Hc. split_and!; try done.
  unfold update_conn. cbn. rewrite lookup_alter_eq, Hc. by eexists.
Qed.

(** What the server accepts a player with. *)
Definition accepted_as (m : Manager) (matchID : MatchID) (playerID : PlayerID) (accepted : JoinGameAccepted) : Prop :=
  ja_MatchID accepted = matchID ∧ ja_PlayerID accepted = playerID ∧ ja_SessionKind accepted = SessionKindPlayer ∧
  (ja_MinPlayers accepted, ja_MaxPlayers accepted) = MatchConstraints m.

(** The first messages for a player who joins. *)
Lemma welcome_queue now id playerID claims snapshot s :
  is_Some (sv_objects s !! id) → wc_state (conn_of s id) = ConnectionStateConnected → wc_send (conn_of s id) = [] →
  2 <= nc_SendQueueDepth (sv_config s) → (∀ message, encodable message = true) →
  is_Some (mg_matches (sv_manager s) !! sm_MatchID snapshot) →
  let m := sv_manager (bindConnection now id (sm_MatchID snapshot) playerID playerID SessionKindPlayer
    (Auth.cl_Subject claims) (Auth.cl_Scope claims) s) in
  ∃ accepted session more, mg_matches m !! sm_MatchID snapshot = Some session ∧ accepted_as m (sm_MatchID snapshot) playerID accepted ∧
    wc_send (conn_of (welcome_player now id playerID claims snapshot s) id) =
      JoinAccepted accepted :: SnapshotOf (ProjectSnapshotForViewer (makeFullSnapshotLocked session) playerID) :: more.
Proof.
  intros Hobj Hopen Hempty Hdepth Henc Hmatch. cbv zeta. unfold welcome_player.
  destruct (unhurt_bindConnection now id (sm_MatchID snapshot) playerID playerID SessionKindPlayer
    (Auth.cl_Subject claims) (Auth.cl_Scope claims) s) as [Hsend Hstate Hobj1 Hcfg Hm].
  set (s1 := bindConnection _ _ _ _ _ _ _ _ s) in *. clearbody s1.
  rewrite Hempty in Hsend. rewrite Hopen in Hstate. specialize (Hobj1 Hobj). destruct (Hm Hmatch) as [session Hsession].
  destruct (MatchConstraints (sv_manager s1)) as [minPlayers maxPlayers] eqn:Hmc. set (accepted := mkAccepted _ _ _ _ _ _ _ _ _ _).
  destruct (send_room id now (JoinAccepted accepted) s1) as (_ & Hq2 & Hst2 & Hobj2 & Hcfg2 & Hm2); [done|done|apply Henc|rewrite Hsend, Hcfg; cbn; lia|].
  set (s2 := (sendTyped now id (JoinAccepted accepted) s1).1) in *. clearbody s2. rewrite Hsend in Hq2. cbn in Hq2.
  unfold FullSnapshot. rewrite Hm2, Hsession. unfold send_full_snapshot.
  set (visible := ProjectSnapshotForViewer _ _).
  destruct (send_room id now (SnapshotOf visible) s2) as (Hok & Hq3 & _); [done|done|apply Henc|rewrite Hq2, Hcfg2, Hcfg; cbn; lia|].
  destruct (sendTyped now id (SnapshotOf visible) s2) as [s3 err]. cbn [fst snd] in Hok, Hq3. subst err.
  rewrite Hq2 in Hq3. set (s4 := updateSnapshotCursor _ _ s3).
  destruct (extends_cursor id id (sn_TickID visible) s3) as [more1 H4]. change (updateSnapshotCursor _ _ s3) with s4 in H4.
  destruct (extends_start id now (sm_MatchID snapshot) s4) as [more2 H5].
  exists accepted, session, (more1 ++ more2). split_and!; [done|by split_and!|].
  rewrite H5, H4, Hq3. by rewrite <-!app_assoc.
Qed.

Lemma handshake_done accepted session v more :
  let visible := ProjectSnapshotForViewer (makeFullSnapshotLocked session) v in
  ∃ h, handshake_loop new_handshake (Message (JoinAccepted accepted) :: Message (SnapshotOf visible) :: more) = inr (h, more) ∧
    hs_accepted h = accepted ∧ ∃ state, sn_State visible = Some state ∧
    SnapshotStore.CurrentState (hs_store h) = (state, true).
Proof. cbv zeta. eexists. split; [by destruct more|]. split; [done|]. by eexists. Qed.

(** C7: A player whom the server lets in gets in, if there is room.  Let the connection be open and
    its queue empty, the configured depth of the queues be at least two, every message be encodable
    as JSON, and the match be there.  Then the messages that the server leaves for the player
    complete the client's join, whatever follows them: the session is the player's in that match,
    may send commands, and starts from the state of the match as the player may see it. *)
Theorem join_completes now id playerID claims snapshot s order config
    (Hobj : is_Some (sv_objects s !! id)) (Hopen : wc_state (conn_of s id) = ConnectionStateConnected)
    (Hempty : wc_send (conn_of s id) = []) (Hdepth : 2 <= nc_SendQueueDepth (sv_config s))
    (Henc : ∀ message, encodable message = true)
    (Hmatch : is_Some (mg_matches (sv_manager s) !! sm_MatchID snapshot)) :
  ∃ session rest state full,
    DialAndJoin true order config
      (map Message (wc_send (conn_of (welcome_player now id playerID claims snapshot s) id))) = inr (session, rest) ∧
    cs_localPlayerID session = playerID ∧ cs_matchID session = sm_MatchID snapshot ∧
    cs_sessionKind session = SessionKindPlayer ∧
    FullSnapshot (sv_manager (bindConnection now id (sm_MatchID snapshot) playerID playerID SessionKindPlayer
      (Auth.cl_Subject claims) (Auth.cl_Scope claims) s)) (sm_MatchID snapshot) = inr full ∧
    sn_State (ProjectSnapshotForViewer full playerID) = Some state ∧
    SnapshotStore.CurrentState (cs_store session) = (state, true).
Proof.
  destruct (welcome_queue now id playerID claims snapshot s Hobj Hopen Hempty Hdepth Henc Hmatch)
    as (accepted & session & more & Hsession & (Hm & Hp & Hk & _) & ->).
  destruct (handshake_done accepted session playerID (map Message more)) as (h & Hloop & Hacc & state & Hstate & Hstore).
  unfold DialAndJoin. cbn [negb map]. rewrite Hloop.
  exists (new_session (ClientSession.normalized order config) h), (map Message more), state, (makeFullSnapshotLocked session).
  unfold FullSnapshot. rewrite Hsession. unfold new_session. rewrite Hacc. destruct (initial_ack _ _) as [ackSeq ackTick].
  by split_and!.
Qed.

End joining.

(** ** Witnesses *)

Import Network Demo.

#[local] Instance demo_client : ClientWire := λ _, true.

(** The join of the demonstration, seen by the client. *)
Lemma join_completes_witness : ∃ session rest,
  DialAndJoin true [] DefaultSessionConfig
    (map Message (wc_send (conn_of (welcome_player demo_now "conn-000001" "ann" demo_claims
      (snapshotFromSession two_player_session)
      (demo_opened <| sv_manager := demo_manager <| mg_matches := {["m" := two_player_session]} |> |>)) "conn-000001"))) =
    inr (session, rest) ∧ cs_localPlayerID session = "ann" ∧ cs_matchID session = "m".
Proof.
  destruct (join_completes demo_now "conn-000001" "ann" demo_claims (snapshotFromSession two_player_session)
    (demo_opened <| sv_manager := demo_manager <| mg_matches := {["m" := two_player_session]} |> |>) [] DefaultSessionConfig)
    as (session & rest & state & full & H1 & H2 & H3 & _).
  - vm_compute. by eexists.
  - by vm_compute.
  - by vm_compute.
  - by vm_compute.
  - done.
  - vm_compute. by eexists.
  - exists session, rest. exact (conj H1 (conj H2 H3)).
Defined.

Definition demo_received : list received :=
  [Got (Message (SnapshotOf (zero_Snapshot <| sn_Kind := SnapshotKindFull |> <| sn_TickID := 7 |>
     <| sn_State := Some zero_GameState |> <| sn_PlayerAcks := [mkAck "ann" 3] |>)));
   Got (Message (SnapshotOf (zero_Snapshot <| sn_Kind := SnapshotKindFull |> <| sn_TickID := 5 |>
     <| sn_State := Some zero_GameState |> <| sn_PlayerAcks := [mkAck "ann" 2] |>)));
   Got (Message (SnapshotOf (zero_Snapshot <| sn_Kind := SnapshotKindFull |> <| sn_TickID := 9 |>
     <| sn_State := Some zero_GameState |> <| sn_PlayerAcks := [mkAck "ann" 4] |>)))].

Definition demo_inputs : list inbound :=
  [Message (JoinAccepted (mkAccepted "m" "ann" 2 12 20 SessionKindPlayer true "" 0 0));
   Message (SnapshotOf (zero_Snapshot <| sn_Kind := SnapshotKindFull |> <| sn_State := Some zero_GameState |>))].

Definition demo_session : Session :=
  match DialAndJoin true [] DefaultSessionConfig demo_inputs with
  | inr (session, _) => session
  | inl _ => new_session DefaultSessionConfig new_handshake
  end.

Definition demo_after : run := mkRun (foldl (λ s r, read_message r s) demo_session demo_received) [].

Lemma demo_steps s rs : rtc session_step (mkRun s []) (mkRun (foldl (λ s r, read_message r s) s rs) []).
Proof.
  revert s. induction rs as [|r rs IH]; intros s; [reflexivity|]. cbn. eapply rtc_l; [apply step_read|apply IH].
Qed.

Lemma acks_increase_witness : ticks demo_after = [7; 9] ∧ sequences demo_after = [3; 4] ∧
  StronglySorted Z.lt (ticks demo_after) ∧ cs_lastServerAckSeq demo_session <= cs_lastServerAckSeq (rn_session demo_after).
Proof.
  split; [by vm_compute|]. split; [by vm_compute|].
  destruct (acks_increase true [] DefaultSessionConfig demo_inputs demo_session [] (mkRun demo_session []) demo_after)
    as (H1 & _ & H2).
  - by vm_compute.
  - reflexivity.
  - exact (demo_steps demo_session demo_received).
  - exact (conj H1 H2).
Defined.
End ClientSession.
