(* ===== verification/Controller.v ===== *)
(** * What the player presses

    [internal/client/input/controller.go]: the commands that a frame of the client makes of the
    keys, the mouse and the touches, and those that the panels ask for.  The controller is never
    nil here; an absent local player is [None].  The texts that [json.Marshal] gives are the
    class [PayloadEncoder]. *)

From S2P Require Import Prelude Float32 Model GoStrings Access Items Escape Cards Abilities Combat Session InputQueue.

#[local] Open Scope Z_scope.

Module Controller.

(** ** Inputs *)

Record TouchPoint := mkTouch { tp_ID : Z; tp_X : f64; tp_Y : f64 }.

(** The panels' and the spectator's keys are read by the shell, not here. *)
Record InputSnapshot := mkInput {
  in_MoveUp : bool; in_MoveDown : bool; in_MoveLeft : bool; in_MoveRight : bool;
  in_Sprint : bool; in_EquipSlot1Pressed : bool; in_EquipSlot2Pressed : bool; in_EquipSlot3Pressed : bool;
  in_InteractPressed : bool; in_AbilityPressed : bool; in_AbilityInfoPressed : bool; in_ReloadPressed : bool;
  in_FirePressed : bool; in_HasAim : bool;
  in_AimWorldX : f32; in_AimWorldY : f32;
  in_PanelInventoryPressed : bool; in_PanelCardsPressed : bool; in_PanelAbilitiesPressed : bool;
  in_PanelMarketPressed : bool; in_PanelEscapePressed : bool; in_PanelStashPressed : bool;
  in_PanelPrevPressed : bool; in_PanelNextPressed : bool; in_PanelUsePressed : bool;
  in_SpectatorPrevPressed : bool; in_SpectatorNextPressed : bool;
  in_Touches : list TouchPoint;
}.
#[export] Instance InputSnapshot_eta : RecordEta InputSnapshot := λ r,
  mkInput (in_MoveUp r) (in_MoveDown r) (in_MoveLeft r) (in_MoveRight r) (in_Sprint r) (in_EquipSlot1Pressed r)
    (in_EquipSlot2Pressed r) (in_EquipSlot3Pressed r) (in_InteractPressed r) (in_AbilityPressed r)
    (in_AbilityInfoPressed r) (in_ReloadPressed r) (in_FirePressed r) (in_HasAim r) (in_AimWorldX r)
    (in_AimWorldY r) (in_PanelInventoryPressed r) (in_PanelCardsPressed r) (in_PanelAbilitiesPressed r)
    (in_PanelMarketPressed r) (in_PanelEscapePressed r) (in_PanelStashPressed r) (in_PanelPrevPressed r)
    (in_PanelNextPressed r) (in_PanelUsePressed r) (in_SpectatorPrevPressed r)
    (in_SpectatorNextPressed r) (in_Touches r).

Definition zero_input : InputSnapshot :=
  mkInput false false false false false false false false false false false false false false f32_zero f32_zero
    false false false false false false false false false false false [].

Record Rect := mkRect { rc_MinX : f64; rc_MinY : f64; rc_MaxX : f64; rc_MaxY : f64 }.

Definition Contains (r : Rect) (x y : f64) : bool :=
  f64_leb (rc_MinX r) x && f64_leb x (rc_MaxX r) && f64_leb (rc_MinY r) y && f64_leb y (rc_MaxY r).

Record MobileLayout := mkMobile {
  ml_Enabled : bool;
  ml_JoystickCenterX : f64;
  ml_JoystickCenterY : f64;
  ml_JoystickRadius : f64;
  ml_FireButton : Rect;
  ml_InteractButton : Rect;
  ml_AbilityButton : Rect;
  ml_ReloadButton : Rect;
}.

Definition DefaultMobileLayout (screenWidth screenHeight : Z) : MobileLayout :=
  let screenW := f64_of_Z (if screenWidth <=? 0 then 1280 else screenWidth) in
  let screenH := f64_of_Z (if screenHeight <=? 0 then 720 else screenHeight) in
  let buttonSize := f64_max (f64_of_Z 64) (f64_mul screenH (f64_const 11 100)) in
  let margin := f64_max (f64_of_Z 18) (f64_mul screenW (f64_const 18 1000)) in
  let joystickRadius := f64_max (f64_of_Z 56) (f64_mul screenH (f64_const 12 100)) in
  let rightBaseX := f64_sub (f64_sub screenW margin) buttonSize in
  let baseY := f64_sub (f64_sub screenH margin) buttonSize in
  let scaled n := f64_mul buttonSize (f64_const n 100) in
  let leftX := f64_sub (f64_sub rightBaseX buttonSize) margin in
  mkMobile true (f64_add margin joystickRadius) (f64_sub (f64_sub screenH margin) joystickRadius) joystickRadius
    (mkRect rightBaseX (f64_sub baseY buttonSize) (f64_add rightBaseX buttonSize) baseY)
    (mkRect leftX (f64_sub baseY (scaled 45)) (f64_sub rightBaseX margin) (f64_add baseY (scaled 55)))
    (mkRect leftX (f64_sub baseY (scaled 145)) (f64_sub rightBaseX margin) (f64_sub baseY (scaled 45)))
    (mkRect rightBaseX (f64_add baseY (scaled 25)) (f64_add rightBaseX buttonSize) (f64_add baseY (scaled 125))).

(** ** The controller *)

Record ControllerConfig := mkConfig {
  cf_PlayerID : PlayerID;
  cf_ScreenWidth : Z;
  cf_ScreenHeight : Z;
  cf_FireWeapon : ItemType;
  cf_MobileLayout : MobileLayout;
  cf_InitialClientSeq : Z;
}.

Record t := mkController {
  ct_playerID : PlayerID;
  ct_nextClientSeq : Z;
  ct_fireWeapon : ItemType;
  ct_mobile : MobileLayout;
  ct_prevFirePressed : bool;
  ct_prevInteractPressed : bool;
  ct_prevAbilityPressed : bool;
  ct_prevReloadPressed : bool;
  ct_prevEquipSlot1Pressed : bool;
  ct_prevEquipSlot2Pressed : bool;
  ct_prevEquipSlot3Pressed : bool;
  ct_lastMoveTargetTick : Z;
  ct_lastAimTargetTick : Z;
}.
#[export] Instance t_eta : RecordEta t := λ r,
  mkController (ct_playerID r) (ct_nextClientSeq r) (ct_fireWeapon r) (ct_mobile r) (ct_prevFirePressed r)
    (ct_prevInteractPressed r) (ct_prevAbilityPressed r) (ct_prevReloadPressed r) (ct_prevEquipSlot1Pressed r)
    (ct_prevEquipSlot2Pressed r) (ct_prevEquipSlot3Pressed r) (ct_lastMoveTargetTick r) (ct_lastAimTargetTick r).

Definition NewController (config : ControllerConfig) : t :=
  let fireWeapon := if cf_FireWeapon config ≟ "" then ItemPistol else cf_FireWeapon config in
  let fireWeapon := if negb (IsSupportedWeapon fireWeapon) then ItemPistol else fireWeapon in
  let mobile :=
    if f64_leb (ml_JoystickRadius (cf_MobileLayout config)) f32_zero
    then DefaultMobileLayout (cf_ScreenWidth config) (cf_ScreenHeight config) else cf_MobileLayout config in
  mkController (TrimSpace (cf_PlayerID config)) (cf_InitialClientSeq config) fireWeapon mobile
    false false false false false false false 0 0.

Definition newCommand (commandType : InputCommandType) (payload : string) (targetTick : Z) (c : t) : t * InputCommand :=
  let c := c <| ct_nextClientSeq ::= λ n, u64 (n + 1) |> in
  (c, mkCommand (ct_playerID c) (ct_nextClientSeq c) 0 targetTick commandType payload).

(** ** Reading the devices *)

Definition edgePressed (previous current : bool) : bool := negb previous && current.

Definition touchInsideButton (c : t) (touches : list TouchPoint) (button : Rect) : bool :=
  if negb (ml_Enabled (ct_mobile c)) then false
  else existsb (λ touch, Contains button (tp_X touch) (tp_Y touch)) touches.

Definition normalizeVector (x y : f32) : f32 * f32 :=
  let magnitude := f64_hypot (f64_of_f32 x) (f64_of_f32 y) in
  if f64_leb magnitude (f64_of_Z 1) then (x, y)
  else (f32_of_f64 (f64_div (f64_of_f32 x) magnitude), f32_of_f64 (f64_div (f64_of_f32 y) magnitude)).

(** What a touch near the joystick makes of it. *)
Definition joystick_at (mobile : MobileLayout) (touch : TouchPoint) : option (f32 * f32) :=
  let dx := f64_sub (tp_X touch) (ml_JoystickCenterX mobile) in
  let dy := f64_sub (tp_Y touch) (ml_JoystickCenterY mobile) in
  let distance := f64_hypot dx dy in
  if f64_ltb (f64_mul (ml_JoystickRadius mobile) (f64_const 135 100)) distance then None
  else if f64_eqb distance f32_zero then Some (f32_zero, f32_zero)
  else
    let magnitude := f64_min (f64_of_Z 1) (f64_div distance (ml_JoystickRadius mobile)) in
    Some (f32_of_f64 (f64_mul (f64_div dx distance) magnitude), f32_of_f64 (f64_mul (f64_div dy distance) magnitude)).

(** The touches by identifier, which are distinct; the first that is near the joystick. *)
Definition joystickVector (c : t) (touches : list TouchPoint) : option (f32 * f32) :=
  let mobile := ct_mobile c in
  if negb (ml_Enabled mobile) || f64_leb (ml_JoystickRadius mobile) f32_zero then None
  else head (omap (joystick_at mobile) (sort_by Z.le tp_ID touches)).

Definition f32_is_zero (x : f32) : bool := f32_eqb x f32_zero.

Definition resolveMove (c : t) (snapshot : InputSnapshot) : f32 * f32 * bool :=
  let one := f32_of_Z 1 in
  let moveX := if in_MoveRight snapshot then f32_add f32_zero one else f32_zero in
  let moveX := if in_MoveLeft snapshot then f32_sub moveX one else moveX in
  let moveY := if in_MoveDown snapshot then f32_add f32_zero one else f32_zero in
  let moveY := if in_MoveUp snapshot then f32_sub moveY one else moveY in
  let sprint := in_Sprint snapshot in
  let '(moveX, moveY, sprint) :=
    if f32_is_zero moveX && f32_is_zero moveY && ml_Enabled (ct_mobile c) then
      match joystickVector c (in_Touches snapshot) with
      | Some (jx, jy) =>
          (jx, jy, if f64_ltb (f64_const 82 100) (f64_hypot (f64_of_f32 jx) (f64_of_f32 jy)) then true else sprint)
      | None => (moveX, moveY, sprint)
      end
    else (moveX, moveY, sprint) in
  let '(moveX, moveY) := normalizeVector moveX moveY in
  (moveX, moveY, if f32_is_zero moveX && f32_is_zero moveY then false else sprint).

Definition resolveAimVector (aimWorldX aimWorldY : f32) (localPlayer : option PlayerState) : f32 * f32 :=
  match localPlayer with
  | None => (aimWorldX, aimWorldY)
  | Some player => (f32_sub aimWorldX (vX (ps_Position player)), f32_sub aimWorldY (vY (ps_Position player)))
  end.

Definition resolveTriggeredAbility (local : PlayerState) : AbilityType :=
  if IsKnownAbility (ps_AssignedAbility local) && CanPlayerUse local (ps_AssignedAbility local)
  then ps_AssignedAbility local
  else default "" (find_first (λ ability, ability ≠? "") (AbilitiesForPlayer local)).

(** The weapons of an inventory, each once. *)
Definition add_weapon (weapons : list ItemType) (stack : ItemStack) : list ItemType :=
  if (stk_Item stack ≟ "") || (stk_Quantity stack ≟ 0) then weapons
  else if negb (IsSupportedWeapon (stk_Item stack)) then weapons
  else if bool_decide (stk_Item stack ∈ weapons) then weapons
  else weapons ++ [stk_Item stack].

Definition equippableWeaponForSlot (local : PlayerState) (slot : Z) : option ItemType :=
  if slot <=? 0 then None
  else foldl add_weapon [] (ps_Inventory local) !! Z.to_nat (slot - 1).

(** ** Commands *)

(** [json.Marshal] of each payload; [None] is an error, which a NaN or an infinity gives. *)
Class PayloadEncoder := {
  encode_movement : MovementInputPayload → option string;
  encode_aim : AimInputPayload → option string;
  encode_interact : InteractPayload → option string;
  encode_ability : AbilityUsePayload → option string;
  encode_card : CardUsePayload → option string;
  encode_item : ItemUsePayload → option string;
  encode_market : BlackMarketPurchasePayload → option string;
  encode_fire : FireWeaponPayload → option string;
  encode_equip : EquipItemPayload → option string;
}.

Section building.
Context `{Henc : !PayloadEncoder}.

(** The frame so far: the controller, and the commands. *)
Abbreviation frame := (t * list InputCommand)%type.

Definition push (commandType : InputCommandType) (payload : string) (targetTick : Z) (f : frame) : frame :=
  let '(c, command) := newCommand commandType payload targetTick f.1 in (c, f.2 ++ [command]).

(** A command whose payload has a text. *)
Definition emit (commandType : InputCommandType) (payload : option string) (targetTick : Z) (f : frame) : frame :=
  match payload with Some text => push commandType text targetTick f | None => f end.

Definition equip_slot (c : t) (snapshot : InputSnapshot) : Z :=
  if edgePressed (ct_prevEquipSlot1Pressed c) (in_EquipSlot1Pressed snapshot) then 1
  else if edgePressed (ct_prevEquipSlot2Pressed c) (in_EquipSlot2Pressed snapshot) then 2
  else if edgePressed (ct_prevEquipSlot3Pressed c) (in_EquipSlot3Pressed snapshot) then 3
  else 0.

Definition build_equip (slot targetTick : Z) (localPlayer : option PlayerState) (f : frame) : frame :=
  match localPlayer with
  | None => f
  | Some player =>
      if 0 <? slot then
        match equippableWeaponForSlot player slot with
        | Some weapon => emit CmdEquipItem (encode_equip (mkEquipPayload weapon)) targetTick f
        | None => f
        end
      else f
  end.

Definition build_move (move : f32 * f32 * bool) (targetTick : Z) (f : frame) : frame :=
  let '(moveX, moveY, sprint) := move in
  if negb (f32_is_zero moveX && f32_is_zero moveY) && (targetTick ≠? 0) && (targetTick ≠? ct_lastMoveTargetTick f.1) then
    match encode_movement (mkMovePayload moveX moveY sprint) with
    | Some payload =>
        let '(c, commands) := push CmdMoveIntent payload targetTick f in (c <| ct_lastMoveTargetTick := targetTick |>, commands)
    | None => f
    end
  else f.

Definition build_aim (aim : option (f32 * f32)) (targetTick : Z) (localPlayer : option PlayerState) (f : frame) : frame :=
  match aim with
  | Some (aimWorldX, aimWorldY) =>
      if (targetTick ≠? 0) && (targetTick ≠? ct_lastAimTargetTick f.1) then
        let '(aimX, aimY) := resolveAimVector aimWorldX aimWorldY localPlayer in
        match encode_aim (mkAimPayload aimX aimY) with
        | Some payload =>
            let '(c, commands) := push CmdAimIntent payload targetTick f in (c <| ct_lastAimTargetTick := targetTick |>, commands)
        | None => f
        end
      else f
  | None => f
  end.

Definition fire_weapon (c : t) (localPlayer : option PlayerState) : ItemType :=
  let weapon :=
    match localPlayer with
    | Some player => if IsSupportedWeapon (ps_EquippedItem player) then ps_EquippedItem player else ct_fireWeapon c
    | None => ct_fireWeapon c
    end in
  if negb (IsSupportedWeapon weapon) then ItemPistol else weapon.

Definition build_fire (edge : bool) (aimWorldX aimWorldY : f32) (targetTick : Z) (localPlayer : option PlayerState) (f : frame) : frame :=
  if edge then
    emit CmdFireWeapon (encode_fire (mkFirePayload (fire_weapon f.1 localPlayer) aimWorldX aimWorldY false)) targetTick f
  else f.

Definition build_interact (edge : bool) (targetTick : Z) (f : frame) : frame :=
  if edge then emit CmdInteract (encode_interact zero_InteractPayload) targetTick f else f.

Definition build_ability (edge : bool) (targetTick : Z) (localPlayer : option PlayerState) (f : frame) : frame :=
  match localPlayer with
  | Some player =>
      if edge then
        let ability := resolveTriggeredAbility player in
        if ability ≠? "" then emit CmdUseAbility (encode_ability (zero_AbilityUsePayload <| ap_Ability := ability |>)) targetTick f
        else f
      else f
  | None => f
  end.

Definition build_reload (edge : bool) (targetTick : Z) (f : frame) : frame :=
  if edge then push CmdReload "" targetTick f else f.

(** Where the player aims; without an aim, where the player stands. *)
Definition aim_at (snapshot : InputSnapshot) (localPlayer : option PlayerState) : bool * f32 * f32 :=
  if in_HasAim snapshot then (true, in_AimWorldX snapshot, in_AimWorldY snapshot)
  else match localPlayer with
  | Some player => (true, vX (ps_Position player), vY (ps_Position player))
  | None => (false, in_AimWorldX snapshot, in_AimWorldY snapshot)
  end.

Definition BuildCommands (snapshot : InputSnapshot) (targetTick : Z) (localPlayer : option PlayerState) (c : t) :
    t * list InputCommand :=
  if ct_playerID c ≟ "" then (c, [])
  else
    let move := resolveMove c snapshot in
    let '(hasAim, aimWorldX, aimWorldY) := aim_at snapshot localPlayer in
    let touched := touchInsideButton c (in_Touches snapshot) in
    let firePressed := in_FirePressed snapshot || touched (ml_FireButton (ct_mobile c)) in
    let interactPressed := in_InteractPressed snapshot || touched (ml_InteractButton (ct_mobile c)) in
    let abilityPressed := in_AbilityPressed snapshot || touched (ml_AbilityButton (ct_mobile c)) in
    let reloadPressed := in_ReloadPressed snapshot || touched (ml_ReloadButton (ct_mobile c)) in
    let f := build_equip (equip_slot c snapshot) targetTick localPlayer (c, []) in
    let f := build_move move targetTick f in
    let f := build_aim (if hasAim : bool then Some (aimWorldX, aimWorldY) else None) targetTick localPlayer f in
    let f := build_fire (edgePressed (ct_prevFirePressed c) firePressed) aimWorldX aimWorldY targetTick localPlayer f in
    let f := build_interact (edgePressed (ct_prevInteractPressed c) interactPressed) targetTick f in
    let f := build_ability (edgePressed (ct_prevAbilityPressed c) abilityPressed) targetTick localPlayer f in
    let '(c, commands) := build_reload (edgePressed (ct_prevReloadPressed c) reloadPressed) targetTick f in
    (c <| ct_prevFirePressed := firePressed |> <| ct_prevInteractPressed := interactPressed |>
       <| ct_prevAbilityPressed := abilityPressed |> <| ct_prevReloadPressed := reloadPressed |>
       <| ct_prevEquipSlot1Pressed := in_EquipSlot1Pressed snapshot |>
       <| ct_prevEquipSlot2Pressed := in_EquipSlot2Pressed snapshot |>
       <| ct_prevEquipSlot3Pressed := in_EquipSlot3Pressed snapshot |>, commands).

(** ** What the panels ask for *)

Definition build_one (known : bool) (commandType : InputCommandType) (payload : option string) (targetTick : Z) (c : t) :
    t * option InputCommand :=
  if (ct_playerID c ≟ "") || negb known then (c, None)
  else match payload with
  | Some text => let '(c, command) := newCommand commandType text targetTick c in (c, Some command)
  | None => (c, None)
  end.

Definition BuildUseAbilityCommand (payload : AbilityUsePayload) (targetTick : Z) (c : t) : t * option InputCommand :=
  build_one (IsKnownAbility (ap_Ability payload)) CmdUseAbility (encode_ability payload) targetTick c.
Definition BuildUseCardCommand (payload : CardUsePayload) (targetTick : Z) (c : t) : t * option InputCommand :=
  build_one (IsKnownCard (cp_Card payload)) CmdUseCard (encode_card payload) targetTick c.
Definition BuildUseItemCommand (payload : ItemUsePayload) (targetTick : Z) (c : t) : t * option InputCommand :=
  build_one (TrimSpace (iu_Item payload) ≠? "") CmdUseItem (encode_item payload) targetTick c.
Definition BuildEquipItemCommand (payload : EquipItemPayload) (targetTick : Z) (c : t) : t * option InputCommand :=
  build_one (IsSupportedWeapon (eq_Item payload)) CmdEquipItem (encode_equip payload) targetTick c.
Definition BuildBlackMarketBuyCommand (payload : BlackMarketPurchasePayload) (targetTick : Z) (c : t) : t * option InputCommand :=
  build_one (bool_decide (is_Some (BlackMarketOfferForItem (bp_Item payload)))) CmdBlackMarketBuy (encode_market payload) targetTick c.
Definition BuildInteractCommand (payload : InteractPayload) (targetTick : Z) (c : t) : t * option InputCommand :=
  build_one (negb ((ip_EscapeRoute payload ≠? "") && negb (IsKnownRoute (ip_EscapeRoute payload))) &&
      negb ((ip_MarketRoomID payload ≠? "") && (TrimSpace (ip_MarketRoomID payload) ≟ "")))
    CmdInteract (encode_interact payload) targetTick c.

(** ** What the player does, in any order *)

Inductive action :=
  | Frame (snapshot : InputSnapshot) (localPlayer : option PlayerState)
  | UseAbility (payload : AbilityUsePayload) | UseCard (payload : CardUsePayload) | UseItem (payload : ItemUsePayload)
  | Equip (payload : EquipItemPayload) | Buy (payload : BlackMarketPurchasePayload) | Interact (payload : InteractPayload).

Definition do_action (a : action) (targetTick : Z) (c : t) : t * list InputCommand :=
  let one (r : t * option InputCommand) := (r.1, option_list r.2) in
  match a with
  | Frame snapshot localPlayer => BuildCommands snapshot targetTick localPlayer c
  | UseAbility payload => one (BuildUseAbilityCommand payload targetTick c)
  | UseCard payload => one (BuildUseCardCommand payload targetTick c)
  | UseItem payload => one (BuildUseItemCommand payload targetTick c)
  | Equip payload => one (BuildEquipItemCommand payload targetTick c)
  | Buy payload => one (BuildBlackMarketBuyCommand payload targetTick c)
  | Interact payload => one (BuildInteractCommand payload targetTick c)
  end.

(** The actions, each with the tick it aims at: the controller, and everything it has built. *)
Fixpoint do_actions (actions : list (action * Z)) (c : t) : t * list InputCommand :=
  match actions with
  | [] => (c, [])
  | (a, targetTick) :: actions =>
      let '(c, commands) := do_action a targetTick c in
      let '(c, more) := do_actions actions c in (c, commands ++ more)
  end.

(** ** What a request leaves alone *)

Lemma build_one_keeps known commandType payload targetTick c :
  let c' := (build_one known commandType payload targetTick c).1 in
  ct_playerID c' = ct_playerID c ∧ ct_prevInteractPressed c' = ct_prevInteractPressed c.
Proof. cbv zeta. unfold build_one. destruct (_ || _); [done|]. by destruct payload. Qed.

(** The stages of a frame add commands at the end, and keep the player. *)
Definition extends (f f' : frame) : Prop := ct_playerID f'.1 = ct_playerID f.1 ∧ ∃ more, f'.2 = f.2 ++ more.
#[export] Instance extends_preorder : PreOrder extends.
Proof.
  split; [intros f; split; [done|]; exists []; by rewrite app_nil_r|]. intros f1 f2 f3 [H1 [l1 E1]] [H2 [l2 E2]].
  split; [congruence|]. exists (l1 ++ l2). by rewrite E2, E1, app_assoc.
Qed.

Lemma push_extends commandType payload targetTick f : extends f (push commandType payload targetTick f).
Proof. split; [done|]. by eexists. Qed.

Lemma emit_extends commandType payload targetTick f : extends f (emit commandType payload targetTick f).
Proof. destruct payload; [apply push_extends|done]. Qed.

Lemma build_equip_extends slot targetTick localPlayer f : extends f (build_equip slot targetTick localPlayer f).
Proof. unfold build_equip. destruct localPlayer; [|done]. destruct (_ <? _); [|done]. destruct (equippableWeaponForSlot _ _); [apply emit_extends|done]. Qed.

Lemma build_move_extends move targetTick f : extends f (build_move move targetTick f).
Proof. unfold build_move. destruct move as [[moveX moveY] sprint]. destruct (_ && _); [|done]. destruct (encode_movement _); [|done]. apply push_extends. Qed.

Lemma build_aim_extends aim targetTick localPlayer f : extends f (build_aim aim targetTick localPlayer f).
Proof.
  unfold build_aim. destruct aim as [[x y]|]; [|done]. destruct (_ && _); [|done]. destruct (resolveAimVector _ _ _).
  destruct (encode_aim _); [|done]. apply push_extends.
Qed.

Lemma build_fire_extends edge x y targetTick localPlayer f : extends f (build_fire edge x y targetTick localPlayer f).
Proof. destruct edge; [apply emit_extends|done]. Qed.

Lemma build_interact_extends edge targetTick f : extends f (build_interact edge targetTick f).
Proof. destruct edge; [apply emit_extends|done]. Qed.

Lemma build_ability_extends edge targetTick localPlayer f : extends f (build_ability edge targetTick localPlayer f).
Proof. unfold build_ability. destruct localPlayer; [|done]. destruct edge; [|done]. cbv zeta. destruct (negb _); [apply emit_extends|done]. Qed.

Lemma build_reload_extends edge targetTick f : extends f (build_reload edge targetTick f).
Proof. destruct edge; [apply push_extends|done]. Qed.

(** The interact key, in a frame: it is remembered, and when it was not down it is sent. *)
Lemma BuildCommands_interact snapshot targetTick localPlayer c : ct_playerID c ≠ "" →
  let pressed := in_InteractPressed snapshot || touchInsideButton c (in_Touches snapshot) (ml_InteractButton (ct_mobile c)) in
  let r := BuildCommands snapshot targetTick localPlayer c in
  ct_playerID r.1 = ct_playerID c ∧ ct_prevInteractPressed r.1 = pressed ∧
  ∀ text, encode_interact zero_InteractPayload = Some text → pressed = true → ct_prevInteractPressed c = false →
    ∃ command, command ∈ r.2 ∧ ic_Type command = CmdInteract ∧ ic_Payload command = text.
Proof.
  intros Hp pressed. unfold BuildCommands. rewrite (bool_decide_false _ Hp). cbv zeta. fold pressed.
  destruct (aim_at snapshot localPlayer) as [[hasAim x] y].
  set (aim := if hasAim then _ else _). set (f1 := build_equip _ _ _ _). set (f2 := build_move _ _ f1). set (f3 := build_aim _ _ _ f2).
  set (f4 := build_fire _ _ _ _ _ f3). set (f5 := build_interact _ _ f4). set (f6 := build_ability _ _ _ f5). set (f7 := build_reload _ _ f6).
  assert (extends (c, []) f4) as [H4 _].
  { etransitivity; [apply build_equip_extends|]. etransitivity; [apply build_move_extends|]. etransitivity; [apply build_aim_extends|apply build_fire_extends]. }
  assert (extends f4 f5) as [H45 _] by apply build_interact_extends.
  assert (extends f5 f7) as [H57 [more Hmore]] by (etransitivity; [apply build_ability_extends|apply build_reload_extends]).
  destruct f7 as [c7 commands]. cbn [fst snd] in *. split_and!; [by rewrite <-H4, <-H45|done|].
  intros text Htext Hpressed Hprev. assert (f5 = push CmdInteract text targetTick f4) as H5.
  { unfold f5, build_interact, edgePressed. by rewrite Hprev, Hpressed, Htext. }
  rewrite Hmore, H5. unfold push. destruct (newCommand CmdInteract text targetTick f4.1) as [c5 command] eqn:Hn.
  injection Hn as _ <-. eexists. split; [apply elem_of_app; left; apply elem_of_app; right; by left|]. done.
Qed.
End building.

(** ** The server takes them

    What the JSON library gives back is what it was given, and no text is empty.  That is so of
    texts in ASCII; a byte that is not UTF-8 would come back as another character. *)

Definition ascii_text (s : string) : bool :=
  forallb (λ c, (Ascii.nat_of_ascii c <? 128)%nat) (String.list_ascii_of_string s).

Definition interact_texts (p : InteractPayload) : list string :=
  [ip_TargetRoomID p; ip_EscapeRoute p; ip_MarketRoomID p; ip_NightCardChoice p; ip_StashAction p; ip_StashItem p].
Definition ability_texts (p : AbilityUsePayload) : list string := [ap_Ability p; ap_TargetPlayerID p; ap_TargetRoomID p].
Definition card_texts (p : CardUsePayload) : list string := [cp_Card p; cp_TargetPlayerID p; cp_TargetItem p].
Definition item_texts (p : ItemUsePayload) : list string := [iu_Item p; iu_TargetPlayerID p; iu_TargetRoomID p].

Class JSONLaws `{PayloadEncoder, PayloadDecoder} : Prop := {
  json_movement p text : encode_movement p = Some text → text ≠ "" ∧ decode_movement text = Some p;
  json_aim p text : encode_aim p = Some text → text ≠ "" ∧ decode_aim text = Some p;
  json_interact p text : forallb ascii_text (interact_texts p) = true →
    encode_interact p = Some text → text ≠ "" ∧ decode_interact text = Some p;
  json_ability p text : forallb ascii_text (ability_texts p) = true →
    encode_ability p = Some text → text ≠ "" ∧ decode_ability text = Some p;
  json_card p text : forallb ascii_text (card_texts p) = true →
    encode_card p = Some text → text ≠ "" ∧ decode_card text = Some p;
  json_item p text : forallb ascii_text (item_texts p) = true →
    encode_item p = Some text → text ≠ "" ∧ decode_item text = Some p;
  json_market p text : ascii_text (bp_Item p) = true → encode_market p = Some text → text ≠ "" ∧ decode_market text = Some p;
  json_fire p text : ascii_text (fw_Weapon p) = true → encode_fire p = Some text → text ≠ "" ∧ decode_fire text = Some p;
  json_equip p text : ascii_text (eq_Item p) = true → encode_equip p = Some text → text ≠ "" ∧ decode_equip text = Some p;
}.

Section accepted.
Context `{Henc : !PayloadEncoder, Hdec : !PayloadDecoder, Hjson : !JSONLaws}.

(** A card played without the door or the player that it needs. *)
Definition untargeted (commandType : InputCommandType) (payload : string) : Prop :=
  commandType = CmdUseCard ∧ ∃ p, decode_card payload = Some p ∧ validateCardUsePayload p = false.

(** The server's checks of a command pass, but for such a card. *)
Definition passes (commandType : InputCommandType) (payload : string) : Prop :=
  validateInputPayload commandType payload = None ∨ untargeted commandType payload.
Definition well_formed (command : InputCommand) : Prop :=
  isSupportedInputCommand (ic_Type command) = true ∧ passes (ic_Type command) (ic_Payload command).

(** The names of the catalogues are in ASCII, and not blank. *)
Lemma named_in (names : list string) name known :
  Forall (λ s, ascii_text s = true ∧ TrimSpace s ≠ "") names → name ∈ names → known name = true →
  ascii_text name = true ∧ named name known = true.
Proof.
  intros Hall Hin Hk. destruct (proj1 (Forall_forall _ _) Hall name Hin) as [Ha Ht]. split; [exact Ha|].
  unfold named. by rewrite bool_decide_false.
Qed.

Lemma weapon_named weapon : IsSupportedWeapon weapon = true → ascii_text weapon = true ∧ named weapon IsSupportedWeapon = true.
Proof.
  intros H. apply (named_in [WeaponBaton; ItemShiv; ItemPistol; ItemHuntingRifle]); [|clear -H|exact H].
  - apply (bool_decide_unpack _). by vm_compute.
  - unfold IsSupportedWeapon in H. rewrite !orb_true_iff, !bool_decide_eq_true in H.
    rewrite list_elem_of_In. cbn. naive_solver.
Qed.

Lemma known_named ability : IsKnownAbility ability = true →
  ascii_text ability = true ∧ named ability IsKnownAbility = true.
Proof.
  intros H. apply (named_in abilityCatalog); [apply (bool_decide_unpack _); by vm_compute|by apply SpecFor_known|exact H].
Qed.
Lemma known_ascii ability : IsKnownAbility ability = true → ascii_text ability = true.
Proof. by intros [H _]%known_named. Qed.

Lemma ability_named p : IsKnownAbility (ap_Ability p) = true →
  named (ap_Ability p) IsKnownAbility && validateAbilityUsePayload p = true.
Proof.
  intros H. destruct (known_named _ H) as [_ Hn]. rewrite Hn. unfold named in Hn. unfold validateAbilityUsePayload.
  by case_bool_decide.
Qed.

Lemma card_named card : IsKnownCard card = true → named card IsKnownCard = true.
Proof.
  intros H. apply (named_in knownCards); [|unfold IsKnownCard in H; by bool_props|exact H].
  apply (bool_decide_unpack _). by vm_compute.
Qed.

Lemma offer_named (item : ItemType) : is_Some (BlackMarketOfferForItem item) →
  ascii_text item = true ∧ named item (λ item, bool_decide (is_Some (BlackMarketOfferForItem item))) = true.
Proof.
  intros H. apply (named_in (map of_Item blackMarketOffers)); [| |by apply bool_decide_true].
  - apply (bool_decide_unpack _). by vm_compute.
  - destruct H as [offer H]. unfold BlackMarketOfferForItem in H.
    apply find_first_Some in H as [Hin Hof]. apply bool_decide_eq_true in Hof. apply list_elem_of_fmap. by exists offer.
Qed.

Lemma triggered_known player : resolveTriggeredAbility player ≠ "" → IsKnownAbility (resolveTriggeredAbility player) = true.
Proof.
  unfold resolveTriggeredAbility. destruct (_ && _) eqn:Ha; [bool_props; done|].
  destruct (find_first _ _) as [ability|] eqn:Hf; [|done]. intros _. cbn.
  apply find_first_Some in Hf. apply SpecFor_known. unfold AbilitiesForPlayer in Hf.
  destruct Hf as [Hf _]. by apply list_elem_of_filter in Hf as [_ Hf].
Qed.

(** ** The numbers and the texts of a frame *)

(** What a frame has built from a controller, in at most [k] commands; they are well formed under
    the condition [full]. *)
Record frame_ok (full : Prop) (c : t) (targetTick : Z) (k : nat) (f : t * list InputCommand) : Prop := mkFrameOk {
  fr_player : ct_playerID f.1 = ct_playerID c;
  fr_count : (length f.2 <= k)%nat;
  fr_next : ct_nextClientSeq f.1 = ct_nextClientSeq c + Z.of_nat (length f.2);
  fr_numbers : map ic_ClientSeq f.2 = map (λ i, ct_nextClientSeq c + 1 + Z.of_nat i) (seq 0 (length f.2));
  fr_commands : Forall (λ command, ic_PlayerID command = ct_playerID c ∧ ic_TargetTick command = targetTick ∧ (full → well_formed command)) f.2;
}.

Lemma frame_more full c targetTick k k' f : frame_ok full c targetTick k f → (k <= k')%nat → frame_ok full c targetTick k' f.
Proof. intros [] H. split; try done. lia. Qed.

Lemma push_full (full : Prop) c targetTick k f commandType payload : 0 <= ct_nextClientSeq c → ct_nextClientSeq c + Z.of_nat k + 1 < 2 ^ 64 →
  frame_ok full c targetTick k f → isSupportedInputCommand commandType = true → (full → passes commandType payload) →
  frame_ok full c targetTick (S k) (push commandType payload targetTick f).
Proof.
  intros H0 Hroom [Hp Hc Hn Hs Hall] Hsup Hval. unfold push, newCommand. cbv zeta.
  set (c1 := f.1 <| ct_nextClientSeq ::= λ n, u64 (n + 1) |>).
  assert (ct_nextClientSeq c1 = ct_nextClientSeq c + Z.of_nat (length f.2) + 1) as Hn1.
  { unfold c1. cbn. rewrite Hn. apply u64_small. unfold is_u64. lia. }
  split; cbn [fst snd]; rewrite ?length_app; cbn [length].
  - exact Hp.
  - lia.
  - rewrite Hn1. lia.
  - rewrite map_app, Hs. rewrite Nat.add_1_r, seq_S, map_app. cbn [map ic_ClientSeq]. rewrite Hn1. do 2 f_equal. lia.
  - apply Forall_app. split; [exact Hall|]. constructor; [|constructor]. split; [exact Hp|]. split; [reflexivity|].
    intros Hfull. split; [exact Hsup|by apply Hval].
Qed.

(** A payload whose text decodes to it, and that the server's check of its type accepts. *)
Ltac validated law :=
  let text := fresh "text" in let He := fresh "He" in let Hne := fresh "Hne" in let Hd := fresh "Hd" in
  intros text He; destruct (law text He) as [Hne Hd]; left; unfold validateInputPayload;
  cbv zeta; rewrite (bool_decide_false _ Hne), Hd; cbn.

Section always.
Context (full : Prop).

Lemma push_ok c targetTick k f commandType payload : 0 <= ct_nextClientSeq c → ct_nextClientSeq c + Z.of_nat k + 1 < 2 ^ 64 →
  frame_ok full c targetTick k f → isSupportedInputCommand commandType = true → passes commandType payload →
  frame_ok full c targetTick (S k) (push commandType payload targetTick f).
Proof. intros. by apply push_full. Qed.

Lemma emit_ok c targetTick k f commandType payload : 0 <= ct_nextClientSeq c → ct_nextClientSeq c + Z.of_nat k + 1 < 2 ^ 64 →
  frame_ok full c targetTick k f → isSupportedInputCommand commandType = true →
  (∀ text, payload = Some text → passes commandType text) →
  frame_ok full c targetTick (S k) (emit commandType payload targetTick f).
Proof.
  intros H0 Hroom Hf Hsup Hval. destruct payload as [text|]; [|cbn; eapply frame_more; [done|lia]].
  cbn. apply push_ok; auto.
Qed.

Lemma ability_valid p text : IsKnownAbility (ap_Ability p) = true → forallb ascii_text (ability_texts p) = true →
  encode_ability p = Some text → passes CmdUseAbility text.
Proof. intros Hk%ability_named Ha. revert text. validated (λ text, json_ability p text Ha). by rewrite Hk. Qed.

Section stages.
Context (c : t) (targetTick : Z) (k : nat) (Hpos : 0 <= ct_nextClientSeq c) (Hroom : ct_nextClientSeq c + Z.of_nat k + 1 < 2 ^ 64).

Lemma slot_weapon player slot weapon : equippableWeaponForSlot player slot = Some weapon → IsSupportedWeapon weapon = true.
Proof.
  unfold equippableWeaponForSlot. destruct (_ <=? _); [done|]. intros H%list_elem_of_lookup_2.
  assert (∀ stacks weapons, Forall (λ w, IsSupportedWeapon w = true) weapons →
    Forall (λ w, IsSupportedWeapon w = true) (foldl add_weapon weapons stacks)) as Hall.
  { intros stacks. induction stacks as [|stack stacks IH]; intros weapons Hw; [done|]. cbn. apply IH.
    unfold add_weapon. destruct (_ || _); [done|]. destruct (IsSupportedWeapon (stk_Item stack)) eqn:Hs; cbn [negb]; [|done].
    case_bool_decide; [done|]. apply Forall_app. split; [done|by constructor]. }
  specialize (Hall (ps_Inventory player) [] (Forall_nil_2 _)). by apply (proj1 (Forall_forall _ _) Hall).
Qed.

Lemma build_equip_ok slot localPlayer f : frame_ok full c targetTick k f →
  frame_ok full c targetTick (S k) (build_equip slot targetTick localPlayer f).
Proof.
  intros Hf. assert (frame_ok full c targetTick (S k) f) as Hf' by (eapply frame_more; [done|lia]).
  unfold build_equip. destruct localPlayer as [player|]; [|done]. destruct (0 <? slot); [|done].
  destruct (equippableWeaponForSlot _ _) as [weapon|] eqn:Hw; [|done]. apply emit_ok; [done|done|done|done|].
  apply slot_weapon, weapon_named in Hw as [Ha Hw]. validated (λ text, json_equip (mkEquipPayload weapon) text Ha). by rewrite Hw.
Qed.

Lemma build_move_ok move f : frame_ok full c targetTick k f → frame_ok full c targetTick (S k) (build_move move targetTick f).
Proof.
  intros Hf. assert (frame_ok full c targetTick (S k) f) as Hf' by (eapply frame_more; [done|lia]).
  unfold build_move. destruct move as [[moveX moveY] sprint]. destruct (_ && _ && _); [|done].
  destruct (encode_movement _) as [payload|] eqn:He; [|done].
  assert (frame_ok full c targetTick (S k) (push CmdMoveIntent payload targetTick f)) as H.
  { apply push_ok; [done|done|done|done|]. revert payload He. validated (json_movement (mkMovePayload moveX moveY sprint)). done. }
  unfold push in *. destruct (newCommand _ _ _ _) as [c1 command]. cbn in H |- *. destruct H. by split.
Qed.

Lemma build_aim_ok aim localPlayer f : frame_ok full c targetTick k f →
  frame_ok full c targetTick (S k) (build_aim aim targetTick localPlayer f).
Proof.
  intros Hf. assert (frame_ok full c targetTick (S k) f) as Hf' by (eapply frame_more; [done|lia]).
  unfold build_aim. destruct aim as [[aimWorldX aimWorldY]|]; [|done]. destruct (_ && _); [|done].
  destruct (resolveAimVector _ _ _) as [aimX aimY]. destruct (encode_aim _) as [payload|] eqn:He; [|done].
  assert (frame_ok full c targetTick (S k) (push CmdAimIntent payload targetTick f)) as H.
  { apply push_ok; [done|done|done|done|]. revert payload He. validated (json_aim (mkAimPayload aimX aimY)). done. }
  unfold push in *. destruct (newCommand _ _ _ _) as [c1 command]. cbn in H |- *. destruct H. by split.
Qed.

Lemma fire_supported c0 localPlayer : IsSupportedWeapon (fire_weapon c0 localPlayer) = true.
Proof. unfold fire_weapon. cbv zeta. by match goal with |- context [negb (IsSupportedWeapon ?w)] => destruct (IsSupportedWeapon w) eqn:Hw end. Qed.

Lemma build_fire_ok edge aimWorldX aimWorldY localPlayer f : frame_ok full c targetTick k f →
  frame_ok full c targetTick (S k) (build_fire edge aimWorldX aimWorldY targetTick localPlayer f).
Proof.
  intros Hf. destruct edge; [|eapply frame_more; [done|lia]]. unfold build_fire. apply emit_ok; [done|done|done|done|].
  generalize (fire_weapon f.1 localPlayer) (weapon_named _ (fire_supported f.1 localPlayer)). intros weapon [Ha Hw].
  validated (λ text, json_fire (mkFirePayload weapon aimWorldX aimWorldY false) text Ha). by rewrite Hw.
Qed.

Lemma build_interact_ok edge f : frame_ok full c targetTick k f → frame_ok full c targetTick (S k) (build_interact edge targetTick f).
Proof.
  intros Hf. destruct edge; [|eapply frame_more; [done|lia]]. unfold build_interact. apply emit_ok; [done|done|done|done|].
  by validated (λ text, json_interact zero_InteractPayload text eq_refl).
Qed.

Lemma build_ability_ok edge localPlayer f : frame_ok full c targetTick k f →
  frame_ok full c targetTick (S k) (build_ability edge targetTick localPlayer f).
Proof.
  intros Hf. assert (frame_ok full c targetTick (S k) f) as Hf' by (eapply frame_more; [done|lia]).
  unfold build_ability. destruct localPlayer as [player|]; [|done]. destruct edge; [|done]. cbv zeta.
  case_bool_decide as Ha; cbn [negb]; [done|]. apply emit_ok; [done|done|done|done|].
  intros text. pose proof (triggered_known player Ha) as Hk. revert Hk. generalize (resolveTriggeredAbility player).
  clear -Hjson. intros ability Hk. pose proof (known_ascii ability Hk) as Ha.
  apply ability_valid; [exact Hk|]. unfold ability_texts. cbn -[ascii_text]. by rewrite Ha.
Qed.

Lemma build_reload_ok edge f : frame_ok full c targetTick k f → frame_ok full c targetTick (S k) (build_reload edge targetTick f).
Proof. intros Hf. destruct edge; [|eapply frame_more; [done|lia]]. apply push_ok; [done..|by left]. Qed.
End stages.

Lemma frame_new c targetTick : frame_ok full c targetTick 0 (c, []).
Proof. split; cbn; try done; lia. Qed.

Lemma BuildCommands_ok c snapshot targetTick localPlayer : 0 <= ct_nextClientSeq c → ct_nextClientSeq c + 8 < 2 ^ 64 →
  frame_ok full c targetTick 7 (BuildCommands snapshot targetTick localPlayer c).
Proof.
  intros H0 Hroom. unfold BuildCommands. case_bool_decide; [eapply frame_more; [apply frame_new|lia]|]. cbv zeta.
  destruct (aim_at snapshot localPlayer) as [[hasAim aimWorldX] aimWorldY].
  set (aim := if hasAim then Some (aimWorldX, aimWorldY) else None).
  pose proof (build_equip_ok c targetTick 0 H0 ltac:(lia) (equip_slot c snapshot) localPlayer _ (frame_new c targetTick)) as H1.
  pose proof (build_move_ok c targetTick 1 H0 ltac:(lia) (resolveMove c snapshot) _ H1) as H2.
  pose proof (build_aim_ok c targetTick 2 H0 ltac:(lia) aim localPlayer _ H2) as H3.
  match goal with |- context [build_fire ?e _ _ _ _ _] =>
    pose proof (build_fire_ok c targetTick 3 H0 ltac:(lia) e aimWorldX aimWorldY localPlayer _ H3) as H4 end.
  match goal with |- context [build_interact ?e _ _] =>
    pose proof (build_interact_ok c targetTick 4 H0 ltac:(lia) e _ H4) as H5 end.
  match goal with |- context [build_ability ?e _ _ _] =>
    pose proof (build_ability_ok c targetTick 5 H0 ltac:(lia) e localPlayer _ H5) as H6 end.
  match goal with |- context [build_reload ?e _ _] =>
    pose proof (build_reload_ok c targetTick 6 H0 ltac:(lia) e _ H6) as H7 end.
  destruct (build_reload _ _ _) as [c1 commands]. destruct H7. by split.
Qed.

End always.

(** The panels fill in what the server checks beyond what the controller does, in ASCII; that a
    card has the target it needs is not among it. *)
Definition complete (a : action) : Prop :=
  match a with
  | UseAbility payload => forallb ascii_text (ability_texts payload) = true
  | UseCard payload => forallb ascii_text (card_texts payload) = true
  | UseItem payload => IsKnownItem (iu_Item payload) = true ∧ forallb ascii_text (item_texts payload) = true
  | Interact payload => valid_interact payload = true ∧ forallb ascii_text (interact_texts payload) = true
  | _ => True
  end.

Lemma build_one_ok (full : Prop) c targetTick known commandType payload : 0 <= ct_nextClientSeq c → ct_nextClientSeq c + 8 < 2 ^ 64 →
  isSupportedInputCommand commandType = true →
  (full → known = true → ∀ text, payload = Some text → passes commandType text) →
  frame_ok full c targetTick 7 ((build_one known commandType payload targetTick c).1,
    option_list (build_one known commandType payload targetTick c).2).
Proof.
  intros H0 Hroom Hsup Hval. unfold build_one.
  destruct (_ || _) eqn:Hk; [eapply frame_more; [apply frame_new|lia]|]. bool_props.
  destruct payload as [text|]; [|eapply frame_more; [apply frame_new|lia]].
  pose proof (push_full full c targetTick 0 (c, []) commandType text H0 ltac:(lia) (frame_new full c targetTick) Hsup
    (λ Hfull, Hval Hfull ltac:(done) text eq_refl)) as Hp.
  unfold push in Hp. cbn [fst snd] in Hp. destruct (newCommand _ _ _ _) as [c1 command]. eapply frame_more; [exact Hp|lia].
Qed.

Lemma do_action_ok c a targetTick : 0 <= ct_nextClientSeq c → ct_nextClientSeq c + 8 < 2 ^ 64 →
  frame_ok (complete a) c targetTick 7 (do_action a targetTick c).
Proof.
  intros H0 Hroom. destruct a; cbn [do_action]; [by apply BuildCommands_ok|..];
    apply build_one_ok; try done; cbn [complete]; intros Hfull Hknown.
  - intros text. by apply ability_valid.
  - destruct (validateCardUsePayload payload) eqn:Hv.
    + validated (λ text, json_card payload text Hfull). by rewrite card_named, Hv.
    + intros text He. right. split; [done|]. exists payload. split; [by apply (json_card payload text Hfull)|exact Hv].
  - destruct Hfull as [Hfull Ha]. validated (λ text, json_item payload text Ha). unfold named. bool_props.
    by rewrite (bool_decide_false _ Hknown), Hfull.
  - destruct (weapon_named _ Hknown) as [Ha Hw]. validated (λ text, json_equip payload text Ha). by rewrite Hw.
  - bool_props. destruct (offer_named _ Hknown) as [Ha Ho]. validated (λ text, json_market payload text Ha).
    unfold named in *. by case_bool_decide; cbn in *; [|rewrite Ho].
  - destruct Hfull as [Hfull Ha]. validated (λ text, json_interact payload text Ha). by rewrite Hfull.
Qed.

(** ** Runs *)

Definition numbers (n : Z) (count : nat) : list Z := map (λ i, n + 1 + Z.of_nat i) (seq 0 count).

Lemma numbers_app n k l : numbers n (k + l) = numbers n k ++ numbers (n + Z.of_nat k) l.
Proof.
  unfold numbers. rewrite seq_app, map_app. f_equal. rewrite Nat.add_0_l. revert k. induction l as [|l IH]; intros k; [done|].
  rewrite seq_S, !map_app. cbn [map]. rewrite seq_S, map_app. cbn [map]. rewrite IH. f_equal. f_equal. lia.
Qed.

Lemma do_actions_app l1 l2 c : do_actions (l1 ++ l2) c =
  let '(c1, commands) := do_actions l1 c in let '(c2, more) := do_actions l2 c1 in (c2, commands ++ more).
Proof.
  revert c. induction l1 as [|[a targetTick] l1 IH]; intros c; cbn [do_actions app]; [by destruct (do_actions l2 c)|].
  destruct (do_action a targetTick c) as [c1 commands]. rewrite IH. destruct (do_actions l1 c1) as [c2 more].
  destruct (do_actions l2 c2) as [c3 rest]. by rewrite app_assoc.
Qed.

Lemma do_actions_ok actions c : 0 <= ct_nextClientSeq c → ct_nextClientSeq c + 8 * Z.of_nat (length actions) < 2 ^ 64 →
  let r := do_actions actions c in
  ct_nextClientSeq r.1 = ct_nextClientSeq c + Z.of_nat (length r.2) ∧
  map ic_ClientSeq r.2 = numbers (ct_nextClientSeq c) (length r.2) ∧
  Forall (λ command, ic_PlayerID command = ct_playerID c ∧ (Forall (λ a, complete a.1) actions → well_formed command)) r.2.
Proof.
  cbv zeta. revert c. induction actions as [|[a targetTick] actions IH]; intros c H0 Hroom.
  { split_and!; [cbn; lia|done|done]. }
  cbn [length] in Hroom. cbn [do_actions].
  pose proof (do_action_ok c a targetTick H0 ltac:(lia)) as [Hp Hc Hn Hs Hcs].
  destruct (do_action a targetTick c) as [c1 commands]. cbn [fst snd] in *.
  destruct (IH c1 ltac:(lia) ltac:(lia)) as (Hn2 & Hs2 & Hcs2).
  destruct (do_actions actions c1) as [c2 more]. cbn [fst snd] in *. rewrite length_app. split_and!.
  - lia.
  - rewrite map_app, Hs2, numbers_app, <-Hn. by rewrite Hs.
  - apply Forall_app. split; (eapply Forall_impl; [eassumption|]).
    + intros command (? & _ & Hw). split; [done|]. by intros [Ha _]%Forall_cons; apply Hw.
    + rewrite Hp. intros command [? Hw]. split; [done|]. intros [_ Hall]%Forall_cons. by apply Hw.
Qed.

(** Nobody builds nothing. *)
Lemma do_actions_nobody actions c : ct_playerID c = "" → (do_actions actions c).2 = [].
Proof.
  revert c. induction actions as [|[a targetTick] actions IH]; intros c Hp; [done|]. cbn [do_actions].
  assert (do_action a targetTick c = (c, [])) as ->.
  { destruct a; cbn [do_action]; unfold BuildCommands, BuildUseAbilityCommand, BuildUseCardCommand, BuildUseItemCommand,
      BuildEquipItemCommand, BuildBlackMarketBuyCommand, BuildInteractCommand, build_one; by rewrite (bool_decide_true _ Hp). }
  specialize (IH c Hp). by destruct (do_actions actions c).
Qed.

Lemma submit_to_session_formed matchID session now playerID command err :
  (submit_to_session matchID session now playerID command).2 = inl err →
  err ≠ ErrInvalidInputCommand ∧ err ≠ ErrInvalidInputPayload.
Proof.
  unfold submit_to_session. case_bool_decide; cbn [negb]; [|intros [= <-]; done]. case_bool_decide; cbn [negb]; [|intros [= <-]; done].
  cbv zeta. case_bool_decide; [intros [= <-]; done|]. destruct (_ <=? _); [intros [= <-]; done|].
  destruct (computeScheduledTick _ _ _) as [err'|tick] eqn:Ht; [|done]. intros [= <-]. revert Ht.
  unfold computeScheduledTick. cbv zeta. repeat match goal with |- (if ?b then _ else _) = _ → _ => destruct b end; intros [=]; subst; done.
Qed.

(** A command that the server refuses as malformed. *)
Definition malformed (err : game_error) : Prop := err = ErrInvalidInputCommand ∨ err = ErrInvalidInputPayload.

Lemma SubmitInput_formed m now matchID command err : well_formed command → TrimSpace (ic_PlayerID command) ≠ "" →
  ic_ClientSeq command ≠ 0 → (SubmitInput m now matchID command).2 = inl err → malformed err →
  untargeted (ic_Type command) (ic_Payload command).
Proof.
  intros [Hsup [Hval|Hcard]] Hp Hseq Hr Hm; [|exact Hcard]. exfalso. revert Hr. unfold SubmitInput. cbv zeta.
  rewrite (bool_decide_false _ Hp), (bool_decide_false _ Hseq), Hsup, Hval. cbn [negb orb].
  rewrite (bool_decide_false (ic_Type command = "")) by (intros Ht; rewrite Ht in Hsup; by vm_compute in Hsup).
  destruct (_ !! _) as [session|]; [|by intros [= <-]; destruct Hm].
  pose proof (submit_to_session_formed matchID session now (TrimSpace (ic_PlayerID command)) command err) as H.
  destruct (submit_to_session _ _ _ _ _) as [session' r]. intros Hr. destruct (H Hr) as [H1 H2]. by destruct Hm.
Qed.

Section formed.
Context (config : ControllerConfig) (actions : list (action * Z))
  (Hseq : 0 <= cf_InitialClientSeq config) (Hroom : cf_InitialClientSeq config + 8 * Z.of_nat (length actions) < 2 ^ 64).

(** The commands from a controller that is new. *)
Lemma built_numbers : let commands := (do_actions actions (NewController config)).2 in
  map ic_ClientSeq commands = numbers (cf_InitialClientSeq config) (length commands).
Proof. apply (do_actions_ok actions (NewController config) Hseq Hroom). Qed.

Lemma built_player command : command ∈ (do_actions actions (NewController config)).2 →
  ic_PlayerID command = TrimSpace (cf_PlayerID config) ∧ (Forall (λ a, complete a.1) actions → well_formed command).
Proof.
  intros Hin. destruct (do_actions_ok actions (NewController config) Hseq Hroom) as (_ & _ & Hall).
  by apply (proj1 (Forall_forall _ _) Hall).
Qed.

Lemma built_formed command : Forall (λ a, complete a.1) actions → command ∈ (do_actions actions (NewController config)).2 →
  ∀ m now matchID err, (SubmitInput m now matchID command).2 = inl err → malformed err →
    untargeted (ic_Type command) (ic_Payload command).
Proof.
  intros Hcomplete Hin m now matchID err. destruct (built_player command Hin) as [Hp Hw].
  apply SubmitInput_formed; [by apply Hw| |].
  - rewrite Hp, TrimSpace_idem. intros He. rewrite do_actions_nobody in Hin by done. by apply not_elem_of_nil in Hin.
  - assert (ic_ClientSeq command ∈ numbers (cf_InitialClientSeq config) (length (do_actions actions (NewController config)).2)) as Hi
      by (rewrite <-built_numbers; by apply (list_elem_of_fmap_2 ic_ClientSeq)).
    unfold numbers in Hi. apply list_elem_of_fmap in Hi as (i & -> & _). lia.
Qed.

End formed.
End accepted.

(** ** At most one move and one aim for a tick *)

Section pace.
Context `{Henc : !PayloadEncoder} (aim : bool).

Definition continuous : InputCommandType := if aim then CmdAimIntent else CmdMoveIntent.
Definition last_target (c : t) : Z := if aim then ct_lastAimTargetTick c else ct_lastMoveTargetTick c.
Definition targets (commands : list InputCommand) : list Z :=
  map ic_TargetTick (filter (λ command, ic_Type command = continuous) commands).

Definition same_pace (f f' : t * list InputCommand) : Prop := targets f'.2 = targets f.2 ∧ last_target f'.1 = last_target f.1.
#[local] Instance same_pace_preorder : PreOrder same_pace.
Proof. split; [by split|]. intros f1 f2 f3 [] []. split; congruence. Qed.

(** Nothing, or one for this tick, which was not the last. *)
Definition one_more (targetTick : Z) (f f' : t * list InputCommand) : Prop :=
  same_pace f f' ∨ targets f'.2 = targets f.2 ++ [targetTick] ∧ last_target f'.1 = targetTick ∧ targetTick ≠ last_target f.1.

Lemma targets_app l1 l2 : targets (l1 ++ l2) = targets l1 ++ targets l2.
Proof. unfold targets. by rewrite filter_app, map_app. Qed.

Lemma push_pace commandType payload targetTick f : commandType ≠ continuous → same_pace f (push commandType payload targetTick f).
Proof.
  intros Hne. unfold push, newCommand. split; cbn [fst snd].
  - rewrite targets_app. unfold targets at 2. rewrite filter_cons_False by done. by rewrite app_nil_r.
  - unfold last_target. by destruct aim.
Qed.

Lemma emit_pace commandType payload targetTick f : commandType ≠ continuous → same_pace f (emit commandType payload targetTick f).
Proof. destruct payload; [apply push_pace|done]. Qed.

Lemma one_more_same targetTick f1 f2 f3 : one_more targetTick f1 f2 → same_pace f2 f3 → one_more targetTick f1 f3.
Proof. intros [H|(H1 & H2 & H3)] Hs; [left; by etransitivity|]. destruct Hs as [Ht Hl]. right. by rewrite Ht, Hl. Qed.
Lemma same_one_more targetTick f1 f2 f3 : same_pace f1 f2 → one_more targetTick f2 f3 → one_more targetTick f1 f3.
Proof. intros Hs [H|(H1 & H2 & H3)]; [left; by etransitivity|]. destruct Hs as [Ht Hl]. right. by rewrite <-Ht, <-Hl. Qed.

(** What the move, or the aim, of a frame adds. *)
Lemma pushed commandType payload targetTick f c' : commandType = continuous → targetTick ≠ last_target f.1 →
  last_target c' = targetTick → one_more targetTick f (c', (push commandType payload targetTick f).2).
Proof.
  intros -> Hne Hl. right. split_and!; [|done|done]. unfold push, newCommand. cbn [fst snd].
  rewrite targets_app. unfold targets at 2. rewrite filter_cons_True by done. done.
Qed.

Lemma build_move_pace move targetTick f : if aim then same_pace f (build_move move targetTick f)
  else one_more targetTick f (build_move move targetTick f).
Proof.
  unfold build_move. destruct move as [[moveX moveY] sprint].
  assert (if aim then same_pace f f else one_more targetTick f f) as Hrefl by (destruct aim; [done|by left]).
  destruct (_ && _ && _) eqn:Hc; [|done]. destruct (encode_movement _) as [payload|]; [|done].
  apply andb_true_iff in Hc as [_ Hc]. bool_props.
  pose proof (push_pace CmdMoveIntent payload targetTick f) as Hother.
  pose proof (pushed CmdMoveIntent payload targetTick f ((push CmdMoveIntent payload targetTick f).1 <| ct_lastMoveTargetTick := targetTick |>)) as Hone.
  unfold continuous, same_pace, last_target in *. destruct (push _ _ _ _) as [c1 commands]. cbn [fst snd] in *.
  destruct aim; [by apply Hother|by apply Hone].
Qed.

Lemma build_aim_pace at_ targetTick localPlayer f : if aim then one_more targetTick f (build_aim at_ targetTick localPlayer f)
  else same_pace f (build_aim at_ targetTick localPlayer f).
Proof.
  unfold build_aim. assert (if aim then one_more targetTick f f else same_pace f f) as Hrefl by (destruct aim; [by left|done]).
  destruct at_ as [[aimWorldX aimWorldY]|]; [|done]. destruct (_ && _) eqn:Hc; [|done]. bool_props.
  destruct (resolveAimVector _ _ _) as [aimX aimY]. destruct (encode_aim _) as [payload|]; [|done].
  pose proof (push_pace CmdAimIntent payload targetTick f) as Hother.
  pose proof (pushed CmdAimIntent payload targetTick f ((push CmdAimIntent payload targetTick f).1 <| ct_lastAimTargetTick := targetTick |>)) as Hone.
  unfold continuous, same_pace, last_target in *. destruct (push _ _ _ _) as [c1 commands]. cbn [fst snd] in *.
  destruct aim; [by apply Hone|by apply Hother].
Qed.

Lemma other_types : CmdEquipItem ≠ continuous ∧ CmdFireWeapon ≠ continuous ∧ CmdInteract ≠ continuous ∧
  CmdUseAbility ≠ continuous ∧ CmdReload ≠ continuous ∧ CmdUseCard ≠ continuous ∧ CmdUseItem ≠ continuous ∧ CmdBlackMarketBuy ≠ continuous.
Proof. unfold continuous. by destruct aim. Qed.

Lemma BuildCommands_pace snapshot targetTick localPlayer c :
  one_more targetTick (c, []) (BuildCommands snapshot targetTick localPlayer c).
Proof.
  destruct other_types as (He & Hf & Hi & Ha & Hr & _).
  unfold BuildCommands. case_bool_decide; [by left|]. cbv zeta.
  destruct (aim_at snapshot localPlayer) as [[hasAim aimWorldX] aimWorldY].
  set (at_ := if hasAim then _ else _). set (f1 := build_equip _ _ _ _). set (f2 := build_move _ _ f1). set (f3 := build_aim _ _ _ f2).
  set (f4 := build_fire _ _ _ _ _ f3). set (f5 := build_interact _ _ f4). set (f6 := build_ability _ _ _ f5). set (f7 := build_reload _ _ f6).
  assert (same_pace (c, []) f1) as H1.
  { unfold f1, build_equip. destruct localPlayer; [|done]. destruct (_ <? _); [|done]. case_match; [by apply emit_pace|done]. }
  assert (one_more targetTick f1 f3) as H3.
  { pose proof (build_move_pace (resolveMove c snapshot) targetTick f1) as Hm.
    pose proof (build_aim_pace at_ targetTick localPlayer f2) as Hat. fold f2 in Hm. fold f3 in Hat.
    destruct aim; [by eapply same_one_more|by eapply one_more_same]. }
  assert (same_pace f3 f7) as H7.
  { transitivity f4; [unfold f4, build_fire; case_match; [by apply emit_pace|done]|].
    transitivity f5; [unfold f5, build_interact; case_match; [by apply emit_pace|done]|].
    transitivity f6; [unfold f6, build_ability; destruct localPlayer; [|done]; case_match; [|done]; cbv zeta;
      case_bool_decide; cbn [negb]; [done|by apply emit_pace]|].
    unfold f7, build_reload. case_match; [by apply push_pace|done]. }
  assert (one_more targetTick (c, []) f7) as Hall by (eapply same_one_more; [exact H1|by eapply one_more_same]).
  destruct f7 as [c7 commands]. unfold one_more, same_pace, last_target in *. cbn [fst snd] in *. exact Hall.
Qed.

Lemma build_one_pace known commandType payload targetTick c : commandType ≠ continuous →
  same_pace (c, []) ((build_one known commandType payload targetTick c).1, option_list (build_one known commandType payload targetTick c).2).
Proof.
  intros Hne. unfold build_one. destruct (_ || _); [done|]. destruct payload as [text|]; [|done].
  pose proof (push_pace commandType text targetTick (c, []) Hne) as H. unfold push in H. cbn [fst snd] in H.
  by destruct (newCommand _ _ _ _).
Qed.

Lemma do_action_pace a targetTick c : one_more targetTick (c, []) (do_action a targetTick c).
Proof.
  destruct other_types as (He & _ & Hi & Ha & _ & Hc & Hu & Hb).
  destruct a; cbn [do_action]; [apply BuildCommands_pace|left; by apply build_one_pace..].
Qed.

Lemma do_actions_pace actions c : Forall (λ a, last_target c <= a.2) actions → StronglySorted Z.le (map snd actions) →
  StronglySorted Z.lt (targets (do_actions actions c).2) ∧ Forall (λ tick, last_target c < tick) (targets (do_actions actions c).2).
Proof.
  revert c. induction actions as [|[a targetTick] actions IH]; intros c Hlast Hsorted; [split; constructor|].
  apply Forall_cons in Hlast as [Hle Hlast]. cbn in Hle. apply StronglySorted_inv in Hsorted as [Hsorted Hticks].
  cbn [do_actions]. pose proof (do_action_pace a targetTick c) as Ha.
  destruct (do_action a targetTick c) as [c1 commands]. unfold one_more, same_pace in Ha. cbn [fst snd] in Ha.
  assert (last_target c <= last_target c1 ∧ last_target c1 <= targetTick ∧
    (targets commands = [] ∨ targets commands = [targetTick] ∧ last_target c < targetTick ∧ last_target c1 = targetTick)) as (Hc1 & Hc2 & Hcs).
  { destruct Ha as [[Ht Hl]|(Ht & Hl & Hne)]; cbn in Ht.
    - split_and!; [lia|lia|left; exact Ht].
    - split_and!; [lia|lia|right; split_and!; [exact Ht|lia|exact Hl]]. }
  destruct (IH c1) as [Hs Hall]; [|exact Hsorted|].
  { apply (proj1 (Forall_fmap _ _ _)) in Hticks. eapply Forall_impl; [exact Hticks|]. cbn. intros x Hx. lia. }
  destruct (do_actions actions c1) as [c2 more]. cbn [fst snd] in *. rewrite targets_app.
  destruct Hcs as [-> |(-> & Hlt & Heq)]; cbn [app].
  - split; [exact Hs|]. eapply Forall_impl; [exact Hall|]. cbn. lia.
  - split.
    + constructor; [exact Hs|]. eapply Forall_impl; [exact Hall|]. cbn. lia.
    + constructor; [exact Hlt|]. eapply Forall_impl; [exact Hall|]. cbn. lia.
Qed.

(** C24: While the tick that the client aims at does not go back, a controller builds at most one
    move, and at most one aim, for a tick, however many frames are drawn in it, and none for
    tick zero. *)
Theorem continuous_paced config actions
    (Hticks : StronglySorted Z.le (map snd actions)) (Hpos : Forall (λ a, 0 <= a.2) actions) :
  StronglySorted Z.lt (0 :: targets (do_actions actions (NewController config)).2).
Proof.
  destruct (do_actions_pace actions (NewController config)) as [H1 H2].
  - unfold last_target. cbn. by destruct aim.
  - exact Hticks.
  - constructor; [exact H1|]. unfold last_target in H2. cbn in H2. by destruct aim.
Qed.
End pace.

(** ** At concrete inputs *)

Section witnesses.

(** The texts of a move, of the interact key, of a card without a target, and of the payloads that
    are an item's name. *)
Definition right_once : MovementInputPayload := mkMovePayload (f32_of_Z 1) f32_zero false.
Definition lock_snap : CardUsePayload := zero_CardUsePayload <| cp_Card := CardLockSnap |>.
Definition encode_name (name : string) : option string := if name ≟ "" then None else Some name.

#[local] Instance demo_encoder : PayloadEncoder := {|
  encode_movement p := if bool_decide (p = right_once) then Some "right" else None;
  encode_interact p := if bool_decide (p = zero_InteractPayload) then Some "{}" else None;
  encode_card p := if bool_decide (p = lock_snap) then Some "snap" else None;
  encode_aim _ := None; encode_ability _ := None; encode_item _ := None; encode_fire _ := None;
  encode_market p := encode_name (bp_Item p);
  encode_equip p := encode_name (eq_Item p);
|}.
#[local] Instance demo_decoder : PayloadDecoder := {|
  decode_movement _ := Some right_once;
  decode_interact _ := Some zero_InteractPayload;
  decode_card _ := Some lock_snap;
  decode_aim _ := None; decode_ability _ := None; decode_item _ := None;
  decode_fire _ := None; decode_craft _ := None; decode_drop _ := None;
  decode_market text := Some (mkMarketPayload text);
  decode_equip text := Some (mkEquipPayload text);
|}.
#[local] Instance demo_laws : JSONLaws.
Proof.
  split; cbn -[right_once lock_snap]; try done.
  - intros p text. case_bool_decide; [intros [= <-]; by subst|done].
  - intros p text _. case_bool_decide; [intros [= <-]; by subst|done].
  - intros p text _. case_bool_decide; [intros [= <-]; by subst|done].
  - intros [name] text _. unfold encode_name. case_bool_decide; [done|by intros [= <-]].
  - intros [name] text _. unfold encode_name. case_bool_decide; [done|by intros [= <-]].
Qed.

(** Two frames of the same tick with the key held, the pistol from a panel, and a third frame. *)
Definition held : InputSnapshot := zero_input <| in_MoveRight := true |>.
Definition demo_config : ControllerConfig := mkConfig " p1 " 0 0 "" (DefaultMobileLayout 800 600) 7.
Definition demo_actions : list (action * Z) :=
  [(Frame held None, 5); (Frame held None, 5); (Equip (mkEquipPayload ItemPistol), 5); (Frame held None, 6)].

Lemma continuous_paced_witness :
  targets false (do_actions demo_actions (NewController demo_config)).2 = [5; 6] ∧
  StronglySorted Z.lt (0 :: targets false (do_actions demo_actions (NewController demo_config)).2).
Proof.
  split; [by vm_compute|]. apply continuous_paced.
  - cbn. repeat constructor; lia.
  - repeat constructor; cbn; lia.
Defined.
End witnesses.

End Controller.
