(* ===== verification/Panels.v ===== *)
(** * The panels of the client

    [internal/client/render/shell_panels.go], and of [shell.go] what the panels use: what a
    panel lists, when it is open, what its keys do, and the commands it asks the [Controller]
    for.  An index out of the range of a list is a panic, which is [None] here.  The drawing is
    not modelled.  The shell and its controller are never nil here; an absent local player is
    [None]. *)

From S2P Require Import Prelude Float32 Model GoStrings Layout Access Items Phase Visibility Escape Cards Abilities Combat Session InputQueue Prematch Controller.

#[local] Open Scope Z_scope.

Module Panels.
Import Controller.

Inductive actionPanelMode :=
  | actionPanelNone | actionPanelInventory | actionPanelCards | actionPanelAbilities | actionPanelMarket
  | actionPanelEscape | actionPanelNightCards | actionPanelStash.
#[export] Instance actionPanelMode_eq_dec : EqDecision actionPanelMode.
Proof. solve_decision. Defined.

Record panelInputEdgeState := mkEdges {
  pe_inventory : bool; pe_cards : bool; pe_abilities : bool; pe_market : bool; pe_escape : bool;
  pe_stash : bool; pe_interact : bool; pe_prev : bool; pe_next : bool; pe_use : bool;
}.

Record actionPanelAvailability := mkAvailability {
  av_inventory : bool; av_cards : bool; av_abilities : bool; av_market : bool; av_escape : bool;
  av_stash : bool; av_nightCards : bool;
}.

(** ** The doors and the effects that a viewer sees *)

Definition doorAdjacentTargetRoom (currentRoomID : RoomID) (door : DoorState) : option RoomID :=
  if currentRoomID ≟ ds_RoomA door then Some (ds_RoomB door)
  else if currentRoomID ≟ ds_RoomB door then Some (ds_RoomA door)
  else None.

Definition cellStateForDoor (cells : list CellState) (doorID : DoorID) : option CellState :=
  if doorID ≟ 0 then None else find_first (λ cell, cs_DoorID cell ≟ doorID) cells.

Definition canViewerTraverseDoor (viewer : PlayerState) (door : DoorState) (mapState : MapState) : bool :=
  if ds_ID door ≟ 0 then false
  else
    let reachable :=
      if ps_CurrentRoomID viewer ≠? "" then
        match doorAdjacentTargetRoom (ps_CurrentRoomID viewer) door with
        | None => false
        | Some targetRoomID => negb ((targetRoomID ≠? "") && negb (CanEnterRoom viewer targetRoomID mapState))
        end
      else CanEnterRoom viewer (ds_RoomA door) mapState || CanEnterRoom viewer (ds_RoomB door) mapState in
    if negb reachable then false
    else match cellStateForDoor (ms_Cells mapState) (ds_ID door) with
    | Some cell => CanOperateCellDoor viewer cell
    | None => true
    end.

Definition projectDoorOpenForViewer (isDoorOpen : bool) (door : DoorState) (viewer : PlayerState) (mapState : MapState) : bool :=
  isDoorOpen && canViewerTraverseDoor viewer door mapState.

Definition effectActiveForPlayer (player : PlayerState) (effect : EffectType) (tickID : Z) : bool :=
  (effect ≠? "") &&
  existsb (λ active, (ef_Effect active ≟ effect) && negb ((ef_EndsTick active ≠? 0) && (ef_EndsTick active <? tickID)))
    (ps_Effects player).

Definition playerIsInvisibleForViewer (target viewer : PlayerState) (tickID : Z) : bool :=
  negb ((ps_ID target ≟ "") || (ps_ID target ≟ ps_ID viewer)) && effectActiveForPlayer target EffectChameleon tickID.

Definition playerByID (players : list PlayerState) (playerID : PlayerID) : option PlayerState :=
  find_first (λ player, ps_ID player ≟ playerID) players.

(** [strings.ReplaceAll(text, "_", " ")]. *)
Fixpoint spaced (text : string) : string :=
  match text with
  | EmptyString => EmptyString
  | String c rest => String (if (Ascii.nat_of_ascii c =? 95)%nat then Ascii.ascii_of_nat 32 else c) (spaced rest)
  end.

Definition roomDisplayLabel (roomID : RoomID) : string :=
  if roomID ≟ RoomCorridorMain then "Main Corridor"
  else if roomID ≟ RoomCellBlockA then "Cell Block A"
  else if roomID ≟ RoomWardenHQ then "Warden HQ"
  else if roomID ≟ RoomCameraRoom then "Camera Room"
  else if roomID ≟ RoomPowerRoom then "Power Room"
  else if roomID ≟ RoomAmmoRoom then "Ammo Room"
  else if roomID ≟ RoomBlackMarket then "Black Market"
  else if roomID ≟ RoomCafeteria then "Cafeteria"
  else if roomID ≟ RoomMailRoom then "Mail Room"
  else if roomID ≟ RoomCourtyard then "Courtyard"
  else if roomID ≟ RoomRoofLookout then "Roof Lookout"
  else spaced roomID.

(** ** What the panels list *)

Definition listed_stack (stack : ItemStack) : bool := negb ((stk_Item stack ≟ "") || (stk_Quantity stack ≟ 0)).

Definition inventoryPanelEntries (player : PlayerState) : list ItemStack :=
  filter (λ stack, listed_stack stack = true) (ps_Inventory player).

Definition cardPanelEntries (player : PlayerState) : list CardType := filter (λ card, card ≠ "") (ps_Cards player).

Definition panel_catalog : list AbilityType :=
  [AbilityAlarm; AbilitySearch; AbilityCameraMan; AbilityDetainer; AbilityTracker; AbilityPickPocket;
   AbilityHacker; AbilityDisguise; AbilityLocksmith; AbilityChameleon].

Definition abilityPanelEntries (player : PlayerState) : list AbilityType :=
  if ps_AssignedAbility player ≠? "" then
    if IsKnownAbility (ps_AssignedAbility player) && CanPlayerUse player (ps_AssignedAbility player)
    then [ps_AssignedAbility player] else []
  else filter (λ ability, CanPlayerUse player ability = true) panel_catalog.

Definition marketPanelEntries : list BlackMarketOffer := blackMarketOffers.

Definition escapePanelEntries (local : PlayerState) (mapState : MapState) : list RouteEvaluation :=
  EvaluateAllRoutes local mapState.

Definition nightCardPanelEntries (player : PlayerState) : list CardType := sort_strings (ps_NightCardChoices player).

Record stashPanelEntry := mkStashEntry { se_Action : string; se_Item : ItemType; se_Count : Z }.

Definition stashForAssignedCell (local : PlayerState) (mapState : MapState) : list ItemStack :=
  if ps_AssignedCell local ≟ 0 then []
  else from_option cs_Stash [] (find_first (λ cell, cs_ID cell ≟ ps_AssignedCell local) (ms_Cells mapState)).

Definition stash_entries (action : string) (stacks : list ItemStack) : list stashPanelEntry :=
  map (λ stack, mkStashEntry action (stk_Item stack) (stk_Quantity stack)) (filter (λ stack, listed_stack stack = true) stacks).

Definition stash_key (entry : stashPanelEntry) : string * (string * Z) := (se_Action entry, (se_Item entry, se_Count entry)).

Definition stashPanelEntries (local : PlayerState) (mapState : MapState) : list stashPanelEntry :=
  if ps_AssignedCell local ≟ 0 then []
  else sort_by (lex_le String.le (lex_le String.le Z.le)) stash_key
    (stash_entries "deposit" (ps_Inventory local) ++ stash_entries "withdraw" (stashForAssignedCell local mapState)).

(** ** Whom, and what, a command aims at *)

Definition distance_sq (position from : Vector2) : f32 :=
  let dx := f32_sub (vX position) (vX from) in
  let dy := f32_sub (vY position) (vY from) in
  f32_add (f32_mul dx dx) (f32_mul dy dy).

Definition elsewhere (local : PlayerState) (roomID : RoomID) : bool :=
  (ps_CurrentRoomID local ≠? "") && (roomID ≠? "") && (roomID ≠? ps_CurrentRoomID local).

(** One round of the loops: the best candidate so far, and its distance. *)
Definition closer {K} `{EqDecision K} (none : K) (local : PlayerState) (best : K * f32) (id : K) (position : Vector2) : K * f32 :=
  let distanceSq := distance_sq position (ps_Position local) in
  if bool_decide (best.1 = none) || f32_ltb distanceSq best.2 then (id, distanceSq) else best.

Definition targetNPCPrisonerForPanel (local : PlayerState) (entities : list EntityState) : EntityID :=
  (foldl (λ best candidate,
    if (es_ID candidate ≟ 0) || (es_Kind candidate ≠? EntityKindNPCPrisoner) || negb (es_Active candidate) then best
    else if elsewhere local (es_RoomID candidate) then best
    else closer 0 local best (es_ID candidate) (es_Position candidate)) (0, f32_zero) entities).1.

Definition targetPlayerForPanel (local : PlayerState) (players : list PlayerState) : PlayerID :=
  (foldl (λ best candidate,
    if (ps_ID candidate ≟ "") || (ps_ID candidate ≟ ps_ID local) || negb (ps_Alive candidate) then best
    else if elsewhere local (ps_CurrentRoomID candidate) then best
    else closer "" local best (ps_ID candidate) (ps_Position candidate)) ("", f32_zero) players).1.

Definition targetDoorForPanel (local : PlayerState) (mapState : MapState) : DoorID :=
  from_option ds_ID 0 (find_first (λ door, canViewerTraverseDoor local door mapState) (ms_Doors mapState)).

Definition abilityPayloadForPanel (ability : AbilityType) (local : PlayerState) (state : GameState) : AbilityUsePayload :=
  let payload := zero_AbilityUsePayload <| ap_Ability := ability |> in
  if bool_decide (ability ∈ [AbilitySearch; AbilityDetainer; AbilityTracker; AbilityPickPocket]) then
    payload <| ap_TargetPlayerID := targetPlayerForPanel local (gs_Players state) |>
  else if ability ≟ AbilityLocksmith then payload <| ap_TargetDoorID := targetDoorForPanel local (gs_Map state) |>
  else payload.

Definition cardPayloadForPanel (card : CardType) (local : PlayerState) (state : GameState) : CardUsePayload :=
  let payload := zero_CardUsePayload <| cp_Card := card |> in
  if bool_decide (card ∈ [CardLockSnap; CardDoorStop]) then
    payload <| cp_TargetDoorID := targetDoorForPanel local (gs_Map state) |>
  else if bool_decide (card ∈ [CardItemSteal; CardItemGrab]) then
    payload <| cp_TargetPlayerID := targetPlayerForPanel local (gs_Players state) |>
  else if card ≟ CardMoney then
    payload <| cp_TargetEntityID := targetNPCPrisonerForPanel local (gs_Entities state) |>
  else payload.

(** ** What a purchase needs *)

Definition countCards (cards : list CardType) (target : CardType) : Z :=
  if target ≟ "" then 0 else Z.of_nat (length (filter (λ card, card = target) cards)).

Definition hasInventoryItem (inventory : list ItemStack) (target : ItemType) : bool :=
  existsb (λ stack, (stk_Item stack ≟ target) && (0 <? stk_Quantity stack)) inventory.

Definition marketOfferUsability (local : PlayerState) (state : GameState) (offer : BlackMarketOffer) : bool * string :=
  let marketRoomID := ms_BlackMarketRoomID (gs_Map state) in
  if negb (ps_Alive local) then (false, "You are down.")
  else if negb (IsPrisonerPlayer local) then (false, "Only prisoners can buy.")
  else if ph_Current (gs_Phase state) ≠? PhaseNight then (false, "Market opens at night.")
  else if marketRoomID ≟ "" then (false, "Market room not set.")
  else if ps_CurrentRoomID local ≠? marketRoomID then (false, "Go to " +:+ marketRoomID +:+ ".")
  else if (of_Item offer ≟ ItemGoldenBullet) && hasInventoryItem (ps_Inventory local) ItemGoldenBullet then
    (false, "You already carry the golden bullet.")
  else if countCards (ps_Cards local) CardMoney <? of_MoneyCardCost offer then
    (false, "Need " +:+ Itoa (of_MoneyCardCost offer) +:+ " money cards.")
  else (true, "Purchase ready.").

Definition canOpenMarketPanel (local : PlayerState) (state : GameState) : bool * string :=
  let marketRoomID := ms_BlackMarketRoomID (gs_Map state) in
  if negb (ps_Alive local) then (false, "You are down.")
  else if negb (IsPrisonerPlayer local) then (false, "Only prisoners can access the black market.")
  else if marketRoomID ≟ "" then (false, "Black-market location is not set this cycle.")
  else if ps_CurrentRoomID local ≠? marketRoomID then
    (false, "Go to " +:+ roomDisplayLabel marketRoomID +:+ " and press Interact (E).")
  else if ph_Current (gs_Phase state) ≠? PhaseNight then (false, "Black market opens at night.")
  else (true, "").

Definition shouldHandleMarketInteract (local : PlayerState) (state : GameState) : bool :=
  let marketRoomID := ms_BlackMarketRoomID (gs_Map state) in
  if negb (IsPrisonerPlayer local) then false
  else if marketRoomID ≟ "" then false
  else (ps_CurrentRoomID local ≠? "") && (ps_CurrentRoomID local ≟ marketRoomID).

Definition marketAccessInstruction (marketRoomID : RoomID) : string :=
  if marketRoomID ≟ "" then "Black-market location is not set."
  else "Go to " +:+ roomDisplayLabel marketRoomID +:+ " at night and press Interact (E) to buy.".

Definition listed {A} (entries : list A) : bool := 0 <? Z.of_nat (length entries).

Definition computeActionPanelAvailability (local : PlayerState) (state : GameState) : actionPanelAvailability :=
  let prisonerAccess := IsPrisonerPlayer local in
  let cellOwner := (ps_AssignedCell local ≠? 0) && (ps_CurrentRoomID local ≟ RoomCellBlockA) in
  mkAvailability (listed (inventoryPanelEntries local)) (listed (cardPanelEntries local)) (listed (abilityPanelEntries local))
    prisonerAccess prisonerAccess cellOwner
    (listed (ps_NightCardChoices local) && (ph_Current (gs_Phase state) ≟ PhaseNight)).

Definition isPanelModeAvailable (mode : actionPanelMode) (availability : actionPanelAvailability) : bool :=
  match mode with
  | actionPanelNone => true
  | actionPanelInventory => av_inventory availability
  | actionPanelCards => av_cards availability
  | actionPanelAbilities => av_abilities availability
  | actionPanelMarket => av_market availability
  | actionPanelEscape => av_escape availability
  | actionPanelNightCards => av_nightCards availability
  | actionPanelStash => av_stash availability
  end.

Definition actionPanelUsesCenteredModal (mode : actionPanelMode) : bool :=
  match mode with
  | actionPanelMarket | actionPanelEscape | actionPanelNightCards | actionPanelStash => true
  | _ => false
  end.

Definition clampPanelIndex (index count : Z) : Z :=
  if count <=? 0 then 0 else if index <? 0 then 0 else if count <=? index then count - 1 else index.

(** The loop and the remainder are those of [Prematch.moved]. *)
Definition wrapPanelIndex (index count delta : Z) : Z :=
  if (count <=? 0) || (delta ≟ 0) then clampPanelIndex index count else Prematch.moved count index delta.

(** ** The shell *)

Record Shell := mkShell {
  sh_controller : Controller.t;
  sh_panelMode : actionPanelMode;
  sh_panelInventoryIdx : Z;
  sh_panelCardsIdx : Z;
  sh_panelAbilitiesIdx : Z;
  sh_panelMarketIdx : Z;
  sh_panelEscapeIdx : Z;
  sh_panelNightCardsIdx : Z;
  sh_panelStashIdx : Z;
  sh_panelInputPrev : panelInputEdgeState;
  sh_panelSuppressGameplay : bool;
  sh_panelSuppressInteract : bool;
  sh_panelLocalHint : string;
  sh_panelLocalHintWarning : bool;
}.
#[export] Instance Shell_eta : RecordEta Shell := λ r,
  mkShell (sh_controller r) (sh_panelMode r) (sh_panelInventoryIdx r) (sh_panelCardsIdx r) (sh_panelAbilitiesIdx r)
    (sh_panelMarketIdx r) (sh_panelEscapeIdx r) (sh_panelNightCardsIdx r) (sh_panelStashIdx r) (sh_panelInputPrev r)
    (sh_panelSuppressGameplay r) (sh_panelSuppressInteract r) (sh_panelLocalHint r) (sh_panelLocalHintWarning r).

Definition no_edges : panelInputEdgeState := mkEdges false false false false false false false false false false.

(** The panels of [NewShell]. *)
Definition closed (controller : Controller.t) : Shell :=
  mkShell controller actionPanelNone 0 0 0 0 0 0 0 no_edges false false "" false.

Definition hint (text : string) (warning : bool) (s : Shell) : Shell :=
  s <| sh_panelLocalHint := text |> <| sh_panelLocalHintWarning := warning |>.

Definition toggleActionPanel (next : actionPanelMode) (s : Shell) : Shell :=
  s <| sh_panelMode := if bool_decide (sh_panelMode s = next) then actionPanelNone else next |>.

(** ** The keys *)

Definition touchInsideRect (touches : list TouchPoint) (rect : Rect) : bool :=
  existsb (λ touch, Contains rect (tp_X touch) (tp_Y touch)) touches.

(** [current], with the interact button of the touch screen. *)
Definition pressed_now (snapshot : InputSnapshot) (s : Shell) : panelInputEdgeState :=
  let mobileLayout := ct_mobile (sh_controller s) in
  let interactPressed := in_InteractPressed snapshot ||
    (ml_Enabled mobileLayout && touchInsideRect (in_Touches snapshot) (ml_InteractButton mobileLayout)) in
  mkEdges (in_PanelInventoryPressed snapshot) (in_PanelCardsPressed snapshot) (in_PanelAbilitiesPressed snapshot)
    (in_PanelMarketPressed snapshot) (in_PanelEscapePressed snapshot) (in_PanelStashPressed snapshot) interactPressed
    (in_PanelPrevPressed snapshot) (in_PanelNextPressed snapshot) (in_PanelUsePressed snapshot).

(** What is pressed now and was not. *)
Definition edges (current previous : panelInputEdgeState) : panelInputEdgeState :=
  let edge (f : panelInputEdgeState → bool) := f current && negb (f previous) in
  mkEdges (edge pe_inventory) (edge pe_cards) (edge pe_abilities) (edge pe_market) (edge pe_escape) (edge pe_stash)
    (edge pe_interact) (edge pe_prev) (edge pe_next) (edge pe_use).

(** A tab that toggles its panel and clears the hint. *)
Definition tab (edge : bool) (mode : actionPanelMode) (s : Shell) : Shell :=
  if edge then hint "" false (toggleActionPanel mode s) else s.

Definition stash_tab (edge available : bool) (s : Shell) : Shell :=
  if edge then
    if available then tab true actionPanelStash s else hint "Go to your cell block to access stash." true s
  else s.

Definition market_tab (edge : bool) (marketRoomID : RoomID) (s : Shell) : Shell :=
  if edge then hint (marketAccessInstruction marketRoomID) true s else s.

Definition escape_tab (edge available : bool) (s : Shell) : Shell :=
  if edge then
    if bool_decide (sh_panelMode s = actionPanelMarket) then s <| sh_panelMode := actionPanelNone |>
    else if available then tab true actionPanelEscape s else s
  else s.

Definition market_interact (edge : bool) (local : PlayerState) (state : GameState) (s : Shell) : Shell :=
  let marketRoomID := ms_BlackMarketRoomID (gs_Map state) in
  if edge && shouldHandleMarketInteract local state then
    let s := s <| sh_panelSuppressInteract := true |> in
    let '(canOpen, reason) := canOpenMarketPanel local state in
    if canOpen then hint "" false (s <| sh_panelMode := actionPanelMarket |>) else hint reason true s
  else if edge && IsPrisonerPlayer local && (ps_CurrentRoomID local ≟ RoomBlackMarket) && (marketRoomID ≠? "") &&
          (marketRoomID ≠? RoomBlackMarket) then
    hint ("Tonight's black market is in " +:+ roomDisplayLabel marketRoomID +:+ ". Go there and press Interact (E).") true s
  else s.

(** Which panel the keys open and close. *)
Definition choose_panel (edge : panelInputEdgeState) (availability : actionPanelAvailability) (local : PlayerState)
    (state : GameState) (s : Shell) : Shell :=
  let s := tab (pe_inventory edge && av_inventory availability) actionPanelInventory s in
  let s := tab (pe_cards edge && av_cards availability) actionPanelCards s in
  let s := tab (pe_abilities edge && av_abilities availability) actionPanelAbilities s in
  let s := stash_tab (pe_stash edge) (av_stash availability) s in
  let s := market_tab (pe_market edge) (ms_BlackMarketRoomID (gs_Map state)) s in
  let s := escape_tab (pe_escape edge) (av_escape availability) s in
  let s := market_interact (pe_interact edge) local state s in
  if av_nightCards availability then s <| sh_panelMode := actionPanelNightCards |> else s.

(** ** The selection *)

(** [prevEdge] and [nextEdge] move the selection of a list of [count]. *)
Definition browse (edge : panelInputEdgeState) (count index : Z) : Z :=
  let index := clampPanelIndex index count in
  let index := if pe_prev edge then wrapPanelIndex index count (-1) else index in
  if pe_next edge then wrapPanelIndex index count 1 else index.

(** [entries[index]]; out of range is a panic. *)
Definition select {A} (entries : list A) (index : Z) : option A :=
  if index <? 0 then None else entries !! Z.to_nat index.

Section commands.
Context `{Henc : !PayloadEncoder}.

(** The shape of every case: an empty list resets its selection; otherwise the selection moves,
    and with the use key the selected entry is used. *)
Definition with_selection {A} (edge : panelInputEdgeState) (entries : list A) (index : Z) (set_index : Z → Shell → Shell)
    (use : A → Shell → Shell * list InputCommand) (s : Shell) : option (Shell * list InputCommand) :=
  let count := Z.of_nat (length entries) in
  if count ≟ 0 then Some (set_index 0 s, [])
  else
    let index := browse edge count index in
    let s := set_index index s in
    if negb (pe_use edge) then Some (s, [])
    else entry ← select entries index; Some (use entry s).

(** A command of the controller, if it built one; the hint says how it went. *)
Definition send (build : Controller.t → Controller.t * option InputCommand) (s : Shell) : Shell * list InputCommand :=
  let '(c, command) := build (sh_controller s) in (s <| sh_controller := c |>, option_list command).

Definition send_hinted (failure : string) (build : Controller.t → Controller.t * option InputCommand) (s : Shell) :
    Shell * list InputCommand :=
  let '(s, commands) := send build s in
  (match commands with [] => hint failure true s | _ => hint "" false s end, commands).

Definition use_item (targetTick : Z) (stack : ItemStack) : Shell → Shell * list InputCommand :=
  send (BuildUseItemCommand (zero_ItemUsePayload <| iu_Item := stk_Item stack |> <| iu_Amount := 1 |>) targetTick).

Definition use_card (local : PlayerState) (state : GameState) (targetTick : Z) (card : CardType) : Shell → Shell * list InputCommand :=
  send (BuildUseCardCommand (cardPayloadForPanel card local state) targetTick).

Definition use_ability (local : PlayerState) (state : GameState) (targetTick : Z) (ability : AbilityType) :
    Shell → Shell * list InputCommand :=
  send (BuildUseAbilityCommand (abilityPayloadForPanel ability local state) targetTick).

Definition use_offer (local : PlayerState) (state : GameState) (targetTick : Z) (offer : BlackMarketOffer) (s : Shell) :
    Shell * list InputCommand :=
  let '(canBuy, reason) := marketOfferUsability local state offer in
  if negb canBuy then (hint reason true s, [])
  else send_hinted "Unable to build market purchase command."
    (BuildBlackMarketBuyCommand (mkMarketPayload (of_Item offer)) targetTick) s.

Definition use_route (targetTick : Z) (selected : RouteEvaluation) (s : Shell) : Shell * list InputCommand :=
  if negb (rv_CanAttempt selected) then
    let reason := if rv_FailureReason selected ≟ "" then rv_RouteLabel selected +:+ " is not ready yet." else rv_FailureReason selected in
    (hint reason true s, [])
  else send_hinted "Unable to build escape command."
    (BuildInteractCommand (zero_InteractPayload <| ip_EscapeRoute := rv_Route selected |>) targetTick) s.

Definition use_choice (targetTick : Z) (card : CardType) : Shell → Shell * list InputCommand :=
  send_hinted "Unable to select night card."
    (BuildInteractCommand (zero_InteractPayload <| ip_NightCardChoice := card |>) targetTick).

Definition use_stash (targetTick : Z) (selected : stashPanelEntry) : Shell → Shell * list InputCommand :=
  send_hinted "Unable to submit stash action."
    (BuildInteractCommand (zero_InteractPayload <| ip_StashAction := se_Action selected |> <| ip_StashItem := se_Item selected |>
       <| ip_StashAmount := 1 |>) targetTick).

(** The [switch] on the panel that is open. *)
Definition run_panel (edge : panelInputEdgeState) (local : PlayerState) (state : GameState) (s : Shell) :
    option (Shell * list InputCommand) :=
  let targetTick := u64 (gs_TickID state + 1) in
  match sh_panelMode s with
  | actionPanelNone => Some (s, [])
  | actionPanelInventory =>
      with_selection edge (inventoryPanelEntries local) (sh_panelInventoryIdx s) (λ i s, s <| sh_panelInventoryIdx := i |>)
        (use_item targetTick) s
  | actionPanelCards =>
      with_selection edge (cardPanelEntries local) (sh_panelCardsIdx s) (λ i s, s <| sh_panelCardsIdx := i |>)
        (use_card local state targetTick) s
  | actionPanelAbilities =>
      with_selection edge (abilityPanelEntries local) (sh_panelAbilitiesIdx s) (λ i s, s <| sh_panelAbilitiesIdx := i |>)
        (use_ability local state targetTick) s
  | actionPanelMarket =>
      with_selection edge marketPanelEntries (sh_panelMarketIdx s) (λ i s, s <| sh_panelMarketIdx := i |>)
        (use_offer local state targetTick) s
  | actionPanelEscape =>
      with_selection edge (escapePanelEntries local (gs_Map state)) (sh_panelEscapeIdx s) (λ i s, s <| sh_panelEscapeIdx := i |>)
        (use_route targetTick) s
  | actionPanelNightCards =>
      with_selection edge (nightCardPanelEntries local) (sh_panelNightCardsIdx s) (λ i s, s <| sh_panelNightCardsIdx := i |>)
        (use_choice targetTick) s
  | actionPanelStash =>
      with_selection edge (stashPanelEntries local (gs_Map state)) (sh_panelStashIdx s) (λ i s, s <| sh_panelStashIdx := i |>)
        (use_stash targetTick) s
  end.

Definition updateActionPanelCommands (snapshot : InputSnapshot) (state : GameState) (localPlayer : option PlayerState) (s : Shell) :
    option (Shell * list InputCommand) :=
  let current := pressed_now snapshot s in
  let edge := edges current (sh_panelInputPrev s) in
  let s := s <| sh_panelInputPrev := current |> in
  match localPlayer with
  | None => Some (hint "" false (s <| sh_panelMode := actionPanelNone |>), [])
  | Some local =>
      let availability := computeActionPanelAvailability local state in
      let s := choose_panel edge availability local state s in
      if negb (isPanelModeAvailable (sh_panelMode s) availability) then Some (s <| sh_panelMode := actionPanelNone |>, [])
      else
        let s := if actionPanelUsesCenteredModal (sh_panelMode s) then s <| sh_panelSuppressGameplay := true |> else s in
        run_panel edge local state s
  end.
End commands.

(** What the panels hide from the controller. *)
Definition filterSnapshotForActionPanels (snapshot : InputSnapshot) (s : Shell) : InputSnapshot :=
  let snapshot := if sh_panelSuppressInteract s then snapshot <| in_InteractPressed := false |> else snapshot in
  if sh_panelSuppressGameplay s || actionPanelUsesCenteredModal (sh_panelMode s) then
    snapshot <| in_MoveUp := false |> <| in_MoveDown := false |> <| in_MoveLeft := false |> <| in_MoveRight := false |>
      <| in_Sprint := false |> <| in_InteractPressed := false |> <| in_AbilityPressed := false |>
      <| in_ReloadPressed := false |> <| in_FirePressed := false |> <| in_Touches := [] |>
  else snapshot.

(** ** The selection is always one of the entries *)

Lemma clamp_range index count : 0 < count → 0 <= clampPanelIndex index count < count.
Proof.
  intros Hc. unfold clampPanelIndex. rewrite (proj2 (Z.leb_gt _ _)) by lia.
  destruct (index <? 0) eqn:H0; bool_props; [lia|]. destruct (count <=? index) eqn:H1; bool_props; lia.
Qed.

Lemma wrap_range index count delta : 0 < count < 2 ^ 63 → 0 <= wrapPanelIndex index count delta < count.
Proof.
  intros Hc. unfold wrapPanelIndex. destruct (_ || _); [apply clamp_range; lia|by apply Prematch.moved_range].
Qed.

Lemma browse_range edge count index : 0 < count < 2 ^ 63 → 0 <= browse edge count index < count.
Proof.
  intros Hc. unfold browse. cbv zeta. destruct (pe_next edge); [by apply wrap_range|].
  destruct (pe_prev edge); [by apply wrap_range|apply clamp_range; lia].
Qed.

Lemma select_in {A} (entries : list A) index : 0 <= index < Z.of_nat (length entries) →
  ∃ entry, select entries index = Some entry ∧ entry ∈ entries.
Proof.
  intros Hi. unfold select. rewrite (proj2 (Z.ltb_ge _ _)) by lia.
  destruct (lookup_lt_is_Some_2 entries (Z.to_nat index)) as [entry He]; [lia|]. exists entry.
  split; [done|by eapply list_elem_of_lookup_2].
Qed.

(** ** What the panels may ask of the controller *)

Section asked.
Context (local : PlayerState) (state : GameState).

(** What a panel may ask of the controller: one of the entries that it shows, and, in the market and
    among the escape routes, one that is ready. *)
Inductive asked : actionPanelMode → action → Prop :=
  | asked_item stack : stack ∈ inventoryPanelEntries local →
      asked actionPanelInventory (UseItem (zero_ItemUsePayload <| iu_Item := stk_Item stack |> <| iu_Amount := 1 |>))
  | asked_card card : card ∈ cardPanelEntries local → asked actionPanelCards (UseCard (cardPayloadForPanel card local state))
  | asked_ability ability : ability ∈ abilityPanelEntries local →
      asked actionPanelAbilities (UseAbility (abilityPayloadForPanel ability local state))
  | asked_offer offer : offer ∈ marketPanelEntries → (marketOfferUsability local state offer).1 = true →
      asked actionPanelMarket (Buy (mkMarketPayload (of_Item offer)))
  | asked_route evaluation : evaluation ∈ escapePanelEntries local (gs_Map state) → rv_CanAttempt evaluation = true →
      asked actionPanelEscape (Interact (zero_InteractPayload <| ip_EscapeRoute := rv_Route evaluation |>))
  | asked_choice card : card ∈ nightCardPanelEntries local →
      asked actionPanelNightCards (Interact (zero_InteractPayload <| ip_NightCardChoice := card |>))
  | asked_stash entry : entry ∈ stashPanelEntries local (gs_Map state) →
      asked actionPanelStash (Interact (zero_InteractPayload <| ip_StashAction := se_Action entry |> <| ip_StashItem := se_Item entry |>
        <| ip_StashAmount := 1 |>)).

(** A state with items and cards of the
    catalogues, and names in ASCII. *)
Record shown : Prop := mkShown {
  sw_inventory : Forall (λ stack, IsKnownItem (stk_Item stack) = true) (ps_Inventory local);
  sw_stash : Forall (λ stack, IsKnownItem (stk_Item stack) = true) (stashForAssignedCell local (gs_Map state));
  sw_cards : Forall (λ card, IsKnownCard card = true) (ps_Cards local);
  sw_choices : Forall (λ card, IsKnownCard card = true) (ps_NightCardChoices local);
  sw_players : Forall (λ player, ascii_text (ps_ID player) = true) (gs_Players state);
}.

(** The target is one of the players, alive and not oneself, or there is none. *)
Lemma target_player players : let id := targetPlayerForPanel local players in
  id = "" ∨ ∃ player, player ∈ players ∧ ps_ID player = id ∧ ps_Alive player = true ∧ id ≠ ps_ID local.
Proof.
  cbv zeta. unfold targetPlayerForPanel.
  assert (∀ best, (best.1 = "" ∨ ∃ player, player ∈ players ∧ ps_ID player = best.1 ∧ ps_Alive player = true ∧ best.1 ≠ ps_ID local) →
    ∀ rest, (∀ player, player ∈ rest → player ∈ players) →
    let r := foldl (λ best candidate,
      if (ps_ID candidate ≟ "") || (ps_ID candidate ≟ ps_ID local) || negb (ps_Alive candidate) then best
      else if elsewhere local (ps_CurrentRoomID candidate) then best
      else closer "" local best (ps_ID candidate) (ps_Position candidate)) best rest in
    r.1 = "" ∨ ∃ player, player ∈ players ∧ ps_ID player = r.1 ∧ ps_Alive player = true ∧ r.1 ≠ ps_ID local) as H.
  { intros best Hbest rest. revert best Hbest. induction rest as [|candidate rest IH]; intros best Hbest Hin; [exact Hbest|].
    cbn [foldl]. apply IH; [|intros player Hp; apply Hin; by right].
    destruct (_ || _) eqn:Hc; [exact Hbest|]. bool_props. destruct (elsewhere _ _); [exact Hbest|].
    unfold closer. destruct (_ || _); [|exact Hbest]. right. exists candidate. cbn. split_and!; [apply Hin; by left|done..]. }
  apply (H ("", f32_zero)); [by left|done].
Qed.

Lemma target_ascii : shown → ascii_text (targetPlayerForPanel local (gs_Players state)) = true.
Proof.
  intros [_ _ _ _ Hp]. destruct (target_player (gs_Players state)) as [-> |(player & Hin & <- & _)]; [done|].
  by apply (proj1 (Forall_forall _ _) Hp).
Qed.
End asked.

(** ** The requests are complete *)

Lemma item_ascii item : IsKnownItem item = true → ascii_text item = true.
Proof.
  intros H. unfold IsKnownItem in H. bool_props.
  assert (Forall (λ item, ascii_text item = true) knownItems) as Hall by (apply (bool_decide_unpack _); by vm_compute).
  by apply (proj1 (Forall_forall _ _) Hall).
Qed.

Lemma card_ascii card : IsKnownCard card = true → ascii_text card = true.
Proof.
  intros H. unfold IsKnownCard in H. bool_props.
  assert (Forall (λ card, ascii_text card = true) knownCards) as Hall by (apply (bool_decide_unpack _); by vm_compute).
  by apply (proj1 (Forall_forall _ _) Hall).
Qed.

Lemma usable_known player ability : CanPlayerUse player ability = true → IsKnownAbility ability = true.
Proof. unfold CanPlayerUse, IsKnownAbility. intros H. apply bool_decide_true. by destruct (SpecFor ability). Qed.

Lemma ability_entry player ability : ability ∈ abilityPanelEntries player →
  IsKnownAbility ability = true ∧ CanPlayerUse player ability = true.
Proof.
  unfold abilityPanelEntries. case_bool_decide; cbn [negb].
  - intros [Hu _]%list_elem_of_filter. split; [by eapply usable_known|exact Hu].
  - destruct (_ && _) eqn:H'; [|by intros ?%not_elem_of_nil]. bool_props. by intros ->%list_elem_of_singleton.
Qed.

Lemma stash_entry_known local mapState entry :
  Forall (λ stack, IsKnownItem (stk_Item stack) = true) (ps_Inventory local) →
  Forall (λ stack, IsKnownItem (stk_Item stack) = true) (stashForAssignedCell local mapState) →
  entry ∈ stashPanelEntries local mapState →
  (se_Action entry = "deposit" ∨ se_Action entry = "withdraw") ∧ IsKnownItem (se_Item entry) = true.
Proof.
  intros Hi Hs. unfold stashPanelEntries. case_bool_decide; [by intros ?%not_elem_of_nil|].
  rewrite (elem_of_sort_by (lex_le String.le (lex_le String.le Z.le)) stash_key), elem_of_app. unfold stash_entries.
  rewrite !list_elem_of_fmap. intros [(stack & -> & [_ Hin]%list_elem_of_filter)|(stack & -> & [_ Hin]%list_elem_of_filter)]; cbn.
  - split; [by left|]. by apply (proj1 (Forall_forall _ _) Hi).
  - split; [by right|]. by apply (proj1 (Forall_forall _ _) Hs).
Qed.

Lemma route_entry local mapState evaluation : evaluation ∈ escapePanelEntries local mapState → rv_Route evaluation ∈ KnownRoutes.
Proof.
  unfold escapePanelEntries, EvaluateAllRoutes. intros (route & -> & Hin)%list_elem_of_fmap.
  unfold EvaluateRoute. destruct (negb _); [exact Hin|]. by destruct (find_first _ _).
Qed.

Lemma asked_complete local state mode a : shown local state → asked local state mode a → complete a.
Proof.
  intros Hs Ha. pose proof Hs as [Hinv Hstash Hcards Hchoices _]. pose proof (target_ascii _ _ Hs) as Ht.
  destruct Ha as [stack Hin|card Hin|ability Hin|offer _ _|evaluation Hin _|card Hin|entry Hin]; cbn -[ascii_text].
  - apply list_elem_of_filter in Hin as [_ Hin]. pose proof (proj1 (Forall_forall _ _) Hinv _ Hin) as Hk. cbn in Hk.
    split; [exact Hk|]. by rewrite (item_ascii _ Hk).
  - apply list_elem_of_filter in Hin as [_ Hin]. pose proof (proj1 (Forall_forall _ _) Hcards _ Hin) as Hk. cbn in Hk.
    pose proof (card_ascii _ Hk) as Hc. revert Ht. unfold cardPayloadForPanel. generalize (targetPlayerForPanel local (gs_Players state)).
    intros id Ht. repeat case_bool_decide; cbn -[ascii_text]; by rewrite Hc, ?Ht.
  - apply ability_entry in Hin as [Hk _]. pose proof (known_ascii _ Hk) as Hc. revert Ht. unfold abilityPayloadForPanel.
    generalize (targetPlayerForPanel local (gs_Players state)). intros id Ht.
    repeat case_bool_decide; cbn -[ascii_text]; by rewrite Hc, ?Ht.
  - done.
  - apply route_entry in Hin. revert Hin. generalize (rv_Route evaluation). clear. intros route Hin.
    assert (Forall (λ route, complete (Interact (zero_InteractPayload <| ip_EscapeRoute := route |>))) KnownRoutes) as Hall
      by (repeat constructor).
    by apply (proj1 (Forall_forall _ _) Hall).
  - unfold nightCardPanelEntries in Hin. apply (proj1 (elem_of_sort_by String.le id _ _)) in Hin.
    pose proof (proj1 (Forall_forall _ _) Hchoices _ Hin) as Hk. cbn in Hk. rewrite (card_ascii _ Hk). split; [|done].
    unfold valid_interact. cbn. rewrite Hk. by rewrite andb_false_r.
  - destruct (stash_entry_known _ _ _ Hinv Hstash Hin) as [Hact Hk]. rewrite (item_ascii _ Hk).
    assert (se_Item entry ≠ "") as Hne by (intros He; rewrite He in Hk; by vm_compute in Hk).
    split; [|by destruct Hact as [-> | ->]]. unfold valid_interact. cbn.
    rewrite Hk, (bool_decide_false _ Hne). by destruct Hact as [-> | ->].
Qed.

(** ** The panels ask for at most one thing, and never panic *)

(** Slices have a length that is an [int]. *)
Record fits (local : PlayerState) (state : GameState) : Prop := mkFits {
  ft_inventory : Z.of_nat (length (ps_Inventory local)) < 2 ^ 62;
  ft_stash : Z.of_nat (length (stashForAssignedCell local (gs_Map state))) < 2 ^ 62;
  ft_cards : Z.of_nat (length (ps_Cards local)) < 2 ^ 62;
  ft_choices : Z.of_nat (length (ps_NightCardChoices local)) < 2 ^ 62;
}.

Section step.
Context `{Henc : !PayloadEncoder} (local : PlayerState) (state : GameState) (targetTick : Z).

(** The controller and the commands are those of at most one request of the panel that is open. *)
Definition one_request (s : Shell) (r : Shell * list InputCommand) : Prop :=
  sh_panelMode r.1 = sh_panelMode s ∧
  (sh_controller r.1 = sh_controller s ∧ r.2 = [] ∨
   ∃ a, asked local state (sh_panelMode s) a ∧ do_action a targetTick (sh_controller s) = (sh_controller r.1, r.2)).

Lemma send_request a build s : asked local state (sh_panelMode s) a →
  do_action a targetTick (sh_controller s) = ((build (sh_controller s)).1, option_list (build (sh_controller s)).2) →
  one_request s (send build s).
Proof.
  intros Ha Hb. unfold send. destruct (build _) as [c command]. split; [done|]. right. exists a. split; [done|]. exact Hb.
Qed.

Lemma send_hinted_request a failure build s : asked local state (sh_panelMode s) a →
  do_action a targetTick (sh_controller s) = ((build (sh_controller s)).1, option_list (build (sh_controller s)).2) →
  one_request s (send_hinted failure build s).
Proof.
  intros Ha Hb. unfold send_hinted. pose proof (send_request a build s Ha Hb) as [Hm Hs].
  destruct (send build s) as [s' commands]. cbn [fst snd] in *. by destruct commands.
Qed.

Lemma with_selection_request {A} edge (entries : list A) index set_index use s r :
  (∀ i s, sh_panelMode (set_index i s) = sh_panelMode s ∧ sh_controller (set_index i s) = sh_controller s) →
  (∀ entry s', sh_panelMode s' = sh_panelMode s → entry ∈ entries → one_request s' (use entry s')) →
  with_selection edge entries index set_index use s = Some r → one_request s r.
Proof.
  intros Hset Huse. unfold with_selection. case_bool_decide as H0.
  { intros [= <-]. destruct (Hset 0 s) as [Hm Hc]. split; [exact Hm|]. by left. }
  set (i := browse _ _ _). destruct (Hset i s) as [Hm Hc]. destruct (pe_use edge); cbn [negb].
  - unfold select. destruct (i <? 0); [done|]. destruct (entries !! Z.to_nat i) as [entry|] eqn:He; [|done].
    intros [= <-]. apply list_elem_of_lookup_2 in He. destruct (Huse entry (set_index i s) Hm He) as [Hm' Hr].
    rewrite Hm in Hm', Hr. rewrite Hc in Hr. by split.
  - intros [= <-]. split; [exact Hm|]. by left.
Qed.

Lemma with_selection_total {A} edge (entries : list A) index set_index (use : A → Shell → Shell * list InputCommand) s :
  Z.of_nat (length entries) < 2 ^ 63 → is_Some (with_selection edge entries index set_index use s).
Proof.
  intros Hlen. unfold with_selection. case_bool_decide; [by eexists|]. destruct (pe_use edge); cbn [negb]; [|by eexists].
  destruct (select_in entries (browse edge (Z.of_nat (length entries)) index)) as (entry & -> & _); [apply browse_range; lia|by eexists].
Qed.
End step.

Section panels.
Context `{Henc : !PayloadEncoder} (local : PlayerState) (state : GameState).

Lemma use_item_ok targetTick stack s : sh_panelMode s = actionPanelInventory → stack ∈ inventoryPanelEntries local →
  one_request local state targetTick s (use_item targetTick stack s).
Proof. intros Hm Hin. by eapply send_request; [rewrite Hm; by apply asked_item|]. Qed.

Lemma use_card_ok targetTick card s : sh_panelMode s = actionPanelCards → card ∈ cardPanelEntries local →
  one_request local state targetTick s (use_card local state targetTick card s).
Proof. intros Hm Hin. by eapply send_request; [rewrite Hm; by apply asked_card|]. Qed.

Lemma use_ability_ok targetTick ability s : sh_panelMode s = actionPanelAbilities → ability ∈ abilityPanelEntries local →
  one_request local state targetTick s (use_ability local state targetTick ability s).
Proof. intros Hm Hin. by eapply send_request; [rewrite Hm; by apply asked_ability|]. Qed.

Lemma use_offer_ok targetTick offer s : sh_panelMode s = actionPanelMarket → offer ∈ marketPanelEntries →
  one_request local state targetTick s (use_offer local state targetTick offer s).
Proof.
  intros Hm Hin. unfold use_offer. destruct (marketOfferUsability local state offer) as [canBuy reason] eqn:Hu.
  destruct canBuy; cbn [negb]; [|by split; [|left]]. eapply send_hinted_request; [rewrite Hm; apply asked_offer; [exact Hin|by rewrite Hu]|reflexivity].
Qed.

Lemma use_route_ok targetTick selected s : sh_panelMode s = actionPanelEscape → selected ∈ escapePanelEntries local (gs_Map state) →
  one_request local state targetTick s (use_route targetTick selected s).
Proof.
  intros Hm Hin. unfold use_route. destruct (rv_CanAttempt selected) eqn:Hc; cbn [negb]; [|by split; [|left]].
  eapply send_hinted_request; [rewrite Hm; apply asked_route; [exact Hin|exact Hc]|reflexivity].
Qed.

Lemma use_choice_ok targetTick card s : sh_panelMode s = actionPanelNightCards → card ∈ nightCardPanelEntries local →
  one_request local state targetTick s (use_choice targetTick card s).
Proof. intros Hm Hin. eapply send_hinted_request; [rewrite Hm; apply asked_choice, Hin|reflexivity]. Qed.

Lemma use_stash_ok targetTick entry s : sh_panelMode s = actionPanelStash → entry ∈ stashPanelEntries local (gs_Map state) →
  one_request local state targetTick s (use_stash targetTick entry s).
Proof. intros Hm Hin. eapply send_hinted_request; [rewrite Hm; apply asked_stash, Hin|reflexivity]. Qed.

Lemma stash_entries_length : fits local state → Z.of_nat (length (stashPanelEntries local (gs_Map state))) < 2 ^ 63.
Proof.
  intros [Hi Hs _ _]. unfold stashPanelEntries. case_bool_decide; [done|].
  rewrite (length_sort_by (lex_le String.le (lex_le String.le Z.le))), length_app. unfold stash_entries. rewrite !length_map.
  pose proof (length_filter (λ stack, listed_stack stack = true) (ps_Inventory local)).
  pose proof (length_filter (λ stack, listed_stack stack = true) (stashForAssignedCell local (gs_Map state))). lia.
Qed.

Lemma run_panel_request edge s r :
  run_panel edge local state s = Some r → one_request local state (u64 (gs_TickID state + 1)) s r.
Proof.
  unfold run_panel. cbv zeta. destruct (sh_panelMode s) eqn:Hm; [intros [= <-]; split; [done|by left]|..];
    apply with_selection_request; try done; intros entry s' Hs'; rewrite Hm in Hs'.
  - by apply use_item_ok.
  - by apply use_card_ok.
  - by apply use_ability_ok.
  - by apply use_offer_ok.
  - by apply use_route_ok.
  - by apply use_choice_ok.
  - by apply use_stash_ok.
Qed.

Lemma run_panel_total edge s : fits local state → is_Some (run_panel edge local state s).
Proof.
  intros Hf. pose proof Hf as [Hi _ Hc Hn]. unfold run_panel. cbv zeta.
  destruct (sh_panelMode s); [by eexists|..]; apply with_selection_total; try done.
  - unfold inventoryPanelEntries. pose proof (length_filter (λ stack, listed_stack stack = true) (ps_Inventory local)). lia.
  - unfold cardPanelEntries. pose proof (length_filter (λ card, card ≠ "") (ps_Cards local)). lia.
  - unfold abilityPanelEntries. repeat case_match; cbn; try lia.
    pose proof (length_filter (λ ability, CanPlayerUse local ability = true) panel_catalog). cbn in *. lia.
  - unfold nightCardPanelEntries. rewrite (length_sort_by String.le id). lia.
  - by apply stash_entries_length.
Qed.

(** What the keys that choose a panel leave alone: all but the mode, the hint, and, when the
    interact key is pressed, its suppression. *)
Section reads.
Context {T : Type} (read : Shell → T) (edge : panelInputEdgeState).
Context (Hmode : ∀ mode s, read (s <| sh_panelMode := mode |>) = read s) (Hhint : ∀ text warning s, read (hint text warning s) = read s)
  (Hsuppress : pe_interact edge = true → ∀ s, read (s <| sh_panelSuppressInteract := true |>) = read s).

Lemma tab_reads b mode s : read (tab b mode s) = read s.
Proof. destruct b; [|done]. unfold tab, toggleActionPanel. by rewrite Hhint, Hmode. Qed.

Lemma market_interact_reads s : read (market_interact (pe_interact edge) local state s) = read s.
Proof.
  unfold market_interact. cbv zeta. destruct (pe_interact edge) eqn:He; [|done]. cbn [andb].
  destruct (canOpenMarketPanel _ _) as [canOpen reason]. destruct (shouldHandleMarketInteract _ _).
  - destruct canOpen; rewrite Hhint, ?Hmode; by apply Hsuppress.
  - destruct (_ && _); [apply Hhint|done].
Qed.

Lemma choose_panel_reads availability s : read (choose_panel edge availability local state s) = read s.
Proof.
  unfold choose_panel. cbv zeta. set (s3 := tab _ _ _). set (s4 := stash_tab _ _ s3). set (s5 := market_tab _ _ s4). set (s6 := escape_tab _ _ s5).
  assert (read s3 = read s) as H3 by (unfold s3; by rewrite !tab_reads).
  assert (read s4 = read s3) as H4.
  { unfold s4, stash_tab. destruct (pe_stash edge); [|done]. destruct (av_stash availability); [apply tab_reads|apply Hhint]. }
  assert (read s5 = read s4) as H5 by (unfold s5, market_tab; destruct (pe_market edge); [apply Hhint|done]).
  assert (read s6 = read s5) as H6.
  { unfold s6, escape_tab. destruct (pe_escape edge); [|done]. case_bool_decide; [apply Hmode|]. destruct (av_escape availability); [apply tab_reads|done]. }
  assert (read (market_interact (pe_interact edge) local state s6) = read s) as H7 by (rewrite market_interact_reads; congruence).
  destruct (av_nightCards availability); [by rewrite Hmode|exact H7].
Qed.
End reads.
End panels.

Section outcome.
Context `{Henc : !PayloadEncoder} (snapshot : InputSnapshot) (state : GameState).

(** What a frame of the panels comes to. *)
Record panels_done (localPlayer : option PlayerState) (s s' : Shell) (commands : list InputCommand) : Prop := mkDone {
  (** Without a player no panel is open; with one, only a panel that is available. *)
  pd_mode : match localPlayer with
            | None => sh_panelMode s' = actionPanelNone
            | Some local => isPanelModeAvailable (sh_panelMode s') (computeActionPanelAvailability local state) = true
            end;
  (** At most one request, of the panel that is open, is made of the controller. *)
  pd_request : sh_controller s' = sh_controller s ∧ commands = [] ∨
    ∃ local a, localPlayer = Some local ∧ asked local state (sh_panelMode s') a ∧
      do_action a (u64 (gs_TickID state + 1)) (sh_controller s) = (sh_controller s', commands);
}.

(** What [updateActionPanelCommands] does once a panel is chosen. *)
Lemma update_chosen local s : let previous := sh_panelInputPrev s in
  let current := pressed_now snapshot s in
  let s1 := s <| sh_panelInputPrev := current |> in
  let availability := computeActionPanelAvailability local state in
  let edge := edges current previous in
  ∃ s2, sh_controller s2 = sh_controller s ∧
    (isPanelModeAvailable (sh_panelMode s2) availability = false ∧
       updateActionPanelCommands snapshot state (Some local) s = Some (s2 <| sh_panelMode := actionPanelNone |>, []) ∨
     isPanelModeAvailable (sh_panelMode s2) availability = true ∧
       updateActionPanelCommands snapshot state (Some local) s = run_panel edge local state s2).
Proof.
  cbv zeta. unfold updateActionPanelCommands. cbv zeta.
  set (edge := edges _ _). set (s1 := s <| sh_panelInputPrev := _ |>). set (availability := computeActionPanelAvailability local state).
  pose proof (choose_panel_reads local state sh_controller edge ltac:(done) ltac:(done) ltac:(done) availability s1) as Hc.
  change (sh_controller s1) with (sh_controller s) in Hc. set (s2 := choose_panel _ _ _ _ s1) in *.
  destruct (isPanelModeAvailable (sh_panelMode s2) availability) eqn:Hav; cbn [negb].
  - exists (if actionPanelUsesCenteredModal (sh_panelMode s2) then s2 <| sh_panelSuppressGameplay := true |> else s2).
    destruct (actionPanelUsesCenteredModal (sh_panelMode s2)); (split; [exact Hc|]); right; by split.
  - exists s2. split; [exact Hc|]. by left.
Qed.

Lemma update_done localPlayer s s' commands :
  updateActionPanelCommands snapshot state localPlayer s = Some (s', commands) → panels_done localPlayer s s' commands.
Proof.
  destruct localPlayer as [local|]; [|intros [= <- <-]; split; [done|by left]].
  destruct (update_chosen local s) as (s2 & Hc & [[_ ->]|[Hav ->]]).
  - intros [= <- <-]. split; [done|]. by left.
  - intros [Hm Hr]%run_panel_request. cbn [fst snd] in *. rewrite <-Hm in Hav, Hr. rewrite Hc in Hr. split; [exact Hav|].
    destruct Hr as [Hr|(a & Ha & Hdo)]; [by left|]. right. by exists local, a.
Qed.

Lemma update_total localPlayer s : (∀ local, localPlayer = Some local → fits local state) →
  is_Some (updateActionPanelCommands snapshot state localPlayer s).
Proof.
  intros Hf. destruct localPlayer as [local|]; [|by eexists].
  destruct (update_chosen local s) as (s2 & _ & [[_ ->]|[_ ->]]); [by eexists|]. by apply run_panel_total, Hf.
Qed.
End outcome.

(** ** A card without its target

    The server takes a card that needs a door, or a player, for a malformed command when it is
    played without; the panel plays it all the same when there is none near. *)

Section untargeted.
Context `{Henc : !PayloadEncoder, Hdec : !PayloadDecoder, Hjson : !JSONLaws}.

(** C26: With the panel on a card that needs a door, and no door in reach, the use key sends a
    command, and the server, in whatever state it is, refuses it as malformed. *)
Theorem doorless_card_refused local state targetTick card text s
    (Hcard : card = CardLockSnap ∨ card = CardDoorStop) (Hdoor : targetDoorForPanel local (gs_Map state) = 0)
    (Hplayer : TrimSpace (ct_playerID (sh_controller s)) ≠ "")
    (Hseq : 0 <= ct_nextClientSeq (sh_controller s) < 2 ^ 64 - 1)
    (Htext : encode_card (cardPayloadForPanel card local state) = Some text) :
  ∃ command, (use_card local state targetTick card s).2 = [command] ∧
    ∀ m now matchID, SubmitInput m now matchID command = (m, inl ErrInvalidInputPayload).
Proof.
  set (payload := zero_CardUsePayload <| cp_Card := card |>).
  assert (cardPayloadForPanel card local state = payload ∧ IsKnownCard card = true ∧
    forallb ascii_text (card_texts payload) = true ∧ validateCardUsePayload payload = false) as (Hp & Hk & Ha & Hv).
  { unfold cardPayloadForPanel. rewrite Hdoor. unfold payload. by destruct Hcard as [-> | ->]. }
  rewrite Hp in Htext. destruct (json_card payload text Ha Htext) as [Hne Hd].
  assert (ct_playerID (sh_controller s) ≠ "") as Hid by (by intros He; rewrite He in Hplayer).
  unfold use_card, send, BuildUseCardCommand, build_one. rewrite Hp.
  change (IsKnownCard (cp_Card payload)) with (IsKnownCard card). rewrite Hk, (bool_decide_false _ Hid). cbn [orb negb]. rewrite Htext.
  eexists. split; [reflexivity|]. intros m now matchID. unfold SubmitInput. cbn [ic_PlayerID ic_ClientSeq ic_Type ic_Payload].
  cbv zeta. rewrite (bool_decide_false _ Hplayer).
  assert (u64 (ct_nextClientSeq (sh_controller s) + 1) ≠ 0) as Hn by (rewrite u64_small; unfold is_u64; lia).
  rewrite (bool_decide_false (_ = 0)) by exact Hn. cbn [orb].
  change (bool_decide (CmdUseCard = "")) with false. change (isSupportedInputCommand CmdUseCard) with true. cbn [negb].
  assert (validateInputPayload CmdUseCard text = Some ErrInvalidInputPayload) as ->; [|reflexivity].
  unfold validateInputPayload. cbv zeta. rewrite (bool_decide_false _ Hne), Hd. cbn -[validateCardUsePayload]. rewrite Hv.
  by rewrite andb_false_r.
Qed.
End untargeted.

(** ** At a concrete input *)

Section witnesses.
#[local] Existing Instance Controller.demo_encoder.
#[local] Existing Instance Controller.demo_decoder.
#[local] Existing Instance Controller.demo_laws.

Definition demo_panels : Shell := closed (NewController demo_config).

Example label_of_unknown : roomDisplayLabel "east_wing" = "east wing".
Proof. reflexivity. Qed.

(** In an empty map there is no door for the card. *)
Lemma doorless_card_refused_witness :
  ∃ command, (use_card zero_PlayerState zero_GameState 1 CardLockSnap demo_panels).2 = [command] ∧
    ∀ m now matchID, SubmitInput m now matchID command = (m, inl ErrInvalidInputPayload).
Proof.
  apply (doorless_card_refused zero_PlayerState zero_GameState 1 CardLockSnap "snap" demo_panels).
  - by left.
  - reflexivity.
  - by vm_compute.
  - by vm_compute.
  - by vm_compute.
Defined.
End witnesses.

End Panels.
