(* ===== verification/Shell.v ===== *)
(** * The shell of the client

    [internal/client/render/shell.go] and [shell_spectator.go]: a frame of the client, from the
    state in the store and what is pressed to the commands that are sent and the prediction;
    whom a spectator follows, which camera is watched, the footsteps that are remembered, and
    which buttons are lit.  The camera and the drawing are not modelled.  The store is shared
    with the session, which may write it between two reads: a frame takes the store it finds at
    each read as an argument of its own.  [wallClock] is the clock the engine falls back to. *)

From S2P Require Import Prelude Float32 Model GoStrings Layout Access Items Phase Visibility Escape Cards Abilities Combat Replay Session InputQueue SnapshotStore Prediction Prematch Controller Panels.

#[local] Open Scope Z_scope.

Module Shell.
Import Controller Panels.

Record footstepSample := mkFootstep { fs_Position : Vector2; fs_TickID : Z }.

Record t := mkShell {
  sl_localPlayerID : PlayerID;
  sl_layout : Layout;
  sl_panels : Panels.Shell;
  sl_engine : Prediction.Engine;
  sl_lastReconciledTick : Z;
  sl_outgoingCommands : list InputCommand;
  sl_cameraCyclePrevPressed : bool;
  sl_cameraCycleNextPressed : bool;
  sl_cameraViewRoomIndex : Z;
  sl_footstepHistory : gmap PlayerID (list footstepSample);
  sl_spectatorPrev : bool;
  sl_spectatorNext : bool;
  sl_spectatorFollowPlayerID : PlayerID;
  sl_spectatorFollowSlot : Z;
  sl_spectatorSlotCount : Z;
  sl_pauseMenuOpen : bool;
  sl_abilityInfoOpen : bool;
  sl_abilityInfoPrevPressed : bool;
}.
#[export] Instance t_eta : RecordEta t := λ r,
  mkShell (sl_localPlayerID r) (sl_layout r) (sl_panels r) (sl_engine r) (sl_lastReconciledTick r)
    (sl_outgoingCommands r) (sl_cameraCyclePrevPressed r) (sl_cameraCycleNextPressed r)
    (sl_cameraViewRoomIndex r) (sl_footstepHistory r) (sl_spectatorPrev r) (sl_spectatorNext r)
    (sl_spectatorFollowPlayerID r) (sl_spectatorFollowSlot r) (sl_spectatorSlotCount r) (sl_pauseMenuOpen r)
    (sl_abilityInfoOpen r) (sl_abilityInfoPrevPressed r).

Record ShellConfig := mkConfig {
  sc_LocalPlayerID : PlayerID;
  sc_SpectatorFollowPlayerID : PlayerID;
  sc_SpectatorFollowSlot : Z;
  sc_SpectatorSlotCount : Z;
  sc_Layout : Layout;
  sc_InputController : Controller.t;
  sc_PredictionEngine : Prediction.Engine;
}.

Definition NewShell (config : ShellConfig) (store : SnapshotStore.t) (now wallClock : Z) : t :=
  let layout := if (ly_width (sc_Layout config) ≟ 0) || (ly_height (sc_Layout config) ≟ 0) then defaultMatchLayout
                else sc_Layout config in
  let shell := mkShell (sc_LocalPlayerID config) layout (closed (sc_InputController config)) (sc_PredictionEngine config) 0 []
    false false 0 ∅ false false (TrimSpace (sc_SpectatorFollowPlayerID config)) (sc_SpectatorFollowSlot config)
    (sc_SpectatorSlotCount config) false false false in
  let '(initial, ok) := SnapshotStore.CurrentState store in
  if ok then
    shell <| sl_engine ::= λ e, Prediction.SeedAuthoritativeState e initial now wallClock |>
          <| sl_lastReconciledTick := gs_TickID initial |>
  else shell.

Definition ApplyAuthoritativeSnapshot (snapshot : Snapshot) (now wallClock : Z) (store : SnapshotStore.t) (s : t) :
    SnapshotStore.t * t * bool :=
  let '(store, applied) := SnapshotStore.ApplySnapshot store snapshot in
  if negb applied then (store, s, false)
  else
    let '(current, ok) := SnapshotStore.CurrentState store in
    let s := if ok then
        s <| sl_engine ::= λ e, Prediction.AcceptAuthoritativeSnapshot e snapshot current now wallClock |>
          <| sl_lastReconciledTick := sn_TickID snapshot |>
      else s in
    (store, s, true).

(** The two reads of the store need not see the same snapshot. *)
Definition reconcilePredictionFromStore (meta_store state_store : SnapshotStore.t) (now wallClock : Z) (s : t) : t :=
  let '(meta, hasMeta) := SnapshotStore.LatestSnapshotMeta meta_store in
  if negb hasMeta || (SnapshotStore.mt_TickID meta ≟ 0) || (SnapshotStore.mt_TickID meta <=? sl_lastReconciledTick s) then s
  else
    let '(state, hasState) := SnapshotStore.CurrentState state_store in
    if negb hasState then s
    else
      let snapshot := zero_Snapshot <| sn_Kind := SnapshotKindDelta |> <| sn_TickID := SnapshotStore.mt_TickID meta |>
                                    <| sn_PlayerAcks := SnapshotStore.mt_PlayerAcks meta |> in
      s <| sl_engine ::= λ e, Prediction.AcceptAuthoritativeSnapshot e snapshot state now wallClock |>
        <| sl_lastReconciledTick := SnapshotStore.mt_TickID meta |>.

Definition DrainOutgoingCommands (s : t) : t * list InputCommand :=
  (s <| sl_outgoingCommands := [] |>, sl_outgoingCommands s).

(** ** Whom a spectator follows *)

Definition spectator_key (player : PlayerState) : Z * PlayerID := (if ps_Alive player then 0 else 1, ps_ID player).
Definition orderedSpectatorPlayers (players : list PlayerState) : list PlayerState :=
  sort_by (lex_le Z.le String.le) spectator_key players.

Definition follow (playerID : PlayerID) (slot count : Z) (s : t) : t :=
  s <| sl_spectatorFollowPlayerID := playerID |> <| sl_spectatorFollowSlot := slot |> <| sl_spectatorSlotCount := count |>.

(** Where the followed player is in the list. *)
Definition followed_index (players : list PlayerState) (s : t) : option nat :=
  if sl_spectatorFollowPlayerID s ≠? "" then find_idx (λ player, ps_ID player ≟ sl_spectatorFollowPlayerID s) players
  else None.

Definition resolveSpectatorFollowIndex (players : list PlayerState) (s : t) : t * Z :=
  let count := Z.of_nat (length players) in
  match players with
  | [] => (follow "" 0 0 s, 0)
  | first :: _ =>
      match followed_index players s with
      | Some index => (follow (sl_spectatorFollowPlayerID s) (Z.of_nat index + 1) count s, Z.of_nat index)
      | None =>
          let slot := sl_spectatorFollowSlot s in
          if (0 <? slot) && (slot <=? count) then
            (follow (from_option ps_ID "" (select players (slot - 1))) slot count s, slot - 1)
          else (follow (ps_ID first) 1 count s, 0)
      end
  end.

Definition updateSpectatorFollowSelection (state : GameState) (snapshot : InputSnapshot) (s : t) : option t :=
  if sl_localPlayerID s ≠? "" then Some s
  else
    let nextEdge := in_SpectatorNextPressed snapshot && negb (sl_spectatorNext s) in
    let prevEdge := in_SpectatorPrevPressed snapshot && negb (sl_spectatorPrev s) in
    let s := s <| sl_spectatorPrev := in_SpectatorPrevPressed snapshot |> <| sl_spectatorNext := in_SpectatorNextPressed snapshot |> in
    let players := orderedSpectatorPlayers (gs_Players state) in
    let count := Z.of_nat (length players) in
    if count ≟ 0 then Some (follow "" 0 0 s)
    else
      let '(s, index) := resolveSpectatorFollowIndex players s in
      let index := if nextEdge then (index + 1) `rem` count else index in
      let index := if prevEdge then (index - 1 + count) `rem` count else index in
      player ← select players index; Some (follow (ps_ID player) (index + 1) count s).

(** The player in the middle of the picture. *)
Definition resolveCameraFocusPlayer (state : GameState) (s : t) : option (t * option PlayerState) :=
  match (if sl_localPlayerID s ≠? "" then playerByID (gs_Players state) (sl_localPlayerID s) else None) with
  | Some local => Some (s, Some local)
  | None =>
      match orderedSpectatorPlayers (gs_Players state) with
      | [] => Some (s, None)
      | players =>
          let '(s, index) := resolveSpectatorFollowIndex players s in
          player ← select players index; Some (s, Some player)
      end
  end.

(** ** The footsteps *)

Definition maxSamplesPerPlayer : Z := 720.

(** A position of the tick of the last sample replaces it. *)
Definition add_footstep (tick : Z) (position : Vector2) (history : list footstepSample) : list footstepSample :=
  let added := history ++ [mkFootstep position tick] in
  let history :=
    match last history with
    | Some sample => if fs_TickID sample ≟ tick then <[pred (length history) := mkFootstep position (fs_TickID sample)]> history else added
    | None => added
    end in
  if maxSamplesPerPlayer <? Z.of_nat (length history) then Prediction.keep_last maxSamplesPerPlayer history else history.

Definition recordFootstepHistory (state : GameState) (s : t) : t :=
  s <| sl_footstepHistory ::= λ histories,
    foldl (λ histories player,
      if (ps_ID player ≟ "") || negb (ps_Alive player) then histories
      else <[ps_ID player := add_footstep (gs_TickID state) (ps_Position player) (default [] (histories !! ps_ID player))]> histories)
      histories (gs_Players state) |>.

(** ** The cameras *)

Definition cameraViewRooms (s : t) : list RoomID :=
  sort_strings (filter (λ roomID, roomID ≠ "") (map rm_ID (Rooms (sl_layout s)))).

Definition updateCameraViewSelection (snapshot : InputSnapshot) (state : GameState) (localPlayer : option PlayerState) (s : t) : t :=
  let prevEdge := in_PanelPrevPressed snapshot && negb (sl_cameraCyclePrevPressed s) in
  let nextEdge := in_PanelNextPressed snapshot && negb (sl_cameraCycleNextPressed s) in
  let s := s <| sl_cameraCyclePrevPressed := in_PanelPrevPressed snapshot |>
             <| sl_cameraCycleNextPressed := in_PanelNextPressed snapshot |> in
  let reset := s <| sl_cameraViewRoomIndex := 0 |> in
  match localPlayer with
  | None => reset
  | Some local =>
      if ps_ID local ≟ "" then reset
      else if negb (effectActiveForPlayer local EffectCameraView (gs_TickID state)) || negb (ms_PowerOn (gs_Map state)) then reset
      else if actionPanelUsesCenteredModal (sh_panelMode (sl_panels s)) then s
      else
        let count := Z.of_nat (length (cameraViewRooms s)) in
        if count ≟ 0 then reset
        else
          let index := clampPanelIndex (sl_cameraViewRoomIndex s) count in
          let index := if prevEdge then wrapPanelIndex index count (-1) else index in
          let index := if nextEdge then wrapPanelIndex index count 1 else index in
          s <| sl_cameraViewRoomIndex := index |>
  end.

(** The room that the picture is limited to, if it is. *)
Definition resolveLocalVisionScope (state : GameState) (localPlayerID : PlayerID) : option PlayerState * option RoomID :=
  if localPlayerID ≟ "" then (None, None)
  else match playerByID (gs_Players state) localPlayerID with
  | None => (None, None)
  | Some local => (Some local, if ps_CurrentRoomID local ≟ "" then None else Some (ps_CurrentRoomID local))
  end.

Definition resolveVisionScope (state : GameState) (s : t) : option (t * option PlayerState * option RoomID) :=
  match resolveLocalVisionScope state (sl_localPlayerID s) with
  | (None, _) => Some (s, None, None)
  | (Some local, limit) =>
      let rooms := cameraViewRooms s in
      let count := Z.of_nat (length rooms) in
      if effectActiveForPlayer local EffectCameraView (gs_TickID state) && ms_PowerOn (gs_Map state) && (0 <? count) then
        let s := s <| sl_cameraViewRoomIndex ::= λ index, clampPanelIndex index count |> in
        selectedRoom ← select rooms (sl_cameraViewRoomIndex s);
        Some (s, Some local, if selectedRoom ≠? "" then Some selectedRoom else limit)
      else Some (s, Some local, limit)
  end.

(** ** The buttons that are lit *)

Definition effectiveEquippedWeapon (local : PlayerState) : ItemType :=
  if IsSupportedWeapon (ps_EquippedItem local) then ps_EquippedItem local
  else default "" (find_first (CanUseWeapon local) [ItemPistol; ItemHuntingRifle; ItemBaton; ItemShiv]).

Definition canUseAssignedAbility (local : PlayerState) (state : GameState) (ability : AbilityType) : bool :=
  if negb (IsKnownAbility ability) || negb (CanPlayerUse local ability) then false
  else if ability ≟ AbilityAlarm then
    (ph_Current (gs_Phase state) ≟ PhaseDay) && negb (al_Active (ms_Alarm (gs_Map state)))
  else if bool_decide (ability ∈ [AbilitySearch; AbilityDetainer; AbilityPickPocket]) then
    targetPlayerForPanel local (gs_Players state) ≠? ""
  else if ability ≟ AbilityCameraMan then (ps_CurrentRoomID local ≟ RoomCameraRoom) && ms_PowerOn (gs_Map state)
  else if ability ≟ AbilityTracker then
    existsb (λ player, (ps_ID player ≠? ps_ID local) && ps_Alive player) (gs_Players state)
  else if ability ≟ AbilityLocksmith then
    ms_PowerOn (gs_Map state) && (targetDoorForPanel local (gs_Map state) ≠? 0)
  else true.

Definition hasNearbyInteractable (local : PlayerState) (state : GameState) : bool :=
  ((ps_CurrentRoomID local ≠? "") &&
     existsb (λ door, canViewerTraverseDoor local door (gs_Map state)) (ms_Doors (gs_Map state))) ||
  existsb (λ entity,
    if negb (es_Active entity) || (es_ID entity ≟ 0) || elsewhere local (es_RoomID entity) then false
    else f32_leb (distance_sq (es_Position entity) (ps_Position local)) (f32_const 225 100)) (gs_Entities state) ||
  (IsPrisonerPlayer local && existsb rv_CanAttempt (EvaluateAllRoutes local (gs_Map state))).

(** What lights fire, interact, reload and ability. *)
Definition computeActionButtonStates (state : GameState) (s : t) : bool * bool * bool * bool :=
  let dark := (false, false, false, false) in
  if sl_localPlayerID s ≟ "" then dark
  else match playerByID (gs_Players state) (sl_localPlayerID s) with
  | None => dark
  | Some local =>
      if negb (ps_Alive local) || IsActionBlocked local (gs_TickID state) then dark
      else
        let weapon := effectiveEquippedWeapon local in
        let canFire :=
          if bool_decide (weapon ∈ [ItemPistol; ItemHuntingRifle]) then CanUseWeapon local weapon && (0 <? ps_Bullets local)
          else if bool_decide (weapon ∈ [ItemBaton; ItemShiv]) then CanUseWeapon local weapon
          else false in
        let canReload := IsAuthorityPlayer local && (ps_CurrentRoomID local ≟ RoomAmmoRoom) && (ps_Bullets local <? 3) in
        let assigned := if ps_AssignedAbility local ≟ "" then default "" (head (AbilitiesForPlayer local)) else ps_AssignedAbility local in
        (canFire, hasNearbyInteractable local state, canReload,
         (assigned ≠? "") && canUseAssignedAbility local state assigned)
  end.

(** ** A frame *)

Definition TogglePauseMenu (s : t) : t := s <| sl_pauseMenuOpen ::= negb |>.

Definition toggle_ability_info (snapshot : InputSnapshot) (s : t) : t :=
  let s := if in_AbilityInfoPressed snapshot && negb (sl_abilityInfoPrevPressed s) then s <| sl_abilityInfoOpen ::= negb |> else s in
  s <| sl_abilityInfoPrevPressed := in_AbilityInfoPressed snapshot |>.

Section frames.
Context `{Henc : !PayloadEncoder}.

(** The commands of a frame: those of the keys, and then that of the panel, which was built first. *)
Definition frame_commands (snapshot : InputSnapshot) (state : GameState) (localPlayer : option PlayerState) (panels : Panels.Shell) :
    option (Panels.Shell * list InputCommand) :=
  let panels := panels <| sh_panelSuppressGameplay := false |> <| sh_panelSuppressInteract := false |> in
  r ← updateActionPanelCommands snapshot state localPlayer panels;
  let '(panels, panelCommands) := r in
  let gameplaySnapshot := filterSnapshotForActionPanels snapshot panels in
  let '(c, commands) := BuildCommands gameplaySnapshot (u64 (gs_TickID state + 1)) localPlayer (sh_controller panels) in
  Some (panels <| sh_controller := c |>, commands ++ panelCommands).

(** The selection of a spectator, and whom the camera shows. *)
Definition look (snapshot : InputSnapshot) (state : GameState) (s : t) : option t :=
  let s := toggle_ability_info snapshot s in
  s ← (if sl_localPlayerID s ≟ "" then updateSpectatorFollowSelection state snapshot s else Some s);
  fst <$> resolveCameraFocusPlayer state s.

(** The second part: what is handed over is what [onInputCommand] is called with. *)
Definition act (snapshot : InputSnapshot) (state : GameState) (s : t) : option (t * list InputCommand) :=
  let localPlayer := playerByID (gs_Players state) (sl_localPlayerID s) in
  let s := recordFootstepHistory state s in
  let s := updateCameraViewSelection snapshot state localPlayer s in
  r ← frame_commands snapshot state localPlayer (sl_panels s);
  let '(panels, commands) := r in
  let s := s <| sl_panels := panels |> in
  match commands with
  | [] => Some (s, [])
  | _ => Some (s <| sl_engine ::= λ e, Prediction.RecordLocalCommands e commands |>
                 <| sl_outgoingCommands ::= λ outgoing, outgoing ++ commands |>, commands)
  end.

Definition Update (meta_store state_store store : SnapshotStore.t) (now wallClock : Z) (snapshot : InputSnapshot) (s : t) :
    option (t * list InputCommand) :=
  let s := reconcilePredictionFromStore meta_store state_store now wallClock s in
  let '(state, hasState) := SnapshotStore.CurrentState store in
  if negb hasState then Some (s, [])
  else
    s ← look snapshot state s;
    if sl_pauseMenuOpen s then Some (s, []) else act snapshot state s.
End frames.

(** What is drawn: the prediction, or the state of the store before there is one. *)
Definition resolveRenderState `{!PayloadDecoder} (meta_store state_store store : SnapshotStore.t) (now wallClock renderNow : Z) (s : t) :
    t * option GameState :=
  let s := reconcilePredictionFromStore meta_store state_store now wallClock s in
  let '(state, hasState) := SnapshotStore.CurrentState store in
  if negb hasState then (s, None)
  else
    let '(e, predicted) := Prediction.RenderState (sl_engine s) renderNow in
    (s <| sl_engine := e |>, Some (default state predicted)).

(** The camera that is watched always is one of the rooms. *)
Lemma vision_never_panics state s : is_Some (resolveVisionScope state s).
Proof.
  unfold resolveVisionScope. destruct (resolveLocalVisionScope _ _) as [[local|] limit]; [|by eexists]. cbv zeta.
  destruct (_ && _) eqn:Hc; [|by eexists]. bool_props.
  destruct (select_in (cameraViewRooms s) (clampPanelIndex (sl_cameraViewRoomIndex s) (Z.of_nat (length (cameraViewRooms s)))))
    as (room & Hr & _); [apply clamp_range; lia|]. cbn. rewrite Hr. by eexists.
Qed.

(** ** A frame asks the controller for what its panel asks, and then for the keys *)

Section frame_lemmas.
Context `{Henc : !PayloadEncoder}.

(** The requests that a frame makes of the controller. *)
Record frame_done (state : GameState) (localPlayer : option PlayerState) (p p' : Panels.Shell) (commands : list InputCommand) : Prop := mkFrame {
  fd_mode : match localPlayer with
            | None => sh_panelMode p' = actionPanelNone
            | Some local => isPanelModeAvailable (sh_panelMode p') (computeActionPanelAvailability local state) = true
            end;
  fd_actions : ∃ actions built, (length actions <= 2)%nat ∧
    Forall (λ a, (∃ snapshot, a.1 = Frame snapshot localPlayer) ∨ ∃ local mode, localPlayer = Some local ∧ asked local state mode a.1) actions ∧
    do_actions actions (sh_controller p) = (sh_controller p', built) ∧ commands ≡ₚ built;
}.

Lemma frame_commands_done snapshot state localPlayer p : (∀ local, localPlayer = Some local → fits local state) →
  ∃ p' commands, frame_commands snapshot state localPlayer p = Some (p', commands) ∧ frame_done state localPlayer p p' commands.
Proof.
  intros Hf. unfold frame_commands. cbv zeta. set (p0 := p <| sh_panelSuppressGameplay := false |> <| sh_panelSuppressInteract := false |>).
  destruct (update_total snapshot state localPlayer p0 Hf) as [[p1 panelCommands] Hu].
  pose proof (update_done snapshot state localPlayer p0 p1 panelCommands Hu) as [Hmode Hreq]. rewrite Hu. cbn [mbind option_bind].
  change (sh_controller p0) with (sh_controller p) in Hreq.
  set (tick := u64 (gs_TickID state + 1)) in *. set (filtered := filterSnapshotForActionPanels snapshot p1).
  destruct (BuildCommands filtered tick localPlayer (sh_controller p1)) as [c commands] eqn:Hb.
  do 2 eexists. split; [reflexivity|]. split; [destruct localPlayer; exact Hmode|].
  destruct Hreq as [[Hc ->]|(local & a & Hl & Ha & Hdo)].
  - exists [(Frame filtered localPlayer, tick)], commands. split_and!; [cbn; lia|repeat constructor; by eexists| |by rewrite app_nil_r].
    rewrite <-Hc. cbn [do_actions do_action]. rewrite Hb. by rewrite app_nil_r.
  - exists [(a, tick); (Frame filtered localPlayer, tick)], (panelCommands ++ commands). split_and!.
    + cbn. lia.
    + constructor; [right; by exists local, (sh_panelMode p1)|]. repeat constructor. by eexists.
    + cbn [do_actions]. rewrite Hdo. cbn [do_action]. rewrite Hb. by rewrite app_nil_r.
    + apply Permutation_app_comm.
Qed.
End frame_lemmas.

(** ** Whom a spectator follows *)

Lemma ordered_nil players : orderedSpectatorPlayers players = [] ↔ players = [].
Proof.
  unfold orderedSpectatorPlayers. split; [|by intros ->]. intros H. apply length_zero_iff_nil.
  by rewrite <-(length_sort_by (lex_le Z.le String.le) spectator_key), H.
Qed.

(** What is followed is in the list, at its slot. *)
Definition followed_at (players : list PlayerState) (index : Z) (s : t) : Prop :=
  0 <= index < Z.of_nat (length players) ∧ sl_spectatorFollowSlot s = index + 1 ∧
  sl_spectatorSlotCount s = Z.of_nat (length players) ∧
  ∃ player, select players index = Some player ∧ ps_ID player = sl_spectatorFollowPlayerID s.

Lemma resolve_follow players s : players ≠ [] →
  let r := resolveSpectatorFollowIndex players s in
  followed_at players r.2 r.1 ∧ sl_localPlayerID r.1 = sl_localPlayerID s ∧
  (sl_spectatorFollowPlayerID s ≠ "" → sl_spectatorFollowPlayerID s ∈ map ps_ID players →
   sl_spectatorFollowPlayerID r.1 = sl_spectatorFollowPlayerID s).
Proof.
  intros Hne. cbv zeta. unfold resolveSpectatorFollowIndex. destruct players as [|first players]; [done|]. clear Hne.
  set (l := first :: players). destruct (followed_index l s) as [index|] eqn:Hi.
  - unfold followed_index in Hi. case_bool_decide as Hid; cbn [negb] in Hi; [done|].
    apply find_idx_Some in Hi as (player & Hp & Hq & _). apply bool_decide_eq_true in Hq. apply lookup_lt_Some in Hp as Hlt.
    cbn [fst snd]. split_and!; [|done|done]. split_and!; [lia|lia|done|done|]. exists player.
    split; [|exact Hq]. unfold select. rewrite (proj2 (Z.ltb_ge _ _)) by lia. by rewrite Nat2Z.id.
  - assert (sl_spectatorFollowPlayerID s ≠ "" → sl_spectatorFollowPlayerID s ∉ map ps_ID l) as Habsent.
    { intros Hid. unfold followed_index in Hi. rewrite (bool_decide_false _ Hid) in Hi. cbn [negb] in Hi.
      intros (player & Hq & Hin)%list_elem_of_fmap. eapply find_idx_None in Hi; [|exact Hin]. apply bool_decide_eq_false in Hi. by apply Hi. }
    destruct (_ && _) eqn:Hs; cbn [fst snd]; bool_props.
    + split_and!; [|done|naive_solver]. destruct (select_in l (sl_spectatorFollowSlot s - 1)) as (player & Hp & _); [lia|].
      split_and!; [lia|lia|cbn; lia|done|]. exists player. split; [exact Hp|]. cbn. by rewrite Hp.
    + split_and!; [|done|naive_solver]. split_and!; [lia|cbn; lia|done|done|]. by exists first.
Qed.

(** The selection of a spectator after a frame. *)
Definition pressed_prev (snapshot : InputSnapshot) (s : t) : bool := in_SpectatorPrevPressed snapshot && negb (sl_spectatorPrev s).
Definition pressed_next (snapshot : InputSnapshot) (s : t) : bool := in_SpectatorNextPressed snapshot && negb (sl_spectatorNext s).

Lemma resolve_same players s s' : sl_spectatorFollowPlayerID s' = sl_spectatorFollowPlayerID s →
  sl_spectatorFollowSlot s' = sl_spectatorFollowSlot s →
  (resolveSpectatorFollowIndex players s').2 = (resolveSpectatorFollowIndex players s).2.
Proof.
  intros Hid Hslot. unfold resolveSpectatorFollowIndex, followed_index. rewrite Hid, Hslot.
  destruct players as [|first players]; [done|]. case_match; [done|]. by destruct (_ && _).
Qed.

Lemma step_next index count : 0 <= index < count → (index + 1) `rem` count = (index + 1) `mod` count.
Proof. intros H. by rewrite Z.rem_mod_nonneg by lia. Qed.
Lemma step_prev index count : 0 <= index < count → (index - 1 + count) `rem` count = (index - 1) `mod` count.
Proof. intros H. rewrite Z.rem_mod_nonneg by lia. by rewrite Z.add_mod, Z.mod_same, Z.add_0_r, Z.mod_mod by lia. Qed.

(** The keys that were pressed move the selection, round the list. *)
Lemma stepped index count next prev : 0 <= index < count →
  (let index := if next : bool then (index + 1) `rem` count else index in
   if prev : bool then (index - 1 + count) `rem` count else index) =
  (index + (if next then 1 else 0) - (if prev then 1 else 0)) `mod` count.
Proof.
  intros Hi. destruct next, prev; cbv zeta.
  - rewrite step_next by done. rewrite step_prev by (apply Z.mod_pos_bound; lia).
    by rewrite Zminus_mod_idemp_l.
  - rewrite step_next by done. by rewrite Z.sub_0_r.
  - rewrite step_prev by done. by rewrite Z.add_0_r.
  - rewrite Z.mod_small by lia. lia.
Qed.

(** A spectator's selection never is out of the list of players: after a frame, the player
    that is followed is the one at the slot, and the slot is the one resolved from the last
    frame, moved round the list by the keys pressed in this frame; a player that is still
    there stays followed, wherever the list has put it; and with nobody there nobody is followed. *)
Theorem spectator_follows state snapshot s (Hspectator : sl_localPlayerID s = "") :
  let players := orderedSpectatorPlayers (gs_Players state) in
  ∃ s', updateSpectatorFollowSelection state snapshot s = Some s' ∧ sl_localPlayerID s' = "" ∧
    (players = [] → sl_spectatorFollowPlayerID s' = "" ∧ sl_spectatorFollowSlot s' = 0 ∧ sl_spectatorSlotCount s' = 0) ∧
    (players ≠ [] → ∃ index, followed_at players index s' ∧
      index = ((resolveSpectatorFollowIndex players s).2 + (if pressed_next snapshot s then 1 else 0) -
               (if pressed_prev snapshot s then 1 else 0)) `mod` Z.of_nat (length players) ∧
      (pressed_next snapshot s = pressed_prev snapshot s → sl_spectatorFollowPlayerID s ≠ "" →
       sl_spectatorFollowPlayerID s ∈ map ps_ID players → sl_spectatorFollowPlayerID s' = sl_spectatorFollowPlayerID s)).
Proof.
  intros players. unfold updateSpectatorFollowSelection. rewrite Hspectator. cbn [negb bool_decide].
  change (bool_decide ("" = "")) with true. cbn [negb]. cbv zeta. fold (pressed_next snapshot s) (pressed_prev snapshot s). fold players.
  set (s1 := s <| sl_spectatorPrev := _ |> <| sl_spectatorNext := _ |>).
  pose proof (resolve_same players s s1 eq_refl eq_refl) as Hsame.
  case_bool_decide as H0.
  { exists (follow "" 0 0 s1). split_and!; try done. intros Hne. destruct players; [done|cbn in H0; lia]. }
  assert (players ≠ []) as Hne by (by intros ->).
  destruct (resolve_follow players s1 Hne) as (Hat & Hl & Hkeep).
  destruct (resolveSpectatorFollowIndex players s1) as [s2 index]. cbn [fst snd] in *.
  destruct Hat as (Hr & Hslot & Hcount & player0 & Hsel0 & Hid0).
  pose proof (stepped index (Z.of_nat (length players)) (pressed_next snapshot s) (pressed_prev snapshot s) Hr) as Hstep.
  cbv zeta in Hstep. rewrite Hstep. clear Hstep.
  rewrite <-Hsame. set (i := _ `mod` _).
  assert (0 <= i < Z.of_nat (length players)) as Hi by (apply Z.mod_pos_bound; lia).
  destruct (select_in players i Hi) as (player & Hsel & _). rewrite Hsel. cbn [mbind option_bind].
  eexists. split; [reflexivity|]. split; [exact (eq_trans Hl Hspectator)|]. split; [done|]. intros _. exists i. split_and!; [|done|].
  - split_and!; [lia|lia|done|done|]. by exists player.
  - intros Heq Hid Hin. assert (i = index) as Hii.
    { unfold i. rewrite Heq. destruct (pressed_prev snapshot s); rewrite Z.mod_small; lia. }
    cbn. rewrite Hii, Hsel0 in Hsel. injection Hsel as <-. rewrite Hid0. by apply Hkeep.
Qed.

(** ** Footsteps *)

(** One sample a tick, in the order of the ticks, the newest of them last. *)
Definition trail (tick : Z) (history : list footstepSample) : Prop :=
  StronglySorted Z.lt (map fs_TickID history) ∧ Forall (λ sample, fs_TickID sample <= tick) history ∧
  Z.of_nat (length history) <= maxSamplesPerPlayer.

Lemma sorted_drop (R : relation Z) n l : StronglySorted R l → StronglySorted R (drop n l).
Proof.
  revert l. induction n as [|n IH]; intros l Hl; [by rewrite drop_0|]. destruct l as [|x l]; [done|].
  apply StronglySorted_inv in Hl as [Hl _]. by apply IH.
Qed.

Lemma trail_snoc tick history x : StronglySorted Z.lt (map fs_TickID history) → Forall (λ sample, fs_TickID sample < tick) history →
  fs_TickID x = tick → StronglySorted Z.lt (map fs_TickID (history ++ [x])) ∧
    Forall (λ sample, fs_TickID sample <= tick) (history ++ [x]).
Proof.
  intros Hs Hall Hx. rewrite map_app. cbn [map]. split.
  - apply sorted_snoc; [exact Hs|]. apply Forall_fmap. eapply Forall_impl; [exact Hall|]. cbn. lia.
  - apply Forall_app. split; [|constructor; [lia|constructor]]. eapply Forall_impl; [exact Hall|]. cbn. lia.
Qed.

Lemma trail_keep tick history : StronglySorted Z.lt (map fs_TickID history) → Forall (λ sample, fs_TickID sample <= tick) history →
  trail tick (if maxSamplesPerPlayer <? Z.of_nat (length history) then Prediction.keep_last maxSamplesPerPlayer history else history).
Proof.
  intros Hs Hall. destruct (_ <? _) eqn:Hlen; bool_props; [|done]. unfold Prediction.keep_last.
  split_and!; [rewrite <-skipn_map; by apply sorted_drop|by apply Forall_drop|]. rewrite length_drop. unfold maxSamplesPerPlayer in *. lia.
Qed.

Lemma add_footstep_trail tick position history before : trail before history → before <= tick →
  trail tick (add_footstep tick position history).
Proof.
  intros (Hs & Hall & _) Hle. unfold add_footstep. cbv zeta.
  destruct history as [|x history _] using rev_ind.
  { cbn. split_and!; [by repeat constructor|by repeat constructor|done]. }
  rewrite last_snoc. rewrite map_app in Hs. cbn [map] in Hs. apply StronglySorted_app in Hs as (Hbelow & Hs & _).
  apply Forall_app in Hall as [Hall Hx]. apply Forall_inv in Hx.
  assert (Forall (λ sample, fs_TickID sample < fs_TickID x) history) as Hlt.
  { apply Forall_forall. intros sample Hin. apply (Hbelow (fs_TickID sample) (fs_TickID x)); [|by left]. by apply (list_elem_of_fmap_2 fs_TickID). }
  case_bool_decide as Ht.
  - rewrite length_app, Nat.add_1_r. cbn [pred]. rewrite insert_app_r_alt, Nat.sub_diag by done. cbn [insert list_insert].
    destruct (trail_snoc tick history (mkFootstep position (fs_TickID x))) as [H1 H2]; [exact Hs|by rewrite Ht in Hlt|exact Ht|].
    pose proof (trail_keep tick _ H1 H2) as Hk. rewrite length_app in *. exact Hk.
  - destruct (trail_snoc tick (history ++ [x]) (mkFootstep position tick)) as [H1 H2].
    + apply (trail_snoc (fs_TickID x)); [exact Hs|exact Hlt|done].
    + apply Forall_app. split; [|repeat constructor; lia]. eapply Forall_impl; [exact Hlt|]. cbn. lia.
    + done.
    + exact (trail_keep tick _ H1 H2).
Qed.

(** While the ticks of the state do not go back, what is remembered of a player's way has one
    sample a tick, in their order, and no more than 720 of them. *)
Theorem footsteps_kept state before s
    (Htrails : map_Forall (λ _, trail before) (sl_footstepHistory s)) (Htick : before <= gs_TickID state) :
  map_Forall (λ _, trail (gs_TickID state)) (sl_footstepHistory (recordFootstepHistory state s)).
Proof.
  unfold recordFootstepHistory. cbn.
  assert (∀ players (histories : gmap PlayerID (list footstepSample)), map_Forall (λ _, trail (gs_TickID state)) histories →
    map_Forall (λ _, trail (gs_TickID state)) (foldl (λ histories player,
      if (ps_ID player ≟ "") || negb (ps_Alive player) then histories
      else <[ps_ID player := add_footstep (gs_TickID state) (ps_Position player) (default [] (histories !! ps_ID player))]> histories)
      histories players)) as H.
  { intros players. induction players as [|player players IH]; intros histories Hh; [exact Hh|]. cbn [foldl]. apply IH.
    destruct (_ || _); [exact Hh|]. apply map_Forall_insert_2; [|exact Hh]. apply (add_footstep_trail _ _ _ (gs_TickID state)); [|lia].
    destruct (histories !! ps_ID player) as [history|] eqn:Hl; [by apply (Hh (ps_ID player))|]. cbn. split_and!; [constructor|constructor|done]. }
  apply H. intros id history Hl. destruct (Htrails id history Hl) as (H1 & H2 & H3). split_and!; [exact H1| |exact H3].
  eapply Forall_impl; [exact H2|]. cbn. lia.
Qed.

(** ** A panel in the middle of the screen is alone *)

Lemma no_touches c : joystickVector c [] = None.
Proof. unfold joystickVector. by destruct (_ || _). Qed.

Lemma no_touch_button c button : touchInsideButton c [] button = false.
Proof. unfold touchInsideButton. by destruct (negb _). Qed.

Section quiet.
Context `{Henc : !PayloadEncoder}.

Definition of_types (types : list InputCommandType) (commands : list InputCommand) : Prop :=
  Forall (λ command, ic_Type command ∈ types) commands.

(** What a frame without keys and touches builds: a weapon in hand, and the aim. *)
Definition quiet (snapshot : InputSnapshot) : Prop :=
  in_MoveUp snapshot = false ∧ in_MoveDown snapshot = false ∧ in_MoveLeft snapshot = false ∧ in_MoveRight snapshot = false ∧
  in_InteractPressed snapshot = false ∧ in_AbilityPressed snapshot = false ∧ in_ReloadPressed snapshot = false ∧
  in_FirePressed snapshot = false ∧ in_Touches snapshot = [].

Lemma filtered_quiet snapshot p : actionPanelUsesCenteredModal (sh_panelMode p) = true → quiet (filterSnapshotForActionPanels snapshot p).
Proof. intros Hm. unfold filterSnapshotForActionPanels. rewrite Hm, orb_true_r. by split_and!. Qed.

Lemma quiet_move c snapshot : quiet snapshot → resolveMove c snapshot = (f32_zero, f32_zero, false).
Proof.
  intros (Hu & Hd & Hl & Hr & _ & _ & _ & _ & Ht). unfold resolveMove. rewrite Hu, Hd, Hl, Hr, Ht, no_touches.
  destruct (ml_Enabled (ct_mobile c)); vm_compute; reflexivity.
Qed.

Lemma push_types types commandType payload targetTick (f : Controller.t * list InputCommand) :
  commandType ∈ types → of_types types f.2 → of_types types (push commandType payload targetTick f).2.
Proof. intros Ht Hf. unfold push, newCommand. cbn. apply Forall_app. split; [exact Hf|by repeat constructor]. Qed.

Lemma emit_types types commandType payload targetTick f : commandType ∈ types → of_types types f.2 →
  of_types types (emit commandType payload targetTick f).2.
Proof. intros Ht Hf. destruct payload; [by apply push_types|exact Hf]. Qed.

Lemma quiet_commands snapshot targetTick localPlayer c : quiet snapshot →
  of_types [CmdEquipItem; CmdAimIntent] (BuildCommands snapshot targetTick localPlayer c).2.
Proof.
  intros Hq. pose proof Hq as (_ & _ & _ & _ & Hi & Ha & Hr & Hf & Ht). unfold BuildCommands. case_bool_decide; [constructor|]. cbv zeta.
  rewrite (quiet_move c snapshot Hq), Hi, Ha, Hr, Hf, Ht, !no_touch_button.
  destruct (aim_at snapshot localPlayer) as [[hasAim aimWorldX] aimWorldY]. unfold edgePressed. rewrite !andb_false_r.
  set (aim := if hasAim then _ else _). set (f := build_equip _ _ _ _).
  assert (of_types [CmdEquipItem; CmdAimIntent] f.2) as H1.
  { unfold f, build_equip. destruct localPlayer; [|constructor]. destruct (_ <? _); [|constructor].
    destruct (equippableWeaponForSlot _ _); [|constructor]. apply emit_types; [by left|constructor]. }
  change (build_move (f32_zero, f32_zero, false) targetTick f) with f. unfold build_fire, build_interact, build_reload.
  assert (of_types [CmdEquipItem; CmdAimIntent] (build_aim aim targetTick localPlayer f).2) as H2.
  { unfold build_aim. destruct aim as [[x y]|]; [|exact H1]. destruct (_ && _); [|exact H1]. destruct (resolveAimVector _ _ _) as [aimX aimY].
    destruct (encode_aim _) as [payload|]; [|exact H1].
    pose proof (push_types [CmdEquipItem; CmdAimIntent] CmdAimIntent payload targetTick f ltac:(right; by left) H1) as H2.
    by destruct (push _ _ _ _). }
  set (f' := build_aim aim targetTick localPlayer f) in *.
  assert (build_ability false targetTick localPlayer f' = f') as -> by (by destruct localPlayer). by destruct f'.
Qed.

(** C22: While a panel is in the middle of the screen, the frame sends nothing but the weapon taken
    in hand, the aim, and at most one request of that panel, for an entry that it shows: in the
    market an offer that is ready, among the escape routes one that can be tried, of the night
    cards one that is offered, of the stash an item that can be put in or taken out.  It sends no
    move, no shot, no reload, no ability, no card, and not the interact command of the key. *)
Theorem modal_is_alone snapshot state localPlayer p p' commands
    (Hframe : frame_commands snapshot state localPlayer p = Some (p', commands))
    (Hmodal : actionPanelUsesCenteredModal (sh_panelMode p') = true) :
  ∃ built panelCommands, commands = built ++ panelCommands ∧ of_types [CmdEquipItem; CmdAimIntent] built ∧
    (panelCommands = [] ∨ ∃ local a c, localPlayer = Some local ∧ asked local state (sh_panelMode p') a ∧
       do_action a (u64 (gs_TickID state + 1)) (sh_controller p) = (c, panelCommands)).
Proof.
  unfold frame_commands in Hframe. cbv zeta in Hframe. set (p0 := p <| sh_panelSuppressGameplay := false |> <| sh_panelSuppressInteract := false |>) in *.
  destruct (updateActionPanelCommands snapshot state localPlayer p0) as [[p1 panelCommands]|] eqn:Hu; [|done]. cbn [mbind option_bind] in Hframe.
  pose proof (quiet_commands (filterSnapshotForActionPanels snapshot p1) (u64 (gs_TickID state + 1)) localPlayer (sh_controller p1)) as Hq.
  destruct (BuildCommands _ _ _ _) as [c built]. injection Hframe as <- <-. cbn in Hmodal |- *. exists built, panelCommands.
  split; [done|]. split; [exact (Hq (filtered_quiet _ _ Hmodal))|].
  destruct (update_done snapshot state localPlayer p0 p1 panelCommands Hu) as [_ [[_ ->]|(local & a & Hl & Ha & Hdo)]]; [by left|].
  right. by exists local, a, (sh_controller p1).
Qed.
End quiet.

(** ** The interact key, hidden from the controller for one frame

    In the room of the market the interact key opens the market's panel, and the shell hides the
    key from the controller; but only in the frame in which it goes down. *)

Section hidden.
Context `{Henc : !PayloadEncoder}.

(** What neither the panel that runs nor its request changes. *)
Definition core (p : Panels.Shell) :=
  (sh_panelMode p, sh_panelInputPrev p, sh_panelSuppressInteract p, sh_panelSuppressGameplay p,
   ct_playerID (sh_controller p), ct_prevInteractPressed (sh_controller p)).

Lemma send_core build p : (∀ c, ct_playerID (build c).1 = ct_playerID c ∧ ct_prevInteractPressed (build c).1 = ct_prevInteractPressed c) →
  core (send build p).1 = core p.
Proof.
  intros Hb. unfold send. destruct (Hb (sh_controller p)) as [H1 H2]. destruct (build _) as [c command]. cbn in H1, H2.
  unfold core. cbn. by rewrite H1, H2.
Qed.
Lemma send_hinted_core failure build p :
  (∀ c, ct_playerID (build c).1 = ct_playerID c ∧ ct_prevInteractPressed (build c).1 = ct_prevInteractPressed c) →
  core (send_hinted failure build p).1 = core p.
Proof.
  intros Hb. unfold send_hinted. pose proof (send_core build p Hb) as H. destruct (send build p) as [p' commands]. by destruct commands.
Qed.

Lemma run_panel_core edge local state p r : run_panel edge local state p = Some r → core r.1 = core p.
Proof.
  assert (∀ A (entries : list A) index set_index use, (∀ i p, core (set_index i p) = core p) → (∀ entry p, core (use entry p).1 = core p) →
    with_selection edge entries index set_index use p = Some r → core r.1 = core p) as H.
  { intros A entries index set_index use Hset Huse Hr. unfold with_selection in Hr. case_bool_decide; [injection Hr as <-; apply Hset|].
    destruct (pe_use edge); cbn [negb] in Hr; [|injection Hr as <-; apply Hset].
    destruct (select _ _) as [entry|]; [|done]. injection Hr as <-. by rewrite Huse. }
  assert (∀ known commandType payload targetTick c, ct_playerID (build_one known commandType payload targetTick c).1 = ct_playerID c ∧
    ct_prevInteractPressed (build_one known commandType payload targetTick c).1 = ct_prevInteractPressed c) as Hone
    by (intros; apply build_one_keeps).
  unfold run_panel. cbv zeta. destruct (sh_panelMode p); [by intros [= <-]|..]; apply H; try done; intros entry p'.
  - apply send_core. intros c. apply Hone.
  - apply send_core. intros c. apply Hone.
  - apply send_core. intros c. apply Hone.
  - unfold use_offer. destruct (marketOfferUsability _ _ _) as [[] reason]; [apply send_hinted_core; intros c; apply Hone|done].
  - unfold use_route. destruct (negb _); [done|]. apply send_hinted_core. intros c. apply Hone.
  - apply send_hinted_core. intros c. apply Hone.
  - apply send_hinted_core. intros c. apply Hone.
Qed.

(** What the panels remember of the keys, and when they hide them. *)
Lemma update_flags snapshot state local p p' commands :
  sh_panelSuppressInteract p = false → sh_panelSuppressGameplay p = false →
  updateActionPanelCommands snapshot state (Some local) p = Some (p', commands) →
  sh_panelInputPrev p' = pressed_now snapshot p ∧
  ct_playerID (sh_controller p') = ct_playerID (sh_controller p) ∧
  ct_prevInteractPressed (sh_controller p') = ct_prevInteractPressed (sh_controller p) ∧
  (actionPanelUsesCenteredModal (sh_panelMode p') = false → sh_panelSuppressGameplay p' = false) ∧
  (pe_interact (edges (pressed_now snapshot p) (sh_panelInputPrev p)) = false → sh_panelSuppressInteract p' = false).
Proof.
  intros Hi Hg. unfold updateActionPanelCommands. cbv zeta. set (edge := edges _ _). set (p1 := p <| sh_panelInputPrev := _ |>).
  set (availability := computeActionPanelAvailability local state). set (p2 := choose_panel _ _ _ _ p1).
  set (read p := (sh_controller p, sh_panelInputPrev p, sh_panelSuppressGameplay p)).
  assert (read p2 = read p1) as H2 by (by apply choose_panel_reads).
  assert (pe_interact edge = false → sh_panelSuppressInteract p2 = false) as H2i.
  { intros He. unfold p2. rewrite choose_panel_reads; [exact Hi|done|done|]. by rewrite He. }
  injection H2 as Hc Hprev Hsup. change (sh_controller p1) with (sh_controller p) in Hc. change (sh_panelSuppressGameplay p1) with (sh_panelSuppressGameplay p) in Hsup.
  change (sh_panelInputPrev p1) with (pressed_now snapshot p) in Hprev. rewrite Hg in Hsup.
  destruct (isPanelModeAvailable _ _); cbn [negb].
  - set (p3 := if actionPanelUsesCenteredModal (sh_panelMode p2) then _ else p2).
    assert (core p3 = core (p2 <| sh_panelSuppressGameplay := actionPanelUsesCenteredModal (sh_panelMode p2) |>)) as H3.
    { unfold p3. destruct (actionPanelUsesCenteredModal (sh_panelMode p2)); [done|]. unfold core. cbn. by rewrite Hsup. }
    intros Hr. apply run_panel_core in Hr. cbn [fst] in Hr. rewrite H3 in Hr. unfold core in Hr. cbn in Hr.
    injection Hr as Hm Hp Hsi Hsg Hid Hpi. rewrite Hm, Hp, Hsi, Hsg, Hid, Hpi, Hc, Hprev. by split_and!.
  - intros [= <- <-]. cbn. rewrite Hc. by split_and!.
Qed.

(** C27: An interact key that is held is hidden for one frame only.  After a frame in which the
    panels hid it, with the key still down and no panel in the middle of the screen, the next
    frame sends the interact command all the same. *)
Theorem hidden_interact_returns snapshot state local p p1 commands1 state' local' p2 commands2 text
    (Hkey : in_InteractPressed snapshot = true) (Htouch : in_Touches snapshot = [])
    (Hplayer : ct_playerID (sh_controller p) ≠ "")
    (Hframe1 : frame_commands snapshot state (Some local) p = Some (p1, commands1))
    (Hhidden : sh_panelSuppressInteract p1 = true)
    (Hframe2 : frame_commands snapshot state' (Some local') p1 = Some (p2, commands2))
    (Hopen : actionPanelUsesCenteredModal (sh_panelMode p2) = false)
    (Htext : encode_interact zero_InteractPayload = Some text) :
  ∃ command, command ∈ commands2 ∧ ic_Type command = CmdInteract ∧ ic_Payload command = text.
Proof.
  unfold frame_commands in Hframe1, Hframe2. cbv zeta in Hframe1, Hframe2.
  set (p0 := p <| sh_panelSuppressGameplay := false |> <| sh_panelSuppressInteract := false |>) in *.
  destruct (updateActionPanelCommands snapshot state (Some local) p0) as [[q1 panel1]|] eqn:Hu1; [|done]. cbn [mbind option_bind] in Hframe1.
  destruct (update_flags snapshot state local p0 q1 panel1 eq_refl eq_refl Hu1) as (Hprev1 & Hid1 & _).
  change (ct_playerID (sh_controller p0)) with (ct_playerID (sh_controller p)) in Hid1.
  pose proof (BuildCommands_interact (filterSnapshotForActionPanels snapshot q1) (u64 (gs_TickID state + 1)) (Some local) (sh_controller q1)
    ltac:(by rewrite Hid1)) as (Hid1' & Hpi1 & _).
  destruct (BuildCommands _ _ _ (sh_controller q1)) as [c1 built1]. injection Hframe1 as <- <-. cbn in Hhidden. cbn [fst snd] in *.
  assert (ct_prevInteractPressed c1 = false) as Hpi.
  { rewrite Hpi1. unfold filterSnapshotForActionPanels. rewrite Hhidden. destruct (sh_panelSuppressGameplay q1 || actionPanelUsesCenteredModal (sh_panelMode q1)).
    - apply (no_touch_button (sh_controller q1)).
    - change (touchInsideButton (sh_controller q1) (in_Touches snapshot) (ml_InteractButton (ct_mobile (sh_controller q1))) = false).
      rewrite Htouch. apply no_touch_button. }
  set (p10 := q1 <| sh_controller := c1 |> <| sh_panelSuppressGameplay := false |> <| sh_panelSuppressInteract := false |>) in *.
  destruct (updateActionPanelCommands snapshot state' (Some local') p10) as [[q2 panel2]|] eqn:Hu2; [|done]. cbn [mbind option_bind] in Hframe2.
  destruct (update_flags snapshot state' local' p10 q2 panel2 eq_refl eq_refl Hu2) as (_ & Hid2 & Hpi2 & Hgame & Hhide).
  change (sh_controller p10) with c1 in Hid2, Hpi2.
  assert (sh_panelSuppressInteract q2 = false) as Hshown.
  { apply Hhide. unfold edges. cbn. change (sh_panelInputPrev p10) with (sh_panelInputPrev q1). rewrite Hprev1. cbn. rewrite Hkey. done. }
  pose proof (BuildCommands_interact (filterSnapshotForActionPanels snapshot q2) (u64 (gs_TickID state' + 1)) (Some local') (sh_controller q2)
    ltac:(by rewrite Hid2, Hid1', Hid1)) as (_ & _ & Hsent).
  destruct (BuildCommands _ _ _ (sh_controller q2)) as [c2 built2]. injection Hframe2 as <- <-. cbn in Hopen. cbn [fst snd] in *.
  destruct (Hsent text Htext) as (command & Hin & Hcommand); [|by rewrite Hpi2|].
  - unfold filterSnapshotForActionPanels. rewrite Hshown, (Hgame Hopen), Hopen. cbn [orb]. by rewrite Hkey.
  - exists command. split; [apply elem_of_app; by left|exact Hcommand].
Qed.
End hidden.

(** ** Runs of frames *)

Record frame_input := mkFrameInput {
  fi_meta_store : SnapshotStore.t; fi_state_store : SnapshotStore.t; fi_store : SnapshotStore.t;
  fi_now : Z; fi_wallClock : Z; fi_snapshot : InputSnapshot;
}.

Section runs.
Context `{Henc : !PayloadEncoder, Hdec : !PayloadDecoder, Hjson : !JSONLaws}.

Definition frame (f : frame_input) : t → option (t * list InputCommand) :=
  Update (fi_meta_store f) (fi_state_store f) (fi_store f) (fi_now f) (fi_wallClock f) (fi_snapshot f).

(** The frames, one after the other: the shell, and all that it has handed over. *)
Fixpoint run_frames (frames : list frame_input) (s : t) : option (t * list InputCommand) :=
  match frames with
  | [] => Some (s, [])
  | f :: frames =>
      r ← frame f s;
      let '(s, commands) := r in
      r ← run_frames frames s;
      let '(s, more) := r in Some (s, commands ++ more)
  end.

(** What looking leaves alone. *)
Definition same_hands (s s' : t) : Prop :=
  sl_localPlayerID s' = sl_localPlayerID s ∧ sl_panels s' = sl_panels s ∧ sl_outgoingCommands s' = sl_outgoingCommands s ∧
  sl_pauseMenuOpen s' = sl_pauseMenuOpen s.
#[export] Instance same_hands_preorder : PreOrder same_hands.
Proof. split; [done|]. intros s1 s2 s3 (? & ? & ? & ?) (? & ? & ? & ?). split_and!; congruence. Qed.

Lemma resolve_hands players s : same_hands s (resolveSpectatorFollowIndex players s).1.
Proof. unfold resolveSpectatorFollowIndex. destruct players; [done|]. destruct (followed_index _ _); [done|]. by destruct (_ && _). Qed.

Lemma update_follow_hands state snapshot s : ∃ s', updateSpectatorFollowSelection state snapshot s = Some s' ∧ same_hands s s'.
Proof.
  unfold updateSpectatorFollowSelection. case_bool_decide; cbn [negb]; [|by exists s]. cbv zeta.
  set (players := orderedSpectatorPlayers (gs_Players state)). set (s1 := s <| sl_spectatorPrev := _ |> <| sl_spectatorNext := _ |>).
  case_bool_decide as H0; [by eexists|]. assert (players ≠ []) as Hne by (by intros Hn; rewrite Hn in H0).
  destruct (resolve_follow players s1 Hne) as ((Hr & _) & _). pose proof (resolve_hands players s1) as Hh.
  destruct (resolveSpectatorFollowIndex players s1) as [s2 index]. cbn [fst snd] in *.
  match goal with |- context [in_SpectatorNextPressed snapshot && ?b] => set (next := in_SpectatorNextPressed snapshot && b) end.
  match goal with |- context [in_SpectatorPrevPressed snapshot && ?b] => set (prev := in_SpectatorPrevPressed snapshot && b) end.
  pose proof (stepped index (Z.of_nat (length players)) next prev Hr) as Hstep. cbv zeta in Hstep. rewrite Hstep.
  destruct (select_in players ((index + (if next then 1 else 0) - (if prev then 1 else 0)) `mod` Z.of_nat (length players))) as (player & -> & _);
    [apply Z.mod_pos_bound; lia|].
  eexists. split; [reflexivity|]. etransitivity; [|exact Hh]. done.
Qed.

Lemma look_hands snapshot state s : ∃ s', look snapshot state s = Some s' ∧ same_hands s s'.
Proof.
  unfold look. cbv zeta. set (s1 := toggle_ability_info snapshot s).
  assert (same_hands s s1) as H1 by (unfold s1, toggle_ability_info; by destruct (_ && _)).
  destruct (update_follow_hands state snapshot s1) as (s2 & Hs2 & H2).
  assert (∃ s3, (if sl_localPlayerID s1 ≟ "" then updateSpectatorFollowSelection state snapshot s1 else Some s1) = Some s3 ∧ same_hands s s3)
    as (s3 & -> & H3) by (case_bool_decide; [exists s2; split; [exact Hs2|by etransitivity]|by exists s1]).
  cbn [mbind option_bind]. unfold resolveCameraFocusPlayer.
  destruct (if sl_localPlayerID s3 ≠? "" then _ else None) as [local|]; [by exists s3|].
  destruct (orderedSpectatorPlayers (gs_Players state)) as [|first players] eqn:Hp; [by exists s3|].
  destruct (resolve_follow (first :: players) s3 ltac:(done)) as ((Hr & _) & _). pose proof (resolve_hands (first :: players) s3) as Hh.
  destruct (resolveSpectatorFollowIndex (first :: players) s3) as [s4 index]. cbn [fst snd] in *.
  destruct (select_in (first :: players) index Hr) as (player & -> & _). exists s4. split; [done|by etransitivity].
Qed.

(** What a frame sees of its own player: lists that fit a slice; and items and cards of the
    catalogues, and identifiers in ASCII. *)
Definition fitting_frame (playerID : PlayerID) (f : frame_input) : Prop :=
  let state := (SnapshotStore.CurrentState (fi_store f)).1 in
  ∀ local, playerByID (gs_Players state) playerID = Some local → fits local state.
Definition catalogued_frame (playerID : PlayerID) (f : frame_input) : Prop :=
  let state := (SnapshotStore.CurrentState (fi_store f)).1 in
  ∀ local, playerByID (gs_Players state) playerID = Some local → shown local state.

Lemma frame_request f s : fitting_frame (sl_localPlayerID s) f →
  ∃ s' commands, frame f s = Some (s', commands) ∧ sl_localPlayerID s' = sl_localPlayerID s ∧
    sl_outgoingCommands s' = sl_outgoingCommands s ++ commands ∧
    ∃ actions built, (length actions <= 2)%nat ∧ (catalogued_frame (sl_localPlayerID s) f → Forall (λ a, complete a.1) actions) ∧
      do_actions actions (sh_controller (sl_panels s)) = (sh_controller (sl_panels s'), built) ∧ commands ≡ₚ built.
Proof.
  intros Hgood. unfold frame, Update. cbv zeta. set (s1 := reconcilePredictionFromStore _ _ _ _ s).
  assert (same_hands s s1) as H1.
  { unfold s1, reconcilePredictionFromStore. destruct (SnapshotStore.LatestSnapshotMeta _) as [meta hasMeta]. destruct (_ || _); [done|].
    destruct (SnapshotStore.CurrentState _) as [state' hasState']. by destruct (negb _). }
  unfold fitting_frame in Hgood. unfold catalogued_frame.
  destruct (SnapshotStore.CurrentState (fi_store f)) as [state hasState]. cbn [fst] in Hgood |- *.
  assert (∀ s', same_hands s s' → ∃ s2 commands, Some (s', []) = Some (s2, commands) ∧ sl_localPlayerID s2 = sl_localPlayerID s ∧
    sl_outgoingCommands s2 = sl_outgoingCommands s ++ commands ∧ ∃ actions built, (length actions <= 2)%nat ∧
      ((∀ local, playerByID (gs_Players state) (sl_localPlayerID s) = Some local → shown local state) → Forall (λ a, complete a.1) actions) ∧
      do_actions actions (sh_controller (sl_panels s)) = (sh_controller (sl_panels s2), built) ∧ commands ≡ₚ built) as Hidle.
  { intros s' (Hl & Hp & Ho & _). exists s', []. rewrite app_nil_r. split_and!; [done..|]. exists [], []. rewrite Hp. split_and!; [cbn; lia|intros _; constructor|done|done]. }
  destruct hasState; cbn [negb]; [|by apply Hidle].
  destruct (look_hands (fi_snapshot f) state s1) as (s2 & -> & H2). cbn [mbind option_bind].
  assert (same_hands s s2) as Hh by (by etransitivity). destruct (sl_pauseMenuOpen s2); [by apply Hidle|].
  pose proof Hh as (Hl & Hp & Ho & _). unfold act. cbv zeta. rewrite Hl.
  set (localPlayer := playerByID (gs_Players state) (sl_localPlayerID s)) in *.
  set (s4 := updateCameraViewSelection _ _ _ _).
  assert (same_hands s s4) as Hh4.
  { etransitivity; [exact Hh|]. unfold s4, updateCameraViewSelection. cbv zeta. by repeat case_match. }
  pose proof Hh4 as (Hl4 & Hp4 & Ho4 & _).
  destruct (frame_commands_done (fi_snapshot f) state localPlayer (sl_panels s4)) as (p' & commands & -> & [_ (actions & built & Hlen & Hall & Hdo & Hperm)]).
  { intros local Hlocal. by apply Hgood. }
  cbn [mbind option_bind]. rewrite Hp4 in Hdo.
  assert ((∀ local, localPlayer = Some local → shown local state) → Forall (λ a, complete a.1) actions) as Hcomplete.
  { intros Hshown. eapply Forall_impl; [exact Hall|]. intros [a tick] [[snapshot Ha]|(local & mode & Hlocal & Ha)]; cbn in *; [by subst|].
    eapply asked_complete; [by apply Hshown|exact Ha]. }
  destruct commands as [|command commands].
  - exists (s4 <| sl_panels := p' |>), []. rewrite app_nil_r. split_and!; [done|exact Hl4|exact Ho4|]. by exists actions, built.
  - eexists _, _. split; [reflexivity|]. split_and!; [exact Hl4| |].
    + change (sl_outgoingCommands s4 ++ command :: commands = sl_outgoingCommands s ++ command :: commands). by rewrite Ho4.
    + by exists actions, built.
Qed.

Lemma run_frames_request frames s : Forall (fitting_frame (sl_localPlayerID s)) frames →
  ∃ s' commands, run_frames frames s = Some (s', commands) ∧ sl_outgoingCommands s' = sl_outgoingCommands s ++ commands ∧
    ∃ actions built, (length actions <= 2 * length frames)%nat ∧
      (Forall (catalogued_frame (sl_localPlayerID s)) frames → Forall (λ a, complete a.1) actions) ∧
      do_actions actions (sh_controller (sl_panels s)) = (sh_controller (sl_panels s'), built) ∧ commands ≡ₚ built.
Proof.
  revert s. induction frames as [|f frames IH]; intros s Hgood.
  { exists s, []. rewrite app_nil_r. split_and!; [done..|]. exists [], []. by split_and!. }
  apply Forall_cons in Hgood as [Hf Hgood]. destruct (frame_request f s Hf) as (s1 & commands & Hs1 & Hl & Ho & actions & built & Hlen & Hc & Hdo & Hp).
  destruct (IH s1) as (s2 & more & Hs2 & Ho2 & actions2 & built2 & Hlen2 & Hc2 & Hdo2 & Hp2); [by rewrite Hl|].
  cbn [run_frames]. rewrite Hs1. cbn [mbind option_bind]. rewrite Hs2. cbn [mbind option_bind]. exists s2, (commands ++ more).
  split_and!; [done|by rewrite Ho2, Ho, app_assoc|]. exists (actions ++ actions2), (built ++ built2). split_and!.
  - rewrite length_app. cbn [length]. lia.
  - rewrite Hl in Hc2. intros [? ?]%Forall_cons. apply Forall_app. by split; [apply Hc|apply Hc2].
  - rewrite do_actions_app, Hdo. by rewrite Hdo2.
  - by rewrite Hp, Hp2.
Qed.

(** C6: Take a client with a new controller, whose counter of commands has room for sixteen a
    frame, and states whose lists of its player have fewer than 2^62 entries.  Its frames never
    panic, whatever is pressed and whatever else the states show.  All that the client hands over
    is queued to be sent, carries its player, and has the numbers that follow the first, each once.
    If moreover every state shows the client's player only items and cards of the catalogues, and
    players with identifiers in ASCII, the server refuses nothing of it as malformed, but a card
    that is played without the door or the player it needs. *)
Theorem frames_sound config frames playerConfig store now wallClock
    (Hcontroller : sc_InputController config = NewController playerConfig)
    (Hfits : Forall (fitting_frame (sc_LocalPlayerID config)) frames)
    (Hseq : 0 <= cf_InitialClientSeq playerConfig) (Hroom : cf_InitialClientSeq playerConfig + 16 * Z.of_nat (length frames) < 2 ^ 64) :
  ∃ s commands, run_frames frames (NewShell config store now wallClock) = Some (s, commands) ∧
    sl_outgoingCommands s = commands ∧
    map ic_ClientSeq commands ≡ₚ numbers (cf_InitialClientSeq playerConfig) (length commands) ∧
    (∀ command, command ∈ commands → ic_PlayerID command = TrimSpace (cf_PlayerID playerConfig)) ∧
    (Forall (catalogued_frame (sc_LocalPlayerID config)) frames → ∀ command, command ∈ commands →
      ∀ m now matchID err, (SubmitInput m now matchID command).2 = inl err → malformed err →
        untargeted (ic_Type command) (ic_Payload command)).
Proof.
  set (s0 := NewShell config store now wallClock).
  assert (sl_localPlayerID s0 = sc_LocalPlayerID config ∧ sh_controller (sl_panels s0) = NewController playerConfig ∧ sl_outgoingCommands s0 = [])
    as (Hl & Hc & Ho).
  { unfold s0, NewShell. cbv zeta. destruct (SnapshotStore.CurrentState store) as [initial []]; by split_and!. }
  destruct (run_frames_request frames s0) as (s & commands & Hs & Hout & actions & built & Hlen & Hcomplete & Hdo & Hp); [by rewrite Hl|].
  exists s, commands. rewrite Ho in Hout. rewrite Hc in Hdo. rewrite Hl in Hcomplete.
  assert (cf_InitialClientSeq playerConfig + 8 * Z.of_nat (length actions) < 2 ^ 64) as Hr by lia.
  pose proof (built_numbers playerConfig actions Hseq Hr) as Hn. pose proof (built_player playerConfig actions Hseq Hr) as Hplayer.
  pose proof (built_formed playerConfig actions Hseq Hr) as Hf.
  rewrite Hdo in Hn, Hf, Hplayer. cbn [snd] in Hn, Hf, Hplayer. split_and!; [exact Hs|exact Hout| | |].
  - by rewrite Hp, Hn.
  - intros command Hin. apply Hplayer. by rewrite <-Hp.
  - intros Hcat command Hin. apply Hf; [by apply Hcomplete|by rewrite <-Hp].
Qed.
End runs.

(** ** At concrete inputs *)

Section witnesses.
#[local] Existing Instance Controller.demo_encoder.
#[local] Existing Instance Controller.demo_decoder.
#[local] Existing Instance Controller.demo_laws.

Definition ann : PlayerState :=
  zero_PlayerState <| ps_ID := "p1" |> <| ps_Alive := true |> <| ps_Faction := FactionPrisoner |>
    <| ps_CurrentRoomID := RoomCourtyard |> <| ps_Inventory := [mkStack ItemWood 2] |> <| ps_Cards := [CardLockSnap] |>.
Definition bob : PlayerState := ann <| ps_ID := "p2" |>.

(** The market is in the courtyard; it opens at night. *)
Definition market_day (phase : PhaseType) : GameState :=
  zero_GameState <| gs_TickID := 4 |> <| gs_Phase ::= λ p, p <| ph_Current := phase |> |>
    <| gs_Map ::= λ m, m <| ms_BlackMarketRoomID := RoomCourtyard |> |> <| gs_Players := [ann; bob] |>.

Definition interact_key : InputSnapshot := zero_input <| in_InteractPressed := true |> <| in_MoveRight := true |>.

Lemma spectator_follows_witness :
  let spectator := NewShell (mkConfig "" " p2 " 0 0 defaultMatchLayout (NewController demo_config) (Prediction.NewEngine "" Prediction.DefaultConfig))
    SnapshotStore.NewSnapshotStore 0 0 in
  ∃ s' index, updateSpectatorFollowSelection (market_day PhaseDay) zero_input spectator = Some s' ∧
    followed_at (orderedSpectatorPlayers [ann; bob]) index s' ∧ sl_spectatorFollowPlayerID s' = "p2".
Proof.
  cbv zeta. set (spectator := NewShell _ _ _ _).
  destruct (spectator_follows (market_day PhaseDay) zero_input spectator eq_refl) as (s' & Hs & _ & _ & H).
  destruct H as (index & Hat & _ & Hkeep); [by vm_compute|]. exists s', index. split; [exact Hs|]. split; [exact Hat|].
  rewrite Hkeep; [by vm_compute|reflexivity|by vm_compute|]. apply (bool_decide_unpack _). by vm_compute.
Defined.

Lemma footsteps_kept_witness :
  map_Forall (λ _, trail 4) (sl_footstepHistory (recordFootstepHistory (market_day PhaseDay)
    (NewShell (mkConfig "p1" "" 0 0 defaultMatchLayout (NewController demo_config) (Prediction.NewEngine "p1" Prediction.DefaultConfig))
      SnapshotStore.NewSnapshotStore 0 0))).
Proof. apply (footsteps_kept (market_day PhaseDay) 0); [by apply map_Forall_empty|by vm_compute]. Defined.

(** At night the key opens the market. *)
Lemma demo_modal : ∃ p' commands, frame_commands interact_key (market_day PhaseNight) (Some ann) demo_panels = Some (p', commands) ∧
  sh_panelMode p' = actionPanelMarket.
Proof. eexists _, _. split; [vm_compute; reflexivity|reflexivity]. Qed.

Lemma modal_is_alone_witness : ∃ p' commands built panelCommands,
  frame_commands interact_key (market_day PhaseNight) (Some ann) demo_panels = Some (p', commands) ∧
  commands = built ++ panelCommands ∧ of_types [CmdEquipItem; CmdAimIntent] built.
Proof.
  destruct demo_modal as (p' & commands & Hf & Hm).
  destruct (modal_is_alone _ _ _ _ _ _ Hf) as (built & panelCommands & Hc & Ht & _); [by rewrite Hm|].
  exists p', commands, built, panelCommands. split; [exact Hf|]. split; [exact Hc|exact Ht].
Defined.

(** By day the key is hidden; it is held, and sent. *)
Lemma demo_hidden : ∃ p1 commands1 p2 commands2,
  frame_commands interact_key (market_day PhaseDay) (Some ann) demo_panels = Some (p1, commands1) ∧
  sh_panelSuppressInteract p1 = true ∧ map ic_Type commands1 = [CmdMoveIntent] ∧
  frame_commands interact_key (market_day PhaseDay) (Some ann) p1 = Some (p2, commands2) ∧ sh_panelMode p2 = actionPanelNone.
Proof. eexists _, _, _, _. split; [vm_compute; reflexivity|]. split; [reflexivity|]. split; [reflexivity|]. split; [vm_compute; reflexivity|reflexivity]. Qed.

Lemma hidden_interact_returns_witness : ∃ p1 commands1 p2 commands2,
  frame_commands interact_key (market_day PhaseDay) (Some ann) demo_panels = Some (p1, commands1) ∧
  map ic_Type commands1 = [CmdMoveIntent] ∧
  frame_commands interact_key (market_day PhaseDay) (Some ann) p1 = Some (p2, commands2) ∧
  ∃ command, command ∈ commands2 ∧ ic_Type command = CmdInteract ∧ ic_Payload command = "{}".
Proof.
  destruct demo_hidden as (p1 & commands1 & p2 & commands2 & H1 & Hhidden & Ht & H2 & Hm). exists p1, commands1, p2, commands2.
  split; [exact H1|]. split; [exact Ht|]. split; [exact H2|].
  apply (hidden_interact_returns interact_key (market_day PhaseDay) ann demo_panels p1 commands1 (market_day PhaseDay) ann p2 commands2 "{}");
    [reflexivity|reflexivity|by vm_compute|exact H1|exact Hhidden|exact H2|by rewrite Hm|by vm_compute].
Defined.

(** Two frames with the cards open and in use: the move, and a card that has no door. *)
Definition demo_store : SnapshotStore.t := SnapshotStore.mkStore (Some (market_day PhaseDay)) (Some (SnapshotStore.mkMeta 4 [])).
Definition use_cards : InputSnapshot :=
  zero_input <| in_MoveRight := true |> <| in_PanelCardsPressed := true |> <| in_PanelUsePressed := true |>.
Definition demo_frames : list frame_input :=
  [mkFrameInput demo_store demo_store demo_store 1 1 use_cards; mkFrameInput demo_store demo_store demo_store 2 2 use_cards].
Definition demo_shell_config : ShellConfig :=
  mkConfig "p1" "" 0 0 defaultMatchLayout (NewController demo_config) (Prediction.NewEngine "p1" Prediction.DefaultConfig).

Lemma ann_good : fits ann (market_day PhaseDay) ∧ shown ann (market_day PhaseDay).
Proof. split; split; [by vm_compute..| | | | |]; apply (bool_decide_unpack _); by vm_compute. Qed.

Lemma demo_frames_good : Forall (fitting_frame "p1") demo_frames ∧ Forall (catalogued_frame "p1") demo_frames.
Proof.
  assert (∀ now wallClock, let f := mkFrameInput demo_store demo_store demo_store now wallClock use_cards in
    fitting_frame "p1" f ∧ catalogued_frame "p1" f) as H.
  { intros now wallClock. split; intros local Hlocal; change (playerByID (gs_Players (market_day PhaseDay)) "p1") with (Some ann) in Hlocal;
      apply Some_inj in Hlocal; rewrite <-Hlocal; apply ann_good. }
  split; (constructor; [apply H|]; constructor; [apply H|constructor]).
Qed.

Lemma frames_sound_witness : ∃ s commands,
  run_frames demo_frames (NewShell demo_shell_config demo_store 0 0) = Some (s, commands) ∧
  map ic_ClientSeq commands ≡ₚ numbers 7 (length commands) ∧
  ∀ command, command ∈ commands → ∀ m now matchID err, (SubmitInput m now matchID command).2 = inl err → malformed err →
    untargeted (ic_Type command) (ic_Payload command).
Proof.
  destruct (frames_sound demo_shell_config demo_frames demo_config demo_store 0 0) as (s & commands & Hs & _ & Hn & _ & Hf);
    [reflexivity|exact (proj1 demo_frames_good)|by vm_compute|by vm_compute|].
  exists s, commands. split; [exact Hs|]. split; [exact Hn|exact (Hf (proj2 demo_frames_good))].
Defined.

Example demo_frames_commands :
  (λ r, map (λ command, (ic_Type command, ic_ClientSeq command)) r.2) <$> run_frames demo_frames (NewShell demo_shell_config demo_store 0 0) =
  Some [(CmdMoveIntent, 9); (CmdUseCard, 8)].
Proof. vm_compute. reflexivity. Qed.
End witnesses.

End Shell.
