(* ===== verification/Agreement.v ===== *)
(** * The client and the server agree

    What the client shows before it asks, against what the server does when it is asked: the
    offers of the market, the doors, and whom a spectator follows.  Neither side sends its
    verdict to the other; each computes it from the state. *)

From S2P Require Import Prelude Float32 Model GoStrings Layout Access Items Physics Prison Escape Cards Session InputQueue Spawn Lifecycle Actions Changes Economy Doors Auth Protocol Network SnapshotStore Prediction Controller Panels Shell.

#[local] Open Scope Z_scope.

Module Agreement.

(** ** The market *)

(** In normal form, a stack is an item that is carried. *)
Lemma has_item_agrees player item : canonical (ps_Inventory player) → IsKnownItem item = true →
  HasItem player item 1 = Panels.hasInventoryItem (ps_Inventory player) item.
Proof.
  intros Hc Hk. apply eq_true_iff_eq. rewrite HasItem_iff by lia. rewrite (normalizeInventory_id _ Hc).
  unfold Panels.hasInventoryItem. rewrite existsb_elem. split.
  - intros [_ H]. destruct (carried_present (ps_Inventory player) item) as (stack & Hin & Hs); [lia|].
    pose proof (proj1 (Forall_forall _ _) (canonical_valid _ Hc) stack Hin) as [_ Hq].
    exists stack. split; [exact Hin|]. rewrite (bool_decide_true _ Hs). cbn. lia.
  - intros (stack & Hin & Hq). apply andb_true_iff in Hq as [Hs Hq]. bool_props. split; [exact Hk|].
    rewrite <-Hs. rewrite (carried_elem _ _ (canonical_nodup _ Hc)); [lia| |exact Hin].
    apply (proj1 (Forall_forall _ _) (canonical_valid _ Hc) stack Hin).
Qed.

(** Who has the cards can pay, after the item is added. *)
Lemma payment_succeeds player item amount player' cost : AddItem player item amount = Some player' → 0 <= cost →
  cost <= countPlayerCards player CardMoney → (consumePlayerCards player' CardMoney cost).2 = true.
Proof.
  intros Ha H0 Hcost. destruct (AddItem_frame _ _ _ _ Ha) as (inventory & ->).
  set (player' := player <| ps_Inventory := inventory |>).
  destruct (consume_cards_paid (now := 0) (Z.to_nat cost) CardMoney 0 player') as (q & Hq & _); [by vm_compute|done| |].
  - change (countPlayerCards player' CardMoney) with (countPlayerCards player CardMoney). lia.
  - unfold consumePlayerCards. change (bool_decide (CardMoney = "")) with false. cbn [orb]. by rewrite Hq.
Qed.

Lemma offer_found offer : offer ∈ Panels.marketPanelEntries →
  BlackMarketOfferForItem (of_Item offer) = Some offer ∧ IsKnownItem (of_Item offer) = true ∧ 0 < of_Quantity offer ∧ 0 < of_MoneyCardCost offer.
Proof.
  intros Hin. assert (Forall (λ offer, BlackMarketOfferForItem (of_Item offer) = Some offer ∧ IsKnownItem (of_Item offer) = true ∧
    0 < of_Quantity offer ∧ 0 < of_MoneyCardCost offer) Panels.marketPanelEntries) as H by (repeat constructor).
  by apply (proj1 (Forall_forall _ _) H).
Qed.

(** C8: The server sells a player what the market panel shows as ready, and nothing else, but for what
    the panel cannot see: whether the inventory has room, and whether the golden bullet was
    sold or lies elsewhere in the match. *)
Theorem market_agrees session i offer (Hoffer : offer ∈ Panels.marketPanelEntries)
    (Hplayer : session_player i session ∈ gs_Players (ss_gameState session))
    (Hinventory : canonical (ps_Inventory (session_player i session))) :
  (applyBlackMarketPurchaseLocked session i (mkMarketPayload (of_Item offer))).1.1.2 = true ↔
    (Panels.marketOfferUsability (session_player i session) (ss_gameState session) offer).1 = true ∧
    is_Some (AddItem (session_player i session) (of_Item offer) (of_Quantity offer)) ∧
    (of_Item offer = ItemGoldenBullet → ss_blackMarketGoldenBulletSold session = false ∧ matchContainsGoldenBulletLocked session = false).
Proof.
  destruct (offer_found offer Hoffer) as (Hfound & Hknown & Hq & Hcost).
  set (player := session_player i session) in *. unfold applyBlackMarketPurchaseLocked, Panels.marketOfferUsability. cbv zeta.
  cbn [bp_Item]. rewrite Hfound. fold player. rewrite (bool_decide_false (of_Quantity offer = 0)), (bool_decide_false (of_MoneyCardCost offer = 0)) by lia.
  cbn [orb]. destruct (ps_Alive player); cbn [negb orb]; [|naive_solver]. destruct (IsPrisonerPlayer player); cbn [negb]; [|naive_solver].
  case_bool_decide as Hnight; cbn [negb]; [|naive_solver].
  case_bool_decide as Hroom; cbn [orb]; [naive_solver|].
  case_bool_decide as Hhere; cbn [orb].
  { case_bool_decide; cbn [negb]; [congruence|naive_solver]. }
  case_bool_decide as Hin; cbn [negb]; [|naive_solver].
  assert (of_Item offer = ItemGoldenBullet → matchContainsGoldenBulletLocked session = false →
    Panels.hasInventoryItem (ps_Inventory player) ItemGoldenBullet = false) as Hgold.
  { intros Hitem Hm. rewrite <-has_item_agrees by (try exact Hinventory; by rewrite <-Hitem).
    unfold matchContainsGoldenBulletLocked in Hm. apply orb_false_iff in Hm as [Hm _].
    by apply (proj1 (existsb_not_elem _ _) Hm player). }
  destruct (_ && _) eqn:Hsold; cbn [fst snd].
  { apply andb_true_iff in Hsold as [Hitem Hsold]. apply bool_decide_eq_true in Hitem. split; [done|]. intros (_ & _ & Hnone).
    destruct (Hnone Hitem) as [H1 H2]. by rewrite H1, H2 in Hsold. }
  assert (of_Item offer = ItemGoldenBullet → ss_blackMarketGoldenBulletSold session = false ∧ matchContainsGoldenBulletLocked session = false) as Hfree.
  { intros Hitem. rewrite (bool_decide_true _ Hitem) in Hsold. by apply orb_false_iff in Hsold. }
  assert ((of_Item offer ≟ ItemGoldenBullet) && Panels.hasInventoryItem (ps_Inventory player) ItemGoldenBullet = false) as ->.
  { case_bool_decide as Hitem; [|done]. apply Hgold; [exact Hitem|by apply Hfree]. }
  change (Panels.countCards (ps_Cards player) CardMoney) with (countPlayerCards player CardMoney).
  destruct (_ <? _) eqn:Hcards; [naive_solver|]. bool_props.
  destruct (AddItem player (of_Item offer) (of_Quantity offer)) as [player'|] eqn:Ha; [|cbn; naive_solver].
  pose proof (payment_succeeds _ _ _ _ (of_MoneyCardCost offer) Ha ltac:(lia) Hcards) as Hpaid.
  destruct (consumePlayerCards player' CardMoney (of_MoneyCardCost offer)) as [player'' paid]. cbn in Hpaid. subst paid. cbn [negb].
  destruct (ensureEquippedItemForPlayerLocked player'') as [q b]. cbn. split; [|done]. intros _. split_and!; [done|by eexists|exact Hfree].
Qed.

(** ** The doors *)

(** A door that the client takes for open to its player is one that the server lets that player
    aim at; and where no room was unlocked for the prisoners, for a player who is in a room, the
    two verdicts are the same. *)
Theorem doors_agree session player door mapState restricted :
  (Panels.canViewerTraverseDoor player door mapState = true → canPlayerTargetDoorLocked session player door mapState restricted = true) ∧
  (ds_ID door ≠ 0 → ps_CurrentRoomID player ≠ "" → ss_prisonerUnlockedRooms session = ∅ →
   canPlayerTargetDoorLocked session player door mapState false = Panels.canViewerTraverseDoor player door mapState).
Proof.
  unfold Panels.canViewerTraverseDoor, canPlayerTargetDoorLocked. cbv zeta.
  change (Panels.cellStateForDoor (ms_Cells mapState) (ds_ID door)) with (cellStateForDoorID (ms_Cells mapState) (ds_ID door)).
  change (Panels.doorAdjacentTargetRoom (ps_CurrentRoomID player) door) with (adjacentTargetRoomForDoor (ps_CurrentRoomID player) door).
  assert (∀ room, CanEnterRoom player room mapState = true → canPlayerEnterRoomLocked session player room mapState = true) as Henter.
  { intros room H. unfold canPlayerEnterRoomLocked, CanEnterRoom in *. by rewrite H. }
  split.
  - case_bool_decide; [done|]. case_bool_decide as Hroom; cbn [negb].
    + destruct (_ || _); [|done]. done.
    + destruct (adjacentTargetRoomForDoor _ _) as [room|]; [|done]. destruct (room ≠? ""); cbn [andb negb]; [|done].
      destruct (CanEnterRoom player room mapState) eqn:He; cbn [negb]; [|done]. rewrite (Henter _ He). done.
  - intros Hid Hroom Hlocked. rewrite (bool_decide_false _ Hid), (bool_decide_false _ Hroom). cbn [negb].
    destruct (adjacentTargetRoomForDoor _ _) as [room|]; [|done].
    assert (canPlayerEnterRoomLocked session player room mapState = CanEnterRoom player room mapState) as ->.
    { unfold canPlayerEnterRoomLocked, CanEnterRoom. rewrite Hlocked. destruct (re_Allowed _); [done|]. destruct (negb _); [done|].
      by rewrite (bool_decide_false (_ ∈ ∅)) by set_solver. }
    by destruct ((room ≠? "") && negb (CanEnterRoom player room mapState)).
Qed.

(** ** Spectators *)

Lemma found_at (players : list PlayerState) k player : NoDup (ps_ID <$> players) → players !! k = Some player →
  find_idx (λ p, ps_ID p ≟ ps_ID player) players = Some k.
Proof.
  intros Hnd Hk. apply find_idx_Some. exists player. split_and!; [exact Hk|by apply bool_decide_true|].
  intros j other Hj Hother. apply bool_decide_false. intros Heq.
  assert (j = k); [|lia]. apply (NoDup_lookup (ps_ID <$> players) j k (ps_ID player)); [exact Hnd|..]; rewrite list_lookup_fmap.
  - by rewrite Hother; cbn; rewrite Heq.
  - by rewrite Hk.
Qed.

(** The server's choice is a player of the list, by its place. *)
Lemma target_at snapshot state requestedPlayerID requestedSlot playerID slot count :
  sn_State snapshot = Some state → gs_Players state ≠ [] → Z.of_nat (length (gs_Players state)) < 256 →
  Network.resolveSpectatorFollowTarget snapshot requestedPlayerID requestedSlot = (playerID, slot, count) →
  let players := Shell.orderedSpectatorPlayers (gs_Players state) in
  count = Z.of_nat (length players) ∧ ∃ i player, players !! i = Some player ∧ ps_ID player = playerID ∧ slot = Z.of_nat i + 1.
Proof.
  intros Hstate Hsome Hfew Htarget players. unfold Network.resolveSpectatorFollowTarget in Htarget. rewrite Hstate in Htarget. cbv zeta in Htarget.
  change (sort_by (lex_le Z.le String.le) Network.follow_key (gs_Players state)) with players in Htarget.
  assert (length players = length (gs_Players state)) as Hlen by apply (length_sort_by (lex_le Z.le String.le)).
  assert (u8 (Z.of_nat (length players)) = Z.of_nat (length players)) as Hcount by (apply u8_small; unfold is_u8; lia). rewrite Hcount in Htarget.
  assert (players ≠ []) as Hne by (unfold players; by rewrite Shell.ordered_nil). clearbody players. destruct players as [|first rest]; [done|].
  set (at_slot := if _ && _ then _ else _) in Htarget.
  assert (at_slot = (playerID, slot, count) → count = Z.of_nat (length (first :: rest)) ∧
    ∃ i player, (first :: rest) !! i = Some player ∧ ps_ID player = playerID ∧ slot = Z.of_nat i + 1) as Hslot.
  { unfold at_slot. destruct (_ && _) eqn:Hs; bool_props.
    - destruct (_ !! Z.to_nat (requestedSlot - 1)) as [player|] eqn:Hp; intros [= <- <- <-]; (split; [done|]).
      + exists (Z.to_nat (requestedSlot - 1)), player. split_and!; [exact Hp|done|lia].
      + by exists 0%nat, first.
    - intros [= <- <- <-]. split; [done|]. by exists 0%nat, first. }
  destruct (TrimSpace requestedPlayerID ≠? ""); [|by apply Hslot].
  destruct (find_idx _ _) as [i|] eqn:Hi; [|by apply Hslot]. apply find_idx_Some in Hi as (player & Hp & Hid & _). bool_props.
  injection Htarget as <- <- <-. split; [done|]. exists i, player. apply lookup_lt_Some in Hp as Hlt.
  split_and!; [exact Hp|exact Hid|]. apply u8_small. unfold is_u8. lia.
Qed.

(** C25: The player, the slot and the number of slots that the server gives a spectator are those that
    the client then shows, as long as it looks at the same players. *)
Theorem spectators_agree snapshot state requestedPlayerID requestedSlot config store now wallClock
    (Hstate : sn_State snapshot = Some state) (Hsome : gs_Players state ≠ []) (Hfew : Z.of_nat (length (gs_Players state)) < 256)
    (Hnodup : NoDup (ps_ID <$> gs_Players state))
    (Hnames : Forall (λ player, TrimSpace (ps_ID player) = ps_ID player ∧ ps_ID player ≠ "") (gs_Players state))
    (Htarget : Network.resolveSpectatorFollowTarget snapshot requestedPlayerID requestedSlot =
      (Shell.sc_SpectatorFollowPlayerID config, Shell.sc_SpectatorFollowSlot config, Shell.sc_SpectatorSlotCount config)) :
  let r := Shell.resolveSpectatorFollowIndex (Shell.orderedSpectatorPlayers (gs_Players state)) (Shell.NewShell config store now wallClock) in
  r.2 = Shell.sc_SpectatorFollowSlot config - 1 ∧
  Shell.sl_spectatorFollowPlayerID r.1 = Shell.sc_SpectatorFollowPlayerID config ∧
  Shell.sl_spectatorFollowSlot r.1 = Shell.sc_SpectatorFollowSlot config ∧
  Shell.sl_spectatorSlotCount r.1 = Shell.sc_SpectatorSlotCount config.
Proof.
  set (s := Shell.NewShell config store now wallClock).
  assert (Shell.sl_spectatorFollowPlayerID s = TrimSpace (Shell.sc_SpectatorFollowPlayerID config)) as Hs.
  { unfold s, Shell.NewShell. cbv zeta. by destruct (SnapshotStore.CurrentState store) as [initial []]. }
  destruct (target_at _ _ _ _ _ _ _ Hstate Hsome Hfew Htarget) as (Hcount & i & player & Hp & Hid & Hslot).
  set (players := Shell.orderedSpectatorPlayers (gs_Players state)) in *.
  assert (players ≡ₚ gs_Players state) as Hperm by apply (sort_by_perm (lex_le Z.le String.le)).
  assert (player ∈ gs_Players state) as Hin by (rewrite <-Hperm; by eapply list_elem_of_lookup_2).
  destruct (proj1 (Forall_forall _ _) Hnames player Hin) as [Htrim Hname]. rewrite <-Hid, Htrim in Hs.
  assert (NoDup (ps_ID <$> players)) as Hnd by (by rewrite Hperm).
  pose proof (found_at players i player Hnd Hp) as Hfound. cbv zeta. unfold Shell.resolveSpectatorFollowIndex, Shell.followed_index.
  rewrite Hs, (bool_decide_false _ Hname). cbn [negb]. rewrite Hfound. destruct players as [|first rest]; [done|].
  cbn. split_and!; [lia|exact Hid|lia|exact (eq_sym Hcount)].
Qed.

(** ** At concrete inputs *)

(** A prisoner with a money card in the room of the market, at night. *)
Definition buyer : PlayerState := Shell.ann <| ps_Cards := [CardMoney] |>.
Definition market_night : matchSession :=
  new_session ServerConfig.DefaultConfig "m" 0 <| ss_gameState := Shell.market_day PhaseNight <| gs_Players := [buyer] |> |>.
Definition wood_offer : BlackMarketOffer := mkOffer ItemWood 1 1.

Lemma buyer_canonical : canonical (ps_Inventory buyer).
Proof. split; [by repeat constructor|apply NoDup_singleton|by repeat constructor]. Qed.

Lemma market_agrees_witness : (applyBlackMarketPurchaseLocked market_night 0 (mkMarketPayload (of_Item wood_offer))).1.1.2 = true.
Proof.
  apply (market_agrees market_night 0 wood_offer).
  - by left.
  - by left.
  - exact buyer_canonical.
  - split; [by vm_compute|]. split; [|done]. eexists. vm_compute. reflexivity.
Defined.

Definition watched : Snapshot := zero_Snapshot <| sn_State := Some (Shell.market_day PhaseDay) |>.

Lemma spectators_agree_witness :
  let r := Shell.resolveSpectatorFollowIndex (Shell.orderedSpectatorPlayers [Shell.ann; Shell.bob])
    (Shell.NewShell (Shell.mkConfig "" "p2" 2 2 defaultMatchLayout (Controller.NewController Controller.demo_config)
      (Prediction.NewEngine "" Prediction.DefaultConfig)) SnapshotStore.NewSnapshotStore 0 0) in
  r.2 = 1 ∧ Shell.sl_spectatorFollowPlayerID r.1 = "p2".
Proof.
  destruct (spectators_agree watched (Shell.market_day PhaseDay) " p2 " 0
    (Shell.mkConfig "" "p2" 2 2 defaultMatchLayout (Controller.NewController Controller.demo_config) (Prediction.NewEngine "" Prediction.DefaultConfig))
    SnapshotStore.NewSnapshotStore 0 0) as (H1 & H2 & _).
  - reflexivity.
  - done.
  - done.
  - apply (bool_decide_unpack _). by vm_compute.
  - apply (bool_decide_unpack _). by vm_compute.
  - by vm_compute.
  - split; [exact H1|exact H2].
Defined.
End Agreement.
